(** * A shallow embedding of [scarabee.reseau.fuel_pin.FuelPin]

    The Python class [FuelPin] keeps the depletion state of one PWR fuel
    pin: the radii of its fuel rings, a history of material compositions
    per ring, the current flux spectrum per ring, the current and the
    previous depletion matrix per ring, the Dancoff correction histories
    and the flat-source-region bookkeeping of the transport cell.

    Conventions of the embedding.
    - A Python [float] is a binary64 number: Rocq's primitive [float],
      whose operations are the IEEE 754 ones the interpreter performs.
    - A Python [int] is a [Z].
    - A Python list is a [list]; indexing follows Python (negative indices
      count from the end, anything out of range raises [IndexError]).
    - An exception is a value of [exn]; a method is a function from the
      pin to an outcome and the pin as the method left it, so that what
      was mutated before a [raise] stays mutated.
    - The classes of the compiled extension module [_scarabee]
      ([Material], [CrossSection], [DepletionMatrix], [PinCell], ...) are
      not part of this file's source: they are the fields of the class
      [Collaborators], and every definition is parametric in them. *)

From Stdlib Require Import ZArith List Bool Lia Floats Uint63 Reals Lra.
From stdpp Require Import base option list strings sorting.
Import ListNotations.

Set Default Proof Using "Type".
Local Open Scope Z_scope.

(** ** Python values *)

(** The exceptions the methods of [FuelPin] can raise. *)
Inductive exn : Type :=
| ValueError (msg : string)
| RuntimeError (msg : string)
| IndexError
| ZeroDivisionError
| TypeError
| OverflowError.

(** [np.pi], the binary64 number nearest to pi. *)
Definition np_pi : float := 0x1.921fb54442d18p+1%float.

(** Conversion of a Python [int] to a [float], as an arithmetic operator
    does it when its other operand is a [float] (round to nearest even;
    the model covers [0 <= n < 2^63], far beyond any ring count that fits
    in memory). *)
Definition float_of_int (n : Z) : float := PrimFloat.of_uint63 (Uint63.of_Z n).

(** [x / y] on Python floats: a zero divisor raises. *)
Definition py_div (x y : float) : exn + float :=
  if (y =? 0)%float then inl ZeroDivisionError else inr (x / y)%float.

(** [min(x, y)] on Python floats: [y] if [y < x], else [x]. *)
Definition py_min (x y : float) : float :=
  if (y <? x)%float then y else x.

(** The position in a list of length [n] that the Python index [i]
    denotes, if any. *)
Definition py_pos (n : nat) (i : Z) : option nat :=
  let j := if i <? 0 then i + Z.of_nat n else i in
  if (j <? 0) || (Z.of_nat n <=? j) then None else Some (Z.to_nat j).

(** [l[i]]. *)
Definition py_get {A : Type} (l : list A) (i : Z) : exn + A :=
  match py_pos (length l) i with
  | Some k => match l !! k with Some x => inr x | None => inl IndexError end
  | None => inl IndexError
  end.

(** [l[i] = x]. *)
Definition py_set {A : Type} (l : list A) (i : Z) (x : A) : exn + list A :=
  match py_pos (length l) i with
  | Some k => inr (<[k := x]> l)
  | None => inl IndexError
  end.

(** [x is not None]. *)
Definition is_Some_b {A : Type} (x : option A) : bool :=
  match x with Some _ => true | None => false end.

(** [l[i:]] for [i >= 0]. *)
Definition py_slice_from {A : Type} (l : list A) (i : nat) : list A := drop i l.

(** ** Data of the extension module that the pin handles directly *)

(** [PinCellType]: how a pin cell is cut by the symmetry planes. *)
Inductive PinCellType : Type :=
| Full | XN | XP | YN | YP | I | II | III | IV.

Definition Nuclide : Type := string.

(** Modelled from the spec: [MaterialComposition], a material composition
    container (a named-nuclide-to-density map); the pin only creates an
    empty one and calls [add_nuclide] on it, which records the pair. *)
Definition MaterialComposition : Type := list (Nuclide * float).

Definition MaterialComposition_new : MaterialComposition := [].

Definition add_nuclide (c : MaterialComposition) (n : Nuclide) (d : float)
  : MaterialComposition := c ++ [(n, d)].

(** A flux spectrum, a one-dimensional [ndarray] of floats. *)
Definition Flux : Type := list float.

(** ** The collaborators *)

(** The classes and functions imported from [_scarabee], as far as the
    pin uses them.  An in-place operation returns the object as it is
    after the call.  The last field is of Python itself: the text of a
    [float], which the pin puts into a message. *)
Class Collaborators : Type := {
  Material : Type;
  CrossSection : Type;
  NDLibrary : Type;
  DepletionChain : Type;
  DepletionMatrix : Type;
  PinCell : Type;
  MOCDriver : Type;
  (** [Material] *)
  Material_new : MaterialComposition -> float -> NDLibrary -> Material;
  atom_density : Material -> Nuclide -> float;
  temperature : Material -> float;
  mat_size : Material -> nat;
  clear_all_micro_xs_data : Material -> Material;
  carlvik_xs : Material -> float -> float -> NDLibrary -> CrossSection;
  ring_carlvik_xs :
    Material -> float -> float -> float -> float -> NDLibrary -> CrossSection;
  roman_xs : Material -> float -> float -> NDLibrary -> CrossSection;
  dilution_xs : Material -> list float -> NDLibrary -> CrossSection;
  (** [CrossSection]: the [name] attribute, assignment to it, and
      [self.set(other)] *)
  xs_name : CrossSection -> string;
  xs_set_name : CrossSection -> string -> CrossSection;
  xs_set : CrossSection -> CrossSection -> CrossSection;
  (** [DepletionMatrix]: [size], [nuclides], [c * A], [A + B], [A *= c],
      [A /= c] and [A.exponential_product(N)], which overwrites the
      array [N] *)
  build_depletion_matrix :
    DepletionChain -> Material -> Flux -> NDLibrary -> DepletionMatrix;
  dm_size : DepletionMatrix -> nat;
  dm_nuclides : DepletionMatrix -> list Nuclide;
  dm_scale : float -> DepletionMatrix -> DepletionMatrix;
  dm_add : DepletionMatrix -> DepletionMatrix -> DepletionMatrix;
  dm_imul : DepletionMatrix -> float -> DepletionMatrix;
  dm_idiv : DepletionMatrix -> float -> DepletionMatrix;
  exponential_product : DepletionMatrix -> list float -> list float;
  (** the array handed to [exponential_product] is overwritten in place:
      it keeps its length *)
  exponential_product_length :
    forall A N, length (exponential_product A N) = length N;
  (** [PinCell(radii, xss, dx, dy, pintype)] and [get_all_fsr_ids()] *)
  PinCell_new :
    list float -> list CrossSection -> float -> float -> PinCellType -> PinCell;
  get_all_fsr_ids : PinCell -> list Z;
  (** [MOCDriver.homogenize_flux_spectrum(inds)] *)
  homogenize_flux_spectrum : MOCDriver -> list Z -> Flux;
  (** [str(x)] of a [float], the text that an f-string puts for [{x}] *)
  float_str : float -> string
}.

(** ** Ring radii of the constructor *)

(** The loop [for ri in range(num_fuel_rings)] that fills [_fuel_radii]
    when there are several rings: [ri] is the loop variable, [k] the
    number of iterations left and [radii] the list built so far. *)
Fixpoint fuel_radii_loop (fuel_radius Vr : float) (ri k : nat) (radii : list float)
  : list float :=
  match k with
  | O => radii
  | S k' =>
      let Rin :=
        match ri with
        | O => 0%float
        | S _ => default 0%float (last radii)
        end in
      let Rout := PrimFloat.sqrt ((Vr + np_pi * Rin * Rin) / np_pi)%float in
      let Rout := if (fuel_radius <? Rout)%float then fuel_radius else Rout in
      fuel_radii_loop fuel_radius Vr (S ri) k' (radii ++ [Rout])
  end.

(** The list [_fuel_radii] the constructor builds. *)
Definition make_fuel_radii (fuel_radius : float) (num_fuel_rings : Z) : list float :=
  if num_fuel_rings =? 1 then [fuel_radius]
  else
    let V := (np_pi * fuel_radius * fuel_radius)%float in
    let Vr := (V / float_of_int num_fuel_rings)%float in
    fuel_radii_loop fuel_radius Vr 0 (Z.to_nat num_fuel_rings) [].

(** The same loop, and the list it fills, in exact arithmetic: [np.pi]
    is pi, [np.sqrt] the square root of the reals, and the numbers are
    real numbers. *)
Module Exact.

Fixpoint fuel_radii_loop (fuel_radius Vr : R) (ri k : nat) (radii : list R) : list R :=
  match k with
  | O => radii
  | S k' =>
      let Rin :=
        match ri with
        | O => 0%R
        | S _ => default 0%R (last radii)
        end in
      let Rout := sqrt ((Vr + PI * Rin * Rin) / PI)%R in
      let Rout := if Rlt_dec fuel_radius Rout then fuel_radius else Rout in
      fuel_radii_loop fuel_radius Vr (S ri) k' (radii ++ [Rout])
  end.

Definition make_fuel_radii (fuel_radius : R) (num_fuel_rings : nat) : list R :=
  if Nat.eqb num_fuel_rings 1 then [fuel_radius]
  else
    let V := (PI * fuel_radius * fuel_radius)%R in
    let Vr := (V / INR num_fuel_rings)%R in
    fuel_radii_loop fuel_radius Vr 0 num_fuel_rings [].

(** The outer boundary of ring [i] of [n] equal-area rings in closed
    form. *)
Definition boundary (fuel_radius : R) (n i : nat) : R :=
  (fuel_radius * sqrt (INR (S i) / INR n))%R.

End Exact.

(** The outer boundary of a ring of area [Vr] whose inner boundary is
    [Rin], as the specification states it: the radius [Rout] with
    [pi Rout^2 = pi Rin^2 + Vr], clamped to the fuel radius. *)
Definition equal_area_boundary (fuel_radius Vr Rin : float) : float :=
  let Rout := PrimFloat.sqrt ((Vr + np_pi * Rin * Rin) / np_pi)%float in
  if (fuel_radius <? Rout)%float then fuel_radius else Rout.

(** [x ** 2.0] on a [float] raises [OverflowError] when [x] is finite and
    its square is too large for a binary64 number, which is so from
    [2^512] (about 1.34e154) on; an infinite [x] gives an infinity and a
    NaN a NaN, without an exception, and a square that underflows gives
    zero.  The constructor evaluates
    [fuel.fissionable_grams_per_cm3 * np.pi * self._fuel_radius**2.0] for
    the attribute [_initial_fissionable_linear_mass]; the products of
    floats do not raise, and the attribute is read by the property of
    its name only, so that the exception is all that the other methods
    can see of this step. *)
Definition square_overflows (x : float) : bool :=
  PrimFloat.is_finite x && PrimFloat.is_infinity (x * x)%float.

(** The checks of the constructor on the gap and the cladding pass. *)
Definition gap_clad_ok {Mat : Type} (fuel_radius clad_radius : float)
    (gap : option Mat) (gap_radius : option float) : bool :=
  match gap, gap_radius with
  | None, None =>
      negb (clad_radius <=? 0)%float && negb (clad_radius <=? fuel_radius)%float
  | Some _, Some g =>
      negb (g <=? fuel_radius)%float && negb (clad_radius <=? 0)%float
      && negb (clad_radius <=? fuel_radius)%float && negb (clad_radius <=? g)%float
  | _, _ => false
  end.

(** Sequencing of expressions that may raise. *)
Definition ebind {A B : Type} (r : exn + A) (k : A -> exn + B) : exn + B :=
  match r with
  | inr a => k a
  | inl e => inl e
  end.

Notation "'let?' x ':=' r 'in' k" := (ebind r (fun x => k))
  (at level 10, x name, r at level 100, k at level 200).

(** [range(n)]. *)
Definition py_range (n : Z) : list Z := map Z.of_nat (seq 0 (Z.to_nat n)).

Section FuelPin.
Context {collab : Collaborators}.

(** ** The pin *)

(** The attributes of a [FuelPin] that the transport and depletion
    methods use (the one-group cross sections and the region lists of
    the Dancoff geometries, and the initial fissionable mass, are left
    out: no method below reads them). *)
Record FuelPin : Type := mkFuelPin {
  _fuel_radius : float;
  _num_fuel_rings : Z;
  _gap : option Material;
  _gap_radius : option float;
  _clad : Material;
  _clad_radius : float;
  _fuel_dancoff_corrections : list float;
  _clad_dancoff_corrections : list float;
  _fuel_ring_fsr_ids : list (list Z);
  _gap_fsr_ids : list Z;
  _clad_fsr_ids : list Z;
  _mod_fsr_ids : list Z;
  _fuel_ring_fsr_inds : list (list Z);
  _fuel_radii : list float;
  _fuel_ring_materials : list (list Material);
  _fuel_ring_flux_spectra : list Flux;
  _fuel_ring_prev_dep_mats : list (option DepletionMatrix);
  _fuel_ring_current_dep_mats : list (option DepletionMatrix);
  _fuel_ring_xs : list CrossSection;
  _gap_xs : option CrossSection;
  _clad_xs : option CrossSection
}.

(** Assignment to one attribute. *)
Definition set_fuel_dancoff_corrections (v : list float) (p : FuelPin) : FuelPin :=
  mkFuelPin p.(_fuel_radius) p.(_num_fuel_rings) p.(_gap) p.(_gap_radius)
    p.(_clad) p.(_clad_radius) v p.(_clad_dancoff_corrections)
    p.(_fuel_ring_fsr_ids) p.(_gap_fsr_ids) p.(_clad_fsr_ids) p.(_mod_fsr_ids)
    p.(_fuel_ring_fsr_inds) p.(_fuel_radii) p.(_fuel_ring_materials)
    p.(_fuel_ring_flux_spectra) p.(_fuel_ring_prev_dep_mats)
    p.(_fuel_ring_current_dep_mats) p.(_fuel_ring_xs) p.(_gap_xs) p.(_clad_xs).

Definition set_clad_dancoff_corrections (v : list float) (p : FuelPin) : FuelPin :=
  mkFuelPin p.(_fuel_radius) p.(_num_fuel_rings) p.(_gap) p.(_gap_radius)
    p.(_clad) p.(_clad_radius) p.(_fuel_dancoff_corrections) v
    p.(_fuel_ring_fsr_ids) p.(_gap_fsr_ids) p.(_clad_fsr_ids) p.(_mod_fsr_ids)
    p.(_fuel_ring_fsr_inds) p.(_fuel_radii) p.(_fuel_ring_materials)
    p.(_fuel_ring_flux_spectra) p.(_fuel_ring_prev_dep_mats)
    p.(_fuel_ring_current_dep_mats) p.(_fuel_ring_xs) p.(_gap_xs) p.(_clad_xs).

Definition set_fuel_ring_fsr_ids (v : list (list Z)) (p : FuelPin) : FuelPin :=
  mkFuelPin p.(_fuel_radius) p.(_num_fuel_rings) p.(_gap) p.(_gap_radius)
    p.(_clad) p.(_clad_radius) p.(_fuel_dancoff_corrections)
    p.(_clad_dancoff_corrections)
    v p.(_gap_fsr_ids) p.(_clad_fsr_ids) p.(_mod_fsr_ids)
    p.(_fuel_ring_fsr_inds) p.(_fuel_radii) p.(_fuel_ring_materials)
    p.(_fuel_ring_flux_spectra) p.(_fuel_ring_prev_dep_mats)
    p.(_fuel_ring_current_dep_mats) p.(_fuel_ring_xs) p.(_gap_xs) p.(_clad_xs).

Definition set_gap_fsr_ids (v : list Z) (p : FuelPin) : FuelPin :=
  mkFuelPin p.(_fuel_radius) p.(_num_fuel_rings) p.(_gap) p.(_gap_radius)
    p.(_clad) p.(_clad_radius) p.(_fuel_dancoff_corrections)
    p.(_clad_dancoff_corrections)
    p.(_fuel_ring_fsr_ids) v p.(_clad_fsr_ids) p.(_mod_fsr_ids)
    p.(_fuel_ring_fsr_inds) p.(_fuel_radii) p.(_fuel_ring_materials)
    p.(_fuel_ring_flux_spectra) p.(_fuel_ring_prev_dep_mats)
    p.(_fuel_ring_current_dep_mats) p.(_fuel_ring_xs) p.(_gap_xs) p.(_clad_xs).

Definition set_clad_fsr_ids (v : list Z) (p : FuelPin) : FuelPin :=
  mkFuelPin p.(_fuel_radius) p.(_num_fuel_rings) p.(_gap) p.(_gap_radius)
    p.(_clad) p.(_clad_radius) p.(_fuel_dancoff_corrections)
    p.(_clad_dancoff_corrections)
    p.(_fuel_ring_fsr_ids) p.(_gap_fsr_ids) v p.(_mod_fsr_ids)
    p.(_fuel_ring_fsr_inds) p.(_fuel_radii) p.(_fuel_ring_materials)
    p.(_fuel_ring_flux_spectra) p.(_fuel_ring_prev_dep_mats)
    p.(_fuel_ring_current_dep_mats) p.(_fuel_ring_xs) p.(_gap_xs) p.(_clad_xs).

Definition set_mod_fsr_ids (v : list Z) (p : FuelPin) : FuelPin :=
  mkFuelPin p.(_fuel_radius) p.(_num_fuel_rings) p.(_gap) p.(_gap_radius)
    p.(_clad) p.(_clad_radius) p.(_fuel_dancoff_corrections)
    p.(_clad_dancoff_corrections)
    p.(_fuel_ring_fsr_ids) p.(_gap_fsr_ids) p.(_clad_fsr_ids) v
    p.(_fuel_ring_fsr_inds) p.(_fuel_radii) p.(_fuel_ring_materials)
    p.(_fuel_ring_flux_spectra) p.(_fuel_ring_prev_dep_mats)
    p.(_fuel_ring_current_dep_mats) p.(_fuel_ring_xs) p.(_gap_xs) p.(_clad_xs).

Definition set_fuel_ring_materials (v : list (list Material)) (p : FuelPin) : FuelPin :=
  mkFuelPin p.(_fuel_radius) p.(_num_fuel_rings) p.(_gap) p.(_gap_radius)
    p.(_clad) p.(_clad_radius) p.(_fuel_dancoff_corrections)
    p.(_clad_dancoff_corrections)
    p.(_fuel_ring_fsr_ids) p.(_gap_fsr_ids) p.(_clad_fsr_ids) p.(_mod_fsr_ids)
    p.(_fuel_ring_fsr_inds) p.(_fuel_radii) v
    p.(_fuel_ring_flux_spectra) p.(_fuel_ring_prev_dep_mats)
    p.(_fuel_ring_current_dep_mats) p.(_fuel_ring_xs) p.(_gap_xs) p.(_clad_xs).

Definition set_fuel_ring_flux_spectra (v : list Flux) (p : FuelPin) : FuelPin :=
  mkFuelPin p.(_fuel_radius) p.(_num_fuel_rings) p.(_gap) p.(_gap_radius)
    p.(_clad) p.(_clad_radius) p.(_fuel_dancoff_corrections)
    p.(_clad_dancoff_corrections)
    p.(_fuel_ring_fsr_ids) p.(_gap_fsr_ids) p.(_clad_fsr_ids) p.(_mod_fsr_ids)
    p.(_fuel_ring_fsr_inds) p.(_fuel_radii) p.(_fuel_ring_materials)
    v p.(_fuel_ring_prev_dep_mats)
    p.(_fuel_ring_current_dep_mats) p.(_fuel_ring_xs) p.(_gap_xs) p.(_clad_xs).

Definition set_fuel_ring_prev_dep_mats (v : list (option DepletionMatrix))
    (p : FuelPin) : FuelPin :=
  mkFuelPin p.(_fuel_radius) p.(_num_fuel_rings) p.(_gap) p.(_gap_radius)
    p.(_clad) p.(_clad_radius) p.(_fuel_dancoff_corrections)
    p.(_clad_dancoff_corrections)
    p.(_fuel_ring_fsr_ids) p.(_gap_fsr_ids) p.(_clad_fsr_ids) p.(_mod_fsr_ids)
    p.(_fuel_ring_fsr_inds) p.(_fuel_radii) p.(_fuel_ring_materials)
    p.(_fuel_ring_flux_spectra) v
    p.(_fuel_ring_current_dep_mats) p.(_fuel_ring_xs) p.(_gap_xs) p.(_clad_xs).

Definition set_fuel_ring_current_dep_mats (v : list (option DepletionMatrix))
    (p : FuelPin) : FuelPin :=
  mkFuelPin p.(_fuel_radius) p.(_num_fuel_rings) p.(_gap) p.(_gap_radius)
    p.(_clad) p.(_clad_radius) p.(_fuel_dancoff_corrections)
    p.(_clad_dancoff_corrections)
    p.(_fuel_ring_fsr_ids) p.(_gap_fsr_ids) p.(_clad_fsr_ids) p.(_mod_fsr_ids)
    p.(_fuel_ring_fsr_inds) p.(_fuel_radii) p.(_fuel_ring_materials)
    p.(_fuel_ring_flux_spectra) p.(_fuel_ring_prev_dep_mats)
    v p.(_fuel_ring_xs) p.(_gap_xs) p.(_clad_xs).

Definition set_fuel_ring_xs (v : list CrossSection) (p : FuelPin) : FuelPin :=
  mkFuelPin p.(_fuel_radius) p.(_num_fuel_rings) p.(_gap) p.(_gap_radius)
    p.(_clad) p.(_clad_radius) p.(_fuel_dancoff_corrections)
    p.(_clad_dancoff_corrections)
    p.(_fuel_ring_fsr_ids) p.(_gap_fsr_ids) p.(_clad_fsr_ids) p.(_mod_fsr_ids)
    p.(_fuel_ring_fsr_inds) p.(_fuel_radii) p.(_fuel_ring_materials)
    p.(_fuel_ring_flux_spectra) p.(_fuel_ring_prev_dep_mats)
    p.(_fuel_ring_current_dep_mats) v p.(_gap_xs) p.(_clad_xs).

Definition set_gap_xs_attr (v : option CrossSection) (p : FuelPin) : FuelPin :=
  mkFuelPin p.(_fuel_radius) p.(_num_fuel_rings) p.(_gap) p.(_gap_radius)
    p.(_clad) p.(_clad_radius) p.(_fuel_dancoff_corrections)
    p.(_clad_dancoff_corrections)
    p.(_fuel_ring_fsr_ids) p.(_gap_fsr_ids) p.(_clad_fsr_ids) p.(_mod_fsr_ids)
    p.(_fuel_ring_fsr_inds) p.(_fuel_radii) p.(_fuel_ring_materials)
    p.(_fuel_ring_flux_spectra) p.(_fuel_ring_prev_dep_mats)
    p.(_fuel_ring_current_dep_mats) p.(_fuel_ring_xs) v p.(_clad_xs).

Definition set_clad_xs_attr (v : option CrossSection) (p : FuelPin) : FuelPin :=
  mkFuelPin p.(_fuel_radius) p.(_num_fuel_rings) p.(_gap) p.(_gap_radius)
    p.(_clad) p.(_clad_radius) p.(_fuel_dancoff_corrections)
    p.(_clad_dancoff_corrections)
    p.(_fuel_ring_fsr_ids) p.(_gap_fsr_ids) p.(_clad_fsr_ids) p.(_mod_fsr_ids)
    p.(_fuel_ring_fsr_inds) p.(_fuel_radii) p.(_fuel_ring_materials)
    p.(_fuel_ring_flux_spectra) p.(_fuel_ring_prev_dep_mats)
    p.(_fuel_ring_current_dep_mats) p.(_fuel_ring_xs) p.(_gap_xs) v.

(** ** Methods as state transformers *)

(** A method body: from the pin to the value returned or the exception
    raised, and the pin as the body left it. *)
Definition M (A : Type) : Type := FuelPin -> (exn + A) * FuelPin.

Definition ret {A : Type} (a : A) : M A := fun p => (inr a, p).

Definition bind {A B : Type} (m : M A) (k : A -> M B) : M B :=
  fun p =>
    match m p with
    | (inr a, p') => k a p'
    | (inl e, p') => (inl e, p')
    end.

Definition raise {A : Type} (e : exn) : M A := fun p => (inl e, p).

(** Reading an attribute, and assigning to one. *)
Definition gets {A : Type} (f : FuelPin -> A) : M A := fun p => (inr (f p), p).

Definition modify (f : FuelPin -> FuelPin) : M unit := fun p => (inr tt, f p).

(** An expression that may raise but does not touch the pin. *)
Definition lift {A : Type} (r : exn + A) : M A := fun p => (r, p).

Notation "'let*' x ':=' m 'in' k" := (bind m (fun x => k))
  (at level 10, x name, m at level 100, k at level 200).

(** [for x in l: acc = body(x, acc)], for a loop that carries the local
    variable [acc] from one iteration to the next. *)
Fixpoint for_acc {A B : Type} (l : list B) (body : B -> A -> M A) (acc : A) : M A :=
  match l with
  | [] => ret acc
  | x :: l' => let* acc' := body x acc in for_acc l' body acc'
  end.

(** [for x in l: body(x)]. *)
Definition for_ {B : Type} (l : list B) (body : B -> M unit) : M unit :=
  for_acc l (fun x _ => body x) tt.

(** ** The constructor *)

Definition FuelPin_init (fuel : Material) (fuel_radius : float) (clad : Material)
    (clad_radius : float) (gap : option Material) (gap_radius : option float)
    (num_fuel_rings : Z) : exn + FuelPin :=
  if (fuel_radius <=? 0)%float then inl (ValueError "Fuel radius must be > 0.")
  else if num_fuel_rings <=? 0 then
    inl (ValueError "Number of fuel rings must be >= 1.")
  else if square_overflows fuel_radius then inl OverflowError
  else
    match gap, gap_radius with
    | None, Some _ => inl (ValueError "Gap material is None but gap radius is defined.")
    | Some _, None => inl (ValueError "Gap material is defined but gap radius is None.")
    | _, _ =>
        if match gap_radius with
           | Some g => (g <=? fuel_radius)%float
           | None => false
           end
        then inl (ValueError "Gap radius must be > fuel radius.")
        else if (clad_radius <=? 0)%float || (clad_radius <=? fuel_radius)%float
        then inl (ValueError "Clad radius must be > fuel radius.")
        else if match gap_radius with
                | Some g => (clad_radius <=? g)%float
                | None => false
                end
        then inl (ValueError "Clad radius must be > gap radius.")
        else
          let n := Z.to_nat num_fuel_rings in
          inr {| _fuel_radius := fuel_radius;
                 _num_fuel_rings := num_fuel_rings;
                 _gap := gap;
                 _gap_radius := gap_radius;
                 _clad := clad;
                 _clad_radius := clad_radius;
                 _fuel_dancoff_corrections := [];
                 _clad_dancoff_corrections := [];
                 _fuel_ring_fsr_ids := replicate n [];
                 _gap_fsr_ids := [];
                 _clad_fsr_ids := [];
                 _mod_fsr_ids := [];
                 _fuel_ring_fsr_inds := replicate n [];
                 _fuel_radii := make_fuel_radii fuel_radius num_fuel_rings;
                 _fuel_ring_materials := replicate n [fuel];
                 _fuel_ring_flux_spectra := replicate n [];
                 _fuel_ring_prev_dep_mats := replicate n None;
                 _fuel_ring_current_dep_mats := replicate n None;
                 _fuel_ring_xs := [];
                 _gap_xs := None;
                 _clad_xs := None |}
    end.

(** ** Properties *)

Definition fuel_radius (p : FuelPin) : float := p.(_fuel_radius).
Definition num_fuel_rings (p : FuelPin) : Z := p.(_num_fuel_rings).
Definition fuel_ring_materials (p : FuelPin) : list (list Material) :=
  p.(_fuel_ring_materials).
Definition fuel_ring_flux_spectra (p : FuelPin) : list (list Material) :=
  p.(_fuel_ring_materials).
Definition fuel_dancoff_corrections (p : FuelPin) : list float :=
  p.(_fuel_dancoff_corrections).
Definition gap (p : FuelPin) : option Material := p.(_gap).
Definition gap_radius (p : FuelPin) : option float := p.(_gap_radius).
Definition clad (p : FuelPin) : Material := p.(_clad).
Definition clad_radius (p : FuelPin) : float := p.(_clad_radius).
Definition clad_dancoff_corrections (p : FuelPin) : list float :=
  p.(_clad_dancoff_corrections).

(** ** Dancoff correction histories *)

(** [f"Dancoff correction must be in range [0, 1]. Was provided {C}."] *)
Definition dancoff_range_msg (C : float) : string :=
  String.append "Dancoff correction must be in range [0, 1]. Was provided "
    (String.append (float_str C) ".").

Definition append_fuel_dancoff_correction (C : float) : M unit :=
  if (C <? 0)%float || (1 <? C)%float then raise (ValueError (dancoff_range_msg C))
  else
    let* l := gets _fuel_dancoff_corrections in
    modify (set_fuel_dancoff_corrections (l ++ [C])).

Definition append_clad_dancoff_correction (C : float) : M unit :=
  if (C <? 0)%float || (1 <? C)%float then raise (ValueError (dancoff_range_msg C))
  else
    let* l := gets _clad_dancoff_corrections in
    modify (set_clad_dancoff_corrections (l ++ [C])).

(** ** Cross sections for the transport calculation *)

(** [if xs.name == "": xs.name = nm]. *)
Definition name_if_empty (xs : CrossSection) (nm : string) : CrossSection :=
  if String.eqb (xs_name xs) "" then xs_set_name xs nm else xs.

(** [self._fuel_ring_materials[ri][t]]. *)
Definition ring_material (ri t : Z) : M Material :=
  let* mats := gets _fuel_ring_materials in
  let* ring_mats := lift (py_get mats ri) in
  lift (py_get ring_mats t).

(** The inner and outer radius of ring [ri]. *)
Definition ring_Rin_Rout (ri : Z) : M (float * float) :=
  let* radii := gets _fuel_radii in
  let* Rin := if 0 <? ri then lift (py_get radii (ri - 1)) else ret 0%float in
  let* Rout := lift (py_get radii ri) in
  ret (Rin, Rout).

Definition fuel_xs_mismatch_msg : string :=
  "Number of fuel cross sections does not agree with the number of fuel rings.".

Definition set_fuel_xs_for_depletion_step (t : Z) (ndl : NDLibrary) : M unit :=
  let* xss := gets _fuel_ring_xs in
  let* n := gets num_fuel_rings in
  if Z.of_nat (length xss) =? 0 then
    (* Create initial CrossSection objects *)
    if n =? 1 then
      let* R := gets fuel_radius in
      let* Ee := lift (py_div 1 (2 * R)) in
      let* mat := ring_material 0 t in
      let* Cs := gets _fuel_dancoff_corrections in
      let* C := lift (py_get Cs t) in
      let* xss := gets _fuel_ring_xs in
      modify (set_fuel_ring_xs (xss ++ [name_if_empty (carlvik_xs mat C Ee ndl) "Fuel"]))
    else
      for_ (py_range n) (fun ri =>
        let* rr := ring_Rin_Rout ri in
        let* mat := ring_material ri t in
        let* Cs := gets _fuel_dancoff_corrections in
        let* C := lift (py_get Cs t) in
        let* R := gets fuel_radius in
        let* xss := gets _fuel_ring_xs in
        modify (set_fuel_ring_xs
                  (xss ++ [name_if_empty
                             (ring_carlvik_xs mat C R (fst rr) (snd rr) ndl) "Fuel"])))
  else if Z.of_nat (length xss) =? n then
    (* Reset XS values: the objects stay, their contents change *)
    if n =? 1 then
      let* R := gets fuel_radius in
      let* Ee := lift (py_div 1 (2 * R)) in
      let* xss := gets _fuel_ring_xs in
      let* old := lift (py_get xss 0) in
      let* mat := ring_material 0 t in
      let* Cs := gets _fuel_dancoff_corrections in
      let* C := lift (py_get Cs t) in
      let* xss' := lift (py_set xss 0
                           (name_if_empty (xs_set old (carlvik_xs mat C Ee ndl)) "Fuel")) in
      modify (set_fuel_ring_xs xss')
    else
      for_ (py_range n) (fun ri =>
        let* rr := ring_Rin_Rout ri in
        let* xss := gets _fuel_ring_xs in
        let* old := lift (py_get xss ri) in
        let* mat := ring_material ri t in
        let* Cs := gets _fuel_dancoff_corrections in
        let* C := lift (py_get Cs t) in
        let* R := gets fuel_radius in
        let* xss' := lift (py_set xss ri
                             (name_if_empty
                                (xs_set old (ring_carlvik_xs mat C R (fst rr) (snd rr) ndl))
                                "Fuel")) in
        modify (set_fuel_ring_xs xss'))
  else raise (RuntimeError fuel_xs_mismatch_msg).

Definition set_gap_xs (ndl : NDLibrary) : M unit :=
  let* g := gets gap in
  match g with
  | Some gm =>
      let new := dilution_xs gm (replicate (mat_size gm) 0x1.2a05f2p+33%float) ndl in
      let* old := gets _gap_xs in
      let xs := match old with None => new | Some o => xs_set o new end in
      modify (set_gap_xs_attr (Some (name_if_empty xs "Gap")))
  | None => ret tt
  end.

Definition set_clad_xs_for_depletion_step (t : Z) (ndl : NDLibrary) : M unit :=
  (* Compute escape xs *)
  let* gr := gets gap_radius in
  let* Rc := gets clad_radius in
  let* Ee :=
    match gr with
    | Some Rg => lift (py_div 1 (2 * (Rc - Rg)))
    | None => let* Rf := gets fuel_radius in lift (py_div 1 (2 * (Rc - Rf)))
    end in
  (* Get / set the xs *)
  let* old := gets _clad_xs in
  let* cl := gets clad in
  let* Cs := gets _clad_dancoff_corrections in
  let* C := lift (py_get Cs t) in
  let new := roman_xs cl C Ee ndl in
  let xs := match old with None => new | Some o => xs_set o new end in
  modify (set_clad_xs_attr (Some (name_if_empty xs "Clad"))).

(** ** The pin cell of the transport calculation *)

Definition is_half_x (t : PinCellType) : bool :=
  match t with XN | XP => true | _ => false end.
Definition is_half_y (t : PinCellType) : bool :=
  match t with YN | YP => true | _ => false end.
Definition is_full (t : PinCellType) : bool :=
  match t with Full => true | _ => false end.
Definition is_quarter (t : PinCellType) : bool :=
  match t with I | II | III | IV => true | _ => false end.

Definition x_diameter_msg : string :=
  "The fuel pin cell x width must be > the diameter of the cladding.".
Definition y_diameter_msg : string :=
  "The fuel pin cell y width must be > the diameter of the cladding.".
Definition x_radius_msg : string :=
  "The fuel pin cell x width must be > the radius of the cladding.".
Definition y_radius_msg : string :=
  "The fuel pin cell y width must be > the radius of the cladding.".

Definition _check_dx_dy (dx dy : float) (pintype : PinCellType) : M unit :=
  let* Rc := gets clad_radius in
  if is_full pintype then
    if (dx <? 2 * Rc)%float then raise (ValueError x_diameter_msg)
    else if (dy <? 2 * Rc)%float then raise (ValueError y_diameter_msg)
    else ret tt
  else if is_half_x pintype then
    if (dx <? Rc)%float then raise (ValueError x_radius_msg)
    else if (dy <? 2 * Rc)%float then raise (ValueError y_diameter_msg)
    else ret tt
  else if is_half_y pintype then
    if (dy <? Rc)%float then raise (ValueError y_radius_msg)
    else if (dx <? 2 * Rc)%float then raise (ValueError x_diameter_msg)
    else ret tt
  else
    if (dx <? Rc)%float then raise (ValueError x_radius_msg)
    else if (dy <? Rc)%float then raise (ValueError y_radius_msg)
    else ret tt.

(** Number of angular divisions of a ring of the cell. *)
Definition angular_divisions (pintype : PinCellType) : Z :=
  if is_half_x pintype || is_half_y pintype then 4
  else if is_quarter pintype then 2
  else 8.

(** The radius of the extra moderator ring, when the cell has room for
    one. *)
Definition moderator_ring (Rc dx dy : float) (pintype : PinCellType) : option float :=
  if is_full pintype && (2 * Rc <? py_min dx dy)%float then
    Some (0x1p-1 * py_min dx dy)%float
  else if is_half_x pintype && (Rc <? dx)%float && (2 * Rc <? dy)%float then
    Some (py_min dx (0x1p-1 * dy))%float
  else if is_half_y pintype && (Rc <? dy)%float && (2 * Rc <? dx)%float then
    Some (py_min (0x1p-1 * dx) dy)%float
  else if (Rc <? dx)%float && (Rc <? dy)%float then
    Some (py_min dx dy)
  else None.

(** [for a in range(NA): ids.append(cell_fsr_ids[I]); I += 1], where
    [ids] is the list the pin keeps for ring [r]. *)
Definition take_ring_ids (cell_fsr_ids : list Z) (NA : Z) (r : Z) (I0 : Z) : M Z :=
  for_acc (py_range NA) (fun _ I =>
    let* ids := gets _fuel_ring_fsr_ids in
    let* ring_ids := lift (py_get ids r) in
    let* id := lift (py_get cell_fsr_ids I) in
    let* ids' := lift (py_set ids r (ring_ids ++ [id])) in
    let* _ := modify (set_fuel_ring_fsr_ids ids') in
    ret (I + 1)) I0.

(** The same loop on one of the attributes [_gap_fsr_ids] and
    [_clad_fsr_ids]. *)
Definition take_ids (cell_fsr_ids : list Z) (NA : Z)
    (get : FuelPin -> list Z) (set : list Z -> FuelPin -> FuelPin) (I0 : Z) : M Z :=
  for_acc (py_range NA) (fun _ I =>
    let* ids := gets get in
    let* id := lift (py_get cell_fsr_ids I) in
    let* _ := modify (set (ids ++ [id])) in
    ret (I + 1)) I0.

(** The lists [radii] and [xss] handed to [PinCell]: the fuel rings, the
    gap if its cross section is there, the cladding, another ring of
    moderator if possible, and the moderator at the end of [xss]. *)
Definition moc_cell_layers (clad_xs moderator_xs : CrossSection) (dx dy : float)
    (pintype : PinCellType) : M (list float * list CrossSection) :=
  (* Initialize the radii and cross section lists with the fuel info *)
  let* radii := gets _fuel_radii in
  let* xss := gets _fuel_ring_xs in
  (* Add the gap (if present) *)
  let* gxs := gets _gap_xs in
  let* gr := gets gap_radius in
  let* radii_xss :=
    match gxs, gr with
    | Some gx, Some Rg => ret (radii ++ [Rg], xss ++ [gx])
    | Some _, None => raise TypeError
    | None, _ => ret (radii, xss)
    end in
  (* Add cladding *)
  let* Rc := gets clad_radius in
  let radii := radii_xss.1 ++ [Rc] in
  let xss := radii_xss.2 ++ [clad_xs] in
  (* Add another ring of moderator if possible *)
  let radii_xss :=
    match moderator_ring Rc dx dy pintype with
    | Some Rm => (radii ++ [Rm], xss ++ [moderator_xs])
    | None => (radii, xss)
    end in
  (* Add moderator to the end of materials *)
  ret (radii_xss.1, radii_xss.2 ++ [moderator_xs]).

(** The partition of the sorted identifiers [cell_fsr_ids]: [NA] to each
    ring, [NA] to the gap if its cross section is there, [NA] to the
    cladding, the rest to the moderator. *)
Definition record_fsr_ids (cell_fsr_ids : list Z) (NA : Z) : M unit :=
  let* n := gets num_fuel_rings in
  (* Go through all rings, and get FSR IDs *)
  let* I1 := for_acc (py_range n) (take_ring_ids cell_fsr_ids NA) 0 in
  (* Get the FSRs for the gap, if present *)
  let* gxs := gets _gap_xs in
  let* I2 :=
    if is_Some_b gxs
    then take_ids cell_fsr_ids NA _gap_fsr_ids set_gap_fsr_ids I1
    else ret I1 in
  (* Get the FSRs for the cladding *)
  let* I3 := take_ids cell_fsr_ids NA _clad_fsr_ids set_clad_fsr_ids I2 in
  (* Everything else should be a moderator FSR *)
  modify (set_mod_fsr_ids (py_slice_from cell_fsr_ids (Z.to_nat I3))).

Definition make_moc_cell (moderator_xs : CrossSection) (dx dy : float)
    (pintype : PinCellType) : M PinCell :=
  let* xss := gets _fuel_ring_xs in
  let* n := gets num_fuel_rings in
  let* g := gets gap in
  let* gxs := gets _gap_xs in
  let* cxs := gets _clad_xs in
  if negb (Z.of_nat (length xss) =? n) then
    raise (RuntimeError "Fuel cross sections have not yet been built.")
  else if is_Some_b g && negb (is_Some_b gxs) then
    raise (RuntimeError "Gap cross section has not yet been built.")
  else
    match cxs with
    | None => raise (RuntimeError "Clad cross section has not yet been built.")
    | Some clad_xs =>
        let* _ := _check_dx_dy dx dy pintype in
        let* layers := moc_cell_layers clad_xs moderator_xs dx dy pintype in
        (* Create the cell object *)
        let cell := PinCell_new layers.1 layers.2 dx dy pintype in
        (* Get the FSR IDs for the regions of interest *)
        let cell_fsr_ids := merge_sort Z.le (get_all_fsr_ids cell) in
        let* _ := record_fsr_ids cell_fsr_ids (angular_divisions pintype) in
        ret cell
    end.

(** ** Flux spectra *)

Definition obtain_flux_spectra (moc : MOCDriver) : M unit :=
  let* n := gets num_fuel_rings in
  for_ (py_range n) (fun r =>
    let* inds := gets _fuel_ring_fsr_inds in
    let* ring_inds := lift (py_get inds r) in
    let* spectra := gets _fuel_ring_flux_spectra in
    let* spectra' := lift (py_set spectra r (homogenize_flux_spectrum moc ring_inds)) in
    modify (set_fuel_ring_flux_spectra spectra')).

(** ** Depletion: predictor and corrector *)

(** [for i, nuclide in enumerate(nuclides): N[i] = mat.atom_density(nuclide)],
    from index [i] on. *)
Fixpoint fill_densities (mat : Material) (nuclides : list Nuclide) (i : Z)
    (N : list float) : exn + list float :=
  match nuclides with
  | [] => inr N
  | nuclide :: rest =>
      match py_set N i (atom_density mat nuclide) with
      | inr N' => fill_densities mat rest (i + 1) N'
      | inl e => inl e
      end
  end.

(** [N = np.zeros(size)] followed by the loop above. *)
Definition init_densities (size : nat) (nuclides : list Nuclide) (mat : Material)
  : exn + list float :=
  fill_densities mat nuclides 0 (replicate size 0%float).

(** [for i, nuclide in enumerate(nuclides): if N[i] > 0.0:
    new_mat_comp.add_nuclide(nuclide, N[i])], from index [i] on. *)
Fixpoint collect_positive (nuclides : list Nuclide) (i : Z) (N : list float)
    (comp : MaterialComposition) : exn + MaterialComposition :=
  match nuclides with
  | [] => inr comp
  | nuclide :: rest =>
      match py_get N i with
      | inr x =>
          collect_positive rest (i + 1) N
            (if (0 <? x)%float then add_nuclide comp nuclide x else comp)
      | inl e => inl e
      end
  end.

Definition new_composition (nuclides : list Nuclide) (N : list float)
  : exn + MaterialComposition :=
  collect_positive nuclides 0 N MaterialComposition_new.

(** [self._fuel_ring_current_dep_mats[r] = A], also used to record the
    state of the matrix object held there after it was changed in place. *)
Definition store_current (r : Z) (A : option DepletionMatrix) : M unit :=
  let* cur := gets _fuel_ring_current_dep_mats in
  let* cur' := lift (py_set cur r A) in
  modify (set_fuel_ring_current_dep_mats cur').

Definition store_prev (r : Z) (A : option DepletionMatrix) : M unit :=
  let* prev := gets _fuel_ring_prev_dep_mats in
  let* prev' := lift (py_set prev r A) in
  modify (set_fuel_ring_prev_dep_mats prev').

(** [self._fuel_ring_materials[r][-1] = m], also used to record the state
    of the material object held there after it was changed in place. *)
Definition store_tip (r : Z) (m : Material) : M unit :=
  let* mats := gets _fuel_ring_materials in
  let* ring_mats := lift (py_get mats r) in
  let* ring_mats' := lift (py_set ring_mats (-1) m) in
  let* mats' := lift (py_set mats r ring_mats') in
  modify (set_fuel_ring_materials mats').

(** [self._fuel_ring_materials[r].append(m)]. *)
Definition append_material (r : Z) (m : Material) : M unit :=
  let* mats := gets _fuel_ring_materials in
  let* ring_mats := lift (py_get mats r) in
  let* mats' := lift (py_set mats r (ring_mats ++ [m])) in
  modify (set_fuel_ring_materials mats').

(** [c * A] where [A] may be [None]. *)
Definition scale_opt (c : float) (A : option DepletionMatrix) : exn + DepletionMatrix :=
  match A with
  | Some a => inr (dm_scale c a)
  | None => inl TypeError
  end.

(** The LE/QI branch of the predictor: the densities after the two
    matrix exponentials. *)
Definition predict_leqi (dt dtm1 : float) (Am1 A0 : DepletionMatrix) (N : list float)
  : exn + list float :=
  let? c1 := py_div (- dt) (12 * dtm1) in
  let? c2 := py_div (6 * dtm1 + dt) (12 * dtm1) in
  let F1 := dm_add (dm_scale c1 Am1) (dm_scale c2 A0) in
  let F1 := dm_imul F1 dt in
  let? c3 := py_div (-5 * dt) (12 * dtm1) in
  let? c4 := py_div (6 * dtm1 + 5 * dt) (12 * dtm1) in
  let F2 := dm_add (dm_scale c3 Am1) (dm_scale c4 A0) in
  let F2 := dm_imul F2 dt in
  (* Do the matrix exponentials *)
  let N := exponential_product F2 N in
  let N := exponential_product F1 N in
  inr N.

(** The CE/LI branch of the corrector; [A0] is what the pin holds as the
    current matrix of the ring, possibly [None]. *)
Definition correct_celi (dt : float) (A0 : option DepletionMatrix)
    (Ap1 : DepletionMatrix) (N : list float) : exn + list float :=
  let? a1 := scale_opt (dt / 12) A0 in
  let F1 := dm_add a1 (dm_scale (5 * dt / 12) Ap1) in
  let? a2 := scale_opt (5 * dt / 12) A0 in
  let F2 := dm_add a2 (dm_scale (dt / 12) Ap1) in
  let N := exponential_product F2 N in
  let N := exponential_product F1 N in
  inr N.

(** The LE/QI branch of the corrector. *)
Definition correct_leqi (dt dtm1 : float) (Am1 : DepletionMatrix)
    (A0 : option DepletionMatrix) (Ap1 : DepletionMatrix) (N : list float)
  : exn + list float :=
  let? a3 := py_div (- dt * dt) (12 * dtm1 * (dtm1 + dt)) in
  let? b3 := py_div (5 * dtm1 * dtm1 + 6 * dtm1 * dt + dt * dt)
                    (12 * dtm1 * (dtm1 + dt)) in
  let? b3A0 := scale_opt b3 A0 in
  let? c3 := py_div dtm1 (12 * (dtm1 + dt)) in
  let F3 := dm_add (dm_add (dm_scale a3 Am1) b3A0) (dm_scale c3 Ap1) in
  let F3 := dm_imul F3 dt in
  let? a4 := py_div (- dt * dt) (12 * dtm1 * (dtm1 + dt)) in
  let? b4 := py_div (dtm1 * dtm1 + 2 * dtm1 * dt + dt * dt)
                    (12 * dtm1 * (dtm1 + dt)) in
  let? b4A0 := scale_opt b4 A0 in
  let? c4 := py_div (5 * dtm1 + 4 * dt) (12 * (dtm1 + dt)) in
  let F4 := dm_add (dm_add (dm_scale a4 Am1) b4A0) (dm_scale c4 Ap1) in
  let F4 := dm_imul F4 dt in
  let N := exponential_product F4 N in
  let N := exponential_product F3 N in
  inr N.

(** The body of the loop over the rings in [predict_depletion]. *)
Definition predict_ring (chain : DepletionChain) (ndl : NDLibrary) (dt : float)
    (dtm1 : option float) (r : Z) : M unit :=
  (* Get the flux and initial material *)
  let* spectra := gets _fuel_ring_flux_spectra in
  let* flux := lift (py_get spectra r) in
  let* mats := gets _fuel_ring_materials in
  let* ring_mats := lift (py_get mats r) in
  let* mat := lift (py_get ring_mats (-1)) in
  (* Build depletion matrix for beginning of time step, save it *)
  let A0 := build_depletion_matrix chain mat flux ndl in
  let* _ := store_current r (Some A0) in
  (* mat.clear_all_micro_xs_data(): the object in the list changes *)
  let mat := clear_all_micro_xs_data mat in
  let* _ := store_tip r mat in
  (* Initial number densities *)
  let nuclides := dm_nuclides A0 in
  let* N := lift (init_densities (dm_size A0) nuclides mat) in
  let* prev := gets _fuel_ring_prev_dep_mats in
  let* Am1 := lift (py_get prev r) in
  let* N :=
    match Am1, dtm1 with
    | Some Am1, Some dtm1 =>
        (* Use LE/QI *)
        lift (predict_leqi dt dtm1 Am1 A0 N)
    | _, _ =>
        (* Use CE/LI: A0 is the object saved above, changed in place *)
        let A0 := dm_imul A0 dt in
        let* _ := store_current r (Some A0) in
        let N := exponential_product A0 N in
        let A0 := dm_idiv A0 dt in
        let* _ := store_current r (Some A0) in
        ret N
    end in
  (* Now we can build a new material composition *)
  let* comp := lift (new_composition nuclides N) in
  let new_mat := Material_new comp (temperature mat) ndl in
  append_material r new_mat.

Definition predict_depletion (chain : DepletionChain) (ndl : NDLibrary) (dt : float)
    (dtm1 : option float) : M unit :=
  if (dt <=? 0)%float then raise (ValueError "Predictor time step must be > 0.")
  else
    let* n := gets num_fuel_rings in
    for_ (py_range n) (predict_ring chain ndl dt dtm1).

(** The body of the loop over the rings in [correct_depletion]. *)
Definition correct_ring (chain : DepletionChain) (ndl : NDLibrary) (dt : float)
    (dtm1 : option float) (r : Z) : M unit :=
  (* Get the flux and the predicted material *)
  let* spectra := gets _fuel_ring_flux_spectra in
  let* flux := lift (py_get spectra r) in
  let* mats := gets _fuel_ring_materials in
  let* ring_mats := lift (py_get mats r) in
  let* mat_pred := lift (py_get ring_mats (-1)) in
  (* Get depletion matrix for beginning of time step *)
  let* cur := gets _fuel_ring_current_dep_mats in
  let* A0 := lift (py_get cur r) in
  (* Build depletion matrix for the end of the time step *)
  let Ap1 := build_depletion_matrix chain mat_pred flux ndl in
  (* Initial number densities: go 2 steps back *)
  let* mat_old := lift (py_get ring_mats (-2)) in
  let nuclides := dm_nuclides Ap1 in
  let* N := lift (init_densities (dm_size Ap1) nuclides mat_old) in
  let* prev := gets _fuel_ring_prev_dep_mats in
  let* Am1 := lift (py_get prev r) in
  let* N :=
    lift match Am1, dtm1 with
         | Some Am1, Some dtm1 => correct_leqi dt dtm1 Am1 A0 Ap1 N
         | _, _ => correct_celi dt A0 Ap1 N
         end in
  (* Now we can build a new material composition *)
  let* comp := lift (new_composition nuclides N) in
  let new_mat := Material_new comp (temperature mat_pred) ndl in
  let* _ := store_tip r new_mat in
  (* Save the current matrix as previous matrix for next step *)
  let* _ := store_prev r A0 in
  store_current r None.

Definition correct_depletion (chain : DepletionChain) (ndl : NDLibrary) (dt : float)
    (dtm1 : option float) : M unit :=
  if (dt <=? 0)%float then raise (ValueError "Corrector time step must be > 0.")
  else
    let* n := gets num_fuel_rings in
    for_ (py_range n) (correct_ring chain ndl dt dtm1).

End FuelPin.

(** ** The state of one ring *)

(** What the pin keeps for ring [r]: the entries with index [r] of the
    four lists the depletion methods work on. *)
Record RingState `{Collaborators} : Type := mkRingState {
  rs_materials : list Material;
  rs_flux : Flux;
  rs_prev : option DepletionMatrix;
  rs_current : option DepletionMatrix
}.

Definition ring_at `{Collaborators} (p : FuelPin) (r : nat) : option RingState :=
  match p.(_fuel_ring_materials) !! r, p.(_fuel_ring_flux_spectra) !! r,
        p.(_fuel_ring_prev_dep_mats) !! r, p.(_fuel_ring_current_dep_mats) !! r with
  | Some ms, Some fl, Some pv, Some cu => Some (mkRingState _ ms fl pv cu)
  | _, _, _, _ => None
  end.

Definition set_ring `{Collaborators} (r : nat) (rs : RingState) (p : FuelPin) : FuelPin :=
  set_fuel_ring_current_dep_mats (<[r := rs.(rs_current)]> p.(_fuel_ring_current_dep_mats))
    (set_fuel_ring_prev_dep_mats (<[r := rs.(rs_prev)]> p.(_fuel_ring_prev_dep_mats))
       (set_fuel_ring_flux_spectra (<[r := rs.(rs_flux)]> p.(_fuel_ring_flux_spectra))
          (set_fuel_ring_materials (<[r := rs.(rs_materials)]> p.(_fuel_ring_materials))
             p))).

(** The pin has [n] rings: each of the per-ring lists has [n] entries. *)
Definition has_rings `{Collaborators} (p : FuelPin) (n : nat) : Prop :=
  p.(_num_fuel_rings) = Z.of_nat n /\
  length p.(_fuel_ring_materials) = n /\
  length p.(_fuel_ring_flux_spectra) = n /\
  length p.(_fuel_ring_prev_dep_mats) = n /\
  length p.(_fuel_ring_current_dep_mats) = n.

(** The pin [q] is the pin [p] with other ring states: the two differ at
    most in the four per-ring lists, which have kept their lengths. *)
Definition rings_replaced `{Collaborators} (p q : FuelPin) : Prop :=
  q = set_fuel_ring_current_dep_mats q.(_fuel_ring_current_dep_mats)
        (set_fuel_ring_prev_dep_mats q.(_fuel_ring_prev_dep_mats)
           (set_fuel_ring_flux_spectra q.(_fuel_ring_flux_spectra)
              (set_fuel_ring_materials q.(_fuel_ring_materials) p))) /\
  length q.(_fuel_ring_materials) = length p.(_fuel_ring_materials) /\
  length q.(_fuel_ring_flux_spectra) = length p.(_fuel_ring_flux_spectra) /\
  length q.(_fuel_ring_prev_dep_mats) = length p.(_fuel_ring_prev_dep_mats) /\
  length q.(_fuel_ring_current_dep_mats) = length p.(_fuel_ring_current_dep_mats).

(** What one iteration of the loop of [predict_depletion] does to the
    state of its ring, when it returns. *)
Definition predict_ring_state `{Collaborators} (chain : DepletionChain)
    (ndl : NDLibrary) (dt : float) (dtm1 : option float) (rs : RingState)
  : exn + RingState :=
  let? mat := py_get rs.(rs_materials) (-1) in
  let A0 := build_depletion_matrix chain mat rs.(rs_flux) ndl in
  let mat := clear_all_micro_xs_data mat in
  let? mats := py_set rs.(rs_materials) (-1) mat in
  let nuclides := dm_nuclides A0 in
  let? N := init_densities (dm_size A0) nuclides mat in
  let? AN :=
    match rs.(rs_prev), dtm1 with
    | Some Am1, Some dtm1 =>
        let? N := predict_leqi dt dtm1 Am1 A0 N in inr (A0, N)
    | _, _ =>
        inr (dm_idiv (dm_imul A0 dt) dt, exponential_product (dm_imul A0 dt) N)
    end in
  let? comp := new_composition nuclides AN.2 in
  inr (mkRingState _ (mats ++ [Material_new comp (temperature mat) ndl])
         rs.(rs_flux) rs.(rs_prev) (Some AN.1)).

(** The same for [correct_depletion]. *)
Definition correct_ring_state `{Collaborators} (chain : DepletionChain)
    (ndl : NDLibrary) (dt : float) (dtm1 : option float) (rs : RingState)
  : exn + RingState :=
  let? mat_pred := py_get rs.(rs_materials) (-1) in
  let A0 := rs.(rs_current) in
  let Ap1 := build_depletion_matrix chain mat_pred rs.(rs_flux) ndl in
  let? mat_old := py_get rs.(rs_materials) (-2) in
  let nuclides := dm_nuclides Ap1 in
  let? N := init_densities (dm_size Ap1) nuclides mat_old in
  let? N :=
    match rs.(rs_prev), dtm1 with
    | Some Am1, Some dtm1 => correct_leqi dt dtm1 Am1 A0 Ap1 N
    | _, _ => correct_celi dt A0 Ap1 N
    end in
  let? comp := new_composition nuclides N in
  let? mats :=
    py_set rs.(rs_materials) (-1) (Material_new comp (temperature mat_pred) ndl) in
  inr (mkRingState _ mats rs.(rs_flux) A0 None).

(** The method body [m] leaves [f] of the pin as it was, whether it
    returns or raises. *)
Definition preserves `{Collaborators} {A B : Type} (f : FuelPin -> B) (m : M A) : Prop :=
  forall p, f (m p).2 = f p.

(** ** The transport cell, as the specification writes it *)

(** The footprint [dx] by [dy] of the cell is too small for the cladding:
    along an axis the cell is not cut on, its width is below the diameter
    of the cladding, or along an axis it is cut on, below the radius. *)
Definition footprint_too_small (Rc dx dy : float) (pintype : PinCellType) : bool :=
  match pintype with
  | Full => (dx <? 2 * Rc)%float || (dy <? 2 * Rc)%float
  | XN | XP => (dx <? Rc)%float || (dy <? 2 * Rc)%float
  | YN | YP => (dy <? Rc)%float || (dx <? 2 * Rc)%float
  | I | II | III | IV => (dx <? Rc)%float || (dy <? Rc)%float
  end.

(** Angular subdivisions per radial region: 8 for a full cell, 4 for a
    half cell, 2 for a quarter cell. *)
Definition angular_count (pintype : PinCellType) : nat :=
  match pintype with
  | Full => 8
  | XN | XP | YN | YP => 4
  | I | II | III | IV => 2
  end.

(** The [k]-th block of [NA] identifiers of the sorted list [ids]. *)
Definition fsr_block (ids : list Z) (NA k : nat) : list Z :=
  take NA (drop (k * NA) ids).

(** The identifier lists of the rings when the first [r] rings have
    received their block. *)
Definition rings_filled (ids : list Z) (NA r : nat) (olds : list (list Z))
  : list (list Z) :=
  imap (fun k old => if decide (k < r)%nat then old ++ fsr_block ids NA k else old) olds.

(** ** The operators of the time integration, as the specification
    writes them *)

Section Operators.
Context {collab : Collaborators}.

(** Predictor, LE/QI:
    [F1 = dt [ (-dt/(12 dtm1)) Am1 + ((6 dtm1 + dt)/(12 dtm1)) A0 ]],
    [F2 = dt [ (-5 dt/(12 dtm1)) Am1 + ((6 dtm1 + 5 dt)/(12 dtm1)) A0 ]]. *)
Definition leqi_F1 (dt dtm1 : float) (Am1 A0 : DepletionMatrix) : DepletionMatrix :=
  dm_imul (dm_add (dm_scale (- dt / (12 * dtm1)) Am1)
                  (dm_scale ((6 * dtm1 + dt) / (12 * dtm1)) A0)) dt.

Definition leqi_F2 (dt dtm1 : float) (Am1 A0 : DepletionMatrix) : DepletionMatrix :=
  dm_imul (dm_add (dm_scale (-5 * dt / (12 * dtm1)) Am1)
                  (dm_scale ((6 * dtm1 + 5 * dt) / (12 * dtm1)) A0)) dt.

(** Corrector, CE/LI: [F1 = (dt/12) A0 + (5 dt/12) Ap1],
    [F2 = (5 dt/12) A0 + (dt/12) Ap1]. *)
Definition celi_F1 (dt : float) (A0 Ap1 : DepletionMatrix) : DepletionMatrix :=
  dm_add (dm_scale (dt / 12) A0) (dm_scale (5 * dt / 12) Ap1).

Definition celi_F2 (dt : float) (A0 Ap1 : DepletionMatrix) : DepletionMatrix :=
  dm_add (dm_scale (5 * dt / 12) A0) (dm_scale (dt / 12) Ap1).

(** Corrector, LE/QI, with [d = dt] and [p = dtm1]:
    [F3 = d [ (-d^2/(12p(p+d))) Am1 + ((5p^2+6pd+d^2)/(12p(p+d))) A0
              + (p/(12(p+d))) Ap1 ]],
    [F4 = d [ (-d^2/(12p(p+d))) Am1 + ((p^2+2pd+d^2)/(12p(p+d))) A0
              + ((5p+4d)/(12(p+d))) Ap1 ]]. *)
Definition leqi_F3 (d p : float) (Am1 A0 Ap1 : DepletionMatrix) : DepletionMatrix :=
  dm_imul
    (dm_add
       (dm_add (dm_scale (- d * d / (12 * p * (p + d))) Am1)
               (dm_scale ((5 * p * p + 6 * p * d + d * d) / (12 * p * (p + d))) A0))
       (dm_scale (p / (12 * (p + d))) Ap1)) d.

Definition leqi_F4 (d p : float) (Am1 A0 Ap1 : DepletionMatrix) : DepletionMatrix :=
  dm_imul
    (dm_add
       (dm_add (dm_scale (- d * d / (12 * p * (p + d))) Am1)
               (dm_scale ((p * p + 2 * p * d + d * d) / (12 * p * (p + d))) A0))
       (dm_scale ((5 * p + 4 * d) / (12 * (p + d))) Ap1)) d.

(** The densities at the end of the predictor: CE/LI on a ring without a
    previous matrix or without [dtm1] (the action of [A0] scaled by [dt]),
    LE/QI otherwise ([F2] first, then [F1]). *)
Definition predictor_densities (dt : float) (dtm1 : option float)
    (Am1 : option DepletionMatrix) (A0 : DepletionMatrix) (N : list float)
  : list float :=
  match Am1, dtm1 with
  | Some Am1, Some dtm1 =>
      exponential_product (leqi_F1 dt dtm1 Am1 A0)
        (exponential_product (leqi_F2 dt dtm1 Am1 A0) N)
  | _, _ => exponential_product (dm_imul A0 dt) N
  end.

(** The matrix the predictor leaves as the current one of the ring: in
    the CE/LI branch [A0] scaled by [dt] and scaled back. *)
Definition predictor_current (dt : float) (dtm1 : option float)
    (Am1 : option DepletionMatrix) (A0 : DepletionMatrix) : DepletionMatrix :=
  match Am1, dtm1 with
  | Some _, Some _ => A0
  | _, _ => dm_idiv (dm_imul A0 dt) dt
  end.

(** The densities at the end of the corrector: CE/LI ([F2] first, then
    [F1]) on a ring without a previous matrix or without [dtm1], LE/QI
    ([F4] first, then [F3]) otherwise. *)
Definition corrector_densities (dt : float) (dtm1 : option float)
    (Am1 : option DepletionMatrix) (A0 Ap1 : DepletionMatrix) (N : list float)
  : list float :=
  match Am1, dtm1 with
  | Some Am1, Some dtm1 =>
      exponential_product (leqi_F3 dt dtm1 Am1 A0 Ap1)
        (exponential_product (leqi_F4 dt dtm1 Am1 A0 Ap1) N)
  | _, _ =>
      exponential_product (celi_F1 dt A0 Ap1)
        (exponential_product (celi_F2 dt A0 Ap1) N)
  end.

(** The matrices that [build_depletion_matrix] returns for [chain] and
    [ndl] report as [size] the number of their nuclides. *)
Definition builder_sized (chain : DepletionChain) (ndl : NDLibrary) : Prop :=
  forall mat flux,
    dm_size (build_depletion_matrix chain mat flux ndl)
      = length (dm_nuclides (build_depletion_matrix chain mat flux ndl)).

(** The composition built from a density vector: the nuclides whose
    density is strictly positive, each with its density, in the order of
    [nuclides]. *)
Definition positive_densities (nuclides : list Nuclide) (N : list float)
  : MaterialComposition :=
  filter (fun nd => (0 <? nd.2)%float = true) (zip nuclides N).

(** No division of the LE/QI predictor, respectively corrector, is by
    zero. *)
Definition predict_divisors_ok (dtm1 : option float) : bool :=
  match dtm1 with
  | Some d => negb (12 * d =? 0)%float
  | None => true
  end.

Definition correct_divisors_ok (dt : float) (dtm1 : option float) : bool :=
  match dtm1 with
  | Some d => negb (12 * d * (d + dt) =? 0)%float && negb (12 * (d + dt) =? 0)%float
  | None => true
  end.

End Operators.

(** ** Interrogation of the history, and normalization of the flux *)

Section Interrogation.
Context {collab : Collaborators}.

Notation "'let*' x ':=' m 'in' k" := (bind m (fun x => k))
  (at level 10, x name, m at level 100, k at level 200).

(** [get_fuel_material(t, r)].  The source gives each of its two
    [IndexError]s a message; [exn] keeps the class of the exception. *)
Definition get_fuel_material (t r : Z) : M Material :=
  let* n := gets num_fuel_rings in
  if n <=? r then raise IndexError
  else
    let* mats := gets _fuel_ring_materials in
    let* ring_mats := lift (py_get mats r) in
    if Z.of_nat (length ring_mats) <=? t then raise IndexError
    else ring_material r t.

Definition get_average_fuel_nuclide_density (t : Z) (nuclide : Nuclide) : M float :=
  let* n := gets num_fuel_rings in
  let* sum_density :=
    for_acc (py_range n) (fun r sum_density =>
      let* mat := get_fuel_material t r in
      ret (sum_density + atom_density mat nuclide)%float) 0%float in
  let* n := gets num_fuel_rings in
  lift (py_div sum_density (float_of_int n)).

(** [flux *= f] on an array: every entry is multiplied by [f].  The array
    of each ring is taken to be an object of its own, as those are that
    the constructor makes. *)
Definition flux_imul (flux : Flux) (f : float) : Flux :=
  map (fun x => (x * f)%float) flux.

Definition normalize_flux_spectrum (f : float) : M unit :=
  if (f <=? 0)%float then raise (ValueError "Normalization factor must be > 0.")
  else
    let* n := gets num_fuel_rings in
    for_ (py_range n) (fun r =>
      let* spectra := gets _fuel_ring_flux_spectra in
      let* flux := lift (py_get spectra r) in
      let* spectra' := lift (py_set spectra r (flux_imul flux f)) in
      modify (set_fuel_ring_flux_spectra spectra')).

End Interrogation.

(** ** What a method leaves alone, and what it keeps *)

(** The pin without what the depletion methods work on: the pin with its
    material histories and its previous and current matrices blanked. *)
Definition outside_depletion `{Collaborators} (p : FuelPin) : FuelPin :=
  set_fuel_ring_current_dep_mats []
    (set_fuel_ring_prev_dep_mats [] (set_fuel_ring_materials [] p)).

(** The pin is consistent for [n] rings: it has [n] rings, and a radius
    and a list of region identifiers and of region indexes for each. *)
Definition consistent `{Collaborators} (p : FuelPin) (n : nat) : Prop :=
  has_rings p n /\
  length p.(_fuel_radii) = n /\
  length p.(_fuel_ring_fsr_ids) = n /\
  length p.(_fuel_ring_fsr_inds) = n.

(** The method body [m] keeps the property [P] of the pin, whether it
    returns or raises. *)
Definition keeps `{Collaborators} {A : Type} (P : FuelPin -> Prop) (m : M A) : Prop :=
  forall p, P p -> P (m p).2.

(** The pin without its flux spectra, without its cross sections, and
    without its lists of region identifiers. *)
Definition outside_flux `{Collaborators} (p : FuelPin) : FuelPin :=
  set_fuel_ring_flux_spectra [] p.

Definition outside_xs `{Collaborators} (p : FuelPin) : FuelPin :=
  set_clad_xs_attr None (set_gap_xs_attr None (set_fuel_ring_xs [] p)).

Definition outside_regions `{Collaborators} (p : FuelPin) : FuelPin :=
  set_mod_fsr_ids []
    (set_clad_fsr_ids [] (set_gap_fsr_ids [] (set_fuel_ring_fsr_ids [] p))).

(** ** The cross sections of several rings *)

(** The inner and the outer radius of ring [k]: the boundary of the ring
    before it, [0.0] for the innermost ring, and its own boundary. *)
Definition ring_inner (radii : list float) (k : nat) : float :=
  match k with
  | O => 0%float
  | S k' => default 0%float (radii !! k')
  end.

Definition ring_outer (radii : list float) (k : nat) : float :=
  default 0%float (radii !! k).

(** The cross section of ring [k] of a pin with several rings, as
    [set_fuel_xs_for_depletion_step] computes it from the composition
    [mat] of the ring and the Dancoff correction [C]. *)
Definition ring_xs `{Collaborators} (p : FuelPin) (C : float) (ndl : NDLibrary)
    (k : nat) (mat : Material) : CrossSection :=
  ring_carlvik_xs mat C (fuel_radius p)
    (ring_inner p.(_fuel_radii) k) (ring_outer p.(_fuel_radii) k) ndl.

(** The compositions [mats_t] are those of step [t], one for each ring. *)
Definition step_materials `{Collaborators} (p : FuelPin) (t : Z)
    (mats_t : list Material) : Prop :=
  Forall2 (fun ms mat => py_get ms t = inr mat) p.(_fuel_ring_materials) mats_t.

(** ** Conditions of the transport cell *)

(** The cross sections of the pin are built: one for each ring, one for
    the gap if the pin has a gap, one for the cladding.  These are the
    conditions under which [make_moc_cell] does not raise
    [RuntimeError]. *)
Definition cross_sections_built `{Collaborators} (p : FuelPin) : Prop :=
  Z.of_nat (length p.(_fuel_ring_xs)) = num_fuel_rings p /\
  is_Some_b p.(_gap_xs) = is_Some_b (gap p) /\
  is_Some_b p.(_clad_xs) = true.

(** A cell of type [pintype] and footprint [dx] by [dy] has at least
    [NA] regions for each of its radii, when these are at least [k]. *)
Definition cell_has_regions `{Collaborators} (k : nat) (dx dy : float)
    (pintype : PinCellType) : Prop :=
  forall radii xss,
    (k <= length radii)%nat ->
    (k * angular_count pintype
       <= length (get_all_fsr_ids (PinCell_new radii xss dx dy pintype)))%nat.

(** ** The whole object

    The attributes that the record [FuelPin] leaves out are those of the
    Dancoff geometries (three one-group cross sections and, for the
    isolated and for the full geometry, the identifiers and the indexes of
    the regions of the fuel, the gap, the cladding and the moderator) and
    the indexes of the regions of the gap, the cladding and the moderator
    of the transport cell.  They are the record [FuelPinRest]; the object
    is the pair of a [FuelPin] and a [FuelPinRest].  Only
    [_initial_fissionable_linear_mass], which the constructor computes and
    no method uses, is in neither. *)

(** What these attributes and the methods on them use of [_scarabee]
    besides the [Collaborators]. *)
Class DancoffCollaborators `{Collaborators} : Type := {
  SimplePinCell : Type;
  (** [CrossSection(Et, Ea, Es, name)] *)
  CrossSection_new :
    list float -> list float -> list (list float) -> string -> CrossSection;
  (** [Material.potential_xs] *)
  potential_xs : Material -> float;
  (** [SimplePinCell(radii, xs, dx, dy, pintype)] and [get_all_fsr_ids()];
      an entry of [xs] can be [None] *)
  SimplePinCell_new :
    list float -> list (option CrossSection) -> float -> float -> PinCellType
    -> SimplePinCell;
  SimplePinCell_get_all_fsr_ids : SimplePinCell -> list Z;
  (** [MOCDriver.get_fsr_indx(id, instance)] *)
  get_fsr_indx : MOCDriver -> Z -> Z -> Z
}.

Section Object.
Context {collab : Collaborators} {dancoff : DancoffCollaborators}.

Record FuelPinRest : Type := mkFuelPinRest {
  _fuel_dancoff_xs : CrossSection;
  _gap_dancoff_xs : option CrossSection;
  _clad_dancoff_xs : CrossSection;
  _fuel_isolated_dancoff_fsr_ids : list Z;
  _gap_isolated_dancoff_fsr_ids : list Z;
  _clad_isolated_dancoff_fsr_ids : list Z;
  _mod_isolated_dancoff_fsr_ids : list Z;
  _fuel_full_dancoff_fsr_ids : list Z;
  _gap_full_dancoff_fsr_ids : list Z;
  _clad_full_dancoff_fsr_ids : list Z;
  _mod_full_dancoff_fsr_ids : list Z;
  _fuel_isolated_dancoff_fsr_inds : list Z;
  _gap_isolated_dancoff_fsr_inds : list Z;
  _clad_isolated_dancoff_fsr_inds : list Z;
  _mod_isolated_dancoff_fsr_inds : list Z;
  _fuel_full_dancoff_fsr_inds : list Z;
  _gap_full_dancoff_fsr_inds : list Z;
  _clad_full_dancoff_fsr_inds : list Z;
  _mod_full_dancoff_fsr_inds : list Z;
  _gap_fsr_inds : list Z;
  _clad_fsr_inds : list Z;
  _mod_fsr_inds : list Z
}.

(** Assignment to one attribute. *)
Definition set_fuel_isolated_dancoff_fsr_ids (v : list Z) (a : FuelPinRest) : FuelPinRest :=
  mkFuelPinRest
    a.(_fuel_dancoff_xs) a.(_gap_dancoff_xs) a.(_clad_dancoff_xs) v
    a.(_gap_isolated_dancoff_fsr_ids) a.(_clad_isolated_dancoff_fsr_ids)
    a.(_mod_isolated_dancoff_fsr_ids) a.(_fuel_full_dancoff_fsr_ids)
    a.(_gap_full_dancoff_fsr_ids) a.(_clad_full_dancoff_fsr_ids)
    a.(_mod_full_dancoff_fsr_ids) a.(_fuel_isolated_dancoff_fsr_inds)
    a.(_gap_isolated_dancoff_fsr_inds) a.(_clad_isolated_dancoff_fsr_inds)
    a.(_mod_isolated_dancoff_fsr_inds) a.(_fuel_full_dancoff_fsr_inds)
    a.(_gap_full_dancoff_fsr_inds) a.(_clad_full_dancoff_fsr_inds)
    a.(_mod_full_dancoff_fsr_inds) a.(_gap_fsr_inds) a.(_clad_fsr_inds)
    a.(_mod_fsr_inds).

Definition set_gap_isolated_dancoff_fsr_ids (v : list Z) (a : FuelPinRest) : FuelPinRest :=
  mkFuelPinRest
    a.(_fuel_dancoff_xs) a.(_gap_dancoff_xs) a.(_clad_dancoff_xs)
    a.(_fuel_isolated_dancoff_fsr_ids) v a.(_clad_isolated_dancoff_fsr_ids)
    a.(_mod_isolated_dancoff_fsr_ids) a.(_fuel_full_dancoff_fsr_ids)
    a.(_gap_full_dancoff_fsr_ids) a.(_clad_full_dancoff_fsr_ids)
    a.(_mod_full_dancoff_fsr_ids) a.(_fuel_isolated_dancoff_fsr_inds)
    a.(_gap_isolated_dancoff_fsr_inds) a.(_clad_isolated_dancoff_fsr_inds)
    a.(_mod_isolated_dancoff_fsr_inds) a.(_fuel_full_dancoff_fsr_inds)
    a.(_gap_full_dancoff_fsr_inds) a.(_clad_full_dancoff_fsr_inds)
    a.(_mod_full_dancoff_fsr_inds) a.(_gap_fsr_inds) a.(_clad_fsr_inds)
    a.(_mod_fsr_inds).

Definition set_clad_isolated_dancoff_fsr_ids (v : list Z) (a : FuelPinRest) : FuelPinRest :=
  mkFuelPinRest
    a.(_fuel_dancoff_xs) a.(_gap_dancoff_xs) a.(_clad_dancoff_xs)
    a.(_fuel_isolated_dancoff_fsr_ids) a.(_gap_isolated_dancoff_fsr_ids) v
    a.(_mod_isolated_dancoff_fsr_ids) a.(_fuel_full_dancoff_fsr_ids)
    a.(_gap_full_dancoff_fsr_ids) a.(_clad_full_dancoff_fsr_ids)
    a.(_mod_full_dancoff_fsr_ids) a.(_fuel_isolated_dancoff_fsr_inds)
    a.(_gap_isolated_dancoff_fsr_inds) a.(_clad_isolated_dancoff_fsr_inds)
    a.(_mod_isolated_dancoff_fsr_inds) a.(_fuel_full_dancoff_fsr_inds)
    a.(_gap_full_dancoff_fsr_inds) a.(_clad_full_dancoff_fsr_inds)
    a.(_mod_full_dancoff_fsr_inds) a.(_gap_fsr_inds) a.(_clad_fsr_inds)
    a.(_mod_fsr_inds).

Definition set_mod_isolated_dancoff_fsr_ids (v : list Z) (a : FuelPinRest) : FuelPinRest :=
  mkFuelPinRest
    a.(_fuel_dancoff_xs) a.(_gap_dancoff_xs) a.(_clad_dancoff_xs)
    a.(_fuel_isolated_dancoff_fsr_ids) a.(_gap_isolated_dancoff_fsr_ids)
    a.(_clad_isolated_dancoff_fsr_ids) v a.(_fuel_full_dancoff_fsr_ids)
    a.(_gap_full_dancoff_fsr_ids) a.(_clad_full_dancoff_fsr_ids)
    a.(_mod_full_dancoff_fsr_ids) a.(_fuel_isolated_dancoff_fsr_inds)
    a.(_gap_isolated_dancoff_fsr_inds) a.(_clad_isolated_dancoff_fsr_inds)
    a.(_mod_isolated_dancoff_fsr_inds) a.(_fuel_full_dancoff_fsr_inds)
    a.(_gap_full_dancoff_fsr_inds) a.(_clad_full_dancoff_fsr_inds)
    a.(_mod_full_dancoff_fsr_inds) a.(_gap_fsr_inds) a.(_clad_fsr_inds)
    a.(_mod_fsr_inds).

Definition set_fuel_full_dancoff_fsr_ids (v : list Z) (a : FuelPinRest) : FuelPinRest :=
  mkFuelPinRest
    a.(_fuel_dancoff_xs) a.(_gap_dancoff_xs) a.(_clad_dancoff_xs)
    a.(_fuel_isolated_dancoff_fsr_ids) a.(_gap_isolated_dancoff_fsr_ids)
    a.(_clad_isolated_dancoff_fsr_ids) a.(_mod_isolated_dancoff_fsr_ids) v
    a.(_gap_full_dancoff_fsr_ids) a.(_clad_full_dancoff_fsr_ids)
    a.(_mod_full_dancoff_fsr_ids) a.(_fuel_isolated_dancoff_fsr_inds)
    a.(_gap_isolated_dancoff_fsr_inds) a.(_clad_isolated_dancoff_fsr_inds)
    a.(_mod_isolated_dancoff_fsr_inds) a.(_fuel_full_dancoff_fsr_inds)
    a.(_gap_full_dancoff_fsr_inds) a.(_clad_full_dancoff_fsr_inds)
    a.(_mod_full_dancoff_fsr_inds) a.(_gap_fsr_inds) a.(_clad_fsr_inds)
    a.(_mod_fsr_inds).

Definition set_gap_full_dancoff_fsr_ids (v : list Z) (a : FuelPinRest) : FuelPinRest :=
  mkFuelPinRest
    a.(_fuel_dancoff_xs) a.(_gap_dancoff_xs) a.(_clad_dancoff_xs)
    a.(_fuel_isolated_dancoff_fsr_ids) a.(_gap_isolated_dancoff_fsr_ids)
    a.(_clad_isolated_dancoff_fsr_ids) a.(_mod_isolated_dancoff_fsr_ids)
    a.(_fuel_full_dancoff_fsr_ids) v a.(_clad_full_dancoff_fsr_ids)
    a.(_mod_full_dancoff_fsr_ids) a.(_fuel_isolated_dancoff_fsr_inds)
    a.(_gap_isolated_dancoff_fsr_inds) a.(_clad_isolated_dancoff_fsr_inds)
    a.(_mod_isolated_dancoff_fsr_inds) a.(_fuel_full_dancoff_fsr_inds)
    a.(_gap_full_dancoff_fsr_inds) a.(_clad_full_dancoff_fsr_inds)
    a.(_mod_full_dancoff_fsr_inds) a.(_gap_fsr_inds) a.(_clad_fsr_inds)
    a.(_mod_fsr_inds).

Definition set_clad_full_dancoff_fsr_ids (v : list Z) (a : FuelPinRest) : FuelPinRest :=
  mkFuelPinRest
    a.(_fuel_dancoff_xs) a.(_gap_dancoff_xs) a.(_clad_dancoff_xs)
    a.(_fuel_isolated_dancoff_fsr_ids) a.(_gap_isolated_dancoff_fsr_ids)
    a.(_clad_isolated_dancoff_fsr_ids) a.(_mod_isolated_dancoff_fsr_ids)
    a.(_fuel_full_dancoff_fsr_ids) a.(_gap_full_dancoff_fsr_ids) v
    a.(_mod_full_dancoff_fsr_ids) a.(_fuel_isolated_dancoff_fsr_inds)
    a.(_gap_isolated_dancoff_fsr_inds) a.(_clad_isolated_dancoff_fsr_inds)
    a.(_mod_isolated_dancoff_fsr_inds) a.(_fuel_full_dancoff_fsr_inds)
    a.(_gap_full_dancoff_fsr_inds) a.(_clad_full_dancoff_fsr_inds)
    a.(_mod_full_dancoff_fsr_inds) a.(_gap_fsr_inds) a.(_clad_fsr_inds)
    a.(_mod_fsr_inds).

Definition set_mod_full_dancoff_fsr_ids (v : list Z) (a : FuelPinRest) : FuelPinRest :=
  mkFuelPinRest
    a.(_fuel_dancoff_xs) a.(_gap_dancoff_xs) a.(_clad_dancoff_xs)
    a.(_fuel_isolated_dancoff_fsr_ids) a.(_gap_isolated_dancoff_fsr_ids)
    a.(_clad_isolated_dancoff_fsr_ids) a.(_mod_isolated_dancoff_fsr_ids)
    a.(_fuel_full_dancoff_fsr_ids) a.(_gap_full_dancoff_fsr_ids)
    a.(_clad_full_dancoff_fsr_ids) v a.(_fuel_isolated_dancoff_fsr_inds)
    a.(_gap_isolated_dancoff_fsr_inds) a.(_clad_isolated_dancoff_fsr_inds)
    a.(_mod_isolated_dancoff_fsr_inds) a.(_fuel_full_dancoff_fsr_inds)
    a.(_gap_full_dancoff_fsr_inds) a.(_clad_full_dancoff_fsr_inds)
    a.(_mod_full_dancoff_fsr_inds) a.(_gap_fsr_inds) a.(_clad_fsr_inds)
    a.(_mod_fsr_inds).

Definition set_fuel_isolated_dancoff_fsr_inds (v : list Z) (a : FuelPinRest) : FuelPinRest :=
  mkFuelPinRest
    a.(_fuel_dancoff_xs) a.(_gap_dancoff_xs) a.(_clad_dancoff_xs)
    a.(_fuel_isolated_dancoff_fsr_ids) a.(_gap_isolated_dancoff_fsr_ids)
    a.(_clad_isolated_dancoff_fsr_ids) a.(_mod_isolated_dancoff_fsr_ids)
    a.(_fuel_full_dancoff_fsr_ids) a.(_gap_full_dancoff_fsr_ids)
    a.(_clad_full_dancoff_fsr_ids) a.(_mod_full_dancoff_fsr_ids) v
    a.(_gap_isolated_dancoff_fsr_inds) a.(_clad_isolated_dancoff_fsr_inds)
    a.(_mod_isolated_dancoff_fsr_inds) a.(_fuel_full_dancoff_fsr_inds)
    a.(_gap_full_dancoff_fsr_inds) a.(_clad_full_dancoff_fsr_inds)
    a.(_mod_full_dancoff_fsr_inds) a.(_gap_fsr_inds) a.(_clad_fsr_inds)
    a.(_mod_fsr_inds).

Definition set_gap_isolated_dancoff_fsr_inds (v : list Z) (a : FuelPinRest) : FuelPinRest :=
  mkFuelPinRest
    a.(_fuel_dancoff_xs) a.(_gap_dancoff_xs) a.(_clad_dancoff_xs)
    a.(_fuel_isolated_dancoff_fsr_ids) a.(_gap_isolated_dancoff_fsr_ids)
    a.(_clad_isolated_dancoff_fsr_ids) a.(_mod_isolated_dancoff_fsr_ids)
    a.(_fuel_full_dancoff_fsr_ids) a.(_gap_full_dancoff_fsr_ids)
    a.(_clad_full_dancoff_fsr_ids) a.(_mod_full_dancoff_fsr_ids)
    a.(_fuel_isolated_dancoff_fsr_inds) v a.(_clad_isolated_dancoff_fsr_inds)
    a.(_mod_isolated_dancoff_fsr_inds) a.(_fuel_full_dancoff_fsr_inds)
    a.(_gap_full_dancoff_fsr_inds) a.(_clad_full_dancoff_fsr_inds)
    a.(_mod_full_dancoff_fsr_inds) a.(_gap_fsr_inds) a.(_clad_fsr_inds)
    a.(_mod_fsr_inds).

Definition set_clad_isolated_dancoff_fsr_inds (v : list Z) (a : FuelPinRest) : FuelPinRest :=
  mkFuelPinRest
    a.(_fuel_dancoff_xs) a.(_gap_dancoff_xs) a.(_clad_dancoff_xs)
    a.(_fuel_isolated_dancoff_fsr_ids) a.(_gap_isolated_dancoff_fsr_ids)
    a.(_clad_isolated_dancoff_fsr_ids) a.(_mod_isolated_dancoff_fsr_ids)
    a.(_fuel_full_dancoff_fsr_ids) a.(_gap_full_dancoff_fsr_ids)
    a.(_clad_full_dancoff_fsr_ids) a.(_mod_full_dancoff_fsr_ids)
    a.(_fuel_isolated_dancoff_fsr_inds) a.(_gap_isolated_dancoff_fsr_inds) v
    a.(_mod_isolated_dancoff_fsr_inds) a.(_fuel_full_dancoff_fsr_inds)
    a.(_gap_full_dancoff_fsr_inds) a.(_clad_full_dancoff_fsr_inds)
    a.(_mod_full_dancoff_fsr_inds) a.(_gap_fsr_inds) a.(_clad_fsr_inds)
    a.(_mod_fsr_inds).

Definition set_mod_isolated_dancoff_fsr_inds (v : list Z) (a : FuelPinRest) : FuelPinRest :=
  mkFuelPinRest
    a.(_fuel_dancoff_xs) a.(_gap_dancoff_xs) a.(_clad_dancoff_xs)
    a.(_fuel_isolated_dancoff_fsr_ids) a.(_gap_isolated_dancoff_fsr_ids)
    a.(_clad_isolated_dancoff_fsr_ids) a.(_mod_isolated_dancoff_fsr_ids)
    a.(_fuel_full_dancoff_fsr_ids) a.(_gap_full_dancoff_fsr_ids)
    a.(_clad_full_dancoff_fsr_ids) a.(_mod_full_dancoff_fsr_ids)
    a.(_fuel_isolated_dancoff_fsr_inds) a.(_gap_isolated_dancoff_fsr_inds)
    a.(_clad_isolated_dancoff_fsr_inds) v a.(_fuel_full_dancoff_fsr_inds)
    a.(_gap_full_dancoff_fsr_inds) a.(_clad_full_dancoff_fsr_inds)
    a.(_mod_full_dancoff_fsr_inds) a.(_gap_fsr_inds) a.(_clad_fsr_inds)
    a.(_mod_fsr_inds).

Definition set_fuel_full_dancoff_fsr_inds (v : list Z) (a : FuelPinRest) : FuelPinRest :=
  mkFuelPinRest
    a.(_fuel_dancoff_xs) a.(_gap_dancoff_xs) a.(_clad_dancoff_xs)
    a.(_fuel_isolated_dancoff_fsr_ids) a.(_gap_isolated_dancoff_fsr_ids)
    a.(_clad_isolated_dancoff_fsr_ids) a.(_mod_isolated_dancoff_fsr_ids)
    a.(_fuel_full_dancoff_fsr_ids) a.(_gap_full_dancoff_fsr_ids)
    a.(_clad_full_dancoff_fsr_ids) a.(_mod_full_dancoff_fsr_ids)
    a.(_fuel_isolated_dancoff_fsr_inds) a.(_gap_isolated_dancoff_fsr_inds)
    a.(_clad_isolated_dancoff_fsr_inds) a.(_mod_isolated_dancoff_fsr_inds) v
    a.(_gap_full_dancoff_fsr_inds) a.(_clad_full_dancoff_fsr_inds)
    a.(_mod_full_dancoff_fsr_inds) a.(_gap_fsr_inds) a.(_clad_fsr_inds)
    a.(_mod_fsr_inds).

Definition set_gap_full_dancoff_fsr_inds (v : list Z) (a : FuelPinRest) : FuelPinRest :=
  mkFuelPinRest
    a.(_fuel_dancoff_xs) a.(_gap_dancoff_xs) a.(_clad_dancoff_xs)
    a.(_fuel_isolated_dancoff_fsr_ids) a.(_gap_isolated_dancoff_fsr_ids)
    a.(_clad_isolated_dancoff_fsr_ids) a.(_mod_isolated_dancoff_fsr_ids)
    a.(_fuel_full_dancoff_fsr_ids) a.(_gap_full_dancoff_fsr_ids)
    a.(_clad_full_dancoff_fsr_ids) a.(_mod_full_dancoff_fsr_ids)
    a.(_fuel_isolated_dancoff_fsr_inds) a.(_gap_isolated_dancoff_fsr_inds)
    a.(_clad_isolated_dancoff_fsr_inds) a.(_mod_isolated_dancoff_fsr_inds)
    a.(_fuel_full_dancoff_fsr_inds) v a.(_clad_full_dancoff_fsr_inds)
    a.(_mod_full_dancoff_fsr_inds) a.(_gap_fsr_inds) a.(_clad_fsr_inds)
    a.(_mod_fsr_inds).

Definition set_clad_full_dancoff_fsr_inds (v : list Z) (a : FuelPinRest) : FuelPinRest :=
  mkFuelPinRest
    a.(_fuel_dancoff_xs) a.(_gap_dancoff_xs) a.(_clad_dancoff_xs)
    a.(_fuel_isolated_dancoff_fsr_ids) a.(_gap_isolated_dancoff_fsr_ids)
    a.(_clad_isolated_dancoff_fsr_ids) a.(_mod_isolated_dancoff_fsr_ids)
    a.(_fuel_full_dancoff_fsr_ids) a.(_gap_full_dancoff_fsr_ids)
    a.(_clad_full_dancoff_fsr_ids) a.(_mod_full_dancoff_fsr_ids)
    a.(_fuel_isolated_dancoff_fsr_inds) a.(_gap_isolated_dancoff_fsr_inds)
    a.(_clad_isolated_dancoff_fsr_inds) a.(_mod_isolated_dancoff_fsr_inds)
    a.(_fuel_full_dancoff_fsr_inds) a.(_gap_full_dancoff_fsr_inds) v
    a.(_mod_full_dancoff_fsr_inds) a.(_gap_fsr_inds) a.(_clad_fsr_inds)
    a.(_mod_fsr_inds).

Definition set_mod_full_dancoff_fsr_inds (v : list Z) (a : FuelPinRest) : FuelPinRest :=
  mkFuelPinRest
    a.(_fuel_dancoff_xs) a.(_gap_dancoff_xs) a.(_clad_dancoff_xs)
    a.(_fuel_isolated_dancoff_fsr_ids) a.(_gap_isolated_dancoff_fsr_ids)
    a.(_clad_isolated_dancoff_fsr_ids) a.(_mod_isolated_dancoff_fsr_ids)
    a.(_fuel_full_dancoff_fsr_ids) a.(_gap_full_dancoff_fsr_ids)
    a.(_clad_full_dancoff_fsr_ids) a.(_mod_full_dancoff_fsr_ids)
    a.(_fuel_isolated_dancoff_fsr_inds) a.(_gap_isolated_dancoff_fsr_inds)
    a.(_clad_isolated_dancoff_fsr_inds) a.(_mod_isolated_dancoff_fsr_inds)
    a.(_fuel_full_dancoff_fsr_inds) a.(_gap_full_dancoff_fsr_inds)
    a.(_clad_full_dancoff_fsr_inds) v a.(_gap_fsr_inds) a.(_clad_fsr_inds)
    a.(_mod_fsr_inds).

Definition set_gap_fsr_inds (v : list Z) (a : FuelPinRest) : FuelPinRest :=
  mkFuelPinRest
    a.(_fuel_dancoff_xs) a.(_gap_dancoff_xs) a.(_clad_dancoff_xs)
    a.(_fuel_isolated_dancoff_fsr_ids) a.(_gap_isolated_dancoff_fsr_ids)
    a.(_clad_isolated_dancoff_fsr_ids) a.(_mod_isolated_dancoff_fsr_ids)
    a.(_fuel_full_dancoff_fsr_ids) a.(_gap_full_dancoff_fsr_ids)
    a.(_clad_full_dancoff_fsr_ids) a.(_mod_full_dancoff_fsr_ids)
    a.(_fuel_isolated_dancoff_fsr_inds) a.(_gap_isolated_dancoff_fsr_inds)
    a.(_clad_isolated_dancoff_fsr_inds) a.(_mod_isolated_dancoff_fsr_inds)
    a.(_fuel_full_dancoff_fsr_inds) a.(_gap_full_dancoff_fsr_inds)
    a.(_clad_full_dancoff_fsr_inds) a.(_mod_full_dancoff_fsr_inds) v a.(_clad_fsr_inds)
    a.(_mod_fsr_inds).

Definition set_clad_fsr_inds (v : list Z) (a : FuelPinRest) : FuelPinRest :=
  mkFuelPinRest
    a.(_fuel_dancoff_xs) a.(_gap_dancoff_xs) a.(_clad_dancoff_xs)
    a.(_fuel_isolated_dancoff_fsr_ids) a.(_gap_isolated_dancoff_fsr_ids)
    a.(_clad_isolated_dancoff_fsr_ids) a.(_mod_isolated_dancoff_fsr_ids)
    a.(_fuel_full_dancoff_fsr_ids) a.(_gap_full_dancoff_fsr_ids)
    a.(_clad_full_dancoff_fsr_ids) a.(_mod_full_dancoff_fsr_ids)
    a.(_fuel_isolated_dancoff_fsr_inds) a.(_gap_isolated_dancoff_fsr_inds)
    a.(_clad_isolated_dancoff_fsr_inds) a.(_mod_isolated_dancoff_fsr_inds)
    a.(_fuel_full_dancoff_fsr_inds) a.(_gap_full_dancoff_fsr_inds)
    a.(_clad_full_dancoff_fsr_inds) a.(_mod_full_dancoff_fsr_inds) a.(_gap_fsr_inds) v
    a.(_mod_fsr_inds).

Definition set_mod_fsr_inds (v : list Z) (a : FuelPinRest) : FuelPinRest :=
  mkFuelPinRest
    a.(_fuel_dancoff_xs) a.(_gap_dancoff_xs) a.(_clad_dancoff_xs)
    a.(_fuel_isolated_dancoff_fsr_ids) a.(_gap_isolated_dancoff_fsr_ids)
    a.(_clad_isolated_dancoff_fsr_ids) a.(_mod_isolated_dancoff_fsr_ids)
    a.(_fuel_full_dancoff_fsr_ids) a.(_gap_full_dancoff_fsr_ids)
    a.(_clad_full_dancoff_fsr_ids) a.(_mod_full_dancoff_fsr_ids)
    a.(_fuel_isolated_dancoff_fsr_inds) a.(_gap_isolated_dancoff_fsr_inds)
    a.(_clad_isolated_dancoff_fsr_inds) a.(_mod_isolated_dancoff_fsr_inds)
    a.(_fuel_full_dancoff_fsr_inds) a.(_gap_full_dancoff_fsr_inds)
    a.(_clad_full_dancoff_fsr_inds) a.(_mod_full_dancoff_fsr_inds) a.(_gap_fsr_inds)
    a.(_clad_fsr_inds) v.

(** Assignment to [_fuel_ring_fsr_inds]. *)
Definition set_fuel_ring_fsr_inds (v : list (list Z)) (p : FuelPin) : FuelPin :=
  mkFuelPin p.(_fuel_radius) p.(_num_fuel_rings) p.(_gap) p.(_gap_radius)
    p.(_clad) p.(_clad_radius) p.(_fuel_dancoff_corrections)
    p.(_clad_dancoff_corrections)
    p.(_fuel_ring_fsr_ids) p.(_gap_fsr_ids) p.(_clad_fsr_ids) p.(_mod_fsr_ids)
    v p.(_fuel_radii) p.(_fuel_ring_materials)
    p.(_fuel_ring_flux_spectra) p.(_fuel_ring_prev_dep_mats)
    p.(_fuel_ring_current_dep_mats) p.(_fuel_ring_xs) p.(_gap_xs) p.(_clad_xs).

Definition Object : Type := FuelPin * FuelPinRest.

(** ** Methods on the whole object *)

Definition MO (A : Type) : Type := Object -> (exn + A) * Object.

Definition oret {A : Type} (a : A) : MO A := fun o => (inr a, o).

Definition obind {A B : Type} (m : MO A) (k : A -> MO B) : MO B :=
  fun o =>
    match m o with
    | (inr a, o') => k a o'
    | (inl e, o') => (inl e, o')
    end.

(** A method body on the attributes of [FuelPin], as a body on the
    object. *)
Definition core {A : Type} (m : M A) : MO A :=
  fun o => let (r, p') := m o.1 in (r, (p', o.2)).

(** Reading one of the other attributes, and assigning to one. *)
Definition rest_gets {A : Type} (f : FuelPinRest -> A) : MO A :=
  fun o => (inr (f o.2), o).

Definition rest_modify (f : FuelPinRest -> FuelPinRest) : MO unit :=
  fun o => (inr tt, (o.1, f o.2)).

Notation "'let*' x ':=' m 'in' k" := (obind m (fun x => k))
  (at level 10, x name, m at level 100, k at level 200).

Fixpoint ofor_ {B : Type} (l : list B) (body : B -> MO unit) : MO unit :=
  match l with
  | [] => oret tt
  | x :: l' => let* _ := body x in ofor_ l' body
  end.

(** ** The constructor, for the other attributes *)

(** [CrossSection(np.array([x]), np.array([x]), np.array([[0.0]]), name)]. *)
Definition one_group_xs (x : float) (name : string) : CrossSection :=
  CrossSection_new [x] [x] [[0%float]] name.

Definition FuelPin_init_rest (clad : Material) (gap : option Material) : FuelPinRest :=
  {| _fuel_dancoff_xs := one_group_xs 100000 "Fuel";
     _gap_dancoff_xs :=
       match gap with
       | Some g => Some (one_group_xs (potential_xs g) "Gap")
       | None => None
       end;
     _clad_dancoff_xs := one_group_xs (potential_xs clad) "Clad";
     _fuel_isolated_dancoff_fsr_ids := [];
     _gap_isolated_dancoff_fsr_ids := [];
     _clad_isolated_dancoff_fsr_ids := [];
     _mod_isolated_dancoff_fsr_ids := [];
     _fuel_full_dancoff_fsr_ids := [];
     _gap_full_dancoff_fsr_ids := [];
     _clad_full_dancoff_fsr_ids := [];
     _mod_full_dancoff_fsr_ids := [];
     _fuel_isolated_dancoff_fsr_inds := [];
     _gap_isolated_dancoff_fsr_inds := [];
     _clad_isolated_dancoff_fsr_inds := [];
     _mod_isolated_dancoff_fsr_inds := [];
     _fuel_full_dancoff_fsr_inds := [];
     _gap_full_dancoff_fsr_inds := [];
     _clad_full_dancoff_fsr_inds := [];
     _mod_full_dancoff_fsr_inds := [];
     _gap_fsr_inds := [];
     _clad_fsr_inds := [];
     _mod_fsr_inds := [] |}.

(** The object [FuelPin(fuel, fuel_radius, clad, clad_radius, gap,
    gap_radius, num_fuel_rings)]. *)
Definition FuelPin_new (fuel : Material) (fuel_radius : float) (clad : Material)
    (clad_radius : float) (gap : option Material) (gap_radius : option float)
    (num_fuel_rings : Z) : exn + Object :=
  let? p := FuelPin_init fuel fuel_radius clad clad_radius gap gap_radius
              num_fuel_rings in
  inr (p, FuelPin_init_rest clad gap).

(** ** Region indexes of the transport cell *)

(** [for id in ids: inds.append(moc.get_fsr_indx(id, 0))], where [inds]
    is one of the other attributes. *)
Definition collect_indexes (moc : MOCDriver) (ids : list Z)
    (get : FuelPinRest -> list Z) (set : list Z -> FuelPinRest -> FuelPinRest)
  : MO unit :=
  ofor_ ids (fun id =>
    let* inds := rest_gets get in
    rest_modify (set (inds ++ [get_fsr_indx moc id 0]))).

Definition populate_fsr_indexes (moc : MOCDriver) : MO unit :=
  let* _ := core (modify (set_fuel_ring_fsr_inds [])) in
  let* n := core (gets num_fuel_rings) in
  let* _ :=
    ofor_ (py_range n) (fun _ =>
      let* inds := core (gets _fuel_ring_fsr_inds) in
      core (modify (set_fuel_ring_fsr_inds (inds ++ [[]])))) in
  let* _ := rest_modify (set_gap_fsr_inds []) in
  let* _ := rest_modify (set_clad_fsr_inds []) in
  let* _ := rest_modify (set_mod_fsr_inds []) in
  let* n := core (gets num_fuel_rings) in
  let* _ :=
    ofor_ (py_range n) (fun r =>
      let* ids := core (gets _fuel_ring_fsr_ids) in
      let* ring_ids := core (lift (py_get ids r)) in
      ofor_ ring_ids (fun id =>
        let* inds := core (gets _fuel_ring_fsr_inds) in
        let* ring_inds := core (lift (py_get inds r)) in
        let* inds' :=
          core (lift (py_set inds r (ring_inds ++ [get_fsr_indx moc id 0]))) in
        core (modify (set_fuel_ring_fsr_inds inds')))) in
  let* gap_ids := core (gets _gap_fsr_ids) in
  let* _ := collect_indexes moc gap_ids _gap_fsr_inds set_gap_fsr_inds in
  let* clad_ids := core (gets _clad_fsr_ids) in
  let* _ := collect_indexes moc clad_ids _clad_fsr_inds set_clad_fsr_inds in
  let* mod_ids := core (gets _mod_fsr_ids) in
  collect_indexes moc mod_ids _mod_fsr_inds set_mod_fsr_inds.

(** ** The cells of the Dancoff calculations *)

(** [ids.append(x)], where [ids] is one of the other attributes. *)
Definition rest_append (get : FuelPinRest -> list Z)
    (set : list Z -> FuelPinRest -> FuelPinRest) (x : Z) : MO unit :=
  let* l := rest_gets get in
  rest_modify (set (l ++ [x])).

(** The lists [radii] and [xs] handed to [SimplePinCell]: the fuel, the
    gap if the pin has a gap and a gap radius, the cladding, and the
    moderator at the end of [xs].  The entry of the gap is the attribute
    [_gap_dancoff_xs] as it is, [None] included. *)
Definition dancoff_cell_layers (moderator_xs : CrossSection)
  : MO (list float * list (option CrossSection)) :=
  let* R := core (gets fuel_radius) in
  let* fuel_xs := rest_gets _fuel_dancoff_xs in
  let* g := core (gets gap) in
  let* gr := core (gets gap_radius) in
  let* gap_xs := rest_gets _gap_dancoff_xs in
  let layers :=
    match g, gr with
    | Some _, Some Rg => ([R; Rg], [Some fuel_xs; gap_xs])
    | _, _ => ([R], [Some fuel_xs])
    end in
  let* Rc := core (gets clad_radius) in
  let* clad_xs := rest_gets _clad_dancoff_xs in
  oret (layers.1 ++ [Rc], (layers.2 ++ [Some clad_xs]) ++ [Some moderator_xs]).

Definition make_dancoff_moc_cell (moderator_xs : CrossSection) (dx dy : float)
    (pintype : PinCellType) (isolated : bool) : MO SimplePinCell :=
  let* _ := core (_check_dx_dy dx dy pintype) in
  (* First we create list of radii and materials *)
  let* layers := dancoff_cell_layers moderator_xs in
  (* Make the simple pin cell *)
  let cell := SimplePinCell_new layers.1 layers.2 dx dy pintype in
  (* Get the FSR IDs for the regions of interest *)
  let cell_fsr_ids := merge_sort Z.le (SimplePinCell_get_all_fsr_ids cell) in
  let* g := core (gets gap) in
  let* _ :=
    if isolated then
      let* id0 := core (lift (py_get cell_fsr_ids 0)) in
      let* _ := rest_append _fuel_isolated_dancoff_fsr_ids
                  set_fuel_isolated_dancoff_fsr_ids id0 in
      match g with
      | None =>
          let* id1 := core (lift (py_get cell_fsr_ids 1)) in
          let* _ := rest_append _clad_isolated_dancoff_fsr_ids
                      set_clad_isolated_dancoff_fsr_ids id1 in
          let* id2 := core (lift (py_get cell_fsr_ids 2)) in
          rest_append _mod_isolated_dancoff_fsr_ids
            set_mod_isolated_dancoff_fsr_ids id2
      | Some _ =>
          let* id1 := core (lift (py_get cell_fsr_ids 1)) in
          let* _ := rest_append _gap_isolated_dancoff_fsr_ids
                      set_gap_isolated_dancoff_fsr_ids id1 in
          let* id2 := core (lift (py_get cell_fsr_ids 2)) in
          let* _ := rest_append _clad_isolated_dancoff_fsr_ids
                      set_clad_isolated_dancoff_fsr_ids id2 in
          let* id3 := core (lift (py_get cell_fsr_ids 3)) in
          rest_append _mod_isolated_dancoff_fsr_ids
            set_mod_isolated_dancoff_fsr_ids id3
      end
    else
      let* id0 := core (lift (py_get cell_fsr_ids 0)) in
      let* _ := rest_append _fuel_full_dancoff_fsr_ids
                  set_fuel_full_dancoff_fsr_ids id0 in
      match g with
      | None =>
          let* id1 := core (lift (py_get cell_fsr_ids 1)) in
          let* _ := rest_append _clad_full_dancoff_fsr_ids
                      set_clad_full_dancoff_fsr_ids id1 in
          let* id2 := core (lift (py_get cell_fsr_ids 2)) in
          rest_append _mod_full_dancoff_fsr_ids set_mod_full_dancoff_fsr_ids id2
      | Some _ =>
          let* id1 := core (lift (py_get cell_fsr_ids 1)) in
          let* _ := rest_append _gap_full_dancoff_fsr_ids
                      set_gap_full_dancoff_fsr_ids id1 in
          let* id2 := core (lift (py_get cell_fsr_ids 2)) in
          let* _ := rest_append _clad_full_dancoff_fsr_ids
                      set_clad_full_dancoff_fsr_ids id2 in
          let* id3 := core (lift (py_get cell_fsr_ids 3)) in
          rest_append _mod_full_dancoff_fsr_ids set_mod_full_dancoff_fsr_ids id3
      end in
  oret cell.

(** [self._x_inds = []] followed, further down, by
    [for id in self._x_ids: self._x_inds.append(moc.get_fsr_indx(id, 0))]:
    the two halves of [populate_dancoff_fsr_indexes]. *)
Definition populate_dancoff_fsr_indexes (isomoc fullmoc : MOCDriver) : MO unit :=
  let* _ := rest_modify (set_fuel_isolated_dancoff_fsr_inds []) in
  let* _ := rest_modify (set_gap_isolated_dancoff_fsr_inds []) in
  let* _ := rest_modify (set_clad_isolated_dancoff_fsr_inds []) in
  let* _ := rest_modify (set_mod_isolated_dancoff_fsr_inds []) in
  let* _ := rest_modify (set_fuel_full_dancoff_fsr_inds []) in
  let* _ := rest_modify (set_gap_full_dancoff_fsr_inds []) in
  let* _ := rest_modify (set_clad_full_dancoff_fsr_inds []) in
  let* _ := rest_modify (set_mod_full_dancoff_fsr_inds []) in
  let* ids := rest_gets _fuel_isolated_dancoff_fsr_ids in
  let* _ := collect_indexes isomoc ids _fuel_isolated_dancoff_fsr_inds
              set_fuel_isolated_dancoff_fsr_inds in
  let* ids := rest_gets _gap_isolated_dancoff_fsr_ids in
  let* _ := collect_indexes isomoc ids _gap_isolated_dancoff_fsr_inds
              set_gap_isolated_dancoff_fsr_inds in
  let* ids := rest_gets _clad_isolated_dancoff_fsr_ids in
  let* _ := collect_indexes isomoc ids _clad_isolated_dancoff_fsr_inds
              set_clad_isolated_dancoff_fsr_inds in
  let* ids := rest_gets _mod_isolated_dancoff_fsr_ids in
  let* _ := collect_indexes isomoc ids _mod_isolated_dancoff_fsr_inds
              set_mod_isolated_dancoff_fsr_inds in
  let* ids := rest_gets _fuel_full_dancoff_fsr_ids in
  let* _ := collect_indexes fullmoc ids _fuel_full_dancoff_fsr_inds
              set_fuel_full_dancoff_fsr_inds in
  let* ids := rest_gets _gap_full_dancoff_fsr_ids in
  let* _ := collect_indexes fullmoc ids _gap_full_dancoff_fsr_inds
              set_gap_full_dancoff_fsr_inds in
  let* ids := rest_gets _clad_full_dancoff_fsr_ids in
  let* _ := collect_indexes fullmoc ids _clad_full_dancoff_fsr_inds
              set_clad_full_dancoff_fsr_inds in
  let* ids := rest_gets _mod_full_dancoff_fsr_ids in
  collect_indexes fullmoc ids _mod_full_dancoff_fsr_inds
    set_mod_full_dancoff_fsr_inds.

(** The two fluxes are entries of NumPy arrays: a division by zero gives
    an infinity or a NaN, not an exception. *)
Definition compute_fuel_dancoff_correction (isomoc fullmoc : MOCDriver) : MO float :=
  let* iso_inds := rest_gets _fuel_isolated_dancoff_fsr_inds in
  let* iso_flux := core (lift (py_get (homogenize_flux_spectrum isomoc iso_inds) 0)) in
  let* full_inds := rest_gets _fuel_full_dancoff_fsr_inds in
  let* full_flux := core (lift (py_get (homogenize_flux_spectrum fullmoc full_inds) 0)) in
  oret ((iso_flux - full_flux) / iso_flux)%float.

Definition compute_clad_dancoff_correction (isomoc fullmoc : MOCDriver) : MO float :=
  let* iso_inds := rest_gets _clad_isolated_dancoff_fsr_inds in
  let* iso_flux := core (lift (py_get (homogenize_flux_spectrum isomoc iso_inds) 0)) in
  let* full_inds := rest_gets _clad_full_dancoff_fsr_inds in
  let* full_flux := core (lift (py_get (homogenize_flux_spectrum fullmoc full_inds) 0)) in
  oret ((iso_flux - full_flux) / iso_flux)%float.

End Object.

(** An assignment to an attribute of a record that is given by its fields
    is the record with that field changed. *)
Arguments set_fuel_isolated_dancoff_fsr_ids {collab} v !a /.
Arguments set_gap_isolated_dancoff_fsr_ids {collab} v !a /.
Arguments set_clad_isolated_dancoff_fsr_ids {collab} v !a /.
Arguments set_mod_isolated_dancoff_fsr_ids {collab} v !a /.
Arguments set_fuel_full_dancoff_fsr_ids {collab} v !a /.
Arguments set_gap_full_dancoff_fsr_ids {collab} v !a /.
Arguments set_clad_full_dancoff_fsr_ids {collab} v !a /.
Arguments set_mod_full_dancoff_fsr_ids {collab} v !a /.
Arguments set_fuel_isolated_dancoff_fsr_inds {collab} v !a /.
Arguments set_gap_isolated_dancoff_fsr_inds {collab} v !a /.
Arguments set_clad_isolated_dancoff_fsr_inds {collab} v !a /.
Arguments set_mod_isolated_dancoff_fsr_inds {collab} v !a /.
Arguments set_fuel_full_dancoff_fsr_inds {collab} v !a /.
Arguments set_gap_full_dancoff_fsr_inds {collab} v !a /.
Arguments set_clad_full_dancoff_fsr_inds {collab} v !a /.
Arguments set_mod_full_dancoff_fsr_inds {collab} v !a /.

(** ** The Dancoff methods, in closed form *)

Section DancoffSpec.
Context {collab : Collaborators} {dancoff : DancoffCollaborators}.

(** The other attributes after a Dancoff cell has been recorded: the
    region [f] of the fuel, the regions [g] of the gap (one, or none), the
    region [c] of the cladding and the region [m] of the moderator have
    been appended to the lists of the isolated, respectively of the full
    geometry. *)
Definition with_isolated_regions (f : Z) (g : list Z) (c m : Z) (a : FuelPinRest)
  : FuelPinRest :=
  set_mod_isolated_dancoff_fsr_ids (a.(_mod_isolated_dancoff_fsr_ids) ++ [m])
    (set_clad_isolated_dancoff_fsr_ids (a.(_clad_isolated_dancoff_fsr_ids) ++ [c])
       (set_gap_isolated_dancoff_fsr_ids (a.(_gap_isolated_dancoff_fsr_ids) ++ g)
          (set_fuel_isolated_dancoff_fsr_ids
             (a.(_fuel_isolated_dancoff_fsr_ids) ++ [f]) a))).

Definition with_full_regions (f : Z) (g : list Z) (c m : Z) (a : FuelPinRest)
  : FuelPinRest :=
  set_mod_full_dancoff_fsr_ids (a.(_mod_full_dancoff_fsr_ids) ++ [m])
    (set_clad_full_dancoff_fsr_ids (a.(_clad_full_dancoff_fsr_ids) ++ [c])
       (set_gap_full_dancoff_fsr_ids (a.(_gap_full_dancoff_fsr_ids) ++ g)
          (set_fuel_full_dancoff_fsr_ids (a.(_fuel_full_dancoff_fsr_ids) ++ [f]) a))).

(** The other attributes after the indexes of the regions of the Dancoff
    geometries have been looked up, those of the isolated geometry in
    [isomoc] and those of the full geometry in [fullmoc]. *)
Definition with_dancoff_indexes (isomoc fullmoc : MOCDriver) (a : FuelPinRest)
  : FuelPinRest :=
  let iso := map (fun id => get_fsr_indx isomoc id 0) in
  let full := map (fun id => get_fsr_indx fullmoc id 0) in
  set_mod_full_dancoff_fsr_inds (full a.(_mod_full_dancoff_fsr_ids))
    (set_clad_full_dancoff_fsr_inds (full a.(_clad_full_dancoff_fsr_ids))
       (set_gap_full_dancoff_fsr_inds (full a.(_gap_full_dancoff_fsr_ids))
          (set_fuel_full_dancoff_fsr_inds (full a.(_fuel_full_dancoff_fsr_ids))
             (set_mod_isolated_dancoff_fsr_inds (iso a.(_mod_isolated_dancoff_fsr_ids))
                (set_clad_isolated_dancoff_fsr_inds
                   (iso a.(_clad_isolated_dancoff_fsr_ids))
                   (set_gap_isolated_dancoff_fsr_inds
                      (iso a.(_gap_isolated_dancoff_fsr_ids))
                      (set_fuel_isolated_dancoff_fsr_inds
                         (iso a.(_fuel_isolated_dancoff_fsr_ids)) a))))))).

(** The Dancoff correction from the homogenized fluxes of the regions
    [iso_inds] of the isolated and [full_inds] of the full geometry. *)
Definition dancoff_from (isomoc fullmoc : MOCDriver) (iso_inds full_inds : list Z)
  : exn + float :=
  let? iso_flux := py_get (homogenize_flux_spectrum isomoc iso_inds) 0 in
  let? full_flux := py_get (homogenize_flux_spectrum fullmoc full_inds) 0 in
  inr ((iso_flux - full_flux) / iso_flux)%float.

(** A simple cell of type [pintype] and footprint [dx] by [dy] has a
    region for each of its [k] radii and one around them. *)
Definition simple_cell_has_regions (k : nat) (dx dy : float) (pintype : PinCellType)
  : Prop :=
  forall radii xs,
    length radii = k ->
    (k + 1 <= length (SimplePinCell_get_all_fsr_ids
                        (SimplePinCell_new radii xs dx dy pintype)))%nat.

End DancoffSpec.

(** ** A small executable set of collaborators

    Stand-ins for the classes of the extension module, on which the
    methods above can be run on concrete pins.  A material is its
    composition, its temperature and a flag telling whether microscopic
    cross-section data is loaded; a depletion matrix is diagonal (one
    rate per nuclide) and its exponential action is truncated after the
    linear term; a cell numbers its regions from 100, [NA] per radius
    and [NA] outside the last one, and hands them out in decreasing
    order. *)
Module Demo.

Record material : Type := mkMaterial {
  m_composition : MaterialComposition;
  m_temperature : float;
  m_micro_xs : bool
}.

Record cross_section : Type := mkXS {
  x_name : string;
  x_dancoff : float;
  x_escape : float
}.

Definition matrix : Type := list (Nuclide * float).

Fixpoint density (c : MaterialComposition) (n : Nuclide) : float :=
  match c with
  | [] => 0%float
  | (n', d) :: c' => if String.eqb n' n then d else density c' n
  end.

Fixpoint add_rates (A B : matrix) : matrix :=
  match A, B with
  | (n, a) :: A', (_, b) :: B' => (n, (a + b)%float) :: add_rates A' B'
  | _, _ => []
  end.

Fixpoint first_order (A : matrix) (N : list float) : list float :=
  match N with
  | [] => []
  | x :: N' =>
      match A with
      | (_, a) :: A' => (x + a * x)%float :: first_order A' N'
      | [] => x :: first_order [] N'
      end
  end.

Lemma first_order_length (A : matrix) (N : list float) :
  length (first_order A N) = length N.
Proof.
  revert A; induction N as [|x N IH]; intros A; [reflexivity|].
  destruct A as [|[n a] A]; simpl; now rewrite IH.
Qed.

Definition regions (k : nat) (t : PinCellType) : list Z :=
  rev (map (fun i => 100 + i) (py_range (angular_divisions t * Z.of_nat (S k)))).

(** The text of a float, for the few numbers that the examples put into
    a message: [-0.01], [1.01] and [1.5], as Python writes them. *)
Definition float_text (x : float) : string :=
  if (x =? -0x1.47ae147ae147bp-7)%float then "-0.01"
  else if (x =? 0x1.028f5c28f5c29p+0)%float then "1.01"
  else if (x =? 0x1.8p+0)%float then "1.5"
  else "?".

#[export] Instance collaborators : Collaborators := {|
  Material := material;
  CrossSection := cross_section;
  NDLibrary := unit;
  DepletionChain := list (Nuclide * float);
  DepletionMatrix := matrix;
  PinCell := nat * PinCellType;
  MOCDriver := float;
  Material_new := fun c T _ => mkMaterial c T false;
  atom_density := fun m n => density (m_composition m) n;
  temperature := m_temperature;
  mat_size := fun m => length (m_composition m);
  clear_all_micro_xs_data := fun m => mkMaterial (m_composition m) (m_temperature m) false;
  carlvik_xs := fun _ C Ee _ => mkXS "" C Ee;
  ring_carlvik_xs := fun _ C _ _ Rout _ => mkXS "" C Rout;
  roman_xs := fun _ C Ee _ => mkXS "" C Ee;
  dilution_xs := fun _ _ _ => mkXS "" 0 0;
  xs_name := x_name;
  xs_set_name := fun x s => mkXS s (x_dancoff x) (x_escape x);
  xs_set := fun _ new => new;
  build_depletion_matrix := fun chain _ flux _ =>
    map (fun nl => (nl.1, (- nl.2 * default 1 (head flux))%float)) chain;
  dm_size := fun A => length A;
  dm_nuclides := fun A => map fst A;
  dm_scale := fun c A => map (fun na => (na.1, (c * na.2)%float)) A;
  dm_add := add_rates;
  dm_imul := fun A c => map (fun na => (na.1, (na.2 * c)%float)) A;
  dm_idiv := fun A c => map (fun na => (na.1, (na.2 / c)%float)) A;
  exponential_product := first_order;
  exponential_product_length := first_order_length;
  PinCell_new := fun radii _ _ _ t => (length radii, t);
  get_all_fsr_ids := fun c => regions c.1 c.2;
  homogenize_flux_spectrum := fun moc _ => [moc];
  float_str := float_text
|}.

(** Fuel with two nuclides, and a cladding. *)
Definition fuel : material :=
  mkMaterial [("U235", 0x1p-10%float); ("U238", 0x1p-5%float)] 900 true.

Definition zirc : material := mkMaterial [("Zr90", 0x1p-4%float)] 600 true.

(** Decay rates per second. *)
Definition chain : list (Nuclide * float) :=
  [("U235", 0x1p-30%float); ("U238", 0x1p-32%float)].

(** A pin of radius 1 without gap, cladding radius 2, with [n] rings. *)
Definition pin_of (n : Z) : exn + FuelPin := FuelPin_init fuel 1 zirc 2 None None n.

(** The pin an outcome carries, [dflt] if it is an exception. *)
Definition pin_or (dflt : FuelPin) (r : exn + FuelPin) : FuelPin :=
  match r with inr p => p | inl _ => dflt end.

Definition empty_pin : FuelPin :=
  mkFuelPin 1 0 None None zirc 2 [] [] [] [] [] [] [] [] [] [] [] [] [] None None.

Definition pin1 : FuelPin := pin_or empty_pin (pin_of 1).
Definition pin2 : FuelPin := pin_or empty_pin (pin_of 2).

(** Running a method for its effect on the pin. *)
Definition exec {A : Type} (m : M A) (p : FuelPin) : FuelPin := (m p).2.

(** One day, in seconds. *)
Definition day : float := 86400%float.

(** The one-ring pin with a Dancoff correction of 0.5 for fuel and
    cladding, and then with its cross sections built. *)
Definition pin1_dancoff : FuelPin :=
  exec (append_clad_dancoff_correction 0x1p-1)
    (exec (append_fuel_dancoff_correction 0x1p-1) pin1).

Definition pin1_xs : FuelPin :=
  exec (set_clad_xs_for_depletion_step 0 tt)
    (exec (set_fuel_xs_for_depletion_step 0 tt) pin1_dancoff).

(** The two-ring pin after the predictor and a transport solve with unit
    flux, and after the corrector. *)
Definition pin2_predicted : FuelPin :=
  exec (obtain_flux_spectra 1%float) (exec (predict_depletion chain tt day None) pin2).

Definition pin2_stepped : FuelPin :=
  exec (correct_depletion chain tt day None) pin2_predicted.

(** Stand-ins for the rest of the extension module: a one-group cross
    section keeps its name and its total; the potential cross section of
    a material is the sum of its densities; a simple cell numbers its
    regions from 200, one per radius and one around them, and hands them
    out in decreasing order; the index of a region is its identifier less
    100.  A driver for these looks is a number, the flux it reports
    everywhere. *)
Definition simple_regions (k : nat) : list Z :=
  rev (map (fun i => 200 + i) (py_range (Z.of_nat (S k)))).

#[export] Instance dancoff_collaborators : DancoffCollaborators := {|
  SimplePinCell := nat * PinCellType;
  CrossSection_new := fun Et _ _ name => mkXS name 0 (default 0%float (head Et));
  potential_xs := fun m => fold_right (fun nd s => (nd.2 + s)%float) 0%float (m_composition m);
  SimplePinCell_new := fun radii _ _ _ t => (length radii, t);
  SimplePinCell_get_all_fsr_ids := fun c => simple_regions c.1;
  get_fsr_indx := fun _ id _ => id - 100
|}.

(** The two-ring pin with a Dancoff correction of 0.5 for the fuel. *)
Definition pin2_dancoff : FuelPin :=
  exec (append_fuel_dancoff_correction 0x1p-1) pin2.

(** The one-ring pin with its cross sections, after its cell was made. *)
Definition pin1_cell : FuelPin :=
  exec (make_moc_cell (mkXS "Mod" 0 0) 5 5 Full) pin1_xs.

(** The other attributes of a new pin without gap. *)
Definition rest : FuelPinRest := FuelPin_init_rest zirc None.

End Demo.

(** * Properties *)

(** ** Order of binary64 numbers *)

Lemma SFcompare_swap (x y : spec_float) :
  SFcompare y x = option_map CompOpp (SFcompare x y).
Proof.
  destruct x as [sx|sx| |sx mx ex], y as [sy|sy| |sy my ey]; simpl;
    try reflexivity;
    try (destruct sx; reflexivity); try (destruct sy; reflexivity);
    try (destruct sx, sy; reflexivity).
  destruct sx, sy; simpl; try reflexivity.
  - rewrite (Z.compare_antisym ex ey).
    destruct (Z.compare ex ey); simpl; try reflexivity.
    now rewrite (Pos.compare_cont_antisym mx my Eq).
  - rewrite (Z.compare_antisym ex ey).
    destruct (Z.compare ex ey); simpl; try reflexivity.
    rewrite (Pos.compare_cont_antisym mx my Eq). simpl.
    now rewrite ?CompOpp_involutive.
Qed.

Lemma SFcompare_refl_not_Lt (x : spec_float) : SFcompare x x <> Some Lt.
Proof.
  intros E. pose proof (SFcompare_swap x x) as S. rewrite E in S. discriminate S.
Qed.

(** [x < x] is false, also for a NaN. *)
Lemma ltb_irrefl (x : float) : (x <? x)%float = false.
Proof.
  rewrite FloatAxioms.ltb_spec. unfold SFltb.
  pose proof (SFcompare_refl_not_Lt (Prim2SF x)) as E.
  destruct (SFcompare (Prim2SF x) (Prim2SF x)) as [[ | | ]|]; congruence.
Qed.

(** [x <= y] excludes [y < x]. *)
Lemma leb_not_gt (x y : float) : (x <=? y)%float = true -> (y <? x)%float = false.
Proof.
  rewrite FloatAxioms.leb_spec, FloatAxioms.ltb_spec. unfold SFleb, SFltb.
  rewrite (SFcompare_swap (Prim2SF x) (Prim2SF y)).
  destruct (SFcompare (Prim2SF x) (Prim2SF y)) as [[ | | ]|]; simpl; congruence.
Qed.

(** ** Python indexing *)

Lemma py_pos_nat (n r : nat) : (r < n)%nat -> py_pos n (Z.of_nat r) = Some r.
Proof.
  intros Hr. unfold py_pos.
  destruct (Z.ltb_spec (Z.of_nat r) 0) as [?|_]; [lia|].
  destruct (Z.ltb_spec (Z.of_nat r) 0) as [?|_]; [lia|].
  destruct (Z.leb_spec (Z.of_nat n) (Z.of_nat r)) as [?|_]; [lia|].
  simpl. f_equal. lia.
Qed.

Lemma py_pos_neg (n : nat) (i : Z) :
  - Z.of_nat n <= i < 0 -> py_pos n i = Some (Z.to_nat (i + Z.of_nat n)).
Proof.
  intros Hi. unfold py_pos.
  destruct (Z.ltb_spec i 0) as [_|?]; [|lia].
  destruct (Z.ltb_spec (i + Z.of_nat n) 0) as [?|_]; [lia|].
  destruct (Z.leb_spec (Z.of_nat n) (i + Z.of_nat n)) as [?|_]; [lia|].
  reflexivity.
Qed.

Lemma py_get_nat {A : Type} (l : list A) (r : nat) (x : A) :
  l !! r = Some x -> py_get l (Z.of_nat r) = inr x.
Proof.
  intros Hx. unfold py_get.
  rewrite py_pos_nat by (apply lookup_lt_is_Some; eauto).
  now rewrite Hx.
Qed.

Lemma py_set_nat {A : Type} (l : list A) (r : nat) (x : A) :
  (r < length l)%nat -> py_set l (Z.of_nat r) x = inr (<[r := x]> l).
Proof. intros Hr. unfold py_set. now rewrite py_pos_nat. Qed.

Lemma py_pos_last (n : nat) : py_pos (S n) (-1) = Some n.
Proof. rewrite py_pos_neg by lia. f_equal. lia. Qed.

Lemma py_get_last {A : Type} (l : list A) (x : A) : py_get (l ++ [x]) (-1) = inr x.
Proof.
  unfold py_get. rewrite length_app, Nat.add_1_r, py_pos_last.
  now rewrite list_lookup_middle.
Qed.

Lemma py_set_last {A : Type} (l : list A) (x y : A) :
  py_set (l ++ [x]) (-1) y = inr (l ++ [y]).
Proof.
  unfold py_set. rewrite length_app, Nat.add_1_r, py_pos_last.
  f_equal. rewrite insert_app_r_alt by lia. now rewrite Nat.sub_diag.
Qed.

Lemma py_get_penultimate {A : Type} (l : list A) (x y : A) :
  py_get (l ++ [x; y]) (-2) = inr x.
Proof.
  unfold py_get. rewrite py_pos_neg by (rewrite length_app; simpl; lia).
  replace (Z.to_nat (-2 + Z.of_nat (length (l ++ [x; y])))) with (length l)
    by (rewrite length_app; simpl; lia).
  now rewrite (list_lookup_middle l [y] x).
Qed.

Lemma py_get_single_penultimate {A : Type} (x : A) : py_get [x] (-2) = inl IndexError.
Proof. reflexivity. Qed.

(** ** Ring radii in exact arithmetic *)

Section ExactRadii.
Local Open Scope R_scope.

Lemma boundary_step (Rf : R) (n ri : nat) (Rin : R) :
  0 < Rf -> (ri < n)%nat ->
  Rin = match ri with O => 0 | S j => Exact.boundary Rf n j end ->
  sqrt ((PI * Rf * Rf / INR n + PI * Rin * Rin) / PI) = Exact.boundary Rf n ri.
Proof.
  intros HR Hri ->. unfold Exact.boundary.
  assert (0 < INR n) as Hn by (apply lt_0_INR; lia).
  assert (0 < PI) as Hpi by apply PI_RGT_0.
  assert (forall q, 0 <= q -> sqrt (Rf * Rf * q) = Rf * sqrt q) as Hsq.
  { intros q Hq. rewrite sqrt_mult by nra. rewrite sqrt_square by lra. reflexivity. }
  rewrite <- Hsq.
  2:{ apply Rlt_le, Rdiv_lt_0_compat; [apply lt_0_INR; lia|exact Hn]. }
  f_equal. destruct ri as [|j].
  - simpl. field. split; lra.
  - assert (0 <= INR (S j) / INR n) as Hq
      by (apply Rlt_le, Rdiv_lt_0_compat; [apply lt_0_INR; lia|exact Hn]).
    replace (PI * (Rf * sqrt (INR (S j) / INR n)) * (Rf * sqrt (INR (S j) / INR n)))
      with (PI * Rf * Rf * (sqrt (INR (S j) / INR n) * sqrt (INR (S j) / INR n))) by ring.
    rewrite sqrt_sqrt by exact Hq.
    rewrite (S_INR (S j)). field. split; lra.
Qed.

Lemma boundary_le (Rf : R) (n i : nat) :
  0 < Rf -> (S i <= n)%nat -> Exact.boundary Rf n i <= Rf.
Proof.
  intros HR Hi. unfold Exact.boundary.
  assert (0 < INR n) as Hn by (apply lt_0_INR; lia).
  assert (sqrt (INR (S i) / INR n) <= 1) as Hsq.
  { rewrite <- sqrt_1. apply sqrt_le_1_alt.
    apply (Rmult_le_reg_r (INR n)); [exact Hn|].
    unfold Rdiv. rewrite Rmult_assoc, Rinv_l by lra. rewrite Rmult_1_r, Rmult_1_l.
    apply le_INR. lia. }
  nra.
Qed.

Lemma boundary_lt (Rf : R) (n i : nat) :
  0 < Rf -> (0 < n)%nat -> Exact.boundary Rf n i < Exact.boundary Rf n (S i).
Proof.
  intros HR Hn0. unfold Exact.boundary.
  assert (0 < INR n) as Hn by (apply lt_0_INR; lia).
  apply Rmult_lt_compat_l; [exact HR|].
  apply sqrt_lt_1_alt. split.
  - apply Rlt_le, Rdiv_lt_0_compat; [apply lt_0_INR; lia|exact Hn].
  - unfold Rdiv. apply Rmult_lt_compat_r; [now apply Rinv_0_lt_compat|].
    apply lt_INR. lia.
Qed.

Lemma boundary_last (Rf : R) (n : nat) :
  Exact.boundary Rf (S n) n = Rf.
Proof.
  unfold Exact.boundary.
  assert (0 < INR (S n)) as Hn by (apply lt_0_INR; lia).
  replace (INR (S n) / INR (S n)) with 1 by (field; lra).
  rewrite sqrt_1. ring.
Qed.

Lemma boundary_area (Rf : R) (n i : nat) :
  0 < Rf -> (i < n)%nat ->
  let Rin := match i with O => 0 | S j => Exact.boundary Rf n j end in
  PI * Exact.boundary Rf n i * Exact.boundary Rf n i
    = PI * Rin * Rin + PI * Rf * Rf / INR n.
Proof.
  intros HR Hi Rin.
  assert (0 < INR n) as Hn by (apply lt_0_INR; lia).
  assert (0 < PI) as Hpi by apply PI_RGT_0.
  rewrite <- (boundary_step Rf n i Rin HR Hi eq_refl).
  rewrite Rmult_assoc, sqrt_sqrt.
  - field. lra.
  - apply Rlt_le, Rdiv_lt_0_compat; [|exact Hpi].
    assert (0 <= PI * Rin * Rin) by (rewrite Rmult_assoc; apply Rmult_le_pos; [lra|apply Rle_0_sqr]).
    assert (0 < PI * Rf * Rf / INR n) by (apply Rdiv_lt_0_compat; [apply Rmult_lt_0_compat; [apply Rmult_lt_0_compat|]; assumption|exact Hn]).
    lra.
Qed.

Lemma exact_loop_spec (Rf : R) (n : nat) :
  0 < Rf ->
  forall (k ri : nat) (radii : list R),
    (ri + k = n)%nat -> radii = map (Exact.boundary Rf n) (seq 0 ri) ->
    Exact.fuel_radii_loop Rf (PI * Rf * Rf / INR n) ri k radii
      = map (Exact.boundary Rf n) (seq 0 n).
Proof.
  intros HR. induction k as [|k IH]; intros ri radii Hk ->; simpl.
  - now replace ri with n by lia.
  - assert (match ri with
            | O => 0
            | S _ => default 0 (last (map (Exact.boundary Rf n) (seq 0 ri)))
            end
            = match ri with O => 0 | S j => Exact.boundary Rf n j end) as HRin.
    { destruct ri as [|j]; [reflexivity|].
      rewrite seq_S, map_app. simpl. now rewrite last_snoc. }
    rewrite (boundary_step Rf n ri _ HR ltac:(lia) HRin).
    destruct (Rlt_dec Rf (Exact.boundary Rf n ri)) as [Hgt|_].
    + pose proof (boundary_le Rf n ri HR ltac:(lia)). lra.
    + apply IH; [lia|]. rewrite seq_S, map_app. reflexivity.
Qed.

Lemma exact_make_fuel_radii (Rf : R) (n : nat) :
  0 < Rf -> (1 <= n)%nat ->
  Exact.make_fuel_radii Rf n = map (Exact.boundary Rf n) (seq 0 n).
Proof.
  intros HR Hn. unfold Exact.make_fuel_radii.
  destruct (Nat.eqb_spec n 1) as [->|Hne].
  - simpl. now rewrite (boundary_last Rf 0).
  - apply (exact_loop_spec Rf n HR n 0 []); [lia|reflexivity].
Qed.

Lemma exact_radii_facts (Rf : R) (n : nat) :
  0 < Rf -> (1 <= n)%nat ->
  let l := Exact.make_fuel_radii Rf n in
  length l = n /\ last l = Some Rf /\
  (forall i x y, l !! i = Some x -> l !! S i = Some y -> x < y) /\
  (forall i x, l !! i = Some x ->
     let Rin := match i with O => 0 | S j => default 0 (l !! j) end in
     PI * x * x = PI * Rin * Rin + PI * Rf * Rf / INR n).
Proof.
  intros HR Hn l. unfold l. rewrite (exact_make_fuel_radii Rf n HR Hn).
  assert (forall i x, map (Exact.boundary Rf n) (seq 0 n) !! i = Some x ->
            (i < n)%nat /\ x = Exact.boundary Rf n i) as Hlook.
  { intros i x Hi. rewrite list_lookup_fmap in Hi.
    destruct (seq 0 n !! i) as [j|] eqn:Ej; [|discriminate Hi].
    apply lookup_seq in Ej as [-> Hlt]. simpl in Hi. injection Hi as <-. now split. }
  split; [now rewrite length_map, length_seq|]. split; [|split].
  - destruct n as [|m]; [lia|]. rewrite seq_S, map_app. simpl.
    now rewrite last_snoc, boundary_last.
  - intros i x y Hx Hy. apply Hlook in Hx as [_ ->]. apply Hlook in Hy as [_ ->].
    apply boundary_lt; [exact HR|lia].
  - intros i x Hx. cbv zeta. apply Hlook in Hx as [Hi ->].
    assert (match i with
            | O => 0
            | S j => default 0 (map (Exact.boundary Rf n) (seq 0 n) !! j)
            end
            = match i with O => 0 | S j => Exact.boundary Rf n j end) as ->.
    { destruct i as [|j]; [reflexivity|].
      rewrite list_lookup_fmap, lookup_seq_lt by lia. reflexivity. }
    now apply boundary_area.
Qed.
End ExactRadii.

Section Properties.
Context {collab : Collaborators}.

(** ** Method bodies *)

Lemma preserves_ret {A B : Type} (f : FuelPin -> B) (a : A) : preserves f (ret a).
Proof. intros p. reflexivity. Qed.

Lemma preserves_raise {A B : Type} (f : FuelPin -> B) (e : exn) :
  preserves f (raise (A := A) e).
Proof. intros p. reflexivity. Qed.

Lemma preserves_gets {A B : Type} (f : FuelPin -> B) (g : FuelPin -> A) :
  preserves f (gets g).
Proof. intros p. reflexivity. Qed.

Lemma preserves_lift {A B : Type} (f : FuelPin -> B) (r : exn + A) :
  preserves f (lift r).
Proof. intros p. reflexivity. Qed.

Lemma preserves_modify {B : Type} (f : FuelPin -> B) (g : FuelPin -> FuelPin) :
  (forall p, f (g p) = f p) -> preserves f (modify g).
Proof. intros Hg p. apply Hg. Qed.

Lemma preserves_bind {A A' B : Type} (f : FuelPin -> B) (m : M A) (k : A -> M A') :
  preserves f m -> (forall a, preserves f (k a)) -> preserves f (bind m k).
Proof.
  intros Hm Hk p. unfold bind. specialize (Hm p).
  destruct (m p) as [[e|a] p']; simpl in *; [exact Hm|].
  now rewrite Hk.
Qed.

Lemma preserves_for_acc {A B C : Type} (f : FuelPin -> B) (l : list C)
    (body : C -> A -> M A) (a : A) :
  (forall x a', preserves f (body x a')) -> preserves f (for_acc l body a).
Proof.
  intros Hbody. revert a. induction l as [|x l IH]; intros a; simpl.
  - apply preserves_ret.
  - apply preserves_bind; [apply Hbody|exact IH].
Qed.

Lemma preserves_for {B C : Type} (f : FuelPin -> B) (l : list C) (body : C -> M unit) :
  (forall x, preserves f (body x)) -> preserves f (for_ l body).
Proof. intros Hbody. apply preserves_for_acc. intros x _. apply Hbody. Qed.

(** A loop over [range(n)] that carries a local variable, with an
    invariant: if every iteration returns and re-establishes the
    invariant, so does the loop. *)
Lemma for_acc_seq_inv {A : Type} (P : nat -> A -> FuelPin -> Prop)
    (body : Z -> A -> M A) (k s : nat) (a : A) (p : FuelPin) :
  P s a p ->
  (forall r a q, (s <= r < s + k)%nat -> P r a q ->
     exists a' q', body (Z.of_nat r) a q = (inr a', q') /\ P (S r) a' q') ->
  exists a' p',
    for_acc (map Z.of_nat (seq s k)) body a p = (inr a', p') /\ P (s + k)%nat a' p'.
Proof.
  revert s a p. induction k as [|k IH]; intros s a p H0 Hstep; simpl.
  - exists a, p. rewrite Nat.add_0_r. split; [reflexivity|exact H0].
  - destruct (Hstep s a p ltac:(lia) H0) as (a1 & q1 & Hb & H1).
    destruct (IH (S s) a1 q1 H1) as (a2 & q2 & Hl & H2).
    { intros r a' q Hr. apply Hstep. lia. }
    exists a2, q2. unfold bind. rewrite Hb. split; [exact Hl|].
    now replace (s + S k)%nat with (S s + k)%nat by lia.
Qed.

Lemma for_acc_range_inv {A : Type} (P : nat -> A -> FuelPin -> Prop)
    (body : Z -> A -> M A) (n : nat) (a : A) (p : FuelPin) :
  P 0%nat a p ->
  (forall r a q, (r < n)%nat -> P r a q ->
     exists a' q', body (Z.of_nat r) a q = (inr a', q') /\ P (S r) a' q') ->
  exists a' p',
    for_acc (py_range (Z.of_nat n)) body a p = (inr a', p') /\ P n a' p'.
Proof.
  intros H0 Hstep. unfold py_range. rewrite Nat2Z.id.
  apply (for_acc_seq_inv P body n 0 a p H0).
  intros r a' q Hr. apply Hstep. lia.
Qed.

Lemma for_range_inv (P : nat -> FuelPin -> Prop) (body : Z -> M unit) (n : nat)
    (p : FuelPin) :
  P 0%nat p ->
  (forall r q, (r < n)%nat -> P r q ->
     exists q', body (Z.of_nat r) q = (inr tt, q') /\ P (S r) q') ->
  exists p', for_ (py_range (Z.of_nat n)) body p = (inr tt, p') /\ P n p'.
Proof.
  intros H0 Hstep. unfold for_.
  destruct (for_acc_range_inv (fun r _ q => P r q) (fun x _ => body x) n tt p H0)
    as ([] & p' & Hl & Hn).
  - intros r [] q Hr HP. destruct (Hstep r q Hr HP) as (q' & Hb & HP').
    exists tt, q'. split; assumption.
  - exists p'. split; assumption.
Qed.

(** ** Ring radii *)

Lemma equal_area_boundary_le (R Vr Rin : float) :
  (R <? equal_area_boundary R Vr Rin)%float = false.
Proof.
  unfold equal_area_boundary.
  destruct (R <? PrimFloat.sqrt ((Vr + np_pi * Rin * Rin) / np_pi))%float eqn:E.
  - apply ltb_irrefl.
  - exact E.
Qed.

(** What the loop of the constructor builds: [k] more radii, each the
    equal-area boundary over the one before it. *)
Lemma fuel_radii_loop_spec (R Vr : float) (k : nat) :
  forall (ri : nat) (radii : list float),
    length radii = ri ->
    let l := fuel_radii_loop R Vr ri k radii in
    length l = (ri + k)%nat /\
    (forall i, (i < ri)%nat -> l !! i = radii !! i) /\
    (forall i, (ri <= i < ri + k)%nat ->
       l !! i = Some (equal_area_boundary R Vr
                        match i with
                        | O => 0%float
                        | S j => default 0%float (l !! j)
                        end)).
Proof.
  induction k as [|k IH]; intros ri radii Hlen; simpl.
  - split; [lia|]. split; [reflexivity|]. intros i Hi. lia.
  - set (Rin := match ri with O => 0%float | S _ => default 0%float (last radii) end).
    fold (equal_area_boundary R Vr Rin).
    set (Rout := equal_area_boundary R Vr Rin).
    destruct (IH (S ri) (radii ++ [Rout])) as (Hl & Hpre & Hnew).
    { rewrite length_app. simpl. lia. }
    split; [lia|]. split.
    + intros i Hi. rewrite Hpre by lia. apply lookup_app_l. lia.
    + intros i Hi. destruct (decide (i = ri)) as [->|Hne].
      * rewrite Hpre by lia. rewrite <- Hlen at 1.
        rewrite list_lookup_middle by reflexivity.
        f_equal. subst Rout. f_equal. subst Rin.
        destruct ri as [|j]; [reflexivity|].
        rewrite Hpre by lia. rewrite lookup_app_l by lia.
        rewrite last_lookup, Hlen. reflexivity.
      * apply Hnew. lia.
Qed.

Lemma make_fuel_radii_length (R : float) (N : Z) :
  1 <= N -> length (make_fuel_radii R N) = Z.to_nat N.
Proof.
  intros HN. unfold make_fuel_radii.
  destruct (Z.eqb_spec N 1) as [->|_]; [reflexivity|].
  now destruct (fuel_radii_loop_spec R (np_pi * R * R / float_of_int N) (Z.to_nat N)
                  0 [] eq_refl) as (Hl & _).
Qed.

Lemma make_fuel_radii_recurrence (R : float) (N : Z) (i : nat) (r : float) :
  N <> 1 -> make_fuel_radii R N !! i = Some r ->
  r = equal_area_boundary R (np_pi * R * R / float_of_int N)
        match i with
        | O => 0%float
        | S j => default 0%float (make_fuel_radii R N !! j)
        end.
Proof.
  intros HN. unfold make_fuel_radii.
  destruct (Z.eqb_spec N 1) as [->|_]; [contradiction|].
  destruct (fuel_radii_loop_spec R (np_pi * R * R / float_of_int N) (Z.to_nat N)
              0 [] eq_refl) as (Hl & _ & Hnew).
  intros Hi. assert (i < Z.to_nat N)%nat as Hlt.
  { apply lookup_lt_Some in Hi. lia. }
  rewrite Hnew in Hi by lia. congruence.
Qed.

Lemma make_fuel_radii_le (R : float) (N : Z) (r : float) :
  r ∈ make_fuel_radii R N -> (R <? r)%float = false.
Proof.
  intros Hr. destruct (Z.eq_dec N 1) as [->|HN].
  - apply list_elem_of_singleton in Hr. subst r. apply ltb_irrefl.
  - apply list_elem_of_lookup in Hr as [i Hi].
    rewrite (make_fuel_radii_recurrence R N i r HN Hi).
    apply equal_area_boundary_le.
Qed.

Lemma FuelPin_init_accepts (fuel cl : Material) (R Rc : float)
    (g : option Material) (Rg : option float) (N : Z) :
  (R <=? 0)%float = false -> 1 <= N -> square_overflows R = false ->
  gap_clad_ok R Rc g Rg = true ->
  exists p, FuelPin_init fuel R cl Rc g Rg N = inr p /\
            p.(_fuel_radius) = R /\ p.(_num_fuel_rings) = N /\
            p.(_fuel_radii) = make_fuel_radii R N.
Proof.
  intros HR HN Hsq Hok. unfold FuelPin_init. rewrite HR.
  destruct (Z.leb_spec N 0) as [?|_]; [lia|]. rewrite Hsq.
  unfold gap_clad_ok in Hok.
  destruct g as [gm|], Rg as [rg|]; try discriminate Hok.
  - apply andb_true_iff in Hok as [Hok H4].
    apply andb_true_iff in Hok as [Hok H3].
    apply andb_true_iff in Hok as [H1 H2].
    apply negb_true_iff in H1, H2, H3, H4.
    rewrite H1, H2, H3, H4. simpl. eexists. repeat split.
  - apply andb_true_iff in Hok as [H2 H3].
    apply negb_true_iff in H2, H3.
    rewrite H2, H3. simpl. eexists. repeat split.
Qed.

(** C6, as the constructor computes it.  With a fuel radius [R] that is
    not [<= 0] and whose square does not overflow, a ring count [N >= 1]
    and a gap and cladding that pass their checks, the constructor
    returns a pin with [N] ring radii, none of which exceeds [R]; for
    [N = 1] the list is [[R]], and otherwise every radius is the
    equal-area boundary over the radius before it (over 0 for the first),
    with ring area [Vr = np.pi * R * R / N], all in binary64.  The
    constructor raises [ValueError] when [R <= 0] and when [N < 1], and
    [OverflowError] when [N >= 1] and [R] is finite with a square that
    overflows.  In exact arithmetic the same loop gives [n] radii that
    increase strictly, the last of which is the fuel radius, each closing
    a ring of area [pi R^2 / n]. *)
Theorem ring_radii_of_constructor (fuel cl : Material) (R Rc : float)
    (g : option Material) (Rg : option float) (N : Z) :
  ((R <=? 0)%float = true ->
   FuelPin_init fuel R cl Rc g Rg N = inl (ValueError "Fuel radius must be > 0.")) /\
  ((R <=? 0)%float = false -> N < 1 ->
   FuelPin_init fuel R cl Rc g Rg N
     = inl (ValueError "Number of fuel rings must be >= 1.")) /\
  ((R <=? 0)%float = false -> 1 <= N -> square_overflows R = true ->
   FuelPin_init fuel R cl Rc g Rg N = inl OverflowError) /\
  ((R <=? 0)%float = false -> 1 <= N -> square_overflows R = false ->
   gap_clad_ok R Rc g Rg = true ->
   exists p,
     FuelPin_init fuel R cl Rc g Rg N = inr p /\
     length p.(_fuel_radii) = Z.to_nat N /\
     (forall r, r ∈ p.(_fuel_radii) -> (R <? r)%float = false) /\
     (N = 1 -> p.(_fuel_radii) = [R]) /\
     (N <> 1 -> forall i r, p.(_fuel_radii) !! i = Some r ->
        r = equal_area_boundary R (np_pi * R * R / float_of_int N)
              match i with
              | O => 0%float
              | S j => default 0%float (p.(_fuel_radii) !! j)
              end)) /\
  (forall (Rx : Rdefinitions.R) (n : nat),
     (0 < Rx)%R -> (1 <= n)%nat ->
     let l := Exact.make_fuel_radii Rx n in
     length l = n /\ last l = Some Rx /\
     (forall i x y, l !! i = Some x -> l !! S i = Some y -> (x < y)%R) /\
     (forall i x, l !! i = Some x ->
        let Rin := match i with O => 0%R | S j => default 0%R (l !! j) end in
        (PI * x * x = PI * Rin * Rin + PI * Rx * Rx / INR n)%R)).
Proof.
  split; [|split; [|split; [|split; [|exact exact_radii_facts]]]].
  - intros HR. unfold FuelPin_init. now rewrite HR.
  - intros HR HN. unfold FuelPin_init. rewrite HR.
    destruct (Z.leb_spec N 0) as [_|?]; [reflexivity|lia].
  - intros HR HN Hsq. unfold FuelPin_init. rewrite HR.
    destruct (Z.leb_spec N 0) as [?|_]; [lia|]. now rewrite Hsq.
  - intros HR HN Hsq Hok.
    destruct (FuelPin_init_accepts fuel cl R Rc g Rg N HR HN Hsq Hok)
      as (p & Hp & _ & _ & Hradii).
    exists p. rewrite Hradii. split; [exact Hp|]. split; [|split; [|split]].
    + now apply make_fuel_radii_length.
    + apply make_fuel_radii_le.
    + intros ->. reflexivity.
    + intros HN1 i r. now apply make_fuel_radii_recurrence.
Qed.

(** ** Dancoff correction histories *)

(** C9.  A correction [C] with [0 <= C <= 1] is accepted by
    [append_fuel_dancoff_correction] and by
    [append_clad_dancoff_correction]: the call returns and the history is
    the old one followed by [C], nothing else changes.  A correction with
    [C < 0] or [C > 1] makes both raise [ValueError], with a message that
    ends with the text of [C], and leaves the pin as it was. *)
Theorem dancoff_append_range (p : FuelPin) (C : float) :
  ((0 <=? C)%float = true -> (C <=? 1)%float = true ->
     append_fuel_dancoff_correction C p
       = (inr tt, set_fuel_dancoff_corrections (fuel_dancoff_corrections p ++ [C]) p) /\
     append_clad_dancoff_correction C p
       = (inr tt, set_clad_dancoff_corrections (clad_dancoff_corrections p ++ [C]) p)) /\
  ((C <? 0)%float = true \/ (1 <? C)%float = true ->
     append_fuel_dancoff_correction C p
       = (inl (ValueError (dancoff_range_msg C)), p) /\
     append_clad_dancoff_correction C p
       = (inl (ValueError (dancoff_range_msg C)), p)).
Proof.
  unfold append_fuel_dancoff_correction, append_clad_dancoff_correction.
  split.
  - intros H0 H1.
    rewrite (leb_not_gt _ _ H0), (leb_not_gt _ _ H1). simpl. split; reflexivity.
  - intros Hout.
    assert ((C <? 0)%float || (1 <? C)%float = true) as ->
      by (apply orb_true_iff; exact Hout).
    split; reflexivity.
Qed.

(** ** The flux spectra *)

Lemma insert_processed {A B : Type} (h : A -> B) (src : list A) (dst : list B)
    (r : nat) (x : A) :
  src !! r = Some x -> (r < length dst)%nat ->
  <[r := h x]> (map h (take r src) ++ drop r dst)
    = map h (take (S r) src) ++ drop (S r) dst.
Proof.
  intros Hx Hr.
  assert (length (map h (take r src)) = r) as Hlen.
  { rewrite length_map, length_take. apply lookup_lt_Some in Hx. lia. }
  rewrite insert_app_r_alt by lia. rewrite Hlen, Nat.sub_diag.
  destruct (lookup_lt_is_Some_2 dst r Hr) as [z Hz].
  rewrite (drop_S dst z r Hz). simpl.
  rewrite (take_S_r src r x Hx), map_app. simpl.
  now rewrite <- app_assoc.
Qed.

Lemma obtain_flux_spectra_rings (moc : MOCDriver) (p : FuelPin) (n : nat) :
  has_rings p n -> length p.(_fuel_ring_fsr_inds) = n ->
  obtain_flux_spectra moc p
    = (inr tt,
       set_fuel_ring_flux_spectra
         (map (homogenize_flux_spectrum moc) p.(_fuel_ring_fsr_inds)) p).
Proof.
  intros (Hn & _ & Hfl & _) Hinds.
  unfold obtain_flux_spectra, bind at 1, gets at 1, num_fuel_rings. rewrite Hn.
  destruct (for_range_inv
    (fun r q => q = set_fuel_ring_flux_spectra
                      (map (homogenize_flux_spectrum moc) (take r p.(_fuel_ring_fsr_inds))
                         ++ drop r p.(_fuel_ring_flux_spectra)) p)
    (fun r =>
       bind (gets _fuel_ring_fsr_inds) (fun inds =>
       bind (lift (py_get inds r)) (fun ring_inds =>
       bind (gets _fuel_ring_flux_spectra) (fun spectra =>
       bind (lift (py_set spectra r (homogenize_flux_spectrum moc ring_inds)))
            (fun spectra' => modify (set_fuel_ring_flux_spectra spectra'))))))
    n p) as (p' & Hloop & Hp').
  - destruct p; reflexivity.
  - intros r q Hr ->.
    destruct (lookup_lt_is_Some_2 p.(_fuel_ring_fsr_inds) r ltac:(lia)) as [x Hx].
    eexists. split.
    + unfold bind, gets, lift, modify. simpl.
      rewrite (py_get_nat _ _ _ Hx).
      rewrite py_set_nat
        by (rewrite length_app, length_map, length_take, length_drop; lia).
      rewrite (insert_processed _ _ _ _ _ Hx) by lia.
      reflexivity.
    + reflexivity.
  - rewrite Hloop, Hp'. f_equal. f_equal.
    rewrite <- Hinds at 1. rewrite take_ge by lia.
    rewrite drop_ge by lia. now rewrite app_nil_r.
Qed.

(** C10.  The property [fuel_ring_flux_spectra] returns the attribute
    [_fuel_ring_materials], the very list that [fuel_ring_materials]
    returns, and not [_fuel_ring_flux_spectra]: a call of
    [obtain_flux_spectra], which on a pin with [n] rings stores the
    homogenized spectrum of every ring in [_fuel_ring_flux_spectra],
    leaves what the property returns unchanged. *)
Theorem fuel_ring_flux_spectra_returns_materials (p : FuelPin) (moc : MOCDriver) :
  fuel_ring_flux_spectra p = fuel_ring_materials p /\
  fuel_ring_flux_spectra (obtain_flux_spectra moc p).2 = fuel_ring_flux_spectra p /\
  (forall n : nat,
     has_rings p n -> length p.(_fuel_ring_fsr_inds) = n ->
     (obtain_flux_spectra moc p).1 = inr tt /\
     (obtain_flux_spectra moc p).2.(_fuel_ring_flux_spectra)
       = map (homogenize_flux_spectrum moc) p.(_fuel_ring_fsr_inds)).
Proof.
  split; [reflexivity|]. split.
  - revert p.
    change (preserves fuel_ring_flux_spectra (obtain_flux_spectra moc)).
    unfold obtain_flux_spectra.
    apply preserves_bind; [apply preserves_gets|]. intros n.
    apply preserves_for. intros r.
    repeat (apply preserves_bind;
            [first [apply preserves_gets | apply preserves_lift]|intros ?]).
    apply preserves_modify. reflexivity.
  - intros n Hn Hinds. rewrite (obtain_flux_spectra_rings moc p n Hn Hinds).
    split; reflexivity.
Qed.

(** ** Escape cross sections *)

(** C8.  On a pin with a single fuel ring,
    [set_fuel_xs_for_depletion_step] hands [Ee = 1/(2 fuel_radius)] to
    [carlvik_xs], both when it creates the cross section and when it resets
    the existing one; [set_clad_xs_for_depletion_step] hands
    [Ee = 1/(2 (clad_radius - gap_radius))] to [roman_xs] when the pin has
    a gap radius and [Ee = 1/(2 (clad_radius - fuel_radius))] when it has
    none; and [set_fuel_xs_for_depletion_step] raises [RuntimeError],
    leaving the pin as it was, when the number of fuel cross sections is
    neither zero nor the number of rings. *)
Theorem escape_xs_of_xs_setters (p : FuelPin) (t : Z) (ndl : NDLibrary) :
  (forall ring_mats mat C,
     num_fuel_rings p = 1 ->
     (2 * fuel_radius p =? 0)%float = false ->
     py_get p.(_fuel_ring_materials) 0 = inr ring_mats ->
     py_get ring_mats t = inr mat ->
     py_get p.(_fuel_dancoff_corrections) t = inr C ->
     let Ee := (1 / (2 * fuel_radius p))%float in
     (p.(_fuel_ring_xs) = [] ->
      set_fuel_xs_for_depletion_step t ndl p
        = (inr tt,
           set_fuel_ring_xs [name_if_empty (carlvik_xs mat C Ee ndl) "Fuel"] p)) /\
     (forall old, p.(_fuel_ring_xs) = [old] ->
      set_fuel_xs_for_depletion_step t ndl p
        = (inr tt,
           set_fuel_ring_xs
             [name_if_empty (xs_set old (carlvik_xs mat C Ee ndl)) "Fuel"] p))) /\
  (forall C,
     py_get p.(_clad_dancoff_corrections) t = inr C ->
     let Rb := match gap_radius p with Some Rg => Rg | None => fuel_radius p end in
     (2 * (clad_radius p - Rb) =? 0)%float = false ->
     let Ee := (1 / (2 * (clad_radius p - Rb)))%float in
     let new := roman_xs (clad p) C Ee ndl in
     set_clad_xs_for_depletion_step t ndl p
       = (inr tt,
          set_clad_xs_attr
            (Some (name_if_empty
                     match p.(_clad_xs) with None => new | Some o => xs_set o new end
                     "Clad")) p)) /\
  (length p.(_fuel_ring_xs) <> 0%nat ->
   Z.of_nat (length p.(_fuel_ring_xs)) <> num_fuel_rings p ->
   set_fuel_xs_for_depletion_step t ndl p = (inl (RuntimeError fuel_xs_mismatch_msg), p)).
Proof.
  split; [|split].
  - intros ring_mats mat C Hn HR Hmats Hmat HC Ee. split.
    + intros Hxs. unfold set_fuel_xs_for_depletion_step, ring_material, bind, gets, lift,
        modify, py_div.
      rewrite Hxs, Hn. simpl. rewrite HR, Hmats, Hmat, HC. rewrite Hxs. reflexivity.
    + intros old Hxs. unfold set_fuel_xs_for_depletion_step, ring_material, bind, gets,
        lift, modify, py_div.
      rewrite Hxs, Hn. simpl. rewrite HR. rewrite Hxs. simpl.
      rewrite Hmats, Hmat, HC. reflexivity.
  - intros C HC Rb HR Ee new.
    unfold set_clad_xs_for_depletion_step, bind, gets, lift, modify, py_div.
    subst new Ee Rb. destruct (gap_radius p) as [Rg|]; simpl; rewrite HR, HC; reflexivity.
  - intros H0 Hn. unfold set_fuel_xs_for_depletion_step, bind, gets, raise.
    destruct (Z.eqb_spec (Z.of_nat (length (_fuel_ring_xs p))) 0) as [E|_]; [lia|].
    destruct (Z.eqb_spec (Z.of_nat (length (_fuel_ring_xs p))) (num_fuel_rings p))
      as [E|_]; [contradiction|].
    reflexivity.
Qed.

(** ** The regions of the transport cell *)

Lemma set_fuel_ring_fsr_ids_id (p : FuelPin) :
  set_fuel_ring_fsr_ids p.(_fuel_ring_fsr_ids) p = p.
Proof. now destruct p. Qed.

Lemma take_drop_snoc {A : Type} (l : list A) (i a : nat) (x : A) :
  l !! (i + a)%nat = Some x -> take a (drop i l) ++ [x] = take (S a) (drop i l).
Proof.
  intros Hx. symmetry. apply take_S_r. now rewrite lookup_drop.
Qed.

(** The loop that hands [NA] identifiers, from position [I0] of [ids] on,
    to one of the attributes [_gap_fsr_ids] and [_clad_fsr_ids]. *)
Lemma take_ids_spec (ids : list Z) (NA I0 : nat)
    (get : FuelPin -> list Z) (set : list Z -> FuelPin -> FuelPin) (p : FuelPin) :
  (forall v q, get (set v q) = v) ->
  (forall v v' q, set v (set v' q) = set v q) ->
  set (get p) p = p ->
  (I0 + NA <= length ids)%nat ->
  take_ids ids (Z.of_nat NA) get set (Z.of_nat I0) p
    = (inr (Z.of_nat (I0 + NA)), set (get p ++ take NA (drop I0 ids)) p).
Proof.
  intros Hgs Hss Hid Hlen. unfold take_ids.
  destruct (for_acc_range_inv
    (fun a I q => I = Z.of_nat (I0 + a) /\
                  q = set (get p ++ take a (drop I0 ids)) p)
    (fun (_ : Z) I =>
       bind (gets get) (fun l =>
       bind (lift (py_get ids I)) (fun id =>
       bind (modify (set (l ++ [id]))) (fun _ => ret (I + 1)))))
    NA (Z.of_nat I0) p) as (I' & p' & Hloop & HI & Hp').
  - split; [f_equal; lia|]. rewrite take_0, app_nil_r. now rewrite Hid.
  - intros a I q Ha [-> ->].
    destruct (lookup_lt_is_Some_2 ids (I0 + a) ltac:(lia)) as [x Hx].
    eexists _, _. split.
    + unfold bind, gets, lift, modify, ret. rewrite (py_get_nat _ _ _ Hx).
      rewrite Hgs, Hss. reflexivity.
    + split; [lia|]. rewrite <- app_assoc. now rewrite (take_drop_snoc _ _ _ _ Hx).
  - rewrite Hloop, HI, Hp'. reflexivity.
Qed.

(** The same loop for the identifiers of ring [r]. *)
Lemma take_ring_ids_spec (ids : list Z) (NA I0 r : nat) (old : list Z) (p : FuelPin) :
  p.(_fuel_ring_fsr_ids) !! r = Some old ->
  (I0 + NA <= length ids)%nat ->
  take_ring_ids ids (Z.of_nat NA) (Z.of_nat r) (Z.of_nat I0) p
    = (inr (Z.of_nat (I0 + NA)),
       set_fuel_ring_fsr_ids
         (<[r := old ++ take NA (drop I0 ids)]> p.(_fuel_ring_fsr_ids)) p).
Proof.
  intros Hold Hlen. unfold take_ring_ids.
  assert (r < length p.(_fuel_ring_fsr_ids))%nat as Hr by (now apply lookup_lt_Some in Hold).
  destruct (for_acc_range_inv
    (fun a I q => I = Z.of_nat (I0 + a) /\
                  q = set_fuel_ring_fsr_ids
                        (<[r := old ++ take a (drop I0 ids)]> p.(_fuel_ring_fsr_ids)) p)
    (fun (_ : Z) I =>
       bind (gets _fuel_ring_fsr_ids) (fun l =>
       bind (lift (py_get l (Z.of_nat r))) (fun ring_ids =>
       bind (lift (py_get ids I)) (fun id =>
       bind (lift (py_set l (Z.of_nat r) (ring_ids ++ [id]))) (fun l' =>
       bind (modify (set_fuel_ring_fsr_ids l')) (fun _ => ret (I + 1)))))))
    NA (Z.of_nat I0) p) as (I' & p' & Hloop & HI & Hp').
  - split; [f_equal; lia|]. rewrite take_0, app_nil_r.
    rewrite list_insert_id by exact Hold. now rewrite set_fuel_ring_fsr_ids_id.
  - intros a I q Ha [-> ->].
    destruct (lookup_lt_is_Some_2 ids (I0 + a) ltac:(lia)) as [x Hx].
    eexists _, _. split.
    + unfold bind, gets, lift, modify, ret. simpl.
      rewrite (py_get_nat _ r (old ++ take a (drop I0 ids)))
        by (now apply list_lookup_insert_eq).
      rewrite (py_get_nat _ _ _ Hx).
      rewrite py_set_nat by (now rewrite length_insert).
      rewrite list_insert_insert_eq. reflexivity.
    + split; [lia|]. rewrite <- app_assoc. now rewrite (take_drop_snoc _ _ _ _ Hx).
  - rewrite Hloop, HI, Hp'. reflexivity.
Qed.

Lemma rings_filled_0 (ids : list Z) (NA : nat) (olds : list (list Z)) :
  rings_filled ids NA 0 olds = olds.
Proof.
  apply list_eq. intros i. unfold rings_filled. rewrite list_lookup_imap.
  destruct (olds !! i); reflexivity.
Qed.

Lemma rings_filled_step (ids : list Z) (NA r : nat) (olds : list (list Z))
    (old : list Z) :
  olds !! r = Some old ->
  <[r := old ++ fsr_block ids NA r]> (rings_filled ids NA r olds)
    = rings_filled ids NA (S r) olds.
Proof.
  intros Hold. apply list_eq. intros i. unfold rings_filled.
  destruct (decide (i = r)) as [->|Hne].
  - rewrite list_lookup_insert_eq
      by (rewrite length_imap; now apply lookup_lt_Some in Hold).
    rewrite list_lookup_imap, Hold. simpl.
    destruct (decide (r < S r)%nat); [reflexivity|lia].
  - rewrite list_lookup_insert_ne by congruence.
    rewrite !list_lookup_imap. destruct (olds !! i); [simpl|reflexivity].
    destruct (decide (i < r)%nat), (decide (i < S r)%nat); try reflexivity; lia.
Qed.

Lemma rings_filled_all (ids : list Z) (NA : nat) (olds : list (list Z)) :
  rings_filled ids NA (length olds) olds
    = imap (fun k old => old ++ fsr_block ids NA k) olds.
Proof.
  apply list_eq. intros i. unfold rings_filled. rewrite !list_lookup_imap.
  destruct (olds !! i) eqn:E; [simpl|reflexivity].
  apply lookup_lt_Some in E.
  destruct (decide (i < length olds)%nat); [reflexivity|lia].
Qed.

(** The loop over the rings. *)
Lemma take_all_ring_ids_spec (ids : list Z) (NA n : nat) (p : FuelPin) :
  length p.(_fuel_ring_fsr_ids) = n ->
  (n * NA <= length ids)%nat ->
  for_acc (py_range (Z.of_nat n)) (take_ring_ids ids (Z.of_nat NA)) 0 p
    = (inr (Z.of_nat (n * NA)),
       set_fuel_ring_fsr_ids
         (imap (fun k old => old ++ fsr_block ids NA k) p.(_fuel_ring_fsr_ids)) p).
Proof.
  intros Hn Hlen.
  destruct (for_acc_range_inv
    (fun r I q => I = Z.of_nat (r * NA) /\
                  q = set_fuel_ring_fsr_ids
                        (rings_filled ids NA r p.(_fuel_ring_fsr_ids)) p)
    (take_ring_ids ids (Z.of_nat NA)) n 0 p) as (I' & p' & Hloop & HI & Hp').
  - split; [reflexivity|]. now rewrite rings_filled_0, set_fuel_ring_fsr_ids_id.
  - intros r I q Hr [-> ->].
    destruct (lookup_lt_is_Some_2 p.(_fuel_ring_fsr_ids) r ltac:(lia)) as [old Hold].
    eexists _, _. split.
    + apply (take_ring_ids_spec ids NA (r * NA) r old).
      * simpl. unfold rings_filled. rewrite list_lookup_imap, Hold. simpl.
        destruct (decide (r < r)%nat); [lia|reflexivity].
      * nia.
    + split; [f_equal; lia|]. simpl.
      fold (fsr_block ids NA r). rewrite (rings_filled_step _ _ _ _ _ Hold).
      reflexivity.
  - rewrite Hloop, HI, Hp'. subst n. now rewrite rings_filled_all.
Qed.

Lemma angular_divisions_count (t : PinCellType) :
  angular_divisions t = Z.of_nat (angular_count t).
Proof. now destruct t. Qed.

Lemma check_dx_dy_passes (p : FuelPin) (dx dy : float) (t : PinCellType) :
  footprint_too_small (clad_radius p) dx dy t = false ->
  _check_dx_dy dx dy t p = (inr tt, p).
Proof.
  unfold footprint_too_small, _check_dx_dy, bind, gets, raise, ret.
  intros Hok. destruct t; simpl in *; apply orb_false_iff in Hok as [-> ->]; reflexivity.
Qed.

Lemma check_dx_dy_raises (p : FuelPin) (dx dy : float) (t : PinCellType) :
  footprint_too_small (clad_radius p) dx dy t = true ->
  exists msg, _check_dx_dy dx dy t p = (inl (ValueError msg), p).
Proof.
  unfold footprint_too_small, _check_dx_dy, bind, gets, raise, ret.
  intros Hbad.
  destruct t; simpl in *; apply orb_true_iff in Hbad;
    match goal with
    | |- context [if ?b then _ else _] => destruct b eqn:E1
    end; eauto;
    match goal with
    | |- context [if ?b then _ else _] => destruct b eqn:E2
    end; eauto; destruct Hbad; congruence.
Qed.

(** The cell gets a radius for every fuel ring, for the gap if its cross
    section is there, and for the cladding. *)
Lemma moc_cell_layers_spec (p : FuelPin) (cxs mxs : CrossSection) (dx dy : float)
    (t : PinCellType) :
  (is_Some_b p.(_gap_xs) = true -> is_Some_b (gap_radius p) = true) ->
  exists radii xss,
    moc_cell_layers cxs mxs dx dy t p = (inr (radii, xss), p) /\
    (length p.(_fuel_radii) + (if is_Some_b p.(_gap_xs) then 1 else 0) + 1
       <= length radii)%nat.
Proof.
  intros Hgr. unfold moc_cell_layers, bind, gets, ret, raise.
  destruct (_gap_xs p) as [gx|]; simpl in *.
  - destruct (gap_radius p) as [Rg|]; [|discriminate (Hgr eq_refl)].
    eexists _, _. split; [reflexivity|].
    destruct (moderator_ring (clad_radius p) dx dy t); simpl;
      rewrite ?length_app; simpl; lia.
  - eexists _, _. split; [reflexivity|].
    destruct (moderator_ring (clad_radius p) dx dy t); simpl;
      rewrite ?length_app; simpl; lia.
Qed.

Lemma record_fsr_ids_spec (p : FuelPin) (ids : list Z) (NA N : nat) :
  let G := if is_Some_b p.(_gap_xs) then 1%nat else 0%nat in
  num_fuel_rings p = Z.of_nat N ->
  length p.(_fuel_ring_fsr_ids) = N ->
  ((N + G + 1) * NA <= length ids)%nat ->
  exists p',
    record_fsr_ids ids (Z.of_nat NA) p = (inr tt, p') /\
    p'.(_fuel_ring_fsr_ids)
      = imap (fun k old => old ++ fsr_block ids NA k) p.(_fuel_ring_fsr_ids) /\
    p'.(_gap_fsr_ids)
      = (if is_Some_b p.(_gap_xs) then p.(_gap_fsr_ids) ++ fsr_block ids NA N
         else p.(_gap_fsr_ids)) /\
    p'.(_clad_fsr_ids) = p.(_clad_fsr_ids) ++ fsr_block ids NA (N + G) /\
    p'.(_mod_fsr_ids) = drop ((N + G + 1) * NA) ids.
Proof.
  intros G Hn Hids Hlen. unfold record_fsr_ids.
  unfold bind at 1, gets at 1. rewrite Hn.
  assert (N * NA <= length ids)%nat as Hrings by nia.
  unfold bind at 1. rewrite (take_all_ring_ids_spec ids NA N p Hids Hrings).
  unfold bind at 1, gets at 1. simpl _gap_xs.
  destruct (_gap_xs p) as [gx|] eqn:Egx; simpl in G; subst G; simpl is_Some_b; cbv iota.
  - unfold bind at 1.
    rewrite (take_ids_spec ids NA (N * NA) _gap_fsr_ids set_gap_fsr_ids);
      [|reflexivity|reflexivity|now destruct p|nia].
    unfold bind at 1.
    rewrite (take_ids_spec ids NA (N * NA + NA) _clad_fsr_ids set_clad_fsr_ids);
      [|reflexivity|reflexivity|now destruct p|nia].
    eexists. split; [reflexivity|]. simpl. unfold fsr_block, py_slice_from.
    rewrite Nat2Z.id.
    replace ((N + 1) * NA)%nat with (N * NA + NA)%nat by lia.
    replace ((N + 1 + 1) * NA)%nat with (N * NA + NA + NA)%nat by lia.
    repeat split.
  - unfold bind at 1, ret at 1. unfold bind at 1.
    rewrite (take_ids_spec ids NA (N * NA) _clad_fsr_ids set_clad_fsr_ids);
      [|reflexivity|reflexivity|now destruct p|nia].
    eexists. split; [reflexivity|]. simpl. unfold fsr_block, py_slice_from.
    rewrite Nat2Z.id.
    replace (N + 0)%nat with N by lia.
    replace ((N + 1) * NA)%nat with (N * NA + NA)%nat by lia.
    repeat split.
Qed.

(** C7.  [make_moc_cell] raises [RuntimeError], leaving the pin as it
    was, when the fuel cross sections are not one per ring, when the pin
    has a gap whose cross section is missing, and when the cross section
    of the cladding is missing; it raises [ValueError] when the footprint
    of the cell is too small for the cladding.  Otherwise, on a pin with
    [N] rings whose cell has enough regions, it returns the cell, and with
    [ids] the sorted identifiers of the cell and [NA] the angular count of
    the cell type (8, 4 or 2), ring [k] has received block [k] of [ids],
    the gap (if its cross section is there) block [N], the cladding the
    next block, and [_mod_fsr_ids] is all the rest. *)
Theorem make_moc_cell_partition (p : FuelPin) (moderator_xs : CrossSection)
    (dx dy : float) (pintype : PinCellType) :
  (Z.of_nat (length p.(_fuel_ring_xs)) <> num_fuel_rings p ->
   make_moc_cell moderator_xs dx dy pintype p
     = (inl (RuntimeError "Fuel cross sections have not yet been built."), p)) /\
  (Z.of_nat (length p.(_fuel_ring_xs)) = num_fuel_rings p ->
   is_Some_b (gap p) = true -> p.(_gap_xs) = None ->
   make_moc_cell moderator_xs dx dy pintype p
     = (inl (RuntimeError "Gap cross section has not yet been built."), p)) /\
  (Z.of_nat (length p.(_fuel_ring_xs)) = num_fuel_rings p ->
   is_Some_b (gap p) && negb (is_Some_b p.(_gap_xs)) = false ->
   p.(_clad_xs) = None ->
   make_moc_cell moderator_xs dx dy pintype p
     = (inl (RuntimeError "Clad cross section has not yet been built."), p)) /\
  (Z.of_nat (length p.(_fuel_ring_xs)) = num_fuel_rings p ->
   is_Some_b (gap p) && negb (is_Some_b p.(_gap_xs)) = false ->
   is_Some_b p.(_clad_xs) = true ->
   footprint_too_small (clad_radius p) dx dy pintype = true ->
   exists msg,
     make_moc_cell moderator_xs dx dy pintype p = (inl (ValueError msg), p)) /\
  (forall N : nat,
   let NA := angular_count pintype in
   let G := if is_Some_b p.(_gap_xs) then 1%nat else 0%nat in
   num_fuel_rings p = Z.of_nat N ->
   length p.(_fuel_ring_xs) = N ->
   length p.(_fuel_radii) = N ->
   length p.(_fuel_ring_fsr_ids) = N ->
   is_Some_b (gap p) && negb (is_Some_b p.(_gap_xs)) = false ->
   (is_Some_b p.(_gap_xs) = true -> is_Some_b (gap_radius p) = true) ->
   is_Some_b p.(_clad_xs) = true ->
   footprint_too_small (clad_radius p) dx dy pintype = false ->
   (forall radii xss, (N + G + 1 <= length radii)%nat ->
      ((N + G + 1) * NA
         <= length (get_all_fsr_ids (PinCell_new radii xss dx dy pintype)))%nat) ->
   exists cell p',
     make_moc_cell moderator_xs dx dy pintype p = (inr cell, p') /\
     let ids := merge_sort Z.le (get_all_fsr_ids cell) in
     Sorted Z.le ids /\ ids ≡ₚ get_all_fsr_ids cell /\
     p'.(_fuel_ring_fsr_ids)
       = imap (fun k old => old ++ fsr_block ids NA k) p.(_fuel_ring_fsr_ids) /\
     p'.(_gap_fsr_ids)
       = (if is_Some_b p.(_gap_xs) then p.(_gap_fsr_ids) ++ fsr_block ids NA N
          else p.(_gap_fsr_ids)) /\
     p'.(_clad_fsr_ids) = p.(_clad_fsr_ids) ++ fsr_block ids NA (N + G) /\
     p'.(_mod_fsr_ids) = drop ((N + G + 1) * NA) ids).
Proof.
  split; [|split; [|split; [|split]]].
  - intros Hn. unfold make_moc_cell, bind, gets, raise.
    destruct (Z.eqb_spec (Z.of_nat (length (_fuel_ring_xs p))) (num_fuel_rings p));
      [contradiction|reflexivity].
  - intros Hn Hg Hgx. unfold make_moc_cell, bind, gets, raise.
    rewrite Hn, Z.eqb_refl, Hg, Hgx. reflexivity.
  - intros Hn Hg Hc. unfold make_moc_cell, bind, gets, raise.
    rewrite Hn, Z.eqb_refl, Hg, Hc. reflexivity.
  - intros Hn Hg Hc Hbad. destruct (check_dx_dy_raises p dx dy pintype Hbad) as [msg Hmsg].
    exists msg. unfold make_moc_cell, bind at 1 2 3 4 5, gets at 1 2 3 4 5.
    rewrite Hn, Z.eqb_refl, Hg. simpl.
    destruct (_clad_xs p) as [cxs|]; [|discriminate Hc].
    unfold bind at 1. now rewrite Hmsg.
  - intros N NA G Hn Hxs Hradii Hids Hg Hgr Hc Hok Hcell.
    destruct (_clad_xs p) as [cxs|] eqn:Ecxs; [clear Hc|discriminate Hc].
    destruct (moc_cell_layers_spec p cxs moderator_xs dx dy pintype Hgr)
      as (radii & xss & Hlayers & Hlen).
    set (cell := PinCell_new radii xss dx dy pintype).
    set (ids := merge_sort Z.le (get_all_fsr_ids cell)).
    destruct (record_fsr_ids_spec p ids NA N Hn Hids) as (p' & Hrec & Hfuel & Hgap & Hclad & Hmod).
    { unfold ids. rewrite (Permutation_length (merge_sort_Permutation Z.le _)).
      apply Hcell. fold G in Hlen. lia. }
    exists cell, p'. split.
    + unfold make_moc_cell, bind at 1 2 3 4 5, gets at 1 2 3 4 5.
      rewrite Hn, Hxs, Z.eqb_refl, Hg, Ecxs. cbn [negb].
      unfold bind at 1. rewrite (check_dx_dy_passes p dx dy pintype Hok).
      unfold bind at 1. rewrite Hlayers. simpl fst. simpl snd.
      fold cell. fold ids. rewrite angular_divisions_count. fold NA.
      unfold bind at 1. rewrite Hrec. reflexivity.
    + cbv zeta. fold ids. split; [apply Sorted_merge_sort; apply _|].
      split; [apply merge_sort_Permutation|].
      repeat split; assumption.
Qed.

(** ** The loop bodies of the depletion methods act on one ring *)

Lemma ring_at_Some (p : FuelPin) (r : nat) (rs : RingState) :
  ring_at p r = Some rs ->
  p.(_fuel_ring_materials) !! r = Some rs.(rs_materials) /\
  p.(_fuel_ring_flux_spectra) !! r = Some rs.(rs_flux) /\
  p.(_fuel_ring_prev_dep_mats) !! r = Some rs.(rs_prev) /\
  p.(_fuel_ring_current_dep_mats) !! r = Some rs.(rs_current).
Proof.
  unfold ring_at. intros Hrs.
  destruct (_fuel_ring_materials p !! r), (_fuel_ring_flux_spectra p !! r),
    (_fuel_ring_prev_dep_mats p !! r), (_fuel_ring_current_dep_mats p !! r);
    try discriminate Hrs.
  injection Hrs as <-. repeat split.
Qed.

Lemma set_ring_eq (p : FuelPin) (r : nat) (rs : RingState)
    (ms : list (list Material)) (cu : list (option DepletionMatrix))
    (pv : list (option DepletionMatrix)) :
  p.(_fuel_ring_flux_spectra) !! r = Some rs.(rs_flux) ->
  ms = <[r := rs.(rs_materials)]> p.(_fuel_ring_materials) ->
  pv = <[r := rs.(rs_prev)]> p.(_fuel_ring_prev_dep_mats) ->
  cu = <[r := rs.(rs_current)]> p.(_fuel_ring_current_dep_mats) ->
  mkFuelPin p.(_fuel_radius) p.(_num_fuel_rings) p.(_gap) p.(_gap_radius)
    p.(_clad) p.(_clad_radius) p.(_fuel_dancoff_corrections)
    p.(_clad_dancoff_corrections)
    p.(_fuel_ring_fsr_ids) p.(_gap_fsr_ids) p.(_clad_fsr_ids) p.(_mod_fsr_ids)
    p.(_fuel_ring_fsr_inds) p.(_fuel_radii) ms
    p.(_fuel_ring_flux_spectra) pv cu p.(_fuel_ring_xs) p.(_gap_xs) p.(_clad_xs)
  = set_ring r rs p.
Proof.
  intros Hfl -> -> ->. unfold set_ring, set_fuel_ring_current_dep_mats,
    set_fuel_ring_prev_dep_mats, set_fuel_ring_flux_spectra, set_fuel_ring_materials.
  simpl. now rewrite (list_insert_id _ _ _ Hfl).
Qed.

Ltac ring_lists :=
  rewrite ?list_insert_insert_eq;
  first [ reflexivity | symmetry; apply list_insert_id; assumption ].

Ltac ring_pin :=
  unfold set_fuel_ring_materials, set_fuel_ring_current_dep_mats,
    set_fuel_ring_prev_dep_mats; simpl;
  apply set_ring_eq; simpl; [assumption|ring_lists..].

Lemma predict_ring_acts_on_ring (chain : DepletionChain) (ndl : NDLibrary)
    (dt : float) (dtm1 : option float) (p : FuelPin) (r : nat) (rs rs' : RingState) :
  ring_at p r = Some rs ->
  predict_ring_state chain ndl dt dtm1 rs = inr rs' ->
  predict_ring chain ndl dt dtm1 (Z.of_nat r) p = (inr tt, set_ring r rs' p).
Proof.
  intros Hat Hstep.
  destruct (ring_at_Some p r rs Hat) as (Hms & Hfl & Hpv & Hcu).
  destruct rs as [ms fl pv cu]. simpl in *.
  unfold predict_ring_state in Hstep. simpl in Hstep.
  unfold predict_ring, store_current, store_tip, append_material, bind, gets, lift,
    modify, ret.
  simpl.
  rewrite (py_get_nat _ _ _ Hfl), (py_get_nat _ _ _ Hms).
  destruct (py_get ms (-1)) as [e|mat] eqn:Emat; [discriminate Hstep|].
  simpl in Hstep.
  rewrite py_set_nat by (now apply lookup_lt_Some in Hcu). simpl.
  rewrite (py_get_nat _ _ _ Hms).
  destruct (py_set ms (-1) (clear_all_micro_xs_data mat)) as [e|ms1] eqn:Ems1;
    [discriminate Hstep|].
  simpl in Hstep.
  rewrite py_set_nat by (now apply lookup_lt_Some in Hms). simpl.
  set (A0 := build_depletion_matrix chain mat fl ndl) in *.
  set (mat' := clear_all_micro_xs_data mat) in *.
  destruct (init_densities (dm_size A0) (dm_nuclides A0) mat') as [e|N0];
    [discriminate Hstep|].
  simpl in Hstep.
  rewrite (py_get_nat _ _ _ Hpv).
  assert (r < length (_fuel_ring_current_dep_mats p))%nat as Hrc
    by (now apply lookup_lt_Some in Hcu).
  assert (r < length (_fuel_ring_materials p))%nat as Hrm
    by (now apply lookup_lt_Some in Hms).
  destruct pv as [Am1|], dtm1 as [d|]; simpl in Hstep |- *.
  - destruct (predict_leqi dt d Am1 A0 N0) as [e|N1]; [discriminate Hstep|].
    simpl in Hstep |- *.
    destruct (new_composition (dm_nuclides A0) N1) as [e|comp]; [discriminate Hstep|].
    simpl in Hstep |- *. injection Hstep as <-.
    rewrite (py_get_nat _ r ms1) by (now apply list_lookup_insert_eq).
    rewrite py_set_nat by (now rewrite length_insert). simpl.
    f_equal. ring_pin.
  - rewrite !py_set_nat by (now rewrite ?length_insert). simpl.
    rewrite !py_set_nat by (now rewrite ?length_insert). simpl.
    destruct (new_composition (dm_nuclides A0) _) as [e|comp]; [discriminate Hstep|].
    simpl in Hstep |- *. injection Hstep as <-.
    rewrite (py_get_nat _ r ms1) by (now apply list_lookup_insert_eq).
    rewrite py_set_nat by (now rewrite length_insert). simpl.
    f_equal. ring_pin.
  - rewrite !py_set_nat by (now rewrite ?length_insert). simpl.
    rewrite !py_set_nat by (now rewrite ?length_insert). simpl.
    destruct (new_composition (dm_nuclides A0) _) as [e|comp]; [discriminate Hstep|].
    simpl in Hstep |- *. injection Hstep as <-.
    rewrite (py_get_nat _ r ms1) by (now apply list_lookup_insert_eq).
    rewrite py_set_nat by (now rewrite length_insert). simpl.
    f_equal. ring_pin.
  - rewrite !py_set_nat by (now rewrite ?length_insert). simpl.
    rewrite !py_set_nat by (now rewrite ?length_insert). simpl.
    destruct (new_composition (dm_nuclides A0) _) as [e|comp]; [discriminate Hstep|].
    simpl in Hstep |- *. injection Hstep as <-.
    rewrite (py_get_nat _ r ms1) by (now apply list_lookup_insert_eq).
    rewrite py_set_nat by (now rewrite length_insert). simpl.
    f_equal. ring_pin.
Qed.

Lemma correct_ring_acts_on_ring (chain : DepletionChain) (ndl : NDLibrary)
    (dt : float) (dtm1 : option float) (p : FuelPin) (r : nat) (rs rs' : RingState) :
  ring_at p r = Some rs ->
  correct_ring_state chain ndl dt dtm1 rs = inr rs' ->
  correct_ring chain ndl dt dtm1 (Z.of_nat r) p = (inr tt, set_ring r rs' p).
Proof.
  intros Hat Hstep.
  destruct (ring_at_Some p r rs Hat) as (Hms & Hfl & Hpv & Hcu).
  destruct rs as [ms fl pv cu]. simpl in *.
  unfold correct_ring_state in Hstep. simpl in Hstep.
  unfold correct_ring, store_current, store_prev, store_tip, bind, gets, lift,
    modify, ret.
  simpl.
  rewrite (py_get_nat _ _ _ Hfl), (py_get_nat _ _ _ Hms).
  destruct (py_get ms (-1)) as [e|mat_pred] eqn:Emat; [discriminate Hstep|].
  simpl in Hstep.
  rewrite (py_get_nat _ _ _ Hcu).
  destruct (py_get ms (-2)) as [e|mat_old] eqn:Eold; [discriminate Hstep|].
  simpl in Hstep.
  set (Ap1 := build_depletion_matrix chain mat_pred fl ndl) in *.
  destruct (init_densities (dm_size Ap1) (dm_nuclides Ap1) mat_old) as [e|N0];
    [discriminate Hstep|].
  simpl in Hstep.
  rewrite (py_get_nat _ _ _ Hpv).
  assert (r < length (_fuel_ring_current_dep_mats p))%nat as Hrc
    by (now apply lookup_lt_Some in Hcu).
  assert (r < length (_fuel_ring_prev_dep_mats p))%nat as Hrp
    by (now apply lookup_lt_Some in Hpv).
  assert (r < length (_fuel_ring_materials p))%nat as Hrm
    by (now apply lookup_lt_Some in Hms).
  destruct (match pv with
            | Some Am1 =>
                match dtm1 with
                | Some dtm2 => correct_leqi dt dtm2 Am1 cu Ap1 N0
                | None => correct_celi dt cu Ap1 N0
                end
            | None => correct_celi dt cu Ap1 N0
            end) as [e|N1]; [discriminate Hstep|].
  simpl in Hstep.
  destruct (new_composition (dm_nuclides Ap1) N1) as [e|comp]; [discriminate Hstep|].
  simpl in Hstep.
  destruct (py_set ms (-1) _) as [e|ms1]; [discriminate Hstep|].
  injection Hstep as <-.
  repeat (rewrite py_set_nat by (now rewrite ?length_insert); simpl).
  f_equal.
  unfold set_fuel_ring_materials, set_fuel_ring_current_dep_mats,
    set_fuel_ring_prev_dep_mats; simpl.
  apply set_ring_eq; simpl; [assumption|ring_lists..].
Qed.

(** ** Density vectors and compositions *)

Lemma fill_densities_spec (mat : Material) (nuclides : list Nuclide) :
  forall (done : list float) (rest : list float),
    length rest = length nuclides ->
    fill_densities mat nuclides (Z.of_nat (length done)) (done ++ rest)
      = inr (done ++ map (atom_density mat) nuclides).
Proof.
  induction nuclides as [|nuclide nuclides IH]; intros done rest Hlen; simpl.
  - destruct rest; [reflexivity|discriminate Hlen].
  - destruct rest as [|z rest]; [discriminate Hlen|].
    rewrite py_set_nat by (rewrite length_app; simpl; lia).
    rewrite insert_app_r_alt by lia. rewrite Nat.sub_diag. simpl.
    replace (Z.of_nat (length done) + 1) with (Z.of_nat (length (done ++ [atom_density mat nuclide])))
      by (rewrite length_app; simpl; lia).
    rewrite (app_assoc done [_] rest : done ++ atom_density mat nuclide :: rest = _).
    rewrite IH by (simpl in Hlen; lia).
    now rewrite <- app_assoc.
Qed.

Lemma init_densities_spec (mat : Material) (nuclides : list Nuclide) (size : nat) :
  size = length nuclides ->
  init_densities size nuclides mat = inr (map (atom_density mat) nuclides).
Proof.
  intros ->. unfold init_densities.
  apply (fill_densities_spec mat nuclides [] (replicate (length nuclides) 0%float)).
  apply length_replicate.
Qed.

Lemma collect_positive_spec (nuclides : list Nuclide) :
  forall (pre N : list float) (comp : MaterialComposition),
    length N = length nuclides ->
    collect_positive nuclides (Z.of_nat (length pre)) (pre ++ N) comp
      = inr (comp ++ positive_densities nuclides N).
Proof.
  induction nuclides as [|nuclide nuclides IH]; intros pre N comp Hlen; simpl.
  - destruct N; [|discriminate Hlen]. now rewrite app_nil_r.
  - destruct N as [|x N]; [discriminate Hlen|].
    rewrite (py_get_nat _ _ x) by (now rewrite list_lookup_middle).
    replace (Z.of_nat (length pre) + 1) with (Z.of_nat (length (pre ++ [x])))
      by (rewrite length_app; simpl; lia).
    rewrite (app_assoc pre [_] N : pre ++ x :: N = _).
    rewrite IH by (simpl in Hlen; lia).
    unfold positive_densities, add_nuclide. simpl zip.
    rewrite filter_cons. simpl.
    destruct (0 <? x)%float eqn:Ex.
    + rewrite decide_True by reflexivity. now rewrite <- app_assoc.
    + rewrite decide_False by discriminate. reflexivity.
Qed.

Lemma new_composition_spec (nuclides : list Nuclide) (N : list float) :
  length N = length nuclides ->
  new_composition nuclides N = inr (positive_densities nuclides N).
Proof.
  intros Hlen. unfold new_composition.
  apply (collect_positive_spec nuclides [] N MaterialComposition_new Hlen).
Qed.

(** A nuclide is in the new composition exactly when its density is
    strictly positive, and it is there with that density. *)
Lemma positive_densities_elem (nuclides : list Nuclide) (N : list float)
    (n : Nuclide) (d : float) :
  (n, d) ∈ positive_densities nuclides N <->
  (0 <? d)%float = true /\ exists i, nuclides !! i = Some n /\ N !! i = Some d.
Proof.
  unfold positive_densities. rewrite list_elem_of_filter. simpl.
  rewrite list_elem_of_lookup. split.
  - intros (Hd & i & Hi). split; [exact Hd|]. exists i.
    apply lookup_zip_with_Some in Hi as (n' & d' & E & Hn & HN).
    injection E as -> ->. now split.
  - intros (Hd & i & Hn & HN). split; [exact Hd|]. exists i.
    apply lookup_zip_with_Some. eauto.
Qed.

Lemma predictor_densities_length (dt : float) (dtm1 : option float)
    (Am1 : option DepletionMatrix) (A0 : DepletionMatrix) (N : list float) :
  length (predictor_densities dt dtm1 Am1 A0 N) = length N.
Proof.
  unfold predictor_densities.
  destruct Am1, dtm1; now rewrite ?exponential_product_length.
Qed.

Lemma corrector_densities_length (dt : float) (dtm1 : option float)
    (Am1 : option DepletionMatrix) (A0 Ap1 : DepletionMatrix) (N : list float) :
  length (corrector_densities dt dtm1 Am1 A0 Ap1 N) = length N.
Proof.
  unfold corrector_densities.
  destruct Am1, dtm1; now rewrite ?exponential_product_length.
Qed.

(** ** The integrators *)

Lemma predict_leqi_spec (dt d : float) (Am1 A0 : DepletionMatrix) (N : list float) :
  (12 * d =? 0)%float = false ->
  predict_leqi dt d Am1 A0 N
    = inr (exponential_product (leqi_F1 dt d Am1 A0)
             (exponential_product (leqi_F2 dt d Am1 A0) N)).
Proof.
  intros Hd. unfold predict_leqi, py_div, ebind. rewrite Hd. reflexivity.
Qed.

Lemma correct_celi_spec (dt : float) (A0 Ap1 : DepletionMatrix) (N : list float) :
  correct_celi dt (Some A0) Ap1 N
    = inr (exponential_product (celi_F1 dt A0 Ap1)
             (exponential_product (celi_F2 dt A0 Ap1) N)).
Proof. reflexivity. Qed.

Lemma correct_leqi_spec (dt d : float) (Am1 A0 Ap1 : DepletionMatrix) (N : list float) :
  (12 * d * (d + dt) =? 0)%float = false ->
  (12 * (d + dt) =? 0)%float = false ->
  correct_leqi dt d Am1 (Some A0) Ap1 N
    = inr (exponential_product (leqi_F3 dt d Am1 A0 Ap1)
             (exponential_product (leqi_F4 dt d Am1 A0 Ap1) N)).
Proof.
  intros H1 H2. unfold correct_leqi, py_div, ebind, scale_opt. rewrite H1, H2.
  reflexivity.
Qed.

(** ** The step of one ring *)

Lemma predict_ring_state_eval (chain : DepletionChain) (ndl : NDLibrary)
    (dt : float) (dtm1 : option float) (ms : list Material) (mat : Material)
    (fl : Flux) (pv cu : option DepletionMatrix) :
  builder_sized chain ndl ->
  pv = None \/ predict_divisors_ok dtm1 = true ->
  let A0 := build_depletion_matrix chain mat fl ndl in
  let mat' := clear_all_micro_xs_data mat in
  let N0 := map (atom_density mat') (dm_nuclides A0) in
  predict_ring_state chain ndl dt dtm1 (mkRingState _ (ms ++ [mat]) fl pv cu)
    = inr (mkRingState _
             (ms ++ [mat';
                     Material_new
                       (positive_densities (dm_nuclides A0)
                          (predictor_densities dt dtm1 pv A0 N0))
                       (temperature mat') ndl])
             fl pv (Some (predictor_current dt dtm1 pv A0))).
Proof.
  intros Hsized Hdiv A0 mat' N0. unfold predict_ring_state. simpl.
  rewrite py_get_last. simpl. fold A0 mat'.
  rewrite py_set_last. simpl.
  rewrite (init_densities_spec mat' (dm_nuclides A0)) by apply Hsized.
  simpl. fold N0.
  assert (forall N, length N = length N0 ->
            new_composition (dm_nuclides A0) N
              = inr (positive_densities (dm_nuclides A0) N)) as Hcomp.
  { intros N HN. apply new_composition_spec. rewrite HN. unfold N0.
    apply length_map. }
  destruct pv as [Am1|], dtm1 as [d|]; simpl.
  - destruct Hdiv as [Hdiv|Hdiv]; [discriminate Hdiv|].
    simpl in Hdiv. apply negb_true_iff in Hdiv.
    rewrite (predict_leqi_spec dt d Am1 A0 N0 Hdiv). simpl.
    rewrite Hcomp by (now rewrite !exponential_product_length). simpl.
    now rewrite <- app_assoc.
  - rewrite Hcomp by (now rewrite !exponential_product_length). simpl.
    now rewrite <- app_assoc.
  - rewrite Hcomp by (now rewrite !exponential_product_length). simpl.
    now rewrite <- app_assoc.
  - rewrite Hcomp by (now rewrite !exponential_product_length). simpl.
    now rewrite <- app_assoc.
Qed.

Lemma correct_ring_state_eval (chain : DepletionChain) (ndl : NDLibrary)
    (dt : float) (dtm1 : option float) (ms : list Material)
    (mat_old mat_pred : Material) (fl : Flux) (pv : option DepletionMatrix)
    (A0 : DepletionMatrix) :
  builder_sized chain ndl ->
  pv = None \/ correct_divisors_ok dt dtm1 = true ->
  let Ap1 := build_depletion_matrix chain mat_pred fl ndl in
  let N0 := map (atom_density mat_old) (dm_nuclides Ap1) in
  correct_ring_state chain ndl dt dtm1
      (mkRingState _ (ms ++ [mat_old; mat_pred]) fl pv (Some A0))
    = inr (mkRingState _
             (ms ++ [mat_old;
                     Material_new
                       (positive_densities (dm_nuclides Ap1)
                          (corrector_densities dt dtm1 pv A0 Ap1 N0))
                       (temperature mat_pred) ndl])
             fl (Some A0) None).
Proof.
  intros Hsized Hdiv Ap1 N0. unfold correct_ring_state. simpl.
  assert (py_get (ms ++ [mat_old; mat_pred]) (-1) = inr mat_pred) as ->.
  { change (ms ++ [mat_old; mat_pred]) with (ms ++ [mat_old] ++ [mat_pred]).
    rewrite app_assoc. apply py_get_last. }
  simpl. fold Ap1. rewrite py_get_penultimate. simpl.
  rewrite (init_densities_spec mat_old (dm_nuclides Ap1)) by apply Hsized.
  simpl. fold N0.
  assert (forall N, length N = length N0 ->
            new_composition (dm_nuclides Ap1) N
              = inr (positive_densities (dm_nuclides Ap1) N)) as Hcomp.
  { intros N HN. apply new_composition_spec. rewrite HN. unfold N0.
    apply length_map. }
  assert (forall x, py_set (ms ++ [mat_old; mat_pred]) (-1) x
                    = inr (ms ++ [mat_old; x])) as Hset.
  { intros x. change (ms ++ [mat_old; mat_pred]) with (ms ++ [mat_old] ++ [mat_pred]).
    rewrite app_assoc, py_set_last. now rewrite <- app_assoc. }
  destruct pv as [Am1|], dtm1 as [d|]; simpl.
  - destruct Hdiv as [Hdiv|Hdiv]; [discriminate Hdiv|].
    simpl in Hdiv. apply andb_true_iff in Hdiv as [H1 H2].
    apply negb_true_iff in H1, H2.
    rewrite (correct_leqi_spec dt d Am1 A0 Ap1 N0 H1 H2). simpl.
    rewrite Hcomp by (now rewrite !exponential_product_length). simpl.
    now rewrite Hset.
  - rewrite Hcomp by (now rewrite !exponential_product_length). simpl.
    now rewrite Hset.
  - rewrite Hcomp by (now rewrite !exponential_product_length). simpl.
    now rewrite Hset.
  - rewrite Hcomp by (now rewrite !exponential_product_length). simpl.
    now rewrite Hset.
Qed.

(** ** Loops over the rings *)

Lemma rings_replaced_refl (p : FuelPin) : rings_replaced p p.
Proof. unfold rings_replaced. destruct p; simpl. repeat split. Qed.

Lemma rings_replaced_set_ring (p q : FuelPin) (r : nat) (rs : RingState) :
  rings_replaced p q -> rings_replaced p (set_ring r rs q).
Proof.
  intros (Hq & Hm & Hf & Hp & Hc). unfold rings_replaced, set_ring. simpl.
  rewrite !length_insert. split; [|repeat split; assumption].
  rewrite Hq. reflexivity.
Qed.

Lemma ring_at_set_ring_eq (q : FuelPin) (r : nat) (rs0 rs : RingState) :
  ring_at q r = Some rs0 -> ring_at (set_ring r rs q) r = Some rs.
Proof.
  intros Hat. destruct (ring_at_Some q r rs0 Hat) as (Hms & Hfl & Hpv & Hcu).
  apply lookup_lt_Some in Hms, Hfl, Hpv, Hcu.
  unfold ring_at, set_ring. simpl.
  rewrite !list_lookup_insert_eq by assumption. now destruct rs.
Qed.

Lemma ring_at_set_ring_ne (q : FuelPin) (r k : nat) (rs : RingState) :
  k <> r -> ring_at (set_ring k rs q) r = ring_at q r.
Proof.
  intros Hne. unfold ring_at, set_ring. simpl.
  now rewrite !list_lookup_insert_ne by assumption.
Qed.

(** A loop over the rings whose body acts on the ring of its index as
    [step] says: if [step] returns on every ring, the loop returns, and
    it has replaced the state of every ring by what [step] gives. *)
Lemma for_rings (body : Z -> M unit) (step : RingState -> exn + RingState)
    (n : nat) (p : FuelPin) :
  (forall q r rs rs',
     ring_at q r = Some rs -> step rs = inr rs' ->
     body (Z.of_nat r) q = (inr tt, set_ring r rs' q)) ->
  (forall r, (r < n)%nat ->
     exists rs rs', ring_at p r = Some rs /\ step rs = inr rs') ->
  exists p',
    for_ (py_range (Z.of_nat n)) body p = (inr tt, p') /\
    rings_replaced p p' /\
    (forall r rs rs', (r < n)%nat -> ring_at p r = Some rs -> step rs = inr rs' ->
       ring_at p' r = Some rs') /\
    (forall r, (n <= r)%nat -> ring_at p' r = ring_at p r).
Proof.
  intros Hbody Hready.
  destruct (for_range_inv
    (fun k q =>
       rings_replaced p q /\
       (forall r rs rs', (r < k)%nat -> ring_at p r = Some rs -> step rs = inr rs' ->
          ring_at q r = Some rs') /\
       (forall r, (k <= r)%nat -> ring_at q r = ring_at p r))
    body n p) as (p' & Hloop & Hrep & Hdone & Hrest).
  - split; [apply rings_replaced_refl|]. split; [intros; lia|reflexivity].
  - intros k q Hk (Hrep & Hdone & Hrest).
    destruct (Hready k Hk) as (rs & rs' & Hat & Hstep).
    assert (ring_at q k = Some rs) as Hq by (rewrite Hrest by lia; exact Hat).
    exists (set_ring k rs' q). split; [now apply (Hbody q k rs rs')|].
    split; [now apply rings_replaced_set_ring|]. split.
    + intros r rs1 rs1' Hr Hat1 Hstep1. destruct (decide (r = k)) as [->|Hne].
      * rewrite (ring_at_set_ring_eq q k rs rs' Hq). congruence.
      * rewrite ring_at_set_ring_ne by congruence. apply (Hdone r rs1); [lia|assumption..].
    + intros r Hr. rewrite ring_at_set_ring_ne by lia. apply Hrest. lia.
  - exists p'. split; [exact Hloop|]. split; [exact Hrep|]. split; assumption.
Qed.

Lemma has_rings_ring_at (p : FuelPin) (n r : nat) :
  has_rings p n -> (r < n)%nat -> exists rs, ring_at p r = Some rs.
Proof.
  intros (_ & Hm & Hf & Hp & Hc) Hr. unfold ring_at.
  destruct (lookup_lt_is_Some_2 p.(_fuel_ring_materials) r ltac:(lia)) as [ms ->].
  destruct (lookup_lt_is_Some_2 p.(_fuel_ring_flux_spectra) r ltac:(lia)) as [fl ->].
  destruct (lookup_lt_is_Some_2 p.(_fuel_ring_prev_dep_mats) r ltac:(lia)) as [pv ->].
  destruct (lookup_lt_is_Some_2 p.(_fuel_ring_current_dep_mats) r ltac:(lia)) as [cu ->].
  eauto.
Qed.

Lemma ring_at_lt (p : FuelPin) (n r : nat) (rs : RingState) :
  has_rings p n -> ring_at p r = Some rs -> (r < n)%nat.
Proof.
  intros (_ & Hm & _) Hat. destruct (ring_at_Some p r rs Hat) as (Hms & _).
  apply lookup_lt_Some in Hms. lia.
Qed.

Lemma rings_replaced_has_rings (p q : FuelPin) (n : nat) :
  has_rings p n -> rings_replaced p q -> has_rings q n.
Proof.
  intros (Hn & Hm & Hf & Hp & Hc) (Hq & Hm' & Hf' & Hp' & Hc').
  unfold has_rings. rewrite Hm', Hf', Hp', Hc'. repeat split; try assumption.
  rewrite Hq. exact Hn.
Qed.

(** [predict_depletion] and [correct_depletion] on a pin with [n] rings,
    when the step of every ring returns. *)
Lemma predict_depletion_rings (chain : DepletionChain) (ndl : NDLibrary)
    (dt : float) (dtm1 : option float) (p : FuelPin) (n : nat) :
  has_rings p n -> (dt <=? 0)%float = false ->
  (forall r rs, ring_at p r = Some rs ->
     exists rs', predict_ring_state chain ndl dt dtm1 rs = inr rs') ->
  exists p',
    predict_depletion chain ndl dt dtm1 p = (inr tt, p') /\
    rings_replaced p p' /\
    (forall r rs rs', ring_at p r = Some rs ->
       predict_ring_state chain ndl dt dtm1 rs = inr rs' -> ring_at p' r = Some rs').
Proof.
  intros Hn Hdt Hready.
  destruct (for_rings (predict_ring chain ndl dt dtm1)
              (predict_ring_state chain ndl dt dtm1) n p)
    as (p' & Hloop & Hrep & Hdone & _).
  - intros q r rs rs'. apply predict_ring_acts_on_ring.
  - intros r Hr. destruct (has_rings_ring_at p n r Hn Hr) as [rs Hat].
    destruct (Hready r rs Hat) as [rs' Hstep]. eauto.
  - exists p'. split; [|split; [exact Hrep|]].
    + unfold predict_depletion. rewrite Hdt. unfold bind, gets, num_fuel_rings.
      destruct Hn as (-> & _). exact Hloop.
    + intros r rs rs' Hat Hstep.
      apply (Hdone r rs rs'); [exact (ring_at_lt p n r rs Hn Hat)|assumption..].
Qed.

Lemma correct_depletion_rings (chain : DepletionChain) (ndl : NDLibrary)
    (dt : float) (dtm1 : option float) (p : FuelPin) (n : nat) :
  has_rings p n -> (dt <=? 0)%float = false ->
  (forall r rs, ring_at p r = Some rs ->
     exists rs', correct_ring_state chain ndl dt dtm1 rs = inr rs') ->
  exists p',
    correct_depletion chain ndl dt dtm1 p = (inr tt, p') /\
    rings_replaced p p' /\
    (forall r rs rs', ring_at p r = Some rs ->
       correct_ring_state chain ndl dt dtm1 rs = inr rs' -> ring_at p' r = Some rs').
Proof.
  intros Hn Hdt Hready.
  destruct (for_rings (correct_ring chain ndl dt dtm1)
              (correct_ring_state chain ndl dt dtm1) n p)
    as (p' & Hloop & Hrep & Hdone & _).
  - intros q r rs rs'. apply correct_ring_acts_on_ring.
  - intros r Hr. destruct (has_rings_ring_at p n r Hn Hr) as [rs Hat].
    destruct (Hready r rs Hat) as [rs' Hstep]. eauto.
  - exists p'. split; [|split; [exact Hrep|]].
    + unfold correct_depletion. rewrite Hdt. unfold bind, gets, num_fuel_rings.
      destruct Hn as (-> & _). exact Hloop.
    + intros r rs rs' Hat Hstep.
      apply (Hdone r rs rs'); [exact (ring_at_lt p n r rs Hn Hat)|assumption..].
Qed.

(** ** The depletion methods on a pin *)

Lemma ring_materials_snoc (ms : list Material) :
  ms <> [] -> exists init mat, ms = init ++ [mat].
Proof.
  intros Hne. destruct (decide (ms = [])) as [->|_]; [contradiction|].
  induction ms as [|x ms IH] using rev_ind; [contradiction|eauto].
Qed.

(** The predictor on a pin with [n] rings, each with a composition, when
    no division of LE/QI is by zero. *)
Lemma predict_depletion_result (chain : DepletionChain) (ndl : NDLibrary)
    (dt : float) (dtm1 : option float) (p : FuelPin) (n : nat) :
  has_rings p n -> (dt <=? 0)%float = false -> builder_sized chain ndl ->
  (forall r rs, ring_at p r = Some rs ->
     rs.(rs_materials) <> [] /\
     (rs.(rs_prev) = None \/ predict_divisors_ok dtm1 = true)) ->
  exists p',
    predict_depletion chain ndl dt dtm1 p = (inr tt, p') /\
    rings_replaced p p' /\
    (forall r ms mat fl pv cu,
       ring_at p r = Some (mkRingState _ (ms ++ [mat]) fl pv cu) ->
       let A0 := build_depletion_matrix chain mat fl ndl in
       let mat' := clear_all_micro_xs_data mat in
       let N0 := map (atom_density mat') (dm_nuclides A0) in
       ring_at p' r
         = Some (mkRingState _
                   (ms ++ [mat';
                           Material_new
                             (positive_densities (dm_nuclides A0)
                                (predictor_densities dt dtm1 pv A0 N0))
                             (temperature mat') ndl])
                   fl pv (Some (predictor_current dt dtm1 pv A0)))).
Proof.
  intros Hn Hdt Hsized Hready.
  destruct (predict_depletion_rings chain ndl dt dtm1 p n Hn Hdt)
    as (p' & Hrun & Hrep & Hdone).
  - intros r rs Hat. destruct (Hready r rs Hat) as (Hne & Hdiv).
    destruct rs as [ms fl pv cu]. simpl in *.
    destruct (ring_materials_snoc ms Hne) as (init & mat & ->).
    eexists. now apply predict_ring_state_eval.
  - exists p'. split; [exact Hrun|]. split; [exact Hrep|].
    intros r ms mat fl pv cu Hat A0 mat' N0.
    apply (Hdone r _ _ Hat). apply predict_ring_state_eval; [exact Hsized|].
    now destruct (Hready r _ Hat) as (_ & Hdiv).
Qed.

(** The corrector on a pin with [n] rings, each with a predicted
    composition over its composition and with a current matrix, when no
    division of LE/QI is by zero. *)
Lemma correct_depletion_result (chain : DepletionChain) (ndl : NDLibrary)
    (dt : float) (dtm1 : option float) (p : FuelPin) (n : nat) :
  has_rings p n -> (dt <=? 0)%float = false -> builder_sized chain ndl ->
  (forall r rs, ring_at p r = Some rs ->
     (exists ms mat_old mat_pred, rs.(rs_materials) = ms ++ [mat_old; mat_pred]) /\
     is_Some_b rs.(rs_current) = true /\
     (rs.(rs_prev) = None \/ correct_divisors_ok dt dtm1 = true)) ->
  exists p',
    correct_depletion chain ndl dt dtm1 p = (inr tt, p') /\
    rings_replaced p p' /\
    (forall r ms mat_old mat_pred fl pv A0,
       ring_at p r = Some (mkRingState _ (ms ++ [mat_old; mat_pred]) fl pv (Some A0)) ->
       let Ap1 := build_depletion_matrix chain mat_pred fl ndl in
       let N0 := map (atom_density mat_old) (dm_nuclides Ap1) in
       ring_at p' r
         = Some (mkRingState _
                   (ms ++ [mat_old;
                           Material_new
                             (positive_densities (dm_nuclides Ap1)
                                (corrector_densities dt dtm1 pv A0 Ap1 N0))
                             (temperature mat_pred) ndl])
                   fl (Some A0) None)).
Proof.
  intros Hn Hdt Hsized Hready.
  destruct (correct_depletion_rings chain ndl dt dtm1 p n Hn Hdt)
    as (p' & Hrun & Hrep & Hdone).
  - intros r rs Hat. destruct (Hready r rs Hat) as ((ms & mo & mp & Hms) & Hcu & Hdiv).
    destruct rs as [ms0 fl pv [A0|]]; simpl in *; [subst ms0|discriminate Hcu].
    eexists. now apply correct_ring_state_eval.
  - exists p'. split; [exact Hrun|]. split; [exact Hrep|].
    intros r ms mat_old mat_pred fl pv A0 Hat Ap1 N0.
    apply (Hdone r _ _ Hat). apply correct_ring_state_eval; [exact Hsized|].
    now destruct (Hready r _ Hat) as (_ & _ & Hdiv).
Qed.

Lemma rings_replaced_fsr_inds (p q : FuelPin) :
  rings_replaced p q -> q.(_fuel_ring_fsr_inds) = p.(_fuel_ring_fsr_inds).
Proof. intros (Hq & _). rewrite Hq. reflexivity. Qed.

Lemma ring_at_set_flux (p : FuelPin) (fls : list Flux) (r : nat)
    (ms : list Material) (fl fl' : Flux) (pv cu : option DepletionMatrix) :
  ring_at p r = Some (mkRingState _ ms fl pv cu) -> fls !! r = Some fl' ->
  ring_at (set_fuel_ring_flux_spectra fls p) r = Some (mkRingState _ ms fl' pv cu).
Proof.
  intros Hat Hfl. destruct (ring_at_Some p r _ Hat) as (Hms & _ & Hpv & Hcu).
  unfold ring_at. simpl in *. now rewrite Hms, Hfl, Hpv, Hcu.
Qed.

Lemma has_rings_set_flux (p : FuelPin) (fls : list Flux) (n : nat) :
  has_rings p n -> length fls = n -> has_rings (set_fuel_ring_flux_spectra fls p) n.
Proof. intros (Hn & Hm & _ & Hp & Hc) Hf. repeat split; assumption. Qed.

(** One step of depletion: the predictor, a transport solve whose flux
    spectra the pin fetches, and the corrector. *)
Lemma depletion_cycle_result (chain : DepletionChain) (ndl : NDLibrary)
    (moc : MOCDriver) (dt : float) (dtm1 : option float) (p : FuelPin) (n : nat) :
  has_rings p n -> length p.(_fuel_ring_fsr_inds) = n ->
  (dt <=? 0)%float = false -> builder_sized chain ndl ->
  (forall r rs, ring_at p r = Some rs ->
     rs.(rs_materials) <> [] /\
     (rs.(rs_prev) = None \/
      predict_divisors_ok dtm1 && correct_divisors_ok dt dtm1 = true)) ->
  exists p1 p2 p3,
    predict_depletion chain ndl dt dtm1 p = (inr tt, p1) /\
    obtain_flux_spectra moc p1 = (inr tt, p2) /\
    correct_depletion chain ndl dt dtm1 p2 = (inr tt, p3) /\
    (forall r ms mat fl pv cu inds,
       ring_at p r = Some (mkRingState _ (ms ++ [mat]) fl pv cu) ->
       p.(_fuel_ring_fsr_inds) !! r = Some inds ->
       let A0 := build_depletion_matrix chain mat fl ndl in
       let mat' := clear_all_micro_xs_data mat in
       let N0 := map (atom_density mat') (dm_nuclides A0) in
       let mat_pred :=
         Material_new
           (positive_densities (dm_nuclides A0) (predictor_densities dt dtm1 pv A0 N0))
           (temperature mat') ndl in
       let Acur := predictor_current dt dtm1 pv A0 in
       let fl' := homogenize_flux_spectrum moc inds in
       let Ap1 := build_depletion_matrix chain mat_pred fl' ndl in
       let N0' := map (atom_density mat') (dm_nuclides Ap1) in
       let mat_corr :=
         Material_new
           (positive_densities (dm_nuclides Ap1)
              (corrector_densities dt dtm1 pv Acur Ap1 N0'))
           (temperature mat_pred) ndl in
       ring_at p1 r = Some (mkRingState _ (ms ++ [mat'; mat_pred]) fl pv (Some Acur)) /\
       ring_at p2 r = Some (mkRingState _ (ms ++ [mat'; mat_pred]) fl' pv (Some Acur)) /\
       ring_at p3 r = Some (mkRingState _ (ms ++ [mat'; mat_corr]) fl' (Some Acur) None)).
Proof.
  intros Hn Hinds Hdt Hsized Hready.
  destruct (predict_depletion_result chain ndl dt dtm1 p n Hn Hdt Hsized)
    as (p1 & Hrun1 & Hrep1 & Hres1).
  { intros r rs Hat. destruct (Hready r rs Hat) as (Hne & [Hpv|Hdiv]); split; auto.
    right. now apply andb_true_iff in Hdiv as [Hd _]. }
  pose proof (rings_replaced_has_rings p p1 n Hn Hrep1) as Hn1.
  pose proof (rings_replaced_fsr_inds p p1 Hrep1) as Hinds1.
  pose proof (obtain_flux_spectra_rings moc p1 n Hn1 ltac:(congruence)) as Hrun2.
  rewrite Hinds1 in Hrun2.
  set (fls := map (homogenize_flux_spectrum moc) p.(_fuel_ring_fsr_inds)) in *.
  set (p2 := set_fuel_ring_flux_spectra fls p1) in *.
  assert (has_rings p2 n) as Hn2.
  { apply has_rings_set_flux; [exact Hn1|]. unfold fls. now rewrite length_map. }
  assert (forall r ms mat fl pv cu inds,
            ring_at p r = Some (mkRingState _ (ms ++ [mat]) fl pv cu) ->
            p.(_fuel_ring_fsr_inds) !! r = Some inds ->
            ring_at p2 r
              = Some (mkRingState _
                        (ms ++ [clear_all_micro_xs_data mat;
                                Material_new
                                  (positive_densities
                                     (dm_nuclides (build_depletion_matrix chain mat fl ndl))
                                     (predictor_densities dt dtm1 pv
                                        (build_depletion_matrix chain mat fl ndl)
                                        (map (atom_density (clear_all_micro_xs_data mat))
                                           (dm_nuclides
                                              (build_depletion_matrix chain mat fl ndl)))))
                                  (temperature (clear_all_micro_xs_data mat)) ndl])
                        (homogenize_flux_spectrum moc inds) pv
                        (Some (predictor_current dt dtm1 pv
                                 (build_depletion_matrix chain mat fl ndl)))))
    as Hres2.
  { intros r ms mat fl pv cu inds Hat Hi.
    pose proof (Hres1 r ms mat fl pv cu Hat) as Hat1. cbv zeta in Hat1.
    apply (ring_at_set_flux p1 fls r _ _ _ _ _ Hat1).
    unfold fls. now rewrite list_lookup_fmap, Hi. }
  assert (forall r rs2, ring_at p2 r = Some rs2 ->
            exists ms mat fl pv cu inds,
              ring_at p r = Some (mkRingState _ (ms ++ [mat]) fl pv cu) /\
              p.(_fuel_ring_fsr_inds) !! r = Some inds) as Hback.
  { intros r rs2 Hat2. pose proof (ring_at_lt p2 n r rs2 Hn2 Hat2) as Hr.
    destruct (has_rings_ring_at p n r Hn Hr) as [[ms0 fl pv cu] Hat].
    destruct (Hready r _ Hat) as (Hne & _). simpl in Hne.
    destruct (ring_materials_snoc ms0 Hne) as (ms & mat & ->).
    destruct (lookup_lt_is_Some_2 p.(_fuel_ring_fsr_inds) r ltac:(lia)) as [inds Hi].
    exists ms, mat, fl, pv, cu, inds. now split. }
  destruct (correct_depletion_result chain ndl dt dtm1 p2 n Hn2 Hdt Hsized)
    as (p3 & Hrun3 & Hrep3 & Hres3).
  { intros r rs2 Hat2.
    destruct (Hback r rs2 Hat2) as (ms & mat & fl & pv & cu & inds & Hat & Hi).
    rewrite (Hres2 r ms mat fl pv cu inds Hat Hi) in Hat2. injection Hat2 as <-.
    simpl. split; [eauto|]. split; [reflexivity|].
    destruct (Hready r _ Hat) as (_ & [Hpv|Hdiv]); [now left|right].
    now apply andb_true_iff in Hdiv as [_ Hd]. }
  exists p1, p2, p3. split; [exact Hrun1|]. split; [exact Hrun2|].
  split; [exact Hrun3|].
  intros r ms mat fl pv cu inds Hat Hi A0 mat' N0 mat_pred Acur fl' Ap1 N0' mat_corr.
  split; [exact (Hres1 r ms mat fl pv cu Hat)|].
  split; [now apply (Hres2 r ms mat fl pv cu inds)|].
  apply (Hres3 r ms mat' mat_pred fl' pv Acur).
  now apply (Hres2 r ms mat fl pv cu inds).
Qed.

(** Two pins that come from the same pin with [n] rings by replacing
    ring states, and hold the same state for every ring, are the same
    pin. *)
Lemma rings_replaced_ext (p q1 q2 : FuelPin) (n : nat) :
  has_rings p n -> rings_replaced p q1 -> rings_replaced p q2 ->
  (forall r, ring_at q1 r = ring_at q2 r) -> q1 = q2.
Proof.
  intros (_ & Hm & Hf & Hp & Hc) (Hq1 & Hm1 & Hf1 & Hp1 & Hc1)
    (Hq2 & Hm2 & Hf2 & Hp2 & Hc2) Hsame.
  assert (forall r, (r < n)%nat ->
            q1.(_fuel_ring_materials) !! r = q2.(_fuel_ring_materials) !! r /\
            q1.(_fuel_ring_flux_spectra) !! r = q2.(_fuel_ring_flux_spectra) !! r /\
            q1.(_fuel_ring_prev_dep_mats) !! r = q2.(_fuel_ring_prev_dep_mats) !! r /\
            q1.(_fuel_ring_current_dep_mats) !! r
              = q2.(_fuel_ring_current_dep_mats) !! r) as Hin.
  { intros r Hr. specialize (Hsame r). unfold ring_at in Hsame.
    destruct (lookup_lt_is_Some_2 q1.(_fuel_ring_materials) r ltac:(lia)) as [a1 E1].
    destruct (lookup_lt_is_Some_2 q1.(_fuel_ring_flux_spectra) r ltac:(lia)) as [b1 E2].
    destruct (lookup_lt_is_Some_2 q1.(_fuel_ring_prev_dep_mats) r ltac:(lia)) as [c1 E3].
    destruct (lookup_lt_is_Some_2 q1.(_fuel_ring_current_dep_mats) r ltac:(lia))
      as [d1 E4].
    destruct (lookup_lt_is_Some_2 q2.(_fuel_ring_materials) r ltac:(lia)) as [a2 E5].
    destruct (lookup_lt_is_Some_2 q2.(_fuel_ring_flux_spectra) r ltac:(lia)) as [b2 E6].
    destruct (lookup_lt_is_Some_2 q2.(_fuel_ring_prev_dep_mats) r ltac:(lia)) as [c2 E7].
    destruct (lookup_lt_is_Some_2 q2.(_fuel_ring_current_dep_mats) r ltac:(lia))
      as [d2 E8].
    rewrite E1, E2, E3, E4, E5, E6, E7, E8 in Hsame |- *.
    injection Hsame as -> -> -> ->. repeat split. }
  assert (forall (A : Type) (l1 l2 : list A),
            length l1 = n -> length l2 = n ->
            (forall r, (r < n)%nat -> l1 !! r = l2 !! r) -> l1 = l2) as Hlist.
  { intros A l1 l2 H1 H2 Hl. apply list_eq. intros r.
    destruct (decide (r < n)%nat) as [Hr|Hr]; [now apply Hl|].
    rewrite !lookup_ge_None_2 by lia. reflexivity. }
  rewrite Hq1, Hq2. f_equal; [| f_equal; [| f_equal; [| f_equal]]].
  - apply Hlist; [lia..|]. intros r Hr. now apply Hin.
  - apply Hlist; [lia..|]. intros r Hr. now apply Hin.
  - apply Hlist; [lia..|]. intros r Hr. now apply Hin.
  - apply Hlist; [lia..|]. intros r Hr. now apply Hin.
Qed.

(** ** Predictor *)

Lemma ring_at_ge (p : FuelPin) (n r : nat) :
  has_rings p n -> (n <= r)%nat -> ring_at p r = None.
Proof.
  intros (_ & Hm & _) Hr. unfold ring_at.
  now rewrite (lookup_ge_None_2 p.(_fuel_ring_materials)) by lia.
Qed.

(** C4.  On a pin with [n] rings on which the predictor returns (every
    ring has a composition, and no previous matrix unless [12 dtm1] is
    not zero), every ring that has no previous matrix, and every ring if
    there is no [dtm1], has taken the CE/LI branch: the densities of the
    composition appended to it are the exponential action of [A0] scaled
    by [dt] on the densities of the composition it started from, and the
    current matrix it is left with is [A0] scaled by [dt] and scaled
    back by [dt].  LE/QI is not reached on such a ring: the ring ends as
    in the call without [dtm1], and so does the whole pin when all its
    rings are such. *)
Theorem predict_without_history_is_celi (chain : DepletionChain) (ndl : NDLibrary)
    (dt : float) (dtm1 : option float) (p : FuelPin) (n : nat) :
  has_rings p n -> (dt <=? 0)%float = false -> builder_sized chain ndl ->
  (forall r rs, ring_at p r = Some rs ->
     rs.(rs_materials) <> [] /\
     (rs.(rs_prev) = None \/ predict_divisors_ok dtm1 = true)) ->
  exists p' p0,
    predict_depletion chain ndl dt dtm1 p = (inr tt, p') /\
    predict_depletion chain ndl dt None p = (inr tt, p0) /\
    (forall r ms mat fl pv cu,
       ring_at p r = Some (mkRingState _ (ms ++ [mat]) fl pv cu) ->
       pv = None \/ dtm1 = None ->
       let A0 := build_depletion_matrix chain mat fl ndl in
       let mat' := clear_all_micro_xs_data mat in
       let N0 := map (atom_density mat') (dm_nuclides A0) in
       let N := exponential_product (dm_imul A0 dt) N0 in
       ring_at p' r
         = Some (mkRingState _
                   (ms ++ [mat';
                           Material_new (positive_densities (dm_nuclides A0) N)
                             (temperature mat') ndl])
                   fl pv (Some (dm_idiv (dm_imul A0 dt) dt))) /\
       ring_at p0 r = ring_at p' r) /\
    ((forall r rs, ring_at p r = Some rs -> rs.(rs_prev) = None \/ dtm1 = None) ->
     p0 = p').
Proof.
  intros Hn Hdt Hsized Hready.
  destruct (predict_depletion_result chain ndl dt dtm1 p n Hn Hdt Hsized Hready)
    as (p' & Hrun & Hrep & Hres).
  destruct (predict_depletion_result chain ndl dt None p n Hn Hdt Hsized)
    as (p0 & Hrun0 & Hrep0 & Hres0).
  { intros r rs Hat. destruct (Hready r rs Hat) as (Hne & _). split; auto. }
  assert (forall (pv : option DepletionMatrix) A0 N0,
            pv = None \/ dtm1 = None ->
            predictor_densities dt dtm1 pv A0 N0
              = exponential_product (dm_imul A0 dt) N0 /\
            predictor_current dt dtm1 pv A0 = dm_idiv (dm_imul A0 dt) dt /\
            predictor_densities dt None pv A0 N0
              = exponential_product (dm_imul A0 dt) N0 /\
            predictor_current dt None pv A0 = dm_idiv (dm_imul A0 dt) dt) as Hcase.
  { intros pv A0 N0 Hcase. unfold predictor_densities, predictor_current.
    destruct Hcase as [->| ->]; [now repeat split|]. destruct pv; now repeat split. }
  assert (forall r ms mat fl pv cu,
            ring_at p r = Some (mkRingState _ (ms ++ [mat]) fl pv cu) ->
            pv = None \/ dtm1 = None ->
            let A0 := build_depletion_matrix chain mat fl ndl in
            let mat' := clear_all_micro_xs_data mat in
            let N0 := map (atom_density mat') (dm_nuclides A0) in
            let N := exponential_product (dm_imul A0 dt) N0 in
            ring_at p' r
              = Some (mkRingState _
                        (ms ++ [mat';
                                Material_new (positive_densities (dm_nuclides A0) N)
                                  (temperature mat') ndl])
                        fl pv (Some (dm_idiv (dm_imul A0 dt) dt))) /\
            ring_at p0 r = ring_at p' r) as Hring.
  { intros r ms mat fl pv cu Hat Hfree A0 mat' N0 N.
    pose proof (Hres r ms mat fl pv cu Hat) as H1.
    pose proof (Hres0 r ms mat fl pv cu Hat) as H2. cbv zeta in H1, H2.
    fold A0 mat' N0 in H1, H2.
    destruct (Hcase pv A0 N0 Hfree) as (HN & HA & HN0 & HA0).
    rewrite HN, HA in H1. rewrite HN0, HA0 in H2.
    split; [exact H1|]. now rewrite H1, H2. }
  exists p', p0. split; [exact Hrun|]. split; [exact Hrun0|].
  split; [exact Hring|].
  intros Hall.
  apply (rings_replaced_ext p p0 p' n Hn Hrep0 Hrep). intros r.
  destruct (decide (r < n)%nat) as [Hr|Hr].
  - destruct (has_rings_ring_at p n r Hn Hr) as [[ms0 fl pv cu] Hat].
    destruct (Hready r _ Hat) as (Hne & _). simpl in Hne.
    destruct (ring_materials_snoc ms0 Hne) as (ms & mat & ->).
    exact (proj2 (Hring r ms mat fl pv cu Hat (Hall r _ Hat))).
  - rewrite (ring_at_ge p0 n r) by
      (try lia; exact (rings_replaced_has_rings p p0 n Hn Hrep0)).
    rewrite (ring_at_ge p' n r) by
      (try lia; exact (rings_replaced_has_rings p p' n Hn Hrep)).
    reflexivity.
Qed.

(** C2.  On a pin with [n] rings stepped with a [dtm1] for which
    [12 dtm1] is not zero, [predict_depletion] returns, and for every ring
    that has a previous matrix [Am1] the densities of the composition it
    appends are the exponential action of [F1] on the exponential action
    of [F2] on the densities of the composition it started from, with
    [F1] and [F2] the LE/QI operators of the predictor. *)
Theorem predict_with_history_is_leqi (chain : DepletionChain) (ndl : NDLibrary)
    (dt d : float) (p : FuelPin) (n : nat) :
  has_rings p n -> (dt <=? 0)%float = false -> builder_sized chain ndl ->
  (12 * d =? 0)%float = false ->
  (forall r rs, ring_at p r = Some rs -> rs.(rs_materials) <> []) ->
  exists p',
    predict_depletion chain ndl dt (Some d) p = (inr tt, p') /\
    (forall r ms mat fl Am1 cu,
       ring_at p r = Some (mkRingState _ (ms ++ [mat]) fl (Some Am1) cu) ->
       let A0 := build_depletion_matrix chain mat fl ndl in
       let mat' := clear_all_micro_xs_data mat in
       let N0 := map (atom_density mat') (dm_nuclides A0) in
       let N := exponential_product (leqi_F1 dt d Am1 A0)
                  (exponential_product (leqi_F2 dt d Am1 A0) N0) in
       ring_at p' r
         = Some (mkRingState _
                   (ms ++ [mat';
                           Material_new (positive_densities (dm_nuclides A0) N)
                             (temperature mat') ndl])
                   fl (Some Am1) (Some A0))).
Proof.
  intros Hn Hdt Hsized Hd Hready.
  destruct (predict_depletion_result chain ndl dt (Some d) p n Hn Hdt Hsized)
    as (p' & Hrun & _ & Hres).
  { intros r rs Hat. split; [now apply (Hready r)|]. right. simpl. now rewrite Hd. }
  exists p'. split; [exact Hrun|].
  intros r ms mat fl Am1 cu Hat A0 mat' N0 N.
  exact (Hres r ms mat fl (Some Am1) cu Hat).
Qed.

(** ** Corrector *)

(** C3.  On a pin with [n] rings, each holding a predicted composition
    over the composition before it and a current matrix [A0],
    [correct_depletion] returns when no division of LE/QI is by zero.
    For every ring, with [Ap1] built from the predicted composition and
    the flux of the ring, the densities of the composition that replaces
    the predicted one are, on a ring without previous matrix or stepped
    without [dtm1], the action of the CE/LI operator [F1] on the action of
    [F2], and otherwise the action of the LE/QI operator [F3] on the
    action of [F4]; [A0] enters these operators as the pin held it. *)
Theorem corrector_operators (chain : DepletionChain) (ndl : NDLibrary)
    (dt : float) (dtm1 : option float) (p : FuelPin) (n : nat) :
  has_rings p n -> (dt <=? 0)%float = false -> builder_sized chain ndl ->
  correct_divisors_ok dt dtm1 = true ->
  (forall r rs, ring_at p r = Some rs ->
     (exists ms mat_old mat_pred, rs.(rs_materials) = ms ++ [mat_old; mat_pred]) /\
     is_Some_b rs.(rs_current) = true) ->
  exists p',
    correct_depletion chain ndl dt dtm1 p = (inr tt, p') /\
    (forall r ms mat_old mat_pred fl pv A0,
       ring_at p r = Some (mkRingState _ (ms ++ [mat_old; mat_pred]) fl pv (Some A0)) ->
       let Ap1 := build_depletion_matrix chain mat_pred fl ndl in
       let N0 := map (atom_density mat_old) (dm_nuclides Ap1) in
       exists N,
         ring_at p' r
           = Some (mkRingState _
                     (ms ++ [mat_old;
                             Material_new (positive_densities (dm_nuclides Ap1) N)
                               (temperature mat_pred) ndl])
                     fl (Some A0) None) /\
         (pv = None \/ dtm1 = None ->
          N = exponential_product (celi_F1 dt A0 Ap1)
                (exponential_product (celi_F2 dt A0 Ap1) N0)) /\
         (forall Am1 d, pv = Some Am1 -> dtm1 = Some d ->
          N = exponential_product (leqi_F3 dt d Am1 A0 Ap1)
                (exponential_product (leqi_F4 dt d Am1 A0 Ap1) N0))).
Proof.
  intros Hn Hdt Hsized Hdiv Hready.
  destruct (correct_depletion_result chain ndl dt dtm1 p n Hn Hdt Hsized)
    as (p' & Hrun & _ & Hres).
  { intros r rs Hat. destruct (Hready r rs Hat) as (Hms & Hcu). auto. }
  exists p'. split; [exact Hrun|].
  intros r ms mat_old mat_pred fl pv A0 Hat Ap1 N0.
  exists (corrector_densities dt dtm1 pv A0 Ap1 N0).
  split; [exact (Hres r ms mat_old mat_pred fl pv A0 Hat)|]. split.
  - unfold corrector_densities. intros [->| ->]; [reflexivity|]. now destruct pv.
  - intros Am1 d -> ->. reflexivity.
Qed.

(** C1.  Over one step of depletion on a pin with [n] rings (predictor,
    fetch of the new flux spectra, corrector), for every ring: the
    predictor leaves the previous matrix alone and stores a current
    matrix; the corrector takes its initial densities from the
    composition that is two entries back from the end of the list of the
    ring, which is the one the predictor started from, and not from the
    predicted one; and when the corrector has returned, the previous
    matrix of the ring is the one the predictor stored as current and the
    current one is [None]. *)
Theorem corrector_start_and_rotation (chain : DepletionChain) (ndl : NDLibrary)
    (moc : MOCDriver) (dt : float) (dtm1 : option float) (p : FuelPin) (n : nat) :
  has_rings p n -> length p.(_fuel_ring_fsr_inds) = n ->
  (dt <=? 0)%float = false -> builder_sized chain ndl ->
  (forall r rs, ring_at p r = Some rs ->
     rs.(rs_materials) <> [] /\
     (rs.(rs_prev) = None \/
      predict_divisors_ok dtm1 && correct_divisors_ok dt dtm1 = true)) ->
  exists p1 p2 p3,
    predict_depletion chain ndl dt dtm1 p = (inr tt, p1) /\
    obtain_flux_spectra moc p1 = (inr tt, p2) /\
    correct_depletion chain ndl dt dtm1 p2 = (inr tt, p3) /\
    (forall r ms mat fl pv cu inds,
       ring_at p r = Some (mkRingState _ (ms ++ [mat]) fl pv cu) ->
       p.(_fuel_ring_fsr_inds) !! r = Some inds ->
       exists (mat_old mat_pred : Material) (Acur : DepletionMatrix),
         p1.(_fuel_ring_prev_dep_mats) !! r = Some pv /\
         p1.(_fuel_ring_current_dep_mats) !! r = Some (Some Acur) /\
         p2.(_fuel_ring_materials) !! r = Some (ms ++ [mat_old; mat_pred]) /\
         py_get (ms ++ [mat_old; mat_pred]) (-2) = inr mat_old /\
         mat_old = clear_all_micro_xs_data mat /\
         let Ap1 :=
           build_depletion_matrix chain mat_pred (homogenize_flux_spectrum moc inds) ndl in
         let N0 := map (atom_density mat_old) (dm_nuclides Ap1) in
         p3.(_fuel_ring_materials) !! r
           = Some (ms ++ [mat_old;
                          Material_new
                            (positive_densities (dm_nuclides Ap1)
                               (corrector_densities dt dtm1 pv Acur Ap1 N0))
                            (temperature mat_pred) ndl]) /\
         p3.(_fuel_ring_prev_dep_mats) !! r = Some (Some Acur) /\
         p3.(_fuel_ring_current_dep_mats) !! r = Some None).
Proof.
  intros Hn Hinds Hdt Hsized Hready.
  destruct (depletion_cycle_result chain ndl moc dt dtm1 p n Hn Hinds Hdt Hsized Hready)
    as (p1 & p2 & p3 & Hrun1 & Hrun2 & Hrun3 & Hres).
  exists p1, p2, p3. split; [exact Hrun1|]. split; [exact Hrun2|].
  split; [exact Hrun3|].
  intros r ms mat fl pv cu inds Hat Hi.
  destruct (Hres r ms mat fl pv cu inds Hat Hi) as (H1 & H2 & H3).
  destruct (ring_at_Some p1 r _ H1) as (_ & _ & Hpv1 & Hcu1).
  destruct (ring_at_Some p2 r _ H2) as (Hms2 & _).
  destruct (ring_at_Some p3 r _ H3) as (Hms3 & _ & Hpv3 & Hcu3).
  simpl in *. eexists _, _, _.
  split; [exact Hpv1|]. split; [exact Hcu1|]. split; [exact Hms2|].
  split; [apply py_get_penultimate|]. split; [reflexivity|].
  split; [exact Hms3|]. split; [exact Hpv3|exact Hcu3].
Qed.

(** ** The history of compositions *)

(** C5.  Over one step of depletion on a pin with [n] rings, for every
    ring: the predictor appends one composition to the list of the ring,
    built from the nuclides whose computed density is strictly positive,
    each with that density, and changes nothing before the entry that was
    last; the corrector replaces the last entry, and nothing else, by the
    composition it builds in the same way from the densities it computes
    with the flux of the transport solve; so after the step the list is
    one entry longer than before it. *)
Theorem depletion_step_extends_history (chain : DepletionChain) (ndl : NDLibrary)
    (moc : MOCDriver) (dt : float) (dtm1 : option float) (p : FuelPin) (n : nat) :
  has_rings p n -> length p.(_fuel_ring_fsr_inds) = n ->
  (dt <=? 0)%float = false -> builder_sized chain ndl ->
  (forall r rs, ring_at p r = Some rs ->
     rs.(rs_materials) <> [] /\
     (rs.(rs_prev) = None \/
      predict_divisors_ok dtm1 && correct_divisors_ok dt dtm1 = true)) ->
  exists p1 p2 p3,
    predict_depletion chain ndl dt dtm1 p = (inr tt, p1) /\
    obtain_flux_spectra moc p1 = (inr tt, p2) /\
    correct_depletion chain ndl dt dtm1 p2 = (inr tt, p3) /\
    (forall r ms mat fl pv cu inds,
       ring_at p r = Some (mkRingState _ (ms ++ [mat]) fl pv cu) ->
       p.(_fuel_ring_fsr_inds) !! r = Some inds ->
       let A0 := build_depletion_matrix chain mat fl ndl in
       let mat' := clear_all_micro_xs_data mat in
       let N :=
         predictor_densities dt dtm1 pv A0 (map (atom_density mat') (dm_nuclides A0)) in
       let comp := positive_densities (dm_nuclides A0) N in
       let mat_pred := Material_new comp (temperature mat') ndl in
       let Ap1 :=
         build_depletion_matrix chain mat_pred (homogenize_flux_spectrum moc inds) ndl in
       let Nc :=
         corrector_densities dt dtm1 pv (predictor_current dt dtm1 pv A0) Ap1
           (map (atom_density mat') (dm_nuclides Ap1)) in
       let comp_c := positive_densities (dm_nuclides Ap1) Nc in
       length N = length (dm_nuclides A0) /\
       (forall nu d,
          (nu, d) ∈ comp <->
          (0 <? d)%float = true /\
          exists i, dm_nuclides A0 !! i = Some nu /\ N !! i = Some d) /\
       p1.(_fuel_ring_materials) !! r = Some (ms ++ [mat'; mat_pred]) /\
       length Nc = length (dm_nuclides Ap1) /\
       (forall nu d,
          (nu, d) ∈ comp_c <->
          (0 <? d)%float = true /\
          exists i, dm_nuclides Ap1 !! i = Some nu /\ Nc !! i = Some d) /\
       p3.(_fuel_ring_materials) !! r
         = Some (ms ++ [mat'; Material_new comp_c (temperature mat_pred) ndl])) /\
    (forall r mats, p.(_fuel_ring_materials) !! r = Some mats ->
       exists mats1 mats3,
         p1.(_fuel_ring_materials) !! r = Some mats1 /\
         p2.(_fuel_ring_materials) !! r = Some mats1 /\
         p3.(_fuel_ring_materials) !! r = Some mats3 /\
         length mats1 = S (length mats) /\
         length mats3 = S (length mats) /\
         (forall i, (S i < length mats)%nat -> mats1 !! i = mats !! i) /\
         (forall i, (i < length mats)%nat -> mats3 !! i = mats1 !! i)).
Proof.
  intros Hn Hinds Hdt Hsized Hready.
  destruct (depletion_cycle_result chain ndl moc dt dtm1 p n Hn Hinds Hdt Hsized Hready)
    as (p1 & p2 & p3 & Hrun1 & Hrun2 & Hrun3 & Hres).
  exists p1, p2, p3. split; [exact Hrun1|]. split; [exact Hrun2|].
  split; [exact Hrun3|]. split.
  - intros r ms mat fl pv cu inds Hat Hi A0 mat' N comp mat_pred Ap1 Nc comp_c.
    destruct (Hres r ms mat fl pv cu inds Hat Hi) as (H1 & _ & H3).
    destruct (ring_at_Some p1 r _ H1) as (Hms1 & _).
    destruct (ring_at_Some p3 r _ H3) as (Hms3 & _).
    simpl in Hms1, Hms3.
    split; [unfold N; rewrite predictor_densities_length; apply length_map|].
    split; [intros nu d; apply positive_densities_elem|].
    split; [exact Hms1|].
    split; [unfold Nc; rewrite corrector_densities_length; apply length_map|].
    split; [intros nu d; apply positive_densities_elem|].
    exact Hms3.
  - intros r mats Hmats.
    assert (r < n)%nat as Hr.
    { apply lookup_lt_Some in Hmats. destruct Hn as (_ & Hm & _). lia. }
    destruct (has_rings_ring_at p n r Hn Hr) as [[ms0 fl pv cu] Hat].
    destruct (ring_at_Some p r _ Hat) as (Hms0 & _). simpl in Hms0.
    assert (ms0 = mats) as -> by congruence.
    destruct (Hready r _ Hat) as (Hne & _). simpl in Hne.
    destruct (ring_materials_snoc mats Hne) as (ms & mat & ->).
    destruct (lookup_lt_is_Some_2 p.(_fuel_ring_fsr_inds) r ltac:(lia)) as [inds Hi].
    destruct (Hres r ms mat fl pv cu inds Hat Hi) as (H1 & H2 & H3).
    destruct (ring_at_Some p1 r _ H1) as (Hms1 & _).
    destruct (ring_at_Some p2 r _ H2) as (Hms2 & _).
    destruct (ring_at_Some p3 r _ H3) as (Hms3 & _).
    simpl in Hms1, Hms2, Hms3.
    eexists _, _. split; [exact Hms1|]. split; [exact Hms2|]. split; [exact Hms3|].
    split; [rewrite !length_app; simpl; lia|].
    split; [rewrite !length_app; simpl; lia|].
    split.
    + intros i Hi'. rewrite length_app in Hi'. simpl in Hi'.
      rewrite !lookup_app_l by lia. reflexivity.
    + intros i Hi'. rewrite length_app in Hi'. simpl in Hi'.
      destruct (decide (i < length ms)%nat) as [Hlt|Hge].
      * rewrite !lookup_app_l by lia. reflexivity.
      * assert (i = length ms) as -> by lia.
        rewrite !lookup_app_r by lia. rewrite Nat.sub_diag. reflexivity.
Qed.

(** ** Sequencing *)

(** X1.  The constructor makes a pin with [N] rings, each holding the fuel
    as its only composition, no flux and no depletion matrix. *)
Theorem FuelPin_init_rings (fuel cl : Material) (R Rc : float)
    (g : option Material) (Rg : option float) (N : Z) (p : FuelPin) :
  FuelPin_init fuel R cl Rc g Rg N = inr p ->
  1 <= N /\
  has_rings p (Z.to_nat N) /\
  length p.(_fuel_ring_fsr_inds) = Z.to_nat N /\
  (forall r, (r < Z.to_nat N)%nat ->
     ring_at p r = Some (mkRingState _ [fuel] [] None None)).
Proof.
  unfold FuelPin_init. intros Hinit.
  destruct (R <=? 0)%float; [discriminate Hinit|].
  destruct (Z.leb_spec N 0) as [|HN]; [discriminate Hinit|].
  destruct (square_overflows R); [discriminate Hinit|].
  assert (exists q, inr q = inr (B := FuelPin) (A := exn) p /\
                    q.(_num_fuel_rings) = N /\
                    q.(_fuel_ring_fsr_inds) = replicate (Z.to_nat N) [] /\
                    q.(_fuel_ring_materials) = replicate (Z.to_nat N) [fuel] /\
                    q.(_fuel_ring_flux_spectra) = replicate (Z.to_nat N) [] /\
                    q.(_fuel_ring_prev_dep_mats) = replicate (Z.to_nat N) None /\
                    q.(_fuel_ring_current_dep_mats) = replicate (Z.to_nat N) None)
    as (q & Hq & Hn & Hi & Hm & Hf & Hp & Hc).
  { destruct g, Rg; try discriminate Hinit;
      repeat match type of Hinit with
             | (if ?b then _ else _) = _ => destruct b; [discriminate Hinit|]
             end;
      eexists; (split; [exact Hinit|]); repeat split. }
  injection Hq as ->. split; [lia|]. split; [|split].
  - unfold has_rings. rewrite Hn, Hm, Hf, Hp, Hc, !length_replicate.
    repeat split. lia.
  - now rewrite Hi, length_replicate.
  - intros r Hr. unfold ring_at.
    rewrite Hm, Hf, Hp, Hc, !lookup_replicate_2 by exact Hr. reflexivity.
Qed.

(** X2.  Predictor and corrector reject a time step that is [<= 0], and do
    not touch the pin. *)
Theorem depletion_rejects_nonpositive_dt (chain : DepletionChain) (ndl : NDLibrary)
    (dt : float) (dtm1 : option float) (p : FuelPin) :
  (dt <=? 0)%float = true ->
  predict_depletion chain ndl dt dtm1 p
    = (inl (ValueError "Predictor time step must be > 0."), p) /\
  correct_depletion chain ndl dt dtm1 p
    = (inl (ValueError "Corrector time step must be > 0."), p).
Proof.
  intros Hdt. unfold predict_depletion, correct_depletion. rewrite Hdt.
  split; reflexivity.
Qed.

(** X3.  The corrector on a pin whose first ring holds a single
    composition (no predictor has run) raises [IndexError] and does not
    touch the pin. *)
Theorem correct_without_predict_raises (chain : DepletionChain) (ndl : NDLibrary)
    (dt : float) (dtm1 : option float) (p : FuelPin) (n : nat) (mat : Material)
    (fl : Flux) (pv cu : option DepletionMatrix) :
  has_rings p (S n) -> (dt <=? 0)%float = false ->
  ring_at p 0 = Some (mkRingState _ [mat] fl pv cu) ->
  correct_depletion chain ndl dt dtm1 p = (inl IndexError, p).
Proof.
  intros (Hn & _) Hdt Hat.
  destruct (ring_at_Some p 0 _ Hat) as (Hms & Hfl & Hpv & Hcu). simpl in *.
  unfold correct_depletion. rewrite Hdt.
  unfold bind at 1, gets at 1, num_fuel_rings. rewrite Hn.
  unfold py_range. rewrite Nat2Z.id. simpl seq. simpl map.
  unfold for_. simpl for_acc. unfold bind at 1.
  unfold correct_ring, bind, gets, lift.
  rewrite (py_get_nat _ 0 _ Hfl), (py_get_nat _ 0 _ Hms). simpl.
  rewrite (py_get_nat _ 0 _ Hcu). reflexivity.
Qed.

End Properties.

(** * Further properties *)

Section HistoryProperties.
Context {collab : Collaborators}.

Lemma py_get_lookup {A : Type} (l : list A) (i : Z) (x : A) :
  py_get l i = inr x ->
  exists k, py_pos (length l) i = Some k /\ l !! k = Some x.
Proof.
  unfold py_get. destruct (py_pos (length l) i) as [k|]; [|discriminate].
  destruct (l !! k) as [y|] eqn:E; [|discriminate].
  intros [= ->]. eauto.
Qed.

Lemma py_get_exn {A : Type} (l : list A) (i : Z) (e : exn) :
  py_get l i = inl e -> e = IndexError.
Proof.
  unfold py_get. destruct (py_pos (length l) i) as [k|]; [|congruence].
  destruct (l !! k); congruence.
Qed.

Lemma py_get_ge {A : Type} (l : list A) (i : Z) :
  Z.of_nat (length l) <= i -> py_get l i = inl IndexError.
Proof.
  intros Hi. unfold py_get, py_pos.
  destruct (Z.ltb_spec i 0); [lia|].
  destruct (Z.ltb_spec i 0); [lia|].
  destruct (Z.leb_spec (Z.of_nat (length l)) i); [reflexivity|lia].
Qed.

Lemma py_get_far_below {A : Type} (l : list A) (i : Z) :
  i < - Z.of_nat (length l) -> py_get l i = inl IndexError.
Proof.
  intros Hi. unfold py_get, py_pos.
  destruct (Z.ltb_spec i 0); [|lia].
  destruct (Z.ltb_spec (i + Z.of_nat (length l)) 0); [reflexivity|lia].
Qed.

Lemma py_get_nil {A : Type} (i : Z) : py_get (@nil A) i = inl IndexError.
Proof.
  destruct (Z.lt_ge_cases i 0).
  - apply py_get_far_below. simpl. lia.
  - apply py_get_ge. simpl. lia.
Qed.

(** [l[-(k+1)]] is the entry [k] places before the end. *)
Lemma py_get_from_end {A : Type} (l : list A) (k : nat) (x : A) :
  (k < length l)%nat -> l !! (length l - 1 - k)%nat = Some x ->
  py_get l (- Z.of_nat (S k)) = inr x.
Proof.
  intros Hk Hx. unfold py_get. rewrite py_pos_neg by lia.
  replace (Z.to_nat (- Z.of_nat (S k) + Z.of_nat (length l)))
    with (length l - 1 - k)%nat by lia.
  now rewrite Hx.
Qed.

(** ** Interrogation *)

(** [get_fuel_material] reads the history and leaves the pin alone; the
    only exception it raises is [IndexError]. *)
Lemma get_fuel_material_outcome (t r : Z) (p : FuelPin) :
  get_fuel_material t r p = (inl IndexError, p) \/
  exists mat, get_fuel_material t r p = (inr mat, p).
Proof.
  unfold get_fuel_material, ring_material, bind, gets, lift, raise.
  destruct (num_fuel_rings p <=? r); [now left|].
  destruct (py_get (_fuel_ring_materials p) r) as [e|ms] eqn:E.
  - left. now rewrite (py_get_exn _ _ _ E).
  - destruct (Z.of_nat (length ms) <=? t); [now left|].
    rewrite E. destruct (py_get ms t) as [e|m] eqn:E'.
    + left. now rewrite (py_get_exn _ _ _ E').
    + right. eauto.
Qed.

Lemma get_fuel_material_in_range (p : FuelPin) (n r k : nat)
    (ms : list Material) (mat : Material) :
  has_rings p n -> p.(_fuel_ring_materials) !! r = Some ms -> ms !! k = Some mat ->
  get_fuel_material (Z.of_nat k) (Z.of_nat r) p = (inr mat, p).
Proof.
  intros (Hn & Hm & _) Hms Hmat.
  pose proof (lookup_lt_Some _ _ _ Hms) as Hr.
  pose proof (lookup_lt_Some _ _ _ Hmat) as Hk.
  unfold get_fuel_material, ring_material, bind, gets, lift, raise, num_fuel_rings.
  rewrite Hn.
  destruct (Z.leb_spec (Z.of_nat n) (Z.of_nat r)); [lia|].
  rewrite (py_get_nat _ _ _ Hms).
  destruct (Z.leb_spec (Z.of_nat (length ms)) (Z.of_nat k)); [lia|].
  now rewrite (py_get_nat _ _ _ Hms), (py_get_nat _ _ _ Hmat).
Qed.

(** X4.  [get_fuel_material(t, r)] on a pin with [n] rings. For [0 <= r <
    n] and [0 <= t] below the length of the history of ring [r] it returns
    entry [t] of that history; a negative [t] is not rejected but counts
    from the end of the history, so that [t = -1] gives the latest
    composition; [r >= n], and [t] at or beyond the length of the history,
    or below its negative, raise [IndexError]. The pin is never changed. *)
Theorem get_fuel_material_lookup (p : FuelPin) (n : nat) :
  has_rings p n ->
  (forall r k ms mat,
     p.(_fuel_ring_materials) !! r = Some ms -> ms !! k = Some mat ->
     get_fuel_material (Z.of_nat k) (Z.of_nat r) p = (inr mat, p)) /\
  (forall r k ms mat,
     p.(_fuel_ring_materials) !! r = Some ms ->
     (k < length ms)%nat -> ms !! (length ms - 1 - k)%nat = Some mat ->
     get_fuel_material (- Z.of_nat (S k)) (Z.of_nat r) p = (inr mat, p)) /\
  (forall t r, Z.of_nat n <= r -> get_fuel_material t r p = (inl IndexError, p)) /\
  (forall t r ms,
     p.(_fuel_ring_materials) !! r = Some ms ->
     Z.of_nat (length ms) <= t \/ t < - Z.of_nat (length ms) ->
     get_fuel_material t (Z.of_nat r) p = (inl IndexError, p)) /\
  (forall t r, (get_fuel_material t r p).2 = p).
Proof.
  intros Hrings. pose proof Hrings as (Hn & Hm & _).
  split; [|split; [|split; [|split]]].
  - intros r k ms mat. now apply get_fuel_material_in_range with (n := n).
  - intros r k ms mat Hms Hk Hmat.
    pose proof (lookup_lt_Some _ _ _ Hms) as Hr.
    unfold get_fuel_material, ring_material, bind, gets, lift, raise, num_fuel_rings.
    rewrite Hn.
    destruct (Z.leb_spec (Z.of_nat n) (Z.of_nat r)); [lia|].
    rewrite (py_get_nat _ _ _ Hms).
    destruct (Z.leb_spec (Z.of_nat (length ms)) (- Z.of_nat (S k))); [lia|].
    now rewrite (py_get_nat _ _ _ Hms), (py_get_from_end _ _ _ Hk Hmat).
  - intros t r Hr. unfold get_fuel_material, bind, gets, raise, num_fuel_rings.
    rewrite Hn. destruct (Z.leb_spec (Z.of_nat n) r); [reflexivity|lia].
  - intros t r ms Hms Ht.
    pose proof (lookup_lt_Some _ _ _ Hms) as Hr.
    unfold get_fuel_material, ring_material, bind, gets, lift, raise, num_fuel_rings.
    rewrite Hn.
    destruct (Z.leb_spec (Z.of_nat n) (Z.of_nat r)); [lia|].
    rewrite (py_get_nat _ _ _ Hms).
    destruct (Z.leb_spec (Z.of_nat (length ms)) t); [reflexivity|].
    destruct Ht as [Ht|Ht]; [lia|].
    now rewrite (py_get_nat _ _ _ Hms), (py_get_far_below _ _ Ht).
  - intros t r. destruct (get_fuel_material_outcome t r p) as [->|[mat ->]]; reflexivity.
Qed.

End HistoryProperties.

Section AverageAndNormalization.
Context {collab : Collaborators}.

(** A loop whose body leaves the pin alone and raises nothing but
    [IndexError] does the same; it raises if one of its iterations
    does. *)
Lemma for_acc_reads {A B : Type} (l : list B) (body : B -> A -> M A) (a : A)
    (p : FuelPin) :
  (forall x a, body x a p = (inl IndexError, p) \/ exists a', body x a p = (inr a', p)) ->
  (for_acc l body a p = (inl IndexError, p) \/
   exists a', for_acc l body a p = (inr a', p)) /\
  (forall x, x ∈ l -> (forall a, body x a p = (inl IndexError, p)) ->
     for_acc l body a p = (inl IndexError, p)).
Proof.
  intros Hbody. revert a. induction l as [|y l IH]; intros a.
  - split; [right; now exists a|]. intros x Hx. now apply elem_of_nil in Hx.
  - simpl. unfold bind. split.
    + destruct (Hbody y a) as [->|[a' ->]]; [now left|]. apply IH.
    + intros x Hx Hraise. apply elem_of_cons in Hx as [->|Hx].
      * now rewrite Hraise.
      * destruct (Hbody y a) as [->|[a' ->]]; [reflexivity|].
        now apply (proj2 (IH a') x).
Qed.

Lemma sum_density_body (t : Z) (nuclide : Nuclide) (p : FuelPin) (r : Z) (s : float) :
  bind (get_fuel_material t r)
       (fun mat => ret (s + atom_density mat nuclide)%float) p = (inl IndexError, p) \/
  exists s',
    bind (get_fuel_material t r)
         (fun mat => ret (s + atom_density mat nuclide)%float) p = (inr s', p).
Proof.
  unfold bind, ret.
  destruct (get_fuel_material_outcome t r p) as [->|[mat ->]]; [now left|right; eauto].
Qed.

(** X5.  [get_average_fuel_nuclide_density(t, nuclide)] on a pin with [n]
    rings. When [get_fuel_material(t, r)] returns a composition for every
    ring, the result is the sum of their densities of the nuclide, added
    up from [0.0] in the order of the rings, divided by [n]; when it
    raises for one ring, the method raises [IndexError]. The pin is not
    changed. *)
Theorem average_density_over_rings (p : FuelPin) (n : nat) (t : Z) (nuclide : Nuclide) :
  has_rings p n ->
  (forall mats_t : list Material,
     length mats_t = n ->
     (forall r mat, mats_t !! r = Some mat ->
        get_fuel_material t (Z.of_nat r) p = (inr mat, p)) ->
     get_average_fuel_nuclide_density t nuclide p
       = (py_div (fold_left (fun s mat => (s + atom_density mat nuclide)%float)
                            mats_t 0%float)
                 (float_of_int (Z.of_nat n)), p)) /\
  (forall r, (r < n)%nat ->
     get_fuel_material t (Z.of_nat r) p = (inl IndexError, p) ->
     get_average_fuel_nuclide_density t nuclide p = (inl IndexError, p)).
Proof.
  intros (Hn & _). split.
  - intros mats_t Hlen Hmat.
    unfold get_average_fuel_nuclide_density.
    unfold bind at 1, gets at 1, num_fuel_rings. rewrite Hn.
    destruct (for_acc_range_inv
      (fun r s q => q = p /\
         s = fold_left (fun s mat => (s + atom_density mat nuclide)%float)
                       (take r mats_t) 0%float)
      (fun r s => bind (get_fuel_material t r)
                    (fun mat => ret (s + atom_density mat nuclide)%float))
      n 0%float p) as (s & p' & Hloop & -> & ->).
    + split; [reflexivity|]. now rewrite take_0.
    + intros r s q Hr [-> ->].
      destruct (lookup_lt_is_Some_2 mats_t r ltac:(lia)) as [mat Hm].
      eexists _, _. split.
      * unfold bind, ret. rewrite (Hmat r mat Hm). reflexivity.
      * split; [reflexivity|]. rewrite (take_S_r _ _ _ Hm), fold_left_app. reflexivity.
    + unfold bind at 1. rewrite Hloop. unfold bind, gets, lift, num_fuel_rings.
      rewrite Hn, take_ge by lia. reflexivity.
  - intros r Hr Hraise.
    unfold get_average_fuel_nuclide_density.
    unfold bind at 1, gets at 1, num_fuel_rings. rewrite Hn.
    unfold bind at 1.
    rewrite (proj2 (for_acc_reads (py_range (Z.of_nat n))
                      (fun r s => bind (get_fuel_material t r)
                         (fun mat => ret (s + atom_density mat nuclide)%float))
                      0%float p (fun x a => sum_density_body t nuclide p x a))
               (Z.of_nat r)).
    + reflexivity.
    + unfold py_range. apply list_elem_of_fmap. exists r. split; [reflexivity|].
      apply elem_of_seq. lia.
    + intros a. unfold bind. now rewrite Hraise.
Qed.

(** ** Normalization of the flux *)

Lemma normalize_flux_spectrum_rings (f : float) (p : FuelPin) (n : nat) :
  has_rings p n -> (f <=? 0)%float = false ->
  normalize_flux_spectrum f p
    = (inr tt,
       set_fuel_ring_flux_spectra
         (map (fun flux => flux_imul flux f) p.(_fuel_ring_flux_spectra)) p).
Proof.
  intros (Hn & _ & Hfl & _) Hf.
  unfold normalize_flux_spectrum. rewrite Hf.
  unfold bind at 1, gets at 1, num_fuel_rings. rewrite Hn.
  set (h := fun flux : Flux => flux_imul flux f).
  destruct (for_range_inv
    (fun r q => q = set_fuel_ring_flux_spectra
                      (map h (take r p.(_fuel_ring_flux_spectra))
                         ++ drop r p.(_fuel_ring_flux_spectra)) p)
    (fun r =>
       bind (gets _fuel_ring_flux_spectra) (fun spectra =>
       bind (lift (py_get spectra r)) (fun flux =>
       bind (lift (py_set spectra r (flux_imul flux f)))
            (fun spectra' => modify (set_fuel_ring_flux_spectra spectra')))))
    n p) as (p' & Hloop & Hp').
  - destruct p; reflexivity.
  - intros r q Hr ->.
    destruct (lookup_lt_is_Some_2 p.(_fuel_ring_flux_spectra) r ltac:(lia)) as [x Hx].
    assert (length (map h (take r (_fuel_ring_flux_spectra p))) = r) as Hlen
      by (rewrite length_map, length_take; lia).
    eexists. split.
    + unfold bind, gets, lift, modify. simpl.
      rewrite (py_get_nat _ r x).
      2:{ rewrite lookup_app_r by lia. rewrite Hlen, Nat.sub_diag, lookup_drop.
          now rewrite Nat.add_0_r. }
      rewrite py_set_nat
        by (rewrite length_app, length_map, length_take, length_drop; lia).
      fold (h x). rewrite (insert_processed _ _ _ _ _ Hx) by lia.
      reflexivity.
    + reflexivity.
  - rewrite Hloop, Hp'. f_equal. f_equal.
    rewrite take_ge by lia. rewrite drop_ge by lia. now rewrite app_nil_r.
Qed.

(** X6.  [normalize_flux_spectrum(f)] raises [ValueError] and leaves the
    pin as it was when [f <= 0]; otherwise, on a pin with [n] rings, it
    returns, every entry of the flux spectrum of every ring has been
    multiplied by [f], and nothing else has changed. *)
Theorem normalize_flux_spectrum_scales (f : float) (p : FuelPin) (n : nat) :
  has_rings p n ->
  ((f <=? 0)%float = true ->
   normalize_flux_spectrum f p
     = (inl (ValueError "Normalization factor must be > 0."), p)) /\
  ((f <=? 0)%float = false ->
   normalize_flux_spectrum f p
     = (inr tt,
        set_fuel_ring_flux_spectra
          (map (map (fun x => (x * f)%float)) p.(_fuel_ring_flux_spectra)) p)).
Proof.
  intros Hn. split.
  - intros Hf. unfold normalize_flux_spectrum. now rewrite Hf.
  - intros Hf. exact (normalize_flux_spectrum_rings f p n Hn Hf).
Qed.

End AverageAndNormalization.

Section Footprints.
Context {collab : Collaborators}.

(** ** What a method leaves alone *)

Ltac frame_step :=
  lazymatch goal with
  | |- preserves _ (bind _ _) => apply preserves_bind; [|intros ?]
  | |- preserves _ (ret _) => apply preserves_ret
  | |- preserves _ (raise _) => apply preserves_raise
  | |- preserves _ (gets _) => apply preserves_gets
  | |- preserves _ (lift _) => apply preserves_lift
  | |- preserves _ (modify _) => apply preserves_modify; intros ?; reflexivity
  | |- preserves _ (for_ _ _) => apply preserves_for; intros ?
  | |- preserves _ (for_acc _ _ _) => apply preserves_for_acc; intros ? ?
  | |- preserves _ (if ?b then _ else _) => destruct b
  | |- preserves _ (match ?x with _ => _ end) => destruct x
  end.

Ltac frame := repeat frame_step.

Lemma preserves_store_current {B : Type} (f : FuelPin -> B) (r : Z)
    (A : option DepletionMatrix) :
  (forall v p, f (set_fuel_ring_current_dep_mats v p) = f p) ->
  preserves f (store_current r A).
Proof.
  intros Hf. unfold store_current.
  apply preserves_bind; [apply preserves_gets|intros ?].
  apply preserves_bind; [apply preserves_lift|intros ?].
  apply preserves_modify. intros p. apply Hf.
Qed.

Lemma preserves_store_prev {B : Type} (f : FuelPin -> B) (r : Z)
    (A : option DepletionMatrix) :
  (forall v p, f (set_fuel_ring_prev_dep_mats v p) = f p) ->
  preserves f (store_prev r A).
Proof.
  intros Hf. unfold store_prev.
  apply preserves_bind; [apply preserves_gets|intros ?].
  apply preserves_bind; [apply preserves_lift|intros ?].
  apply preserves_modify. intros p. apply Hf.
Qed.

Lemma preserves_store_tip {B : Type} (f : FuelPin -> B) (r : Z) (m : Material) :
  (forall v p, f (set_fuel_ring_materials v p) = f p) ->
  preserves f (store_tip r m).
Proof.
  intros Hf. unfold store_tip.
  apply preserves_bind; [apply preserves_gets|intros ?].
  do 3 (apply preserves_bind; [apply preserves_lift|intros ?]).
  apply preserves_modify. intros p. apply Hf.
Qed.

Lemma preserves_append_material {B : Type} (f : FuelPin -> B) (r : Z) (m : Material) :
  (forall v p, f (set_fuel_ring_materials v p) = f p) ->
  preserves f (append_material r m).
Proof.
  intros Hf. unfold append_material.
  apply preserves_bind; [apply preserves_gets|intros ?].
  do 2 (apply preserves_bind; [apply preserves_lift|intros ?]).
  apply preserves_modify. intros p. apply Hf.
Qed.

Lemma preserves_predict_ring {B : Type} (f : FuelPin -> B) (chain : DepletionChain)
    (ndl : NDLibrary) (dt : float) (dtm1 : option float) (r : Z) :
  (forall v p, f (set_fuel_ring_materials v p) = f p) ->
  (forall v p, f (set_fuel_ring_current_dep_mats v p) = f p) ->
  preserves f (predict_ring chain ndl dt dtm1 r).
Proof.
  intros Hm Hc. unfold predict_ring.
  repeat first
    [ apply preserves_store_current; exact Hc
    | apply preserves_store_tip; exact Hm
    | apply preserves_append_material; exact Hm
    | frame_step ].
Qed.

Lemma preserves_correct_ring {B : Type} (f : FuelPin -> B) (chain : DepletionChain)
    (ndl : NDLibrary) (dt : float) (dtm1 : option float) (r : Z) :
  (forall v p, f (set_fuel_ring_materials v p) = f p) ->
  (forall v p, f (set_fuel_ring_prev_dep_mats v p) = f p) ->
  (forall v p, f (set_fuel_ring_current_dep_mats v p) = f p) ->
  preserves f (correct_ring chain ndl dt dtm1 r).
Proof.
  intros Hm Hp Hc. unfold correct_ring.
  repeat first
    [ apply preserves_store_current; exact Hc
    | apply preserves_store_prev; exact Hp
    | apply preserves_store_tip; exact Hm
    | frame_step ].
Qed.

(** X7.  Whether they return or raise, [predict_depletion] and
    [correct_depletion] change nothing of the pin but the material
    histories and the previous and current matrices of the rings: the flux
    spectra, the cross sections, the radii, the region lists and the
    Dancoff corrections are as they were. *)
Theorem depletion_footprint (chain : DepletionChain) (ndl : NDLibrary) (dt : float)
    (dtm1 : option float) :
  preserves outside_depletion (predict_depletion chain ndl dt dtm1) /\
  preserves outside_depletion (correct_depletion chain ndl dt dtm1).
Proof.
  split.
  - unfold predict_depletion. destruct (dt <=? 0)%float; [apply preserves_raise|].
    apply preserves_bind; [apply preserves_gets|intros n].
    apply preserves_for. intros r.
    apply preserves_predict_ring; intros v p; reflexivity.
  - unfold correct_depletion. destruct (dt <=? 0)%float; [apply preserves_raise|].
    apply preserves_bind; [apply preserves_gets|intros n].
    apply preserves_for. intros r.
    apply preserves_correct_ring; intros v p; reflexivity.
Qed.

Lemma preserves_check_dx_dy {B : Type} (f : FuelPin -> B) (dx dy : float)
    (t : PinCellType) :
  preserves f (_check_dx_dy dx dy t).
Proof. unfold _check_dx_dy. frame. Qed.

Lemma obtain_flux_spectra_outside (moc : MOCDriver) :
  preserves outside_flux (obtain_flux_spectra moc).
Proof. unfold obtain_flux_spectra. frame. Qed.

Lemma normalize_flux_spectrum_outside (f : float) :
  preserves outside_flux (normalize_flux_spectrum f).
Proof. unfold normalize_flux_spectrum. frame. Qed.

Lemma set_fuel_xs_outside (t : Z) (ndl : NDLibrary) :
  preserves outside_xs (set_fuel_xs_for_depletion_step t ndl).
Proof. unfold set_fuel_xs_for_depletion_step, ring_material, ring_Rin_Rout. frame. Qed.

Lemma set_gap_xs_outside (ndl : NDLibrary) : preserves outside_xs (set_gap_xs ndl).
Proof. unfold set_gap_xs. frame. Qed.

Lemma set_clad_xs_outside (t : Z) (ndl : NDLibrary) :
  preserves outside_xs (set_clad_xs_for_depletion_step t ndl).
Proof. unfold set_clad_xs_for_depletion_step. frame. Qed.

Lemma make_moc_cell_outside (moderator_xs : CrossSection) (dx dy : float)
    (pintype : PinCellType) :
  preserves outside_regions (make_moc_cell moderator_xs dx dy pintype).
Proof.
  unfold make_moc_cell. frame.
  - apply preserves_check_dx_dy.
  - unfold moc_cell_layers. frame.
  - unfold record_fsr_ids, take_ring_ids, take_ids. frame.
Qed.

(** X8.  Whether they return or raise, [obtain_flux_spectra] and
    [normalize_flux_spectrum] change nothing of the pin but the flux
    spectra of the rings. *)
Theorem flux_methods_footprint (moc : MOCDriver) (f : float) :
  preserves outside_flux (obtain_flux_spectra moc) /\
  preserves outside_flux (normalize_flux_spectrum f).
Proof.
  split; [apply obtain_flux_spectra_outside|apply normalize_flux_spectrum_outside].
Qed.

(** X9.  Whether they return or raise, [set_fuel_xs_for_depletion_step],
    [set_gap_xs] and [set_clad_xs_for_depletion_step] change nothing of
    the pin but the cross sections of the rings, of the gap and of the
    cladding: the compositions, the Dancoff corrections and the region
    lists are as they were. *)
Theorem xs_setters_footprint (t : Z) (ndl : NDLibrary) :
  preserves outside_xs (set_fuel_xs_for_depletion_step t ndl) /\
  preserves outside_xs (set_gap_xs ndl) /\
  preserves outside_xs (set_clad_xs_for_depletion_step t ndl).
Proof.
  split; [apply set_fuel_xs_outside|].
  split; [apply set_gap_xs_outside|apply set_clad_xs_outside].
Qed.

(** X10.  Whether it returns or raises, [make_moc_cell] changes nothing of
    the pin but the four lists of region identifiers (of the rings, the
    gap, the cladding and the moderator). *)
Theorem make_moc_cell_footprint (moderator_xs : CrossSection) (dx dy : float)
    (pintype : PinCellType) (p : FuelPin) :
  outside_regions (make_moc_cell moderator_xs dx dy pintype p).2 = outside_regions p.
Proof. apply make_moc_cell_outside. Qed.

End Footprints.

Section Consistency.
Context {collab : Collaborators}.

(** ** The consistency of the pin *)

Lemma py_set_length {A : Type} (l l' : list A) (i : Z) (x : A) :
  py_set l i x = inr l' -> length l' = length l.
Proof.
  unfold py_set. destruct (py_pos (length l) i); [|discriminate].
  intros [= <-]. apply length_insert.
Qed.

Lemma keeps_ret {A : Type} (P : FuelPin -> Prop) (a : A) : keeps P (ret a).
Proof. intros p HP. exact HP. Qed.

Lemma keeps_raise {A : Type} (P : FuelPin -> Prop) (e : exn) : keeps P (raise (A := A) e).
Proof. intros p HP. exact HP. Qed.

Lemma keeps_gets {A : Type} (P : FuelPin -> Prop) (g : FuelPin -> A) : keeps P (gets g).
Proof. intros p HP. exact HP. Qed.

Lemma keeps_lift {A : Type} (P : FuelPin -> Prop) (r : exn + A) : keeps P (lift r).
Proof. intros p HP. exact HP. Qed.

Lemma keeps_modify (P : FuelPin -> Prop) (g : FuelPin -> FuelPin) :
  (forall p, P p -> P (g p)) -> keeps P (modify g).
Proof. intros Hg p HP. now apply Hg. Qed.

Lemma keeps_bind {A B : Type} (P : FuelPin -> Prop) (m : M A) (k : A -> M B) :
  keeps P m -> (forall a, keeps P (k a)) -> keeps P (bind m k).
Proof.
  intros Hm Hk p HP. unfold bind. specialize (Hm p HP).
  destruct (m p) as [[e|a] p']; simpl in *; [exact Hm|]. now apply Hk.
Qed.

Lemma keeps_for_acc {A B : Type} (P : FuelPin -> Prop) (l : list B)
    (body : B -> A -> M A) (a : A) :
  (forall x a', keeps P (body x a')) -> keeps P (for_acc l body a).
Proof.
  intros Hbody. revert a. induction l as [|x l IH]; intros a; simpl.
  - apply keeps_ret.
  - apply keeps_bind; [apply Hbody|exact IH].
Qed.

Lemma keeps_for {B : Type} (P : FuelPin -> Prop) (l : list B) (body : B -> M unit) :
  (forall x, keeps P (body x)) -> keeps P (for_ l body).
Proof. intros Hbody. apply keeps_for_acc. intros x _. apply Hbody. Qed.

(** What a method leaves alone decides whether a property that does not
    look at the rest is kept. *)
Lemma keeps_outside {A B : Type} (P : FuelPin -> Prop) (f : FuelPin -> B) (m : M A) :
  preserves f m -> (forall p q, f p = f q -> P p -> P q) -> keeps P m.
Proof. intros Hf HP p Hp. apply (HP p); [symmetry; apply Hf|exact Hp]. Qed.

Ltac keeps_step :=
  lazymatch goal with
  | |- keeps _ (bind _ _) => apply keeps_bind; [|intros ?]
  | |- keeps _ (ret _) => apply keeps_ret
  | |- keeps _ (raise _) => apply keeps_raise
  | |- keeps _ (gets _) => apply keeps_gets
  | |- keeps _ (lift _) => apply keeps_lift
  | |- keeps _ (for_ _ _) => apply keeps_for; intros ?
  | |- keeps _ (for_acc _ _ _) => apply keeps_for_acc; intros ? ?
  | |- keeps _ (if ?b then _ else _) => destruct b
  | |- keeps _ (match ?x with _ => _ end) => destruct x
  end.

(** A body that reads and writes entries of the lists of the pin: every
    way through it ends in the pin itself or in the pin with lists of the
    lengths they had. *)
Ltac keeps_entries :=
  let p := fresh "p" in
  let HP := fresh "HP" in
  intros p HP;
  unfold store_current, store_prev, store_tip, append_material, bind, gets, lift,
    modify, ret;
  simpl;
  repeat (match goal with
          | |- context [match ?x with _ => _ end] => destruct x eqn:?
          end; simpl);
  try exact HP;
  repeat match goal with
         | H : py_set _ _ _ = inr _ |- _ => apply py_set_length in H
         end;
  destruct HP as ((? & ? & ? & ? & ?) & ? & ? & ?);
  unfold consistent, has_rings; simpl; repeat split; congruence.

Lemma consistent_store_current (n : nat) (r : Z) (A : option DepletionMatrix) :
  keeps (fun p => consistent p n) (store_current r A).
Proof. keeps_entries. Qed.

Lemma consistent_store_prev (n : nat) (r : Z) (A : option DepletionMatrix) :
  keeps (fun p => consistent p n) (store_prev r A).
Proof. keeps_entries. Qed.

Lemma consistent_store_tip (n : nat) (r : Z) (m : Material) :
  keeps (fun p => consistent p n) (store_tip r m).
Proof. keeps_entries. Qed.

Lemma consistent_append_material (n : nat) (r : Z) (m : Material) :
  keeps (fun p => consistent p n) (append_material r m).
Proof. keeps_entries. Qed.

Lemma consistent_predict_ring (n : nat) (chain : DepletionChain) (ndl : NDLibrary)
    (dt : float) (dtm1 : option float) (r : Z) :
  keeps (fun p => consistent p n) (predict_ring chain ndl dt dtm1 r).
Proof.
  unfold predict_ring.
  repeat first
    [ apply consistent_store_current
    | apply consistent_store_tip
    | apply consistent_append_material
    | keeps_step ].
Qed.

Lemma consistent_correct_ring (n : nat) (chain : DepletionChain) (ndl : NDLibrary)
    (dt : float) (dtm1 : option float) (r : Z) :
  keeps (fun p => consistent p n) (correct_ring chain ndl dt dtm1 r).
Proof.
  unfold correct_ring.
  repeat first
    [ apply consistent_store_current
    | apply consistent_store_prev
    | apply consistent_store_tip
    | keeps_step ].
Qed.

Lemma consistent_outside_xs (n : nat) (p q : FuelPin) :
  outside_xs p = outside_xs q -> consistent p n -> consistent q n.
Proof.
  unfold outside_xs, consistent, has_rings. intros E. destruct p, q; simpl in *.
  injection E as -> -> -> -> -> -> -> -> -> -> -> -> -> -> -> -> -> ->. tauto.
Qed.

Lemma consistent_make_fuel_pin (fuel cl : Material) (R Rc : float)
    (g : option Material) (Rg : option float) (N : Z) (p : FuelPin) :
  FuelPin_init fuel R cl Rc g Rg N = inr p -> consistent p (Z.to_nat N).
Proof.
  unfold FuelPin_init. intros Hinit.
  destruct (R <=? 0)%float; [discriminate Hinit|].
  destruct (Z.leb_spec N 0) as [|HN]; [discriminate Hinit|].
  destruct (square_overflows R); [discriminate Hinit|].
  assert (p.(_num_fuel_rings) = N /\
          p.(_fuel_ring_fsr_ids) = replicate (Z.to_nat N) [] /\
          p.(_fuel_ring_fsr_inds) = replicate (Z.to_nat N) [] /\
          p.(_fuel_radii) = make_fuel_radii R N /\
          p.(_fuel_ring_materials) = replicate (Z.to_nat N) [fuel] /\
          p.(_fuel_ring_flux_spectra) = replicate (Z.to_nat N) [] /\
          p.(_fuel_ring_prev_dep_mats) = replicate (Z.to_nat N) None /\
          p.(_fuel_ring_current_dep_mats) = replicate (Z.to_nat N) None)
    as (Hn & Hi & Hj & Hr & Hm & Hf & Hp & Hc).
  { destruct g, Rg; try discriminate Hinit;
      repeat match type of Hinit with
             | (if ?b then _ else _) = _ => destruct b; [discriminate Hinit|]
             end;
      injection Hinit as <-; repeat split. }
  unfold consistent, has_rings.
  rewrite Hn, Hi, Hj, Hr, Hm, Hf, Hp, Hc, !length_replicate.
  rewrite make_fuel_radii_length by lia. repeat split. lia.
Qed.

(** X11.  The lengths of the per-ring lists are a class invariant. The
    constructor returns a pin that is consistent for its ring count: it
    has that many rings, radii, lists of region identifiers and lists of
    region indexes. [append_fuel_dancoff_correction] and
    [append_clad_dancoff_correction] keep a pin consistent, whether they
    return or raise. *)
Theorem consistency_from_construction (n : nat) :
  (forall fuel cl R Rc g Rg N p,
     FuelPin_init fuel R cl Rc g Rg N = inr p -> consistent p (Z.to_nat N)) /\
  (forall C, keeps (fun p => consistent p n) (append_fuel_dancoff_correction C)) /\
  (forall C, keeps (fun p => consistent p n) (append_clad_dancoff_correction C)).
Proof.
  split; [exact consistent_make_fuel_pin|]. split.
  - intros C. unfold append_fuel_dancoff_correction. repeat keeps_step.
    apply keeps_modify. intros p ((? & ? & ? & ? & ?) & ? & ? & ?).
    repeat split; assumption.
  - intros C. unfold append_clad_dancoff_correction. repeat keeps_step.
    apply keeps_modify. intros p ((? & ? & ? & ? & ?) & ? & ? & ?).
    repeat split; assumption.
Qed.

(** X12.  The methods that prepare the transport calculation keep a pin
    consistent, whether they return or raise:
    [set_fuel_xs_for_depletion_step], [set_gap_xs],
    [set_clad_xs_for_depletion_step] and [make_moc_cell]. *)
Theorem consistency_through_transport (n : nat) :
  (forall t ndl,
     keeps (fun p => consistent p n) (set_fuel_xs_for_depletion_step t ndl)) /\
  (forall ndl, keeps (fun p => consistent p n) (set_gap_xs ndl)) /\
  (forall t ndl,
     keeps (fun p => consistent p n) (set_clad_xs_for_depletion_step t ndl)) /\
  (forall mxs dx dy pintype,
     keeps (fun p => consistent p n) (make_moc_cell mxs dx dy pintype)).
Proof.
  split; [|split; [|split]].
  - intros t ndl. apply (keeps_outside _ outside_xs);
      [apply set_fuel_xs_outside|apply consistent_outside_xs].
  - intros ndl. apply (keeps_outside _ outside_xs);
      [apply set_gap_xs_outside|apply consistent_outside_xs].
  - intros t ndl. apply (keeps_outside _ outside_xs);
      [apply set_clad_xs_outside|apply consistent_outside_xs].
  - intros mxs dx dy pintype. unfold make_moc_cell. repeat keeps_step.
    + unfold _check_dx_dy. repeat keeps_step.
    + unfold moc_cell_layers. repeat keeps_step.
    + unfold record_fsr_ids, take_ids. repeat keeps_step.
      * unfold take_ring_ids. apply keeps_for_acc. intros ? ?. keeps_entries.
      * apply keeps_modify. intros p ((? & ? & ? & ? & ?) & ? & ? & ?).
        repeat split; assumption.
      * apply keeps_modify. intros p ((? & ? & ? & ? & ?) & ? & ? & ?).
        repeat split; assumption.
      * apply keeps_modify. intros p ((? & ? & ? & ? & ?) & ? & ? & ?).
        repeat split; assumption.
Qed.

(** X13.  The methods of a depletion step keep a pin consistent, whether
    they return or raise: [obtain_flux_spectra],
    [normalize_flux_spectrum], [predict_depletion] and
    [correct_depletion]. In particular a predictor or corrector that
    raises in one ring leaves every per-ring list with its length. *)
Theorem consistency_through_depletion (n : nat) :
  (forall moc, keeps (fun p => consistent p n) (obtain_flux_spectra moc)) /\
  (forall f, keeps (fun p => consistent p n) (normalize_flux_spectrum f)) /\
  (forall chain ndl dt dtm1,
     keeps (fun p => consistent p n) (predict_depletion chain ndl dt dtm1)) /\
  (forall chain ndl dt dtm1,
     keeps (fun p => consistent p n) (correct_depletion chain ndl dt dtm1)).
Proof.
  split; [|split; [|split]].
  - intros moc. unfold obtain_flux_spectra.
    apply keeps_bind; [apply keeps_gets|intros ?]. apply keeps_for. intros ?.
    keeps_entries.
  - intros f. unfold normalize_flux_spectrum.
    destruct (f <=? 0)%float; [apply keeps_raise|].
    apply keeps_bind; [apply keeps_gets|intros ?]. apply keeps_for. intros ?.
    keeps_entries.
  - intros chain ndl dt dtm1. unfold predict_depletion. repeat keeps_step.
    apply consistent_predict_ring.
  - intros chain ndl dt dtm1. unfold correct_depletion. repeat keeps_step.
    apply consistent_correct_ring.
Qed.

End Consistency.

(** ** Comparisons of binary64 numbers with a NaN *)

Lemma SFcompare_None (x y : spec_float) :
  SFcompare x y = None -> x = S754_nan \/ y = S754_nan.
Proof.
  destruct x as [sx|sx| |sx mx ex], y as [sy|sy| |sy my ey]; simpl;
    try discriminate; auto.
Qed.

Lemma SFcompare_refl (x : spec_float) : x <> S754_nan -> SFcompare x x = Some Eq.
Proof.
  destruct x as [s|s| |s m e]; simpl; intros Hx; try reflexivity.
  - now destruct s.
  - contradiction.
  - rewrite Z.compare_refl, Pos.compare_cont_refl. now destruct s.
Qed.

Lemma is_nan_spec (x : float) : PrimFloat.is_nan x = true <-> Prim2SF x = S754_nan.
Proof.
  unfold PrimFloat.is_nan. rewrite FloatAxioms.eqb_spec. unfold SFeqb. split.
  - intros Hx. destruct (Prim2SF x) as [s|s| |s m e] eqn:E; [| |reflexivity|];
      rewrite SFcompare_refl in Hx by discriminate; discriminate Hx.
  - intros ->. reflexivity.
Qed.

Lemma not_nan_spec (x : float) : PrimFloat.is_nan x = false -> Prim2SF x <> S754_nan.
Proof.
  intros Hx E. apply is_nan_spec in E. congruence.
Qed.

(** For numbers that are not NaNs, [x <= y] fails only when [y < x]. *)
Lemma not_leb_ltb (x y : float) :
  PrimFloat.is_nan x = false -> PrimFloat.is_nan y = false ->
  (x <=? y)%float = false -> (y <? x)%float = true.
Proof.
  intros Hx Hy. rewrite FloatAxioms.leb_spec, FloatAxioms.ltb_spec. unfold SFleb, SFltb.
  rewrite (SFcompare_swap (Prim2SF x) (Prim2SF y)).
  destruct (SFcompare (Prim2SF x) (Prim2SF y)) as [[ | | ]|] eqn:E; simpl; try congruence.
  apply SFcompare_None in E as [E|E]; [now apply not_nan_spec in Hx|now apply not_nan_spec in Hy].
Qed.

(** The square of a NaN does not overflow. *)
Lemma square_overflows_nan (x : float) :
  PrimFloat.is_nan x = true -> square_overflows x = false.
Proof.
  intros Hx. unfold square_overflows, PrimFloat.is_finite. now rewrite Hx.
Qed.

(** Every comparison with a NaN is false. *)
Lemma nan_compares_false (x y : float) :
  PrimFloat.is_nan x = true ->
  (x <? y)%float = false /\ (y <? x)%float = false /\
  (x <=? y)%float = false /\ (y <=? x)%float = false.
Proof.
  intros Hx. apply is_nan_spec in Hx.
  rewrite !FloatAxioms.ltb_spec, !FloatAxioms.leb_spec. unfold SFltb, SFleb.
  rewrite Hx. simpl. destruct (Prim2SF y); repeat split; reflexivity.
Qed.

Section ConstructorProperties.
Context {collab : Collaborators}.

(** ** The geometry the constructor accepts *)

Lemma FuelPin_init_fields (fuel cl : Material) (R Rc : float)
    (g : option Material) (Rg : option float) (N : Z) (p : FuelPin) :
  FuelPin_init fuel R cl Rc g Rg N = inr p ->
  (R <=? 0)%float = false /\ 1 <= N /\
  gap_clad_ok R Rc g Rg = true /\
  fuel_radius p = R /\ clad_radius p = Rc /\ gap p = g /\ gap_radius p = Rg /\
  clad p = cl /\ num_fuel_rings p = N /\
  p.(_fuel_radii) = make_fuel_radii R N /\
  p.(_fuel_ring_xs) = [] /\ p.(_gap_xs) = None /\ p.(_clad_xs) = None /\
  p.(_fuel_dancoff_corrections) = [] /\ p.(_clad_dancoff_corrections) = [] /\
  p.(_fuel_ring_fsr_ids) = replicate (Z.to_nat N) [] /\
  p.(_gap_fsr_ids) = [] /\ p.(_clad_fsr_ids) = [] /\ p.(_mod_fsr_ids) = [] /\
  p.(_fuel_ring_materials) = replicate (Z.to_nat N) [fuel].
Proof.
  unfold FuelPin_init, gap_clad_ok. intros Hinit.
  destruct (R <=? 0)%float; [discriminate Hinit|].
  destruct (Z.leb_spec N 0) as [|HN]; [discriminate Hinit|].
  destruct (square_overflows R); [discriminate Hinit|].
  split; [reflexivity|]. split; [lia|].
  destruct g, Rg; try discriminate Hinit;
    repeat match type of Hinit with
           | (if ?b then _ else _) = _ => destruct b eqn:?; [discriminate Hinit|]
           end;
    injection Hinit as <-; simpl;
    repeat match goal with
           | H : (_ || _) = false |- _ => apply orb_false_iff in H as [? ?]
           end;
    repeat match goal with
           | H : _ = false |- _ => rewrite H
           end;
    repeat split.
Qed.

(** X14.  The constructor returns a pin only for radii in order: unless
    one of them is a NaN, [0 < fuel_radius < clad_radius], and with a gap
    [fuel_radius < gap_radius < clad_radius]; the gap and its radius come
    together; and no ring boundary exceeds the fuel radius. *)
Theorem constructor_orders_radii (fuel cl : Material) (R Rc : float)
    (g : option Material) (Rg : option float) (N : Z) (p : FuelPin) :
  FuelPin_init fuel R cl Rc g Rg N = inr p ->
  fuel_radius p = R /\ clad_radius p = Rc /\ gap p = g /\ gap_radius p = Rg /\
  is_Some_b g = is_Some_b Rg /\
  (PrimFloat.is_nan R = false -> (0 <? R)%float = true) /\
  (PrimFloat.is_nan R = false -> PrimFloat.is_nan Rc = false -> (R <? Rc)%float = true) /\
  (forall rg, Rg = Some rg ->
     PrimFloat.is_nan R = false -> PrimFloat.is_nan rg = false ->
     PrimFloat.is_nan Rc = false ->
     (R <? rg)%float = true /\ (rg <? Rc)%float = true) /\
  (forall r, r ∈ p.(_fuel_radii) -> (R <? r)%float = false).
Proof.
  intros Hinit.
  destruct (FuelPin_init_fields _ _ _ _ _ _ _ _ Hinit)
    as (HR & HN & Hok & -> & -> & -> & -> & _ & _ & Hradii & _).
  split; [reflexivity|]. split; [reflexivity|]. split; [reflexivity|].
  split; [reflexivity|].
  unfold gap_clad_ok in Hok.
  split; [destruct g, Rg; try discriminate Hok; reflexivity|].
  split; [intros HnR; apply not_leb_ltb; [exact HnR|reflexivity|exact HR]|].
  split.
  - intros HnR HnRc. apply not_leb_ltb; [assumption..|].
    destruct g, Rg; try discriminate Hok;
      repeat (apply andb_true_iff in Hok as [Hok ?]);
      repeat match goal with
             | H : negb _ = true |- _ => apply negb_true_iff in H
             end; assumption.
  - split.
    + intros rg -> HnR Hnrg HnRc.
      destruct g; try discriminate Hok.
      repeat (apply andb_true_iff in Hok as [Hok ?]).
      repeat match goal with
             | H : negb _ = true |- _ => apply negb_true_iff in H
             end.
      split; apply not_leb_ltb; assumption.
    + intros r Hr. rewrite Hradii in Hr. now apply make_fuel_radii_le with (N := N).
Qed.

End ConstructorProperties.

Section Guards.
Context {collab : Collaborators}.

(** ** Arguments that are NaNs *)

(** X15.  The guards of the methods are comparisons, and every comparison
    with a NaN is false: a NaN is appended to the Dancoff corrections of
    the fuel and of the cladding, is accepted as the fuel radius of a new
    pin, and is accepted as normalization factor, which it multiplies into
    every flux. *)
Theorem nan_passes_the_guards (x : float) :
  PrimFloat.is_nan x = true ->
  (forall p,
     append_fuel_dancoff_correction x p
       = (inr tt, set_fuel_dancoff_corrections (p.(_fuel_dancoff_corrections) ++ [x]) p)) /\
  (forall p,
     append_clad_dancoff_correction x p
       = (inr tt, set_clad_dancoff_corrections (p.(_clad_dancoff_corrections) ++ [x]) p)) /\
  (forall fuel cl Rc N,
     1 <= N -> (Rc <=? 0)%float = false ->
     exists p, FuelPin_init fuel x cl Rc None None N = inr p /\ fuel_radius p = x) /\
  (forall p n,
     has_rings p n ->
     normalize_flux_spectrum x p
       = (inr tt,
          set_fuel_ring_flux_spectra
            (map (map (fun y => (y * x)%float)) p.(_fuel_ring_flux_spectra)) p)).
Proof.
  intros Hx.
  destruct (nan_compares_false x 0 Hx) as (Hlt0 & _ & Hle0 & _).
  destruct (nan_compares_false x 1 Hx) as (_ & Hgt1 & _ & _).
  split; [|split; [|split]].
  - intros p. unfold append_fuel_dancoff_correction. now rewrite Hlt0, Hgt1.
  - intros p. unfold append_clad_dancoff_correction. now rewrite Hlt0, Hgt1.
  - intros fuel cl Rc N HN HRc. unfold FuelPin_init. rewrite Hle0.
    destruct (Z.leb_spec N 0); [lia|].
    rewrite (square_overflows_nan x Hx), HRc.
    destruct (nan_compares_false x Rc Hx) as (_ & _ & _ & ->). simpl.
    eexists. split; reflexivity.
  - intros p n Hn. exact (normalize_flux_spectrum_rings x p n Hn Hle0).
Qed.

(** ** Cross sections need a Dancoff correction *)

Lemma bind_reads {A B : Type} (m : M A) (k : A -> M B) (p : FuelPin) :
  (m p = (inl IndexError, p) \/ exists a, m p = (inr a, p)) ->
  (forall a, k a p = (inl IndexError, p)) ->
  bind m k p = (inl IndexError, p).
Proof.
  intros [Hm|[a Hm]] Hk; unfold bind; rewrite Hm; [reflexivity|apply Hk].
Qed.

Lemma lift_py_get_reads {A : Type} (l : list A) (i : Z) (p : FuelPin) :
  lift (py_get l i) p = (inl IndexError, p) \/ exists a, lift (py_get l i) p = (inr a, p).
Proof.
  unfold lift. destruct (py_get l i) as [e|a] eqn:E; [left|right; eauto].
  now rewrite (py_get_exn _ _ _ E).
Qed.

Lemma ring_material_reads (ri t : Z) (p : FuelPin) :
  ring_material ri t p = (inl IndexError, p) \/
  exists mat, ring_material ri t p = (inr mat, p).
Proof.
  unfold ring_material, bind, gets, lift.
  destruct (py_get (_fuel_ring_materials p) ri) as [e|ms] eqn:E.
  - left. now rewrite (py_get_exn _ _ _ E).
  - destruct (py_get ms t) as [e|m] eqn:E'; [left|right; eauto].
    now rewrite (py_get_exn _ _ _ E').
Qed.

Lemma ring_Rin_Rout_reads (ri : Z) (p : FuelPin) :
  ring_Rin_Rout ri p = (inl IndexError, p) \/
  exists rr, ring_Rin_Rout ri p = (inr rr, p).
Proof.
  unfold ring_Rin_Rout, bind, gets, lift, ret.
  destruct (0 <? ri).
  - destruct (py_get (_fuel_radii p) (ri - 1)) as [e|Rin] eqn:E.
    + left. now rewrite (py_get_exn _ _ _ E).
    + destruct (py_get (_fuel_radii p) ri) as [e|Rout] eqn:E'; [left|right; eauto].
      now rewrite (py_get_exn _ _ _ E').
  - destruct (py_get (_fuel_radii p) ri) as [e|Rout] eqn:E'; [left|right; eauto].
    now rewrite (py_get_exn _ _ _ E').
Qed.

Lemma fuel_xs_without_dancoff (p : FuelPin) (t : Z) (ndl : NDLibrary) (n : nat) :
  num_fuel_rings p = Z.of_nat (S n) ->
  p.(_fuel_dancoff_corrections) = [] ->
  length p.(_fuel_ring_xs) = 0%nat \/ length p.(_fuel_ring_xs) = S n ->
  (2 * fuel_radius p =? 0)%float = false ->
  set_fuel_xs_for_depletion_step t ndl p = (inl IndexError, p).
Proof.
  intros Hn HCs Hxs HR. unfold set_fuel_xs_for_depletion_step.
  unfold bind at 1, gets at 1. unfold bind at 1, gets at 1. rewrite Hn.
  assert (py_range (Z.of_nat (S n)) = 0 :: map Z.of_nat (seq 1 n)) as Hrange
    by (unfold py_range; now rewrite Nat2Z.id).
  destruct Hxs as [Hxs|Hxs]; rewrite Hxs.
  - simpl (Z.of_nat 0 =? 0). cbv iota.
    destruct (Z.eqb_spec (Z.of_nat (S n)) 1) as [E|E].
    + unfold bind at 1, gets at 1. unfold bind at 1, lift at 1, py_div. rewrite HR.
      unfold bind at 1.
      destruct (ring_material_reads 0 t p) as [->|[mat ->]]; [reflexivity|].
      unfold bind, gets, lift. rewrite HCs, py_get_nil. reflexivity.
    + rewrite Hrange. unfold for_. simpl for_acc. unfold bind at 1.
      rewrite (bind_reads (ring_Rin_Rout 0) _ p (ring_Rin_Rout_reads 0 p));
        [reflexivity|].
      intros rr. apply bind_reads; [apply ring_material_reads|]. intros mat.
      unfold bind, gets, lift. rewrite HCs, py_get_nil. reflexivity.
  - destruct (Z.eqb_spec (Z.of_nat (S n)) 0) as [E|_]; [lia|].
    rewrite Z.eqb_refl.
    destruct (Z.eqb_spec (Z.of_nat (S n)) 1) as [E|E].
    + unfold bind at 1, gets at 1. unfold bind at 1, lift at 1, py_div. rewrite HR.
      unfold bind at 1, gets at 1.
      apply bind_reads; [apply lift_py_get_reads|]. intros old.
      apply bind_reads; [apply ring_material_reads|]. intros mat.
      unfold bind, gets, lift. rewrite HCs, py_get_nil. reflexivity.
    + rewrite Hrange. unfold for_. simpl for_acc. unfold bind at 1.
      rewrite (bind_reads (ring_Rin_Rout 0) _ p (ring_Rin_Rout_reads 0 p));
        [reflexivity|].
      intros rr. unfold bind at 1, gets at 1.
      apply bind_reads; [apply lift_py_get_reads|]. intros old.
      apply bind_reads; [apply ring_material_reads|]. intros mat.
      unfold bind, gets, lift. rewrite HCs, py_get_nil. reflexivity.
Qed.

Lemma clad_xs_without_dancoff (p : FuelPin) (t : Z) (ndl : NDLibrary) :
  p.(_clad_dancoff_corrections) = [] ->
  (2 * (clad_radius p - match gap_radius p with
                        | Some Rg => Rg
                        | None => fuel_radius p
                        end) =? 0)%float = false ->
  set_clad_xs_for_depletion_step t ndl p = (inl IndexError, p).
Proof.
  intros HCs HR. unfold set_clad_xs_for_depletion_step, bind, gets, lift, py_div.
  destruct (gap_radius p) as [Rg|]; rewrite HR, HCs, py_get_nil; reflexivity.
Qed.

(** X16.  The cross sections of a depletion step cannot be built before a
    Dancoff correction has been appended. On a pin with at least one ring
    whose list of Dancoff corrections of the fuel is empty,
    [set_fuel_xs_for_depletion_step] raises [IndexError] for every step
    index and leaves the pin as it was; and so does
    [set_clad_xs_for_depletion_step] when the list of the cladding is
    empty. (The escape cross sections are computed first: their divisors
    are assumed not to be zero.) *)
Theorem xs_setters_need_dancoff (p : FuelPin) (t : Z) (ndl : NDLibrary) (n : nat) :
  num_fuel_rings p = Z.of_nat (S n) ->
  (p.(_fuel_dancoff_corrections) = [] ->
   length p.(_fuel_ring_xs) = 0%nat \/ length p.(_fuel_ring_xs) = S n ->
   (2 * fuel_radius p =? 0)%float = false ->
   set_fuel_xs_for_depletion_step t ndl p = (inl IndexError, p)) /\
  (p.(_clad_dancoff_corrections) = [] ->
   (2 * (clad_radius p - match gap_radius p with
                         | Some Rg => Rg
                         | None => fuel_radius p
                         end) =? 0)%float = false ->
   set_clad_xs_for_depletion_step t ndl p = (inl IndexError, p)).
Proof.
  intros Hn. split.
  - now apply fuel_xs_without_dancoff.
  - apply clad_xs_without_dancoff.
Qed.

End Guards.

Section SeveralRings.
Context {collab : Collaborators}.

(** ** The cross sections of the rings *)

Lemma imap_take_S {A B : Type} (h : nat -> A -> B) (l : list A) (r : nat) (x : A) :
  l !! r = Some x -> imap h (take (S r) l) = imap h (take r l) ++ [h r x].
Proof.
  intros Hx. rewrite (take_S_r _ _ _ Hx), imap_app. simpl.
  rewrite length_take_le by (apply lookup_lt_Some in Hx; lia).
  now rewrite Nat.add_0_r.
Qed.

Lemma insert_imap_processed {A B : Type} (h : nat -> A -> B) (src : list A)
    (dst : list B) (r : nat) (x : A) :
  src !! r = Some x -> (r < length dst)%nat ->
  <[r := h r x]> (imap h (take r src) ++ drop r dst)
    = imap h (take (S r) src) ++ drop (S r) dst.
Proof.
  intros Hx Hr.
  assert (length (imap h (take r src)) = r) as Hlen.
  { rewrite length_imap, length_take. apply lookup_lt_Some in Hx. lia. }
  rewrite insert_app_r_alt by lia. rewrite Hlen, Nat.sub_diag.
  destruct (lookup_lt_is_Some_2 dst r Hr) as [z Hz].
  rewrite (drop_S dst z r Hz). simpl.
  rewrite (imap_take_S _ _ _ _ Hx). now rewrite <- app_assoc.
Qed.

Lemma ring_Rin_Rout_eval (p : FuelPin) (r : nat) :
  (r < length p.(_fuel_radii))%nat ->
  ring_Rin_Rout (Z.of_nat r) p
    = (inr (ring_inner p.(_fuel_radii) r, ring_outer p.(_fuel_radii) r), p).
Proof.
  intros Hr. unfold ring_Rin_Rout, bind, gets, lift, ret, ring_inner, ring_outer.
  destruct (lookup_lt_is_Some_2 _ _ Hr) as [Rout HRout].
  destruct r as [|r'].
  - simpl (0 <? Z.of_nat 0). cbv iota.
    now rewrite (py_get_nat _ 0 _ HRout), HRout.
  - destruct (Z.ltb_spec 0 (Z.of_nat (S r'))); [|lia].
    destruct (lookup_lt_is_Some_2 p.(_fuel_radii) r' ltac:(lia)) as [Rin HRin].
    replace (Z.of_nat (S r') - 1) with (Z.of_nat r') by lia.
    now rewrite (py_get_nat _ _ _ HRin), (py_get_nat _ _ _ HRout), HRin, HRout.
Qed.

Lemma ring_material_eval (p : FuelPin) (r : nat) (t : Z) (ms : list Material)
    (mat : Material) :
  p.(_fuel_ring_materials) !! r = Some ms -> py_get ms t = inr mat ->
  ring_material (Z.of_nat r) t p = (inr mat, p).
Proof.
  intros Hms Hmat. unfold ring_material, bind, gets, lift.
  now rewrite (py_get_nat _ _ _ Hms), Hmat.
Qed.

Lemma step_materials_lookup (p : FuelPin) (t : Z) (mats_t : list Material) (r : nat)
    (mat : Material) :
  step_materials p t mats_t -> mats_t !! r = Some mat ->
  exists ms, p.(_fuel_ring_materials) !! r = Some ms /\ py_get ms t = inr mat.
Proof.
  intros Hall Hmat. destruct (Forall2_lookup_r _ _ _ _ _ Hall Hmat) as (ms & Hms & Hget).
  eauto.
Qed.

(** The first call on a pin with several rings. *)
Lemma set_fuel_xs_creates (p : FuelPin) (t : Z) (ndl : NDLibrary) (n : nat) (C : float)
    (mats_t : list Material) :
  num_fuel_rings p = Z.of_nat n -> n <> 1%nat ->
  length p.(_fuel_radii) = n -> length mats_t = n ->
  step_materials p t mats_t ->
  py_get p.(_fuel_dancoff_corrections) t = inr C ->
  p.(_fuel_ring_xs) = [] ->
  set_fuel_xs_for_depletion_step t ndl p
    = (inr tt,
       set_fuel_ring_xs
         (imap (fun k mat => name_if_empty (ring_xs p C ndl k mat) "Fuel") mats_t) p).
Proof.
  intros Hn Hn1 Hradii Hlen Hmats HC Hxs.
  unfold set_fuel_xs_for_depletion_step.
  unfold bind at 1, gets at 1. unfold bind at 1, gets at 1. rewrite Hxs, Hn.
  simpl (Z.of_nat (length []) =? 0). cbv iota.
  destruct (Z.eqb_spec (Z.of_nat n) 1) as [E|_]; [lia|].
  set (h := fun k mat => name_if_empty (ring_xs p C ndl k mat) "Fuel").
  destruct (for_range_inv
    (fun r q => q = set_fuel_ring_xs (imap h (take r mats_t)) p)
    (fun ri =>
       bind (ring_Rin_Rout ri) (fun rr =>
       bind (ring_material ri t) (fun mat =>
       bind (gets _fuel_dancoff_corrections) (fun Cs =>
       bind (lift (py_get Cs t)) (fun C =>
       bind (gets fuel_radius) (fun R =>
       bind (gets _fuel_ring_xs) (fun xss =>
       modify (set_fuel_ring_xs
                 (xss ++ [name_if_empty
                            (ring_carlvik_xs mat C R (fst rr) (snd rr) ndl) "Fuel"])))))))))
    n p) as (p' & Hloop & Hp').
  - rewrite take_0. simpl. rewrite <- Hxs. now destruct p.
  - intros r q Hr ->.
    destruct (lookup_lt_is_Some_2 mats_t r ltac:(lia)) as [mat Hmat].
    destruct (step_materials_lookup p t mats_t r mat Hmats Hmat) as (ms & Hms & Hget).
    eexists. split.
    + unfold bind at 1. rewrite ring_Rin_Rout_eval by (simpl; lia).
      unfold bind at 1. rewrite (ring_material_eval _ r t ms mat) by assumption.
      unfold bind, gets, lift, modify. simpl. rewrite HC. reflexivity.
    + simpl. rewrite (imap_take_S _ _ _ _ Hmat). reflexivity.
  - rewrite Hloop, Hp'. now rewrite take_ge by lia.
Qed.

(** A later call on a pin with several rings: the cross sections are
    there, one for each ring. *)
Lemma set_fuel_xs_resets (p : FuelPin) (t : Z) (ndl : NDLibrary) (n : nat) (C : float)
    (mats_t : list Material) :
  num_fuel_rings p = Z.of_nat n -> (1 < n)%nat ->
  length p.(_fuel_radii) = n -> length mats_t = n ->
  step_materials p t mats_t ->
  py_get p.(_fuel_dancoff_corrections) t = inr C ->
  length p.(_fuel_ring_xs) = n ->
  set_fuel_xs_for_depletion_step t ndl p
    = (inr tt,
       set_fuel_ring_xs
         (imap (fun k (om : CrossSection * Material) =>
                  name_if_empty (xs_set om.1 (ring_xs p C ndl k om.2)) "Fuel")
               (zip p.(_fuel_ring_xs) mats_t)) p).
Proof.
  intros Hn Hn1 Hradii Hlen Hmats HC Hxs.
  unfold set_fuel_xs_for_depletion_step.
  unfold bind at 1, gets at 1. unfold bind at 1, gets at 1. rewrite Hxs, Hn.
  destruct (Z.eqb_spec (Z.of_nat n) 0) as [E|_]; [lia|].
  rewrite Z.eqb_refl.
  destruct (Z.eqb_spec (Z.of_nat n) 1) as [E|_]; [lia|].
  set (h := fun k (om : CrossSection * Material) =>
              name_if_empty (xs_set om.1 (ring_xs p C ndl k om.2)) "Fuel").
  set (src := zip p.(_fuel_ring_xs) mats_t).
  assert (length src = n) as Hsrc by (unfold src; rewrite length_zip; lia).
  destruct (for_range_inv
    (fun r q => q = set_fuel_ring_xs (imap h (take r src) ++ drop r p.(_fuel_ring_xs)) p)
    (fun ri =>
       bind (ring_Rin_Rout ri) (fun rr =>
       bind (gets _fuel_ring_xs) (fun xss =>
       bind (lift (py_get xss ri)) (fun old =>
       bind (ring_material ri t) (fun mat =>
       bind (gets _fuel_dancoff_corrections) (fun Cs =>
       bind (lift (py_get Cs t)) (fun C =>
       bind (gets fuel_radius) (fun R =>
       bind (lift (py_set xss ri
                     (name_if_empty
                        (xs_set old (ring_carlvik_xs mat C R (fst rr) (snd rr) ndl))
                        "Fuel"))) (fun xss' =>
       modify (set_fuel_ring_xs xss'))))))))))
    n p) as (p' & Hloop & Hp').
  - rewrite take_0, drop_0. simpl. now destruct p.
  - intros r q Hr ->.
    destruct (lookup_lt_is_Some_2 src r ltac:(lia)) as [[old mat] Hom].
    pose proof Hom as Hom'. unfold src in Hom'.
    apply lookup_zip_with_Some in Hom' as (old' & mat' & E & Hold & Hmat).
    injection E as <- <-.
    destruct (step_materials_lookup p t mats_t r mat Hmats Hmat) as (ms & Hms & Hget).
    assert (length (imap h (take r src)) = r) as Hlen'
      by (rewrite length_imap, length_take; lia).
    eexists. split.
    + unfold bind at 1. rewrite ring_Rin_Rout_eval by (simpl; lia).
      unfold bind at 1, gets at 1. simpl _fuel_ring_xs.
      unfold bind at 1, lift at 1.
      rewrite (py_get_nat _ r old).
      2:{ rewrite lookup_app_r by lia. rewrite Hlen', Nat.sub_diag, lookup_drop.
          now rewrite Nat.add_0_r. }
      unfold bind at 1. rewrite (ring_material_eval _ r t ms mat) by assumption.
      unfold bind, gets, lift, modify. simpl. rewrite HC.
      rewrite py_set_nat
        by (rewrite length_app, length_imap, length_take, length_drop; lia).
      change (name_if_empty
                (xs_set old
                   (ring_carlvik_xs mat C (_fuel_radius p)
                      (ring_inner (_fuel_radii p) r) (ring_outer (_fuel_radii p) r) ndl))
                "Fuel") with (h r (old, mat)).
      rewrite (insert_imap_processed h src _ r (old, mat) Hom) by lia.
      reflexivity.
    + reflexivity.
  - rewrite Hloop, Hp'. f_equal. f_equal.
    rewrite take_ge by lia. rewrite drop_ge by lia. now rewrite app_nil_r.
Qed.

(** X17.  [set_fuel_xs_for_depletion_step(t, ndl)] on a pin with [n]
    rings, [n] other than 1, a composition of step [t] for every ring and
    a Dancoff correction [C] of step [t]. The first call builds [n] cross
    sections, that of ring [k] from the composition of ring [k] at step
    [t], from [C], the fuel radius, the boundary of ring [k - 1] ([0.0]
    for [k = 0]) as inner radius and the boundary of ring [k] as outer
    radius; a later call sets each of the [n] cross sections that are
    there to the one so computed. A cross section whose name is empty is
    named [Fuel]. *)
Theorem fuel_xs_of_several_rings (p : FuelPin) (t : Z) (ndl : NDLibrary) (n : nat)
    (C : float) (mats_t : list Material) :
  num_fuel_rings p = Z.of_nat n -> n <> 1%nat ->
  length p.(_fuel_radii) = n -> length mats_t = n ->
  step_materials p t mats_t ->
  py_get p.(_fuel_dancoff_corrections) t = inr C ->
  (p.(_fuel_ring_xs) = [] ->
   set_fuel_xs_for_depletion_step t ndl p
     = (inr tt,
        set_fuel_ring_xs
          (imap (fun k mat => name_if_empty (ring_xs p C ndl k mat) "Fuel") mats_t) p)) /\
  (length p.(_fuel_ring_xs) = n -> (1 < n)%nat ->
   set_fuel_xs_for_depletion_step t ndl p
     = (inr tt,
        set_fuel_ring_xs
          (imap (fun k (om : CrossSection * Material) =>
                   name_if_empty (xs_set om.1 (ring_xs p C ndl k om.2)) "Fuel")
                (zip p.(_fuel_ring_xs) mats_t)) p)).
Proof.
  intros Hn Hn1 Hradii Hlen Hmats HC. split.
  - intros Hxs. now apply set_fuel_xs_creates with (n := n).
  - intros Hxs Hgt. now apply set_fuel_xs_resets with (n := n).
Qed.

End SeveralRings.

Section PredictorFailure.
Context {collab : Collaborators}.

(** ** A predictor that raises *)

Lemma predict_ring_zero_dtm1 (chain : DepletionChain) (ndl : NDLibrary) (dt d : float)
    (p : FuelPin) (r : nat) (ms : list Material) (mat : Material) (fl : Flux)
    (Am1 : DepletionMatrix) (cu : option DepletionMatrix) :
  builder_sized chain ndl ->
  ring_at p r = Some (mkRingState _ (ms ++ [mat]) fl (Some Am1) cu) ->
  (12 * d =? 0)%float = true ->
  predict_ring chain ndl dt (Some d) (Z.of_nat r) p
    = (inl ZeroDivisionError,
       set_ring r (mkRingState _ (ms ++ [clear_all_micro_xs_data mat]) fl (Some Am1)
                     (Some (build_depletion_matrix chain mat fl ndl))) p).
Proof.
  intros Hsized Hat Hd.
  destruct (ring_at_Some p r _ Hat) as (Hms & Hfl & Hpv & Hcu). simpl in *.
  assert (r < length (_fuel_ring_current_dep_mats p))%nat as Hrc
    by (now apply lookup_lt_Some in Hcu).
  assert (r < length (_fuel_ring_materials p))%nat as Hrm
    by (now apply lookup_lt_Some in Hms).
  unfold predict_ring, store_current, store_tip, bind, gets, lift, modify, ret.
  simpl.
  rewrite (py_get_nat _ _ _ Hfl), (py_get_nat _ _ _ Hms), py_get_last.
  rewrite py_set_nat by exact Hrc. simpl.
  rewrite (py_get_nat _ _ _ Hms), py_set_last.
  rewrite py_set_nat by exact Hrm. simpl.
  rewrite init_densities_spec by apply Hsized.
  rewrite (py_get_nat _ _ _ Hpv).
  unfold predict_leqi, py_div, ebind. rewrite Hd. simpl.
  f_equal.
  unfold set_fuel_ring_materials, set_fuel_ring_current_dep_mats; simpl.
  apply set_ring_eq; simpl; [assumption|reflexivity| |reflexivity].
  symmetry. now apply list_insert_id.
Qed.

(** X18.  [predict_depletion] is not all-or-nothing. On a pin whose ring 0
    has a previous matrix, a previous time step [dtm1] with [12.0 * dtm1
    == 0] (such as [0.0]) makes the predictor raise [ZeroDivisionError] in
    the first ring, after it has stored the matrix of that ring as its
    current matrix and has cleared the microscopic data of its latest
    composition: no composition is appended to any ring, and the other
    rings are as they were. *)
Theorem predictor_raises_midway (chain : DepletionChain) (ndl : NDLibrary)
    (dt d : float) (p : FuelPin) (n : nat) (ms : list Material) (mat : Material)
    (fl : Flux) (Am1 : DepletionMatrix) (cu : option DepletionMatrix) :
  has_rings p (S n) -> (dt <=? 0)%float = false -> builder_sized chain ndl ->
  ring_at p 0 = Some (mkRingState _ (ms ++ [mat]) fl (Some Am1) cu) ->
  (12 * d =? 0)%float = true ->
  let p' := (predict_depletion chain ndl dt (Some d) p).2 in
  predict_depletion chain ndl dt (Some d) p = (inl ZeroDivisionError, p') /\
  ring_at p' 0
    = Some (mkRingState _ (ms ++ [clear_all_micro_xs_data mat]) fl (Some Am1)
              (Some (build_depletion_matrix chain mat fl ndl))) /\
  (forall r, r <> 0%nat -> ring_at p' r = ring_at p r) /\
  rings_replaced p p'.
Proof.
  intros Hn Hdt Hsized Hat Hd.
  assert (predict_depletion chain ndl dt (Some d) p
            = (inl ZeroDivisionError,
               set_ring 0 (mkRingState _ (ms ++ [clear_all_micro_xs_data mat]) fl
                             (Some Am1)
                             (Some (build_depletion_matrix chain mat fl ndl))) p))
    as Hrun.
  { unfold predict_depletion. rewrite Hdt.
    unfold bind at 1, gets at 1, num_fuel_rings. destruct Hn as (-> & _).
    unfold py_range. rewrite Nat2Z.id. simpl seq. simpl map.
    unfold for_. simpl for_acc. unfold bind at 1.
    now rewrite (predict_ring_zero_dtm1 chain ndl dt d p 0 ms mat fl Am1 cu). }
  intros p'. subst p'. rewrite Hrun. simpl.
  split; [reflexivity|]. split; [|split].
  - now apply ring_at_set_ring_eq with (rs0 := mkRingState _ (ms ++ [mat]) fl (Some Am1) cu).
  - intros r Hr. apply ring_at_set_ring_ne. congruence.
  - apply rings_replaced_set_ring, rings_replaced_refl.
Qed.

End PredictorFailure.

Section RegionIndexes.
Context {collab : Collaborators} {dancoff : DancoffCollaborators}.

(** ** Loops on the whole object *)

Lemma ofor_seq_inv (P : nat -> Object -> Prop) (body : Z -> MO unit) (k s : nat)
    (o : Object) :
  P s o ->
  (forall r q, (s <= r < s + k)%nat -> P r q ->
     exists q', body (Z.of_nat r) q = (inr tt, q') /\ P (S r) q') ->
  exists o', ofor_ (map Z.of_nat (seq s k)) body o = (inr tt, o') /\ P (s + k)%nat o'.
Proof.
  revert s o. induction k as [|k IH]; intros s o H0 Hstep; simpl.
  - exists o. rewrite Nat.add_0_r. split; [reflexivity|exact H0].
  - destruct (Hstep s o ltac:(lia) H0) as (q1 & Hb & H1).
    destruct (IH (S s) q1 H1) as (q2 & Hl & H2).
    { intros r q Hr. apply Hstep. lia. }
    exists q2. unfold obind. rewrite Hb. split; [exact Hl|].
    now replace (s + S k)%nat with (S s + k)%nat by lia.
Qed.

Lemma ofor_range_inv (P : nat -> Object -> Prop) (body : Z -> MO unit) (n : nat)
    (o : Object) :
  P 0%nat o ->
  (forall r q, (r < n)%nat -> P r q ->
     exists q', body (Z.of_nat r) q = (inr tt, q') /\ P (S r) q') ->
  exists o', ofor_ (py_range (Z.of_nat n)) body o = (inr tt, o') /\ P n o'.
Proof.
  intros H0 Hstep. unfold py_range. rewrite Nat2Z.id.
  apply (ofor_seq_inv P body n 0 o H0).
  intros r q Hr. apply Hstep. lia.
Qed.

(** The loop that appends to one of the other attributes the index of
    every identifier of [ids]. *)
Lemma collect_indexes_spec (moc : MOCDriver) (ids : list Z)
    (get : FuelPinRest -> list Z) (set : list Z -> FuelPinRest -> FuelPinRest)
    (p : FuelPin) (a : FuelPinRest) :
  (forall v b, get (set v b) = v) ->
  (forall v v' b, set v (set v' b) = set v b) ->
  set (get a) a = a ->
  collect_indexes moc ids get set (p, a)
    = (inr tt, (p, set (get a ++ map (fun id => get_fsr_indx moc id 0) ids) a)).
Proof.
  intros Hgs Hss. unfold collect_indexes. revert a.
  induction ids as [|id ids IH]; intros a Hid; simpl.
  - unfold oret. now rewrite app_nil_r, Hid.
  - unfold obind at 1. unfold obind, rest_gets, rest_modify. simpl.
    rewrite IH by (now rewrite Hgs, Hss).
    rewrite Hgs, Hss, <- app_assoc. reflexivity.
Qed.

Lemma length_py_range (n : nat) : length (py_range (Z.of_nat n)) = n.
Proof. unfold py_range. now rewrite Nat2Z.id, length_map, length_seq. Qed.

(** [populate_fsr_indexes] starts by giving every ring an empty list of
    indexes. *)
Lemma fresh_ring_indexes (l : list Z) (p : FuelPin) (a : FuelPinRest) :
  ofor_ l (fun _ =>
    obind (core (gets _fuel_ring_fsr_inds)) (fun inds =>
    core (modify (set_fuel_ring_fsr_inds (inds ++ [[]]))))) (p, a)
  = (inr tt,
     (set_fuel_ring_fsr_inds (p.(_fuel_ring_fsr_inds) ++ replicate (length l) []) p, a)).
Proof.
  revert p. induction l as [|x l IH]; intros p; simpl.
  - unfold oret. rewrite app_nil_r. now destruct p.
  - unfold obind at 1. unfold obind, core, gets, modify. simpl.
    rewrite IH. simpl. rewrite <- app_assoc. reflexivity.
Qed.

(** The inner loop of [populate_fsr_indexes]: the indexes of the regions
    of ring [r] are appended to the list of ring [r]. *)
Lemma ring_indexes_filled (moc : MOCDriver) (r : nat) (ring_ids : list Z)
    (p : FuelPin) (a : FuelPinRest) (old : list Z) :
  p.(_fuel_ring_fsr_inds) !! r = Some old ->
  ofor_ ring_ids (fun id =>
    obind (core (gets _fuel_ring_fsr_inds)) (fun inds =>
    obind (core (lift (py_get inds (Z.of_nat r)))) (fun ring_inds =>
    obind (core (lift (py_set inds (Z.of_nat r)
                         (ring_inds ++ [get_fsr_indx moc id 0])))) (fun inds' =>
    core (modify (set_fuel_ring_fsr_inds inds')))))) (p, a)
  = (inr tt,
     (set_fuel_ring_fsr_inds
        (<[r := old ++ map (fun id => get_fsr_indx moc id 0) ring_ids]>
           p.(_fuel_ring_fsr_inds)) p, a)).
Proof.
  revert p old. induction ring_ids as [|id ids IH]; intros p old Hold; simpl.
  - unfold oret. rewrite app_nil_r, list_insert_id by exact Hold. now destruct p.
  - pose proof (lookup_lt_Some _ _ _ Hold) as Hr.
    unfold obind at 1. unfold obind, core, gets, lift, modify. simpl.
    rewrite (py_get_nat _ _ _ Hold). simpl.
    rewrite py_set_nat by exact Hr. simpl.
    rewrite (IH _ (old ++ [get_fsr_indx moc id 0]))
      by (simpl; now apply list_lookup_insert_eq).
    simpl. rewrite list_insert_insert_eq, <- app_assoc. reflexivity.
Qed.

Lemma populate_fsr_indexes_spec (moc : MOCDriver) (p : FuelPin) (a : FuelPinRest)
    (n : nat) :
  num_fuel_rings p = Z.of_nat n -> length p.(_fuel_ring_fsr_ids) = n ->
  let ix := fun id => get_fsr_indx moc id 0 in
  populate_fsr_indexes moc (p, a)
    = (inr tt,
       (set_fuel_ring_fsr_inds (map (map ix) p.(_fuel_ring_fsr_ids)) p,
        set_mod_fsr_inds (map ix p.(_mod_fsr_ids))
          (set_clad_fsr_inds (map ix p.(_clad_fsr_ids))
             (set_gap_fsr_inds (map ix p.(_gap_fsr_ids)) a)))).
Proof.
  intros Hn Hids ix. unfold num_fuel_rings in Hn. unfold populate_fsr_indexes.
  unfold obind at 1. unfold core at 1, modify at 1. simpl.
  unfold obind at 1. unfold core at 1, gets at 1. simpl. rewrite Hn.
  unfold obind at 1. rewrite fresh_ring_indexes, length_py_range. simpl.
  unfold obind at 1. unfold rest_modify at 1. simpl.
  unfold obind at 1. unfold rest_modify at 1. simpl.
  unfold obind at 1. unfold rest_modify at 1. simpl.
  unfold obind at 1. unfold core at 1, gets at 1. simpl. rewrite Hn.
  set (a1 := set_mod_fsr_inds [] (set_clad_fsr_inds [] (set_gap_fsr_inds [] a))).
  destruct (ofor_range_inv
    (fun r q => q = (set_fuel_ring_fsr_inds
                       (map (map ix) (take r p.(_fuel_ring_fsr_ids))
                          ++ replicate (n - r) []) p, a1))
    (fun r =>
       obind (core (gets _fuel_ring_fsr_ids)) (fun ids =>
       obind (core (lift (py_get ids r))) (fun ring_ids =>
       ofor_ ring_ids (fun id =>
         obind (core (gets _fuel_ring_fsr_inds)) (fun inds =>
         obind (core (lift (py_get inds r))) (fun ring_inds =>
         obind (core (lift (py_set inds r
                              (ring_inds ++ [get_fsr_indx moc id 0])))) (fun inds' =>
         core (modify (set_fuel_ring_fsr_inds inds')))))))))
    n (set_fuel_ring_fsr_inds (replicate n []) (set_fuel_ring_fsr_inds [] p), a1)) as (o' & Hloop & Ho').
  - rewrite take_0, Nat.sub_0_r. reflexivity.
  - intros r q Hr ->.
    destruct (lookup_lt_is_Some_2 p.(_fuel_ring_fsr_ids) r ltac:(lia)) as [ring_ids Hids'].
    assert (length (map (map ix) (take r (_fuel_ring_fsr_ids p))) = r) as Hlen
      by (rewrite length_map, length_take; lia).
    eexists. split.
    + unfold obind at 1. unfold core at 1, gets at 1. simpl.
      unfold obind at 1. unfold core at 1, lift at 1. simpl.
      rewrite (py_get_nat _ _ _ Hids'). simpl.
      rewrite (ring_indexes_filled moc r ring_ids _ a1 []).
      2:{ simpl. rewrite lookup_app_r by lia. rewrite Hlen, Nat.sub_diag.
          destruct (n - r)%nat eqn:E; [lia|reflexivity]. }
      reflexivity.
    + unfold set_fuel_ring_fsr_inds. simpl. do 2 f_equal.
      rewrite insert_app_r_alt by lia. rewrite Hlen, Nat.sub_diag.
      replace (n - r)%nat with (S (n - S r)) by lia. simpl.
      rewrite (take_S_r _ _ _ Hids'), map_app. simpl.
      now rewrite <- app_assoc.
  - simpl in Hloop. unfold obind at 1. rewrite Hloop, Ho'. clear Hloop Ho'.
    rewrite take_ge by lia. rewrite Nat.sub_diag. simpl replicate. rewrite app_nil_r.
    unfold obind at 1. unfold core at 1, gets at 1. simpl.
    unfold obind at 1.
    rewrite (collect_indexes_spec moc _ _gap_fsr_inds set_gap_fsr_inds);
      [|reflexivity|reflexivity|reflexivity].
    unfold obind at 1. unfold core at 1, gets at 1. simpl.
    unfold obind at 1.
    rewrite (collect_indexes_spec moc _ _clad_fsr_inds set_clad_fsr_inds);
      [|reflexivity|reflexivity|reflexivity].
    unfold obind at 1. unfold core at 1, gets at 1. simpl.
    rewrite (collect_indexes_spec moc _ _mod_fsr_inds set_mod_fsr_inds);
      [|reflexivity|reflexivity|reflexivity].
    reflexivity.
Qed.

End RegionIndexes.

Section DancoffProperties.
Context {collab : Collaborators} {dancoff : DancoffCollaborators}.

(** ** The cells of the Dancoff calculations *)

Lemma py_get_at {A : Type} (l : list A) (i : Z) (k : nat) (x : A) :
  l !! k = Some x -> i = Z.of_nat k -> py_get l i = inr x.
Proof. intros Hx ->. now apply py_get_nat. Qed.

Lemma core_check_dx_dy_passes (p : FuelPin) (a : FuelPinRest) (dx dy : float)
    (t : PinCellType) :
  footprint_too_small (clad_radius p) dx dy t = false ->
  core (_check_dx_dy dx dy t) (p, a) = (inr tt, (p, a)).
Proof.
  intros Hok. unfold core. simpl. now rewrite (check_dx_dy_passes p dx dy t Hok).
Qed.

Lemma make_dancoff_moc_cell_small (p : FuelPin) (a : FuelPinRest)
    (moderator_xs : CrossSection) (dx dy : float) (t : PinCellType) (isolated : bool) :
  footprint_too_small (clad_radius p) dx dy t = true ->
  exists msg,
    make_dancoff_moc_cell moderator_xs dx dy t isolated (p, a)
      = (inl (ValueError msg), (p, a)).
Proof.
  intros Hbad. destruct (check_dx_dy_raises p dx dy t Hbad) as [msg Hmsg].
  exists msg. unfold make_dancoff_moc_cell, obind at 1, core at 1. simpl.
  now rewrite Hmsg.
Qed.

Lemma make_dancoff_moc_cell_no_gap (p : FuelPin) (a : FuelPinRest)
    (moderator_xs : CrossSection) (dx dy : float) (t : PinCellType) (isolated : bool)
    (f c m : Z) :
  footprint_too_small (clad_radius p) dx dy t = false ->
  gap p = None ->
  let cell :=
    SimplePinCell_new [fuel_radius p; clad_radius p]
      [Some a.(_fuel_dancoff_xs); Some a.(_clad_dancoff_xs); Some moderator_xs] dx dy t in
  let ids := merge_sort Z.le (SimplePinCell_get_all_fsr_ids cell) in
  ids !! 0%nat = Some f -> ids !! 1%nat = Some c -> ids !! 2%nat = Some m ->
  make_dancoff_moc_cell moderator_xs dx dy t isolated (p, a)
    = (inr cell,
       (p, if isolated then with_isolated_regions f [] c m a
           else with_full_regions f [] c m a)).
Proof.
  intros Hok Hg cell ids Hf Hc Hm.
  unfold make_dancoff_moc_cell. unfold obind at 1.
  rewrite (core_check_dx_dy_passes p a dx dy t Hok).
  unfold dancoff_cell_layers, rest_append, obind, core, rest_gets, rest_modify, oret,
    gets, lift, raise.
  simpl. rewrite Hg. simpl. fold cell. fold ids.
  destruct isolated.
  - rewrite (py_get_at ids 0 0%nat f Hf eq_refl). simpl.
    rewrite (py_get_at ids 1 1%nat c Hc eq_refl). simpl.
    rewrite (py_get_at ids 2 2%nat m Hm eq_refl). simpl.
    rewrite ?Hg. simpl. unfold with_isolated_regions. rewrite app_nil_r. now destruct a.
  - rewrite (py_get_at ids 0 0%nat f Hf eq_refl). simpl.
    rewrite (py_get_at ids 1 1%nat c Hc eq_refl). simpl.
    rewrite (py_get_at ids 2 2%nat m Hm eq_refl). simpl.
    rewrite ?Hg. simpl. unfold with_full_regions. rewrite app_nil_r. now destruct a.
Qed.

Lemma make_dancoff_moc_cell_gap (p : FuelPin) (a : FuelPinRest)
    (moderator_xs : CrossSection) (dx dy : float) (t : PinCellType) (isolated : bool)
    (gm : Material) (Rg : float) (f g c m : Z) :
  footprint_too_small (clad_radius p) dx dy t = false ->
  gap p = Some gm -> gap_radius p = Some Rg ->
  let cell :=
    SimplePinCell_new [fuel_radius p; Rg; clad_radius p]
      [Some a.(_fuel_dancoff_xs); a.(_gap_dancoff_xs); Some a.(_clad_dancoff_xs);
       Some moderator_xs] dx dy t in
  let ids := merge_sort Z.le (SimplePinCell_get_all_fsr_ids cell) in
  ids !! 0%nat = Some f -> ids !! 1%nat = Some g -> ids !! 2%nat = Some c ->
  ids !! 3%nat = Some m ->
  make_dancoff_moc_cell moderator_xs dx dy t isolated (p, a)
    = (inr cell,
       (p, if isolated then with_isolated_regions f [g] c m a
           else with_full_regions f [g] c m a)).
Proof.
  intros Hok Hg Hgr cell ids Hf Hgi Hc Hm.
  unfold make_dancoff_moc_cell. unfold obind at 1.
  rewrite (core_check_dx_dy_passes p a dx dy t Hok).
  unfold dancoff_cell_layers, rest_append, obind, core, rest_gets, rest_modify, oret,
    gets, lift, raise.
  simpl. rewrite Hg, Hgr. simpl. fold cell. fold ids.
  destruct isolated.
  - rewrite (py_get_at ids 0 0%nat f Hf eq_refl). simpl.
    rewrite (py_get_at ids 1 1%nat g Hgi eq_refl). simpl.
    rewrite (py_get_at ids 2 2%nat c Hc eq_refl). simpl.
    rewrite ?Hg. simpl. rewrite (py_get_at ids 3 3%nat m Hm eq_refl). simpl.
    reflexivity.
  - rewrite (py_get_at ids 0 0%nat f Hf eq_refl). simpl.
    rewrite (py_get_at ids 1 1%nat g Hgi eq_refl). simpl.
    rewrite (py_get_at ids 2 2%nat c Hc eq_refl). simpl.
    rewrite ?Hg. simpl. rewrite (py_get_at ids 3 3%nat m Hm eq_refl). simpl.
    reflexivity.
Qed.

(** X19.  [make_dancoff_moc_cell] raises [ValueError] and leaves the
    object as it was when the footprint of the cell is too small for the
    cladding. Otherwise it builds the cell from the fuel radius, the gap
    radius if the pin has a gap, and the clad radius, with the one-group
    cross sections of the fuel, the gap and the cladding and the moderator
    cross section at the end; it sorts the region identifiers of the cell,
    and appends the smallest to the fuel regions, the next to the gap
    regions if the pin has a gap, the next to the clad regions and the
    next to the moderator regions, of the isolated geometry when
    [isolated] is true and of the full geometry otherwise. Nothing else
    changes. *)
Theorem make_dancoff_moc_cell_records (p : FuelPin) (a : FuelPinRest)
    (moderator_xs : CrossSection) (dx dy : float) (t : PinCellType) (isolated : bool) :
  (footprint_too_small (clad_radius p) dx dy t = true ->
   exists msg,
     make_dancoff_moc_cell moderator_xs dx dy t isolated (p, a)
       = (inl (ValueError msg), (p, a))) /\
  (footprint_too_small (clad_radius p) dx dy t = false ->
   gap p = None ->
   let cell :=
     SimplePinCell_new [fuel_radius p; clad_radius p]
       [Some a.(_fuel_dancoff_xs); Some a.(_clad_dancoff_xs); Some moderator_xs] dx dy t in
   let ids := merge_sort Z.le (SimplePinCell_get_all_fsr_ids cell) in
   forall f c m,
     ids !! 0%nat = Some f -> ids !! 1%nat = Some c -> ids !! 2%nat = Some m ->
     make_dancoff_moc_cell moderator_xs dx dy t isolated (p, a)
       = (inr cell,
          (p, if isolated then with_isolated_regions f [] c m a
              else with_full_regions f [] c m a))) /\
  (footprint_too_small (clad_radius p) dx dy t = false ->
   forall gm Rg,
     gap p = Some gm -> gap_radius p = Some Rg ->
     let cell :=
       SimplePinCell_new [fuel_radius p; Rg; clad_radius p]
         [Some a.(_fuel_dancoff_xs); a.(_gap_dancoff_xs); Some a.(_clad_dancoff_xs);
       Some moderator_xs] dx dy t in
     let ids := merge_sort Z.le (SimplePinCell_get_all_fsr_ids cell) in
     forall f g c m,
       ids !! 0%nat = Some f -> ids !! 1%nat = Some g -> ids !! 2%nat = Some c ->
       ids !! 3%nat = Some m ->
       make_dancoff_moc_cell moderator_xs dx dy t isolated (p, a)
         = (inr cell,
            (p, if isolated then with_isolated_regions f [g] c m a
                else with_full_regions f [g] c m a))).
Proof.
  split; [apply make_dancoff_moc_cell_small|]. split.
  - intros Hok Hg cell ids f c m. now apply make_dancoff_moc_cell_no_gap.
  - intros Hok gm Rg Hg Hgr cell ids f g c m.
    now apply make_dancoff_moc_cell_gap with (gm := gm).
Qed.

(** ** The indexes of the Dancoff regions *)

Ltac rest_norm := simpl.

Lemma populate_dancoff_fsr_indexes_spec (isomoc fullmoc : MOCDriver) (p : FuelPin)
    (a : FuelPinRest) :
  populate_dancoff_fsr_indexes isomoc fullmoc (p, a)
    = (inr tt, (p, with_dancoff_indexes isomoc fullmoc a)).
Proof.
  destruct a as [fx gx cx i1 i2 i3 i4 f1 f2 f3 f4 ii1 ii2 ii3 ii4 fi1 fi2 fi3 fi4 g1 c1 m1].
  unfold populate_dancoff_fsr_indexes, with_dancoff_indexes.
  do 8 (unfold obind at 1; unfold rest_modify at 1; simpl). rest_norm.
  unfold obind at 1. unfold rest_gets at 1. simpl. unfold obind at 1.
  rewrite (collect_indexes_spec isomoc _ _fuel_isolated_dancoff_fsr_inds
             set_fuel_isolated_dancoff_fsr_inds); [|reflexivity..]. rest_norm.
  unfold obind at 1. unfold rest_gets at 1. simpl. unfold obind at 1.
  rewrite (collect_indexes_spec isomoc _ _gap_isolated_dancoff_fsr_inds
             set_gap_isolated_dancoff_fsr_inds); [|reflexivity..]. rest_norm.
  unfold obind at 1. unfold rest_gets at 1. simpl. unfold obind at 1.
  rewrite (collect_indexes_spec isomoc _ _clad_isolated_dancoff_fsr_inds
             set_clad_isolated_dancoff_fsr_inds); [|reflexivity..]. rest_norm.
  unfold obind at 1. unfold rest_gets at 1. simpl. unfold obind at 1.
  rewrite (collect_indexes_spec isomoc _ _mod_isolated_dancoff_fsr_inds
             set_mod_isolated_dancoff_fsr_inds); [|reflexivity..]. rest_norm.
  unfold obind at 1. unfold rest_gets at 1. simpl. unfold obind at 1.
  rewrite (collect_indexes_spec fullmoc _ _fuel_full_dancoff_fsr_inds
             set_fuel_full_dancoff_fsr_inds); [|reflexivity..]. rest_norm.
  unfold obind at 1. unfold rest_gets at 1. simpl. unfold obind at 1.
  rewrite (collect_indexes_spec fullmoc _ _gap_full_dancoff_fsr_inds
             set_gap_full_dancoff_fsr_inds); [|reflexivity..]. rest_norm.
  unfold obind at 1. unfold rest_gets at 1. simpl. unfold obind at 1.
  rewrite (collect_indexes_spec fullmoc _ _clad_full_dancoff_fsr_inds
             set_clad_full_dancoff_fsr_inds); [|reflexivity..]. rest_norm.
  unfold obind at 1. unfold rest_gets at 1. simpl.
  rewrite (collect_indexes_spec fullmoc _ _mod_full_dancoff_fsr_inds
             set_mod_full_dancoff_fsr_inds); [|reflexivity..]. rest_norm.
  reflexivity.
Qed.

(** X20.  [populate_dancoff_fsr_indexes] never raises. It replaces the
    eight lists of region indexes of the Dancoff geometries: each holds,
    in order, the index that the driver of its geometry ([isomoc] for the
    isolated, [fullmoc] for the full geometry) gives for each identifier
    of the corresponding list of region identifiers. What the lists held
    before is discarded, so that a second call with the same drivers
    changes nothing. *)
Theorem populate_dancoff_fsr_indexes_maps (isomoc fullmoc : MOCDriver) (o : Object) :
  populate_dancoff_fsr_indexes isomoc fullmoc o
    = (inr tt, (o.1, with_dancoff_indexes isomoc fullmoc o.2)) /\
  populate_dancoff_fsr_indexes isomoc fullmoc
      (populate_dancoff_fsr_indexes isomoc fullmoc o).2
    = populate_dancoff_fsr_indexes isomoc fullmoc o.
Proof.
  destruct o as [p a]. split; [apply populate_dancoff_fsr_indexes_spec|].
  rewrite populate_dancoff_fsr_indexes_spec. simpl.
  rewrite populate_dancoff_fsr_indexes_spec.
  now destruct a as [fx gx cx i1 i2 i3 i4 f1 f2 f3 f4 ii1 ii2 ii3 ii4 fi1 fi2 fi3 fi4 g1 c1 m1].
Qed.

Lemma compute_fuel_dancoff_correction_spec (isomoc fullmoc : MOCDriver) (o : Object) :
  compute_fuel_dancoff_correction isomoc fullmoc o
    = (dancoff_from isomoc fullmoc o.2.(_fuel_isolated_dancoff_fsr_inds)
         o.2.(_fuel_full_dancoff_fsr_inds), o).
Proof.
  destruct o as [p a].
  unfold compute_fuel_dancoff_correction, dancoff_from, obind, rest_gets, core, lift,
    oret, ebind.
  simpl.
  destruct (py_get (homogenize_flux_spectrum isomoc _) 0); [reflexivity|]. simpl.
  destruct (py_get (homogenize_flux_spectrum fullmoc _) 0); reflexivity.
Qed.

Lemma compute_clad_dancoff_correction_spec (isomoc fullmoc : MOCDriver) (o : Object) :
  compute_clad_dancoff_correction isomoc fullmoc o
    = (dancoff_from isomoc fullmoc o.2.(_clad_isolated_dancoff_fsr_inds)
         o.2.(_clad_full_dancoff_fsr_inds), o).
Proof.
  destruct o as [p a].
  unfold compute_clad_dancoff_correction, dancoff_from, obind, rest_gets, core, lift,
    oret, ebind.
  simpl.
  destruct (py_get (homogenize_flux_spectrum isomoc _) 0); [reflexivity|]. simpl.
  destruct (py_get (homogenize_flux_spectrum fullmoc _) 0); reflexivity.
Qed.

End DancoffProperties.

Section TransportCell.
Context {collab : Collaborators}.

(** ** From the cross sections to the cell *)

Lemma make_moc_cell_returns (p : FuelPin) (moderator_xs : CrossSection)
    (dx dy : float) (pintype : PinCellType) (N : nat) :
  let NA := angular_count pintype in
  let G := if is_Some_b p.(_gap_xs) then 1%nat else 0%nat in
  num_fuel_rings p = Z.of_nat N ->
  length p.(_fuel_radii) = N ->
  length p.(_fuel_ring_fsr_ids) = N ->
  cross_sections_built p ->
  (is_Some_b (gap p) = true -> is_Some_b (gap_radius p) = true) ->
  footprint_too_small (clad_radius p) dx dy pintype = false ->
  cell_has_regions (N + G + 1) dx dy pintype ->
  exists cell p',
    make_moc_cell moderator_xs dx dy pintype p = (inr cell, p') /\
    let ids := merge_sort Z.le (get_all_fsr_ids cell) in
    p' = set_mod_fsr_ids (drop ((N + G + 1) * NA) ids)
           (set_clad_fsr_ids (p.(_clad_fsr_ids) ++ fsr_block ids NA (N + G))
              (set_gap_fsr_ids
                 (if is_Some_b p.(_gap_xs) then p.(_gap_fsr_ids) ++ fsr_block ids NA N
                  else p.(_gap_fsr_ids))
                 (set_fuel_ring_fsr_ids
                    (imap (fun k old => old ++ fsr_block ids NA k) p.(_fuel_ring_fsr_ids))
                    p))).
Proof.
  intros NA G Hn Hradii Hids (Hxs & Hgx & Hc) Hgr Hok Hcell.
  destruct (_clad_xs p) as [cxs|] eqn:Ecxs; [clear Hc|discriminate Hc].
  assert (is_Some_b (_gap_xs p) = true -> is_Some_b (gap_radius p) = true) as Hgr'
    by (rewrite Hgx; exact Hgr).
  destruct (moc_cell_layers_spec p cxs moderator_xs dx dy pintype Hgr')
    as (radii & xss & Hlayers & Hlen).
  set (cell := PinCell_new radii xss dx dy pintype).
  set (ids := merge_sort Z.le (get_all_fsr_ids cell)).
  destruct (record_fsr_ids_spec p ids NA N Hn Hids)
    as (p' & Hrec & Hfuel & Hgap & Hclad & Hmod).
  { unfold ids. rewrite (Permutation_length (merge_sort_Permutation Z.le _)).
    apply Hcell. fold G in Hlen. lia. }
  assert (make_moc_cell moderator_xs dx dy pintype p = (inr cell, p')) as Hrun.
  { unfold make_moc_cell, bind at 1 2 3 4 5, gets at 1 2 3 4 5.
    rewrite Hxs, Z.eqb_refl, Hgx, Ecxs. cbn [negb].
    rewrite andb_negb_r.
    unfold bind at 1. rewrite (check_dx_dy_passes p dx dy pintype Hok).
    unfold bind at 1. rewrite Hlayers. simpl fst. simpl snd.
    fold cell. fold ids. rewrite angular_divisions_count. fold NA.
    unfold bind at 1. rewrite Hrec. reflexivity. }
  exists cell, p'. split; [exact Hrun|].
  cbv zeta. fold ids.
  pose proof (make_moc_cell_outside moderator_xs dx dy pintype p) as Hout.
  assert ((make_moc_cell moderator_xs dx dy pintype p).2 = p') as Hp'
    by now rewrite Hrun.
  rewrite Hp' in Hout. unfold outside_regions in Hout. subst G NA.
  clear Hrec Hp' Hrun Hlayers Hcell Hlen. subst ids cell.
  destruct p', p; simpl in *. injection Hout; intros; subst. reflexivity.
Qed.

End TransportCell.

Section CrossSectionPipeline.
Context {collab : Collaborators}.

(** ** From a new pin to its cross sections *)

Lemma set_fuel_xs_creates_single (p : FuelPin) (t : Z) (ndl : NDLibrary) (C : float)
    (ms : list Material) (mat : Material) :
  num_fuel_rings p = 1 ->
  (2 * fuel_radius p =? 0)%float = false ->
  p.(_fuel_ring_materials) !! 0%nat = Some ms -> py_get ms t = inr mat ->
  py_get p.(_fuel_dancoff_corrections) t = inr C ->
  p.(_fuel_ring_xs) = [] ->
  set_fuel_xs_for_depletion_step t ndl p
    = (inr tt,
       set_fuel_ring_xs
         [name_if_empty (carlvik_xs mat C (1 / (2 * fuel_radius p)) ndl) "Fuel"] p).
Proof.
  intros Hn HR Hms Hmat HC Hxs.
  unfold set_fuel_xs_for_depletion_step, ring_material, bind, gets, lift, modify, py_div.
  rewrite Hxs, Hn. simpl. rewrite HR.
  rewrite (py_get_at _ 0 0%nat ms Hms eq_refl), Hmat, HC, Hxs. reflexivity.
Qed.

Lemma set_gap_xs_builds (p : FuelPin) (ndl : NDLibrary) :
  exists p',
    set_gap_xs ndl p = (inr tt, p') /\
    is_Some_b p'.(_gap_xs) = (is_Some_b (gap p) || is_Some_b p.(_gap_xs)) /\
    outside_xs p' = outside_xs p /\
    p'.(_fuel_ring_xs) = p.(_fuel_ring_xs) /\ p'.(_clad_xs) = p.(_clad_xs).
Proof.
  unfold set_gap_xs, bind, gets, modify, ret.
  destruct (gap p) as [gm|] eqn:Eg; simpl.
  - eexists. split; [reflexivity|]. repeat split.
  - exists p. split; [reflexivity|]. repeat split.
Qed.

Lemma set_clad_xs_builds (p : FuelPin) (t : Z) (ndl : NDLibrary) (C : float) :
  py_get p.(_clad_dancoff_corrections) t = inr C ->
  (2 * (clad_radius p - match gap_radius p with
                        | Some Rg => Rg
                        | None => fuel_radius p
                        end) =? 0)%float = false ->
  exists p',
    set_clad_xs_for_depletion_step t ndl p = (inr tt, p') /\
    is_Some_b p'.(_clad_xs) = true /\
    outside_xs p' = outside_xs p /\
    p'.(_fuel_ring_xs) = p.(_fuel_ring_xs) /\ p'.(_gap_xs) = p.(_gap_xs).
Proof.
  intros HC HR. unfold set_clad_xs_for_depletion_step, bind, gets, lift, modify, py_div.
  destruct (gap_radius p) as [Rg|]; rewrite HR, HC; simpl;
    (eexists; split; [reflexivity|]; repeat split).
Qed.

Lemma outside_xs_fields (p q : FuelPin) :
  outside_xs q = outside_xs p ->
  num_fuel_rings q = num_fuel_rings p /\ gap q = gap p /\
  gap_radius q = gap_radius p /\ clad_radius q = clad_radius p /\
  fuel_radius q = fuel_radius p /\
  q.(_clad_dancoff_corrections) = p.(_clad_dancoff_corrections).
Proof.
  unfold outside_xs. intros E. destruct p, q; simpl in *.
  injection E; intros; subst. repeat split.
Qed.

(** X21.  The calls that lead from a new pin to its cross sections. On a
    pin that the constructor has returned, appending a Dancoff correction
    in [0, 1] for the fuel and one for the cladding, and then calling
    [set_fuel_xs_for_depletion_step(0, ndl)], [set_gap_xs(ndl)] and
    [set_clad_xs_for_depletion_step(0, ndl)], all return (the divisors of
    the escape cross sections being assumed not to be zero); afterwards
    the pin has one cross section for each ring, a gap cross section
    exactly if it has a gap, and a clad cross section, which is what
    [make_moc_cell] demands, and it is still consistent. *)
Theorem cross_sections_of_new_pin (fuel cl : Material) (R Rc : float)
    (g : option Material) (Rg : option float) (N : Z) (p0 : FuelPin)
    (Cf Cc : float) (ndl : NDLibrary) :
  FuelPin_init fuel R cl Rc g Rg N = inr p0 ->
  (Cf <? 0)%float || (1 <? Cf)%float = false ->
  (Cc <? 0)%float || (1 <? Cc)%float = false ->
  (2 * R =? 0)%float = false ->
  (2 * (Rc - match Rg with Some x => x | None => R end) =? 0)%float = false ->
  exists p1 p2 p3 p4 p5,
    append_fuel_dancoff_correction Cf p0 = (inr tt, p1) /\
    append_clad_dancoff_correction Cc p1 = (inr tt, p2) /\
    set_fuel_xs_for_depletion_step 0 ndl p2 = (inr tt, p3) /\
    set_gap_xs ndl p3 = (inr tt, p4) /\
    set_clad_xs_for_depletion_step 0 ndl p4 = (inr tt, p5) /\
    cross_sections_built p5 /\
    consistent p5 (Z.to_nat N).
Proof.
  intros Hinit HCf HCc HR HRc.
  pose proof (consistent_make_fuel_pin _ _ _ _ _ _ _ _ Hinit) as Hcons.
  destruct (FuelPin_init_fields _ _ _ _ _ _ _ _ Hinit)
    as (_ & HN & Hok & HfR & HfRc & Hfg & HfRg & _ & Hfn & Hradii & Hxs & Hgxs & Hcxs
        & HCs & HCcs & _ & _ & _ & _ & Hmats).
  set (n := Z.to_nat N) in *.
  assert (N = Z.of_nat n) as HNn by (unfold n; lia).
  set (p1 := set_fuel_dancoff_corrections [Cf] p0).
  set (p2 := set_clad_dancoff_corrections [Cc] p1).
  assert (append_fuel_dancoff_correction Cf p0 = (inr tt, p1)) as H1.
  { unfold append_fuel_dancoff_correction. rewrite HCf.
    unfold bind, gets, modify. now rewrite HCs. }
  assert (append_clad_dancoff_correction Cc p1 = (inr tt, p2)) as H2.
  { unfold append_clad_dancoff_correction. rewrite HCc.
    unfold bind, gets, modify. simpl. now rewrite HCcs. }
  assert (exists xss, set_fuel_xs_for_depletion_step 0 ndl p2
                        = (inr tt, set_fuel_ring_xs xss p2) /\ length xss = n)
    as (xss & H3 & Hlen).
  { destruct (decide (n = 1%nat)) as [E|E].
    - eexists. split.
      + apply (set_fuel_xs_creates_single p2 0 ndl Cf [fuel] fuel).
        * unfold num_fuel_rings in *. simpl. lia.
        * unfold fuel_radius in *. simpl. now rewrite HfR.
        * simpl. rewrite Hmats. fold n. now rewrite E.
        * reflexivity.
        * reflexivity.
        * exact Hxs.
      + simpl. lia.
    - eexists. split.
      + apply (set_fuel_xs_creates p2 0 ndl n Cf (replicate n fuel)).
        * unfold num_fuel_rings in *. simpl. lia.
        * exact E.
        * simpl. rewrite Hradii. apply make_fuel_radii_length. lia.
        * apply length_replicate.
        * unfold step_materials. simpl. rewrite Hmats. fold n.
          clear. induction n as [|k IH]; simpl; constructor; [reflexivity|exact IH].
        * reflexivity.
        * exact Hxs.
      + now rewrite length_imap, length_replicate. }
  set (p3 := set_fuel_ring_xs xss p2) in *.
  destruct (set_gap_xs_builds p3 ndl) as (p4 & H4 & Hg4 & Hout4 & Hxs4 & Hc4).
  destruct (outside_xs_fields p3 p4 Hout4) as (Hn4 & Hgap4 & Hgr4 & HRc4 & HR4 & HCc4).
  destruct (set_clad_xs_builds p4 0 ndl Cc) as (p5 & H5 & Hc5 & Hout5 & Hxs5 & Hg5).
  { rewrite HCc4. reflexivity. }
  { rewrite HRc4, Hgr4, HR4. unfold clad_radius, gap_radius, fuel_radius in *. simpl.
    now rewrite HfRc, HfRg, HfR. }
  destruct (outside_xs_fields p4 p5 Hout5) as (Hn5 & Hgap5 & _).
  exists p1, p2, p3, p4, p5. repeat (split; [assumption|]). split.
  - unfold cross_sections_built. rewrite Hxs5, Hxs4, Hg5, Hg4, Hn5, Hn4, Hgap5, Hgap4.
    simpl. rewrite Hlen. unfold num_fuel_rings in *. simpl. rewrite Hgxs.
    split; [lia|]. split; [now rewrite orb_false_r|exact Hc5].
  - apply (consistent_outside_xs n p4 p5); [now symmetry|].
    apply (consistent_outside_xs n p3 p4); [now symmetry|].
    destruct Hcons as ((? & ? & ? & ? & ?) & ? & ? & ?). repeat split; assumption.
Qed.

End CrossSectionPipeline.

Section ObjectPipelines.
Context {collab : Collaborators} {dancoff : DancoffCollaborators}.

(** ** Region indexes of the transport cell *)

(** X22.  [populate_fsr_indexes(moc)] on an object whose pin has a list of
    region identifiers for each of its [n] rings: it returns, the list of
    region indexes of every ring holds the index that [moc] gives for each
    identifier of the ring, in order, and the same holds for the gap, the
    cladding and the moderator. What the lists held before is discarded,
    so that a second call changes nothing. *)
Theorem populate_fsr_indexes_maps (moc : MOCDriver) (p : FuelPin) (a : FuelPinRest)
    (n : nat) :
  num_fuel_rings p = Z.of_nat n -> length p.(_fuel_ring_fsr_ids) = n ->
  let ix := fun id => get_fsr_indx moc id 0 in
  let o' := (set_fuel_ring_fsr_inds (map (map ix) p.(_fuel_ring_fsr_ids)) p,
             set_mod_fsr_inds (map ix p.(_mod_fsr_ids))
               (set_clad_fsr_inds (map ix p.(_clad_fsr_ids))
                  (set_gap_fsr_inds (map ix p.(_gap_fsr_ids)) a))) in
  populate_fsr_indexes moc (p, a) = (inr tt, o') /\
  populate_fsr_indexes moc o' = (inr tt, o').
Proof.
  intros Hn Hids ix o'. split.
  - exact (populate_fsr_indexes_spec moc p a n Hn Hids).
  - unfold o'. rewrite (populate_fsr_indexes_spec moc _ _ n); [|exact Hn|exact Hids].
    simpl. reflexivity.
Qed.

(** ** From the cell to the flux of the rings *)

Lemma imap_lookup_Some {A B : Type} (h : nat -> A -> B) (l : list A) (k : nat) (x : A) :
  l !! k = Some x -> imap h l !! k = Some (h k x).
Proof. intros Hx. now rewrite list_lookup_imap, Hx. Qed.

(** X23.  On a consistent pin whose cross sections are built,
    [make_moc_cell], [populate_fsr_indexes(moc)] and
    [obtain_flux_spectra(moc)] return one after the other (the cell having
    enough regions), and the flux spectrum of ring [k] is then what [moc]
    homogenizes over the indexes it gives for the region identifiers of
    the ring: those the ring had, followed by block [k] of the sorted
    identifiers of the cell. *)
Theorem ring_flux_of_cell_regions (p : FuelPin) (a : FuelPinRest)
    (moderator_xs : CrossSection) (dx dy : float) (pintype : PinCellType)
    (moc : MOCDriver) (N : nat) :
  let NA := angular_count pintype in
  let G := if is_Some_b p.(_gap_xs) then 1%nat else 0%nat in
  consistent p N -> cross_sections_built p ->
  (is_Some_b (gap p) = true -> is_Some_b (gap_radius p) = true) ->
  footprint_too_small (clad_radius p) dx dy pintype = false ->
  cell_has_regions (N + G + 1) dx dy pintype ->
  exists cell p1 o2 p3,
    make_moc_cell moderator_xs dx dy pintype p = (inr cell, p1) /\
    populate_fsr_indexes moc (p1, a) = (inr tt, o2) /\
    obtain_flux_spectra moc o2.1 = (inr tt, p3) /\
    let ids := merge_sort Z.le (get_all_fsr_ids cell) in
    forall k old,
      p.(_fuel_ring_fsr_ids) !! k = Some old ->
      p3.(_fuel_ring_flux_spectra) !! k
        = Some (homogenize_flux_spectrum moc
                  (map (fun id => get_fsr_indx moc id 0) (old ++ fsr_block ids NA k))).
Proof.
  intros NA G Hcons Hbuilt Hgr Hok Hcell.
  pose proof Hcons as (Hrings & Hradii & Hids & Hinds).
  pose proof Hrings as (Hn & Hm & Hf & Hpv & Hcu).
  destruct (make_moc_cell_returns p moderator_xs dx dy pintype N Hn Hradii Hids Hbuilt
              Hgr Hok Hcell) as (cell & p1 & Hrun1 & Hp1).
  cbv zeta in Hp1. set (ids := merge_sort Z.le (get_all_fsr_ids cell)) in *.
  assert (p1.(_fuel_ring_fsr_ids)
            = imap (fun k old => old ++ fsr_block ids NA k) p.(_fuel_ring_fsr_ids))
    as Hids1 by (rewrite Hp1; reflexivity).
  assert (num_fuel_rings p1 = Z.of_nat N) as Hn1 by (rewrite Hp1; exact Hn).
  assert (length p1.(_fuel_ring_fsr_ids) = N) as Hlen1
    by (now rewrite Hids1, length_imap).
  pose proof (populate_fsr_indexes_spec moc p1 a N Hn1 Hlen1) as Hrun2.
  cbv zeta in Hrun2.
  set (ix := fun id => get_fsr_indx moc id 0) in *.
  set (p2 := set_fuel_ring_fsr_inds (map (map ix) p1.(_fuel_ring_fsr_ids)) p1) in *.
  assert (has_rings p2 N) as Hrings2.
  { unfold p2. rewrite Hp1. repeat split; assumption. }
  assert (length p2.(_fuel_ring_fsr_inds) = N) as Hinds2
    by (unfold p2; simpl; now rewrite length_map).
  pose proof (obtain_flux_spectra_rings moc p2 N Hrings2 Hinds2) as Hrun3.
  eexists cell, p1, _, _. split; [exact Hrun1|]. split; [exact Hrun2|].
  split; [exact Hrun3|].
  cbv zeta. fold ids. intros k old Hold. simpl.
  rewrite !list_lookup_fmap, Hids1, (imap_lookup_Some _ _ _ _ Hold). reflexivity.
Qed.

(** ** From a new object to its Dancoff corrections *)

Lemma sorted_ids_lookup (ids : list Z) (k n : nat) :
  (n <= length ids)%nat -> (k < n)%nat ->
  exists x, merge_sort Z.le ids !! k = Some x.
Proof.
  intros Hn Hk. apply lookup_lt_is_Some_2.
  rewrite (Permutation_length (merge_sort_Permutation Z.le ids)). lia.
Qed.

(** X24.  The Dancoff corrections of a new object. After the constructor,
    [make_dancoff_moc_cell] for the isolated and for the full geometry and
    [populate_dancoff_fsr_indexes(isomoc, fullmoc)] return one after the
    other, when the footprints are large enough and the cells have a
    region for each radius and one around them. Then
    [compute_fuel_dancoff_correction] is [(iso - full) / iso] for the
    first entries [iso] and [full] of the spectra that [isomoc] and
    [fullmoc] homogenize over the index of the region with the smallest
    identifier of the isolated, respectively of the full cell; and
    [compute_clad_dancoff_correction] is the same for the second smallest
    identifier of each cell, the third smallest when the pin has a gap.
    Neither changes the object. *)
Theorem dancoff_corrections_of_new_object (fuel cl : Material) (R Rc : float)
    (g : option Material) (Rg : option float) (N : Z) (o0 : Object)
    (mxs_i mxs_f : CrossSection) (dx_i dy_i dx_f dy_f : float) (t_i t_f : PinCellType)
    (isomoc fullmoc : MOCDriver) :
  let G := if is_Some_b g then 1%nat else 0%nat in
  FuelPin_new fuel R cl Rc g Rg N = inr o0 ->
  footprint_too_small Rc dx_i dy_i t_i = false ->
  footprint_too_small Rc dx_f dy_f t_f = false ->
  simple_cell_has_regions (2 + G) dx_i dy_i t_i ->
  simple_cell_has_regions (2 + G) dx_f dy_f t_f ->
  exists cell_i cell_f o1 o2 o3,
    make_dancoff_moc_cell mxs_i dx_i dy_i t_i true o0 = (inr cell_i, o1) /\
    make_dancoff_moc_cell mxs_f dx_f dy_f t_f false o1 = (inr cell_f, o2) /\
    populate_dancoff_fsr_indexes isomoc fullmoc o2 = (inr tt, o3) /\
    let ids_i := merge_sort Z.le (SimplePinCell_get_all_fsr_ids cell_i) in
    let ids_f := merge_sort Z.le (SimplePinCell_get_all_fsr_ids cell_f) in
    forall f_i f_f c_i c_f,
      ids_i !! 0%nat = Some f_i -> ids_f !! 0%nat = Some f_f ->
      ids_i !! (1 + G)%nat = Some c_i -> ids_f !! (1 + G)%nat = Some c_f ->
      compute_fuel_dancoff_correction isomoc fullmoc o3
        = (dancoff_from isomoc fullmoc [get_fsr_indx isomoc f_i 0]
             [get_fsr_indx fullmoc f_f 0], o3) /\
      compute_clad_dancoff_correction isomoc fullmoc o3
        = (dancoff_from isomoc fullmoc [get_fsr_indx isomoc c_i 0]
             [get_fsr_indx fullmoc c_f 0], o3).
Proof.
  intros G Hnew Hok_i Hok_f Hcell_i Hcell_f.
  unfold FuelPin_new, ebind in Hnew.
  destruct (FuelPin_init fuel R cl Rc g Rg N) as [e|p] eqn:Hinit; [discriminate Hnew|].
  injection Hnew as <-.
  destruct (FuelPin_init_fields _ _ _ _ _ _ _ _ Hinit)
    as (_ & _ & Hgc & HfR & HfRc & Hfg & HfRg & _).
  rewrite <- HfRc in Hok_i, Hok_f.
  set (a0 := FuelPin_init_rest cl g).
  unfold gap_clad_ok in Hgc.
  destruct g as [gm|], Rg as [rg|]; try discriminate Hgc; simpl in G; subst G.
  - (* with a gap *)
    set (gx := one_group_xs (potential_xs gm) "Gap").
    set (cell_i := SimplePinCell_new [fuel_radius p; rg; clad_radius p]
                     [Some a0.(_fuel_dancoff_xs); Some gx; Some a0.(_clad_dancoff_xs);
                      Some mxs_i]
                     dx_i dy_i t_i).
    set (cell_f := SimplePinCell_new [fuel_radius p; rg; clad_radius p]
                     [Some a0.(_fuel_dancoff_xs); Some gx; Some a0.(_clad_dancoff_xs);
                      Some mxs_f]
                     dx_f dy_f t_f).
    pose proof (Hcell_i [fuel_radius p; rg; clad_radius p]
                  [Some a0.(_fuel_dancoff_xs); Some gx; Some a0.(_clad_dancoff_xs);
                      Some mxs_i] eq_refl)
      as Hlen_i.
    pose proof (Hcell_f [fuel_radius p; rg; clad_radius p]
                  [Some a0.(_fuel_dancoff_xs); Some gx; Some a0.(_clad_dancoff_xs);
                      Some mxs_f] eq_refl)
      as Hlen_f.
    fold cell_i in Hlen_i. fold cell_f in Hlen_f.
    destruct (sorted_ids_lookup _ 0 _ Hlen_i ltac:(lia)) as [fi Hfi].
    destruct (sorted_ids_lookup _ 1 _ Hlen_i ltac:(lia)) as [gi Hgi].
    destruct (sorted_ids_lookup _ 2 _ Hlen_i ltac:(lia)) as [ci Hci].
    destruct (sorted_ids_lookup _ 3 _ Hlen_i ltac:(lia)) as [mi Hmi].
    destruct (sorted_ids_lookup _ 0 _ Hlen_f ltac:(lia)) as [ff Hff].
    destruct (sorted_ids_lookup _ 1 _ Hlen_f ltac:(lia)) as [gf Hgf].
    destruct (sorted_ids_lookup _ 2 _ Hlen_f ltac:(lia)) as [cf Hcf].
    destruct (sorted_ids_lookup _ 3 _ Hlen_f ltac:(lia)) as [mf Hmf].
    pose proof (make_dancoff_moc_cell_gap p a0 mxs_i dx_i dy_i t_i true gm rg
                  fi gi ci mi Hok_i Hfg HfRg Hfi Hgi Hci Hmi) as Hrun1.
    set (a1 := with_isolated_regions fi [gi] ci mi a0) in *.
    pose proof (make_dancoff_moc_cell_gap p a1 mxs_f dx_f dy_f t_f false gm rg
                  ff gf cf mf Hok_f Hfg HfRg Hff Hgf Hcf Hmf) as Hrun2.
    pose proof (populate_dancoff_fsr_indexes_spec isomoc fullmoc p
                  (with_full_regions ff [gf] cf mf a1)) as Hrun3.
    eexists cell_i, cell_f, _, _, _.
    split; [exact Hrun1|]. split; [exact Hrun2|]. split; [exact Hrun3|].
    cbv zeta. intros f_i f_f c_i c_f Ef_i Ef_f Ec_i Ec_f.
    fold cell_i in Ef_i, Ec_i. fold cell_f in Ef_f, Ec_f.
    simpl in Ec_i, Ec_f.
    assert (f_i = fi) as -> by congruence. assert (f_f = ff) as -> by congruence.
    assert (c_i = ci) as -> by congruence. assert (c_f = cf) as -> by congruence.
    rewrite compute_fuel_dancoff_correction_spec, compute_clad_dancoff_correction_spec.
    split; reflexivity.
  - (* without *)
    set (cell_i := SimplePinCell_new [fuel_radius p; clad_radius p]
                     [Some a0.(_fuel_dancoff_xs); Some a0.(_clad_dancoff_xs); Some mxs_i]
                     dx_i dy_i t_i).
    set (cell_f := SimplePinCell_new [fuel_radius p; clad_radius p]
                     [Some a0.(_fuel_dancoff_xs); Some a0.(_clad_dancoff_xs); Some mxs_f]
                     dx_f dy_f t_f).
    pose proof (Hcell_i [fuel_radius p; clad_radius p]
                  [Some a0.(_fuel_dancoff_xs); Some a0.(_clad_dancoff_xs); Some mxs_i] eq_refl)
      as Hlen_i.
    pose proof (Hcell_f [fuel_radius p; clad_radius p]
                  [Some a0.(_fuel_dancoff_xs); Some a0.(_clad_dancoff_xs); Some mxs_f] eq_refl)
      as Hlen_f.
    fold cell_i in Hlen_i. fold cell_f in Hlen_f.
    destruct (sorted_ids_lookup _ 0 _ Hlen_i ltac:(lia)) as [fi Hfi].
    destruct (sorted_ids_lookup _ 1 _ Hlen_i ltac:(lia)) as [ci Hci].
    destruct (sorted_ids_lookup _ 2 _ Hlen_i ltac:(lia)) as [mi Hmi].
    destruct (sorted_ids_lookup _ 0 _ Hlen_f ltac:(lia)) as [ff Hff].
    destruct (sorted_ids_lookup _ 1 _ Hlen_f ltac:(lia)) as [cf Hcf].
    destruct (sorted_ids_lookup _ 2 _ Hlen_f ltac:(lia)) as [mf Hmf].
    pose proof (make_dancoff_moc_cell_no_gap p a0 mxs_i dx_i dy_i t_i true
                  fi ci mi Hok_i Hfg Hfi Hci Hmi) as Hrun1.
    set (a1 := with_isolated_regions fi [] ci mi a0) in *.
    pose proof (make_dancoff_moc_cell_no_gap p a1 mxs_f dx_f dy_f t_f false
                  ff cf mf Hok_f Hfg Hff Hcf Hmf) as Hrun2.
    pose proof (populate_dancoff_fsr_indexes_spec isomoc fullmoc p
                  (with_full_regions ff [] cf mf a1)) as Hrun3.
    eexists cell_i, cell_f, _, _, _.
    split; [exact Hrun1|]. split; [exact Hrun2|]. split; [exact Hrun3|].
    cbv zeta. intros f_i f_f c_i c_f Ef_i Ef_f Ec_i Ec_f.
    fold cell_i in Ef_i, Ec_i. fold cell_f in Ef_f, Ec_f.
    simpl in Ec_i, Ec_f.
    assert (f_i = fi) as -> by congruence. assert (f_f = ff) as -> by congruence.
    assert (c_i = ci) as -> by congruence. assert (c_f = cf) as -> by congruence.
    rewrite compute_fuel_dancoff_correction_spec, compute_clad_dancoff_correction_spec.
    split; reflexivity.
Qed.

End ObjectPipelines.

(** The corrections 0.5, -0.01 and 1.01 (the binary64 numbers the Python
    literals denote) on a one-ring pin. *)
Lemma dancoff_append_range_witness :
  (Demo.exec (append_fuel_dancoff_correction 0x1p-1) Demo.pin1).(_fuel_dancoff_corrections)
    = [0x1p-1%float] /\
  append_fuel_dancoff_correction (-0x1.47ae147ae147bp-7) Demo.pin1
    = (inl (ValueError
              "Dancoff correction must be in range [0, 1]. Was provided -0.01."),
       Demo.pin1) /\
  append_clad_dancoff_correction 0x1.028f5c28f5c29p+0 Demo.pin1
    = (inl (ValueError
              "Dancoff correction must be in range [0, 1]. Was provided 1.01."),
       Demo.pin1).
Proof.
  destruct (dancoff_append_range Demo.pin1 0x1p-1) as [Hin _].
  destruct (Hin eq_refl eq_refl) as [Hfuel _].
  destruct (dancoff_append_range Demo.pin1 (-0x1.47ae147ae147bp-7)) as [_ Hlow].
  destruct (Hlow (or_introl eq_refl)) as [Hneg _].
  destruct (dancoff_append_range Demo.pin1 0x1.028f5c28f5c29p+0) as [_ Hhigh].
  destruct (Hhigh (or_intror eq_refl)) as [_ Hbig].
  unfold Demo.exec. rewrite Hfuel. split; [reflexivity|].
  split; [exact Hneg|exact Hbig].
Defined.

(** ** The properties on concrete pins *)

#[local] Existing Instance Demo.collaborators.

Lemma demo_builder_sized : builder_sized Demo.chain tt.
Proof. intros mat flux. reflexivity. Qed.

Lemma demo_regions_length (k : nat) (t : PinCellType) :
  length (Demo.regions k t) = (angular_count t * S k)%nat.
Proof.
  unfold Demo.regions, py_range.
  rewrite length_rev, !length_map, length_seq, angular_divisions_count. lia.
Qed.

Lemma demo_has_rings_pin2 : has_rings Demo.pin2 2.
Proof. repeat split. Qed.

Lemma demo_has_rings_pin2_predicted : has_rings Demo.pin2_predicted 2.
Proof. repeat split. Qed.

Lemma demo_has_rings_pin2_stepped : has_rings Demo.pin2_stepped 2.
Proof. repeat split. Qed.

(** On the pin with radius 1 and four rings the last ring boundary is
    the binary64 number just below 1, and on a pin of radius [2^-600]
    (whose square underflows) the three boundaries are all 0. *)
Lemma ring_radii_last_below_fuel_radius :
  (exists p,
     FuelPin_init Demo.fuel 1 Demo.zirc 2 None None 4 = inr p /\
     p.(_fuel_radii)
       = [0x1p-1; 0x1.6a09e667f3bcdp-1; 0x1.bb67ae8584caap-1;
          0x1.fffffffffffffp-1]%float /\
     last p.(_fuel_radii) <> Some 1%float) /\
  (exists p,
     FuelPin_init Demo.fuel 0x1p-600 Demo.zirc 2 None None 3 = inr p /\
     p.(_fuel_radii) = [0; 0; 0]%float).
Proof.
  split.
  - eexists. split; [reflexivity|]. split; [vm_compute; reflexivity|].
    intros E.
    apply (f_equal (fun o => match o with
                             | Some x => (x <? 1)%float
                             | None => false
                             end)) in E.
    vm_compute in E. discriminate E.
  - eexists. split; [reflexivity|]. vm_compute. reflexivity.
Qed.

(** A decay rate of 3.1e-9 per second and a step of one day: the matrix
    that the predictor leaves as the current matrix of ring 0 is not the
    matrix [A0] it built, whose rate has changed in its last place. *)
Lemma celi_stored_matrix_is_not_A0 :
  let chain := [("U235", 0x1.aa0f8db08ffcdp-29%float); ("U238", 0x1p-32%float)] in
  let A0 := build_depletion_matrix chain Demo.fuel [] tt in
  let out := predict_depletion chain tt Demo.day None Demo.pin2 in
  out.1 = inr tt /\
  A0 = [("U235", (-0x1.aa0f8db08ffcdp-29)%float); ("U238", (-0x1p-32)%float)] /\
  out.2.(_fuel_ring_current_dep_mats) !! 0%nat
    = Some (Some (dm_idiv (dm_imul A0 Demo.day) Demo.day)) /\
  dm_idiv (dm_imul A0 Demo.day) Demo.day
    = [("U235", (-0x1.aa0f8db08ffccp-29)%float); ("U238", (-0x1p-32)%float)] /\
  out.2.(_fuel_ring_current_dep_mats) !! 0%nat <> Some (Some A0).
Proof.
  cbv zeta.
  split; [vm_compute; reflexivity|]. split; [vm_compute; reflexivity|].
  split; [vm_compute; reflexivity|]. split; [vm_compute; reflexivity|].
  set (rate := fun o : option (option (list (string * float))) =>
                 match o with
                 | Some (Some ((_, x) :: _)) => (x =? -0x1.aa0f8db08ffcdp-29)%float
                 | _ => true
                 end).
  intros E. apply (f_equal rate) in E. vm_compute in E. discriminate E.
Qed.

(** The pin of radius 1 with four rings; and a radius of 1e200, whose
    square overflows. *)
Lemma ring_radii_of_constructor_witness :
  (exists p,
     FuelPin_init Demo.fuel 1 Demo.zirc 2 None None 4 = inr p /\
     length p.(_fuel_radii) = 4%nat /\
     (forall r, r ∈ p.(_fuel_radii) -> (1 <? r)%float = false)) /\
  FuelPin_init Demo.fuel 0x1.4e718d7d7625ap+664 Demo.zirc 0x1.4e718d7d7625ap+665
      None None 2
    = inl OverflowError.
Proof.
  destruct (ring_radii_of_constructor (collab := Demo.collaborators) Demo.fuel
              Demo.zirc 1 2 None None 4)
    as (_ & _ & _ & Hok & _).
  destruct (Hok eq_refl ltac:(lia) eq_refl eq_refl) as (p & Hp & Hlen & Hle & _).
  split; [exists p; split; [exact Hp|]; split; [exact Hlen|exact Hle]|].
  exact (proj1 (proj2 (proj2 (ring_radii_of_constructor
                                (collab := Demo.collaborators) Demo.fuel Demo.zirc
                                0x1.4e718d7d7625ap+664 0x1.4e718d7d7625ap+665
                                None None 2)))
           eq_refl ltac:(lia) eq_refl).
Defined.

Lemma fuel_ring_flux_spectra_returns_materials_witness :
  fuel_ring_flux_spectra (Demo.exec (obtain_flux_spectra 1%float) Demo.pin2)
    = [[Demo.fuel]; [Demo.fuel]] /\
  (Demo.exec (obtain_flux_spectra 1%float) Demo.pin2).(_fuel_ring_flux_spectra)
    = [[1%float]; [1%float]].
Proof.
  destruct (fuel_ring_flux_spectra_returns_materials (collab := Demo.collaborators) Demo.pin2 1%float)
    as (_ & Hsame & Hwritten).
  destruct (Hwritten 2%nat demo_has_rings_pin2 eq_refl) as (_ & Hspectra).
  unfold Demo.exec. rewrite Hsame, Hspectra. split; reflexivity.
Defined.

Lemma escape_xs_of_xs_setters_witness :
  set_fuel_xs_for_depletion_step 0 tt Demo.pin1_dancoff
    = (inr tt, set_fuel_ring_xs [Demo.mkXS "Fuel" 0x1p-1 0x1p-1] Demo.pin1_dancoff) /\
  set_clad_xs_for_depletion_step 0 tt Demo.pin1_dancoff
    = (inr tt, set_clad_xs_attr (Some (Demo.mkXS "Clad" 0x1p-1 0x1p-1)) Demo.pin1_dancoff).
Proof.
  destruct (escape_xs_of_xs_setters (collab := Demo.collaborators) Demo.pin1_dancoff 0 tt) as (Hfuel & Hclad & _).
  destruct (Hfuel [Demo.fuel] Demo.fuel 0x1p-1%float eq_refl eq_refl eq_refl eq_refl eq_refl)
    as (Hnew & _).
  split; [exact (Hnew eq_refl)|exact (Hclad 0x1p-1%float eq_refl eq_refl)].
Defined.

Lemma make_moc_cell_partition_witness :
  exists cell p',
    make_moc_cell (Demo.mkXS "Mod" 0 0) 5 5 Full Demo.pin1_xs = (inr cell, p') /\
    p'.(_fuel_ring_fsr_ids) = [[100; 101; 102; 103; 104; 105; 106; 107]] /\
    p'.(_gap_fsr_ids) = [] /\
    p'.(_clad_fsr_ids) = [108; 109; 110; 111; 112; 113; 114; 115] /\
    p'.(_mod_fsr_ids)
      = [116; 117; 118; 119; 120; 121; 122; 123; 124; 125; 126; 127; 128; 129; 130; 131].
Proof.
  destruct (make_moc_cell_partition (collab := Demo.collaborators) Demo.pin1_xs (Demo.mkXS "Mod" 0 0) 5 5 Full)
    as (_ & _ & _ & _ & Hok).
  destruct (Hok 1%nat eq_refl eq_refl eq_refl eq_refl eq_refl
              (fun E => False_ind _ (Bool.diff_false_true E)) eq_refl eq_refl)
    as (cell & p' & Hrun & _ & _ & Hfuel & Hgap & Hclad & Hmod).
  { intros radii xss Hlen. simpl. rewrite demo_regions_length. simpl in *. lia. }
  exists cell, p'. split; [exact Hrun|].
  rewrite Hfuel, Hgap, Hclad, Hmod.
  vm_compute in Hrun. injection Hrun as <- _.
  repeat split.
Defined.

Ltac demo_rings :=
  let Hat := fresh "Hat" in
  intros [|[|?]] ? Hat; vm_compute in Hat; try discriminate Hat;
  injection Hat as <-.

(** The fresh two-ring pin, stepped with a [dtm1]: CE/LI all the same. *)
Lemma predict_without_history_is_celi_witness :
  exists p',
    predict_depletion Demo.chain tt Demo.day (Some Demo.day) Demo.pin2 = (inr tt, p') /\
    p'.(_fuel_ring_current_dep_mats) !! 0%nat
      = Some (Some (dm_idiv
                      (dm_imul (build_depletion_matrix Demo.chain Demo.fuel [] tt) Demo.day)
                      Demo.day)).
Proof.
  destruct (predict_without_history_is_celi (collab := Demo.collaborators)
              Demo.chain tt Demo.day (Some Demo.day) Demo.pin2 2
              demo_has_rings_pin2 eq_refl demo_builder_sized)
    as (p' & p0 & Hrun & _ & Hres & _).
  - demo_rings; (split; [discriminate|left; reflexivity]).
  - exists p'. split; [exact Hrun|].
    destruct (Hres 0%nat [] Demo.fuel [] None None eq_refl (or_introl eq_refl))
      as (Hat & _).
    destruct (ring_at_Some _ _ _ Hat) as (_ & _ & _ & Hcu). exact Hcu.
Defined.

(** The two-ring pin after one step, stepped again with a [dtm1]. *)
Lemma predict_with_history_is_leqi_witness :
  exists p',
    predict_depletion Demo.chain tt Demo.day (Some Demo.day) Demo.pin2_stepped
      = (inr tt, p') /\
    length <$> p'.(_fuel_ring_materials) = [3%nat; 3%nat].
Proof.
  destruct (predict_with_history_is_leqi (collab := Demo.collaborators)
              Demo.chain tt Demo.day Demo.day Demo.pin2_stepped 2
              demo_has_rings_pin2_stepped eq_refl demo_builder_sized eq_refl)
    as (p' & Hrun & _).
  - demo_rings; discriminate.
  - exists p'. split; [exact Hrun|].
    vm_compute in Hrun. injection Hrun as <-. reflexivity.
Defined.

(** The two-ring pin after the predictor, corrected. *)
Lemma corrector_operators_witness :
  exists p',
    correct_depletion Demo.chain tt Demo.day None Demo.pin2_predicted = (inr tt, p') /\
    length <$> p'.(_fuel_ring_materials) = [2%nat; 2%nat] /\
    p'.(_fuel_ring_current_dep_mats) = [None; None].
Proof.
  destruct (corrector_operators (collab := Demo.collaborators)
              Demo.chain tt Demo.day None Demo.pin2_predicted 2
              demo_has_rings_pin2_predicted eq_refl demo_builder_sized eq_refl)
    as (p' & Hrun & _).
  - demo_rings; (split; [eexists [], _, _; reflexivity|reflexivity]).
  - exists p'. split; [exact Hrun|].
    vm_compute in Hrun. injection Hrun as <-. split; reflexivity.
Defined.

(** One step of the fresh two-ring pin. *)
Lemma corrector_start_and_rotation_witness :
  exists p1 p2 p3,
    predict_depletion Demo.chain tt Demo.day None Demo.pin2 = (inr tt, p1) /\
    obtain_flux_spectra 1%float p1 = (inr tt, p2) /\
    correct_depletion Demo.chain tt Demo.day None p2 = (inr tt, p3) /\
    p1.(_fuel_ring_prev_dep_mats) = [None; None] /\
    p3.(_fuel_ring_prev_dep_mats) = p1.(_fuel_ring_current_dep_mats) /\
    p3.(_fuel_ring_current_dep_mats) = [None; None].
Proof.
  destruct (corrector_start_and_rotation (collab := Demo.collaborators)
              Demo.chain tt 1%float Demo.day None Demo.pin2 2
              demo_has_rings_pin2 eq_refl eq_refl demo_builder_sized)
    as (p1 & p2 & p3 & Hrun1 & Hrun2 & Hrun3 & _).
  - demo_rings; (split; [discriminate|left; reflexivity]).
  - exists p1, p2, p3. split; [exact Hrun1|]. split; [exact Hrun2|].
    split; [exact Hrun3|].
    vm_compute in Hrun1. injection Hrun1 as <-.
    vm_compute in Hrun2. injection Hrun2 as <-.
    vm_compute in Hrun3. injection Hrun3 as <-.
    repeat split.
Defined.

Lemma depletion_step_extends_history_witness :
  exists p1 p2 p3,
    predict_depletion Demo.chain tt Demo.day None Demo.pin2 = (inr tt, p1) /\
    obtain_flux_spectra 1%float p1 = (inr tt, p2) /\
    correct_depletion Demo.chain tt Demo.day None p2 = (inr tt, p3) /\
    length <$> Demo.pin2.(_fuel_ring_materials) = [1%nat; 1%nat] /\
    length <$> p1.(_fuel_ring_materials) = [2%nat; 2%nat] /\
    length <$> p3.(_fuel_ring_materials) = [2%nat; 2%nat].
Proof.
  destruct (depletion_step_extends_history (collab := Demo.collaborators)
              Demo.chain tt 1%float Demo.day None Demo.pin2 2
              demo_has_rings_pin2 eq_refl eq_refl demo_builder_sized)
    as (p1 & p2 & p3 & Hrun1 & Hrun2 & Hrun3 & _).
  - demo_rings; (split; [discriminate|left; reflexivity]).
  - exists p1, p2, p3. split; [exact Hrun1|]. split; [exact Hrun2|].
    split; [exact Hrun3|].
    vm_compute in Hrun1. injection Hrun1 as <-.
    vm_compute in Hrun2. injection Hrun2 as <-.
    vm_compute in Hrun3. injection Hrun3 as <-.
    repeat split.
Defined.

Lemma FuelPin_init_rings_witness :
  has_rings Demo.pin2 2 /\
  ring_at Demo.pin2 1 = Some (mkRingState _ [Demo.fuel] [] None None).
Proof.
  destruct (FuelPin_init_rings (collab := Demo.collaborators)
              Demo.fuel Demo.zirc 1 2 None None 2 Demo.pin2 eq_refl)
    as (_ & Hrings & _ & Hring).
  split; [exact Hrings|]. apply Hring. simpl. lia.
Defined.

Lemma depletion_rejects_nonpositive_dt_witness :
  predict_depletion Demo.chain tt 0 None Demo.pin2
    = (inl (ValueError "Predictor time step must be > 0."), Demo.pin2) /\
  correct_depletion Demo.chain tt (-1) None Demo.pin2_predicted
    = (inl (ValueError "Corrector time step must be > 0."), Demo.pin2_predicted).
Proof.
  split.
  - exact (proj1 (depletion_rejects_nonpositive_dt (collab := Demo.collaborators)
                    Demo.chain tt 0 None Demo.pin2 eq_refl)).
  - exact (proj2 (depletion_rejects_nonpositive_dt (collab := Demo.collaborators)
                    Demo.chain tt (-1) None Demo.pin2_predicted eq_refl)).
Defined.

Lemma correct_without_predict_raises_witness :
  correct_depletion Demo.chain tt Demo.day None Demo.pin2 = (inl IndexError, Demo.pin2).
Proof.
  exact (correct_without_predict_raises (collab := Demo.collaborators)
           Demo.chain tt Demo.day None Demo.pin2 1 Demo.fuel [] None None
           demo_has_rings_pin2 eq_refl eq_refl).
Defined.

(** ** The further properties on concrete pins *)

#[local] Existing Instance Demo.dancoff_collaborators.

Lemma demo_simple_regions_length (k : nat) : length (Demo.simple_regions k) = S k.
Proof.
  unfold Demo.simple_regions, py_range.
  now rewrite length_rev, !length_map, length_seq, Nat2Z.id.
Qed.

Lemma demo_consistent_pin1_xs : consistent Demo.pin1_xs 1.
Proof. repeat split. Qed.

(** The history of the fresh two-ring pin: step 0 is there, step 5 is
    not. *)
Lemma get_fuel_material_lookup_witness :
  get_fuel_material 0 1 Demo.pin2 = (inr Demo.fuel, Demo.pin2) /\
  get_fuel_material (-1) 0 Demo.pin2 = (inr Demo.fuel, Demo.pin2) /\
  get_fuel_material 5 0 Demo.pin2 = (inl IndexError, Demo.pin2).
Proof.
  destruct (get_fuel_material_lookup (collab := Demo.collaborators) Demo.pin2 2
              demo_has_rings_pin2) as (Hin & Hneg & _ & Hout & _).
  split; [exact (Hin 1%nat 0%nat [Demo.fuel] Demo.fuel eq_refl eq_refl)|].
  split.
  - apply (Hneg 0%nat 0%nat [Demo.fuel] Demo.fuel eq_refl); [simpl; lia|reflexivity].
  - apply (Hout 5 0%nat [Demo.fuel] eq_refl). left. simpl. lia.
Defined.

Lemma average_density_over_rings_witness :
  get_average_fuel_nuclide_density 0 "U235" Demo.pin2 = (inr 0x1p-10%float, Demo.pin2) /\
  get_average_fuel_nuclide_density 1 "U235" Demo.pin2 = (inl IndexError, Demo.pin2).
Proof.
  split.
  - destruct (average_density_over_rings (collab := Demo.collaborators) Demo.pin2 2 0
                "U235" demo_has_rings_pin2) as (Hsum & _).
    rewrite (Hsum [Demo.fuel; Demo.fuel] eq_refl); [reflexivity|].
    intros [|[|r]] mat Hmat; try discriminate Hmat; injection Hmat as <-; reflexivity.
  - destruct (average_density_over_rings (collab := Demo.collaborators) Demo.pin2 2 1
                "U235" demo_has_rings_pin2) as (_ & Hraise).
    apply (Hraise 0%nat); [lia|reflexivity].
Defined.

Lemma normalize_flux_spectrum_scales_witness :
  normalize_flux_spectrum 2 Demo.pin2_predicted
    = (inr tt, set_fuel_ring_flux_spectra [[2%float]; [2%float]] Demo.pin2_predicted) /\
  normalize_flux_spectrum 0 Demo.pin2_predicted
    = (inl (ValueError "Normalization factor must be > 0."), Demo.pin2_predicted).
Proof.
  split.
  - exact (proj2 (normalize_flux_spectrum_scales (collab := Demo.collaborators) 2
                    Demo.pin2_predicted 2 demo_has_rings_pin2_predicted) eq_refl).
  - exact (proj1 (normalize_flux_spectrum_scales (collab := Demo.collaborators) 0
                    Demo.pin2_predicted 2 demo_has_rings_pin2_predicted) eq_refl).
Defined.

Lemma constructor_orders_radii_witness :
  fuel_radius Demo.pin2 = 1%float /\ (0 <? 1)%float = true /\ (1 <? 2)%float = true.
Proof.
  destruct (constructor_orders_radii (collab := Demo.collaborators)
              Demo.fuel Demo.zirc 1 2 None None 2 Demo.pin2 eq_refl)
    as (HR & _ & _ & _ & _ & Hpos & Hlt & _).
  split; [exact HR|]. split; [exact (Hpos eq_refl)|exact (Hlt eq_refl eq_refl)].
Defined.

Lemma nan_passes_the_guards_witness :
  append_fuel_dancoff_correction nan Demo.pin1
    = (inr tt, set_fuel_dancoff_corrections [nan] Demo.pin1) /\
  exists p, FuelPin_init Demo.fuel nan Demo.zirc 2 None None 1 = inr p.
Proof.
  destruct (nan_passes_the_guards (collab := Demo.collaborators) nan eq_refl)
    as (Hfuel & _ & Hinit & _).
  split; [exact (Hfuel Demo.pin1)|].
  destruct (Hinit Demo.fuel Demo.zirc 2%float 1 ltac:(lia) eq_refl) as (p & Hp & _).
  exists p. exact Hp.
Defined.

Lemma xs_setters_need_dancoff_witness :
  set_fuel_xs_for_depletion_step 0 tt Demo.pin2 = (inl IndexError, Demo.pin2) /\
  set_clad_xs_for_depletion_step 0 tt Demo.pin2 = (inl IndexError, Demo.pin2).
Proof.
  destruct (xs_setters_need_dancoff (collab := Demo.collaborators) Demo.pin2 0 tt 1
              eq_refl) as (Hfuel & Hclad).
  split; [exact (Hfuel eq_refl (or_introl eq_refl) eq_refl)|exact (Hclad eq_refl eq_refl)].
Defined.

Lemma fuel_xs_of_several_rings_witness :
  set_fuel_xs_for_depletion_step 0 tt Demo.pin2_dancoff
    = (inr tt,
       set_fuel_ring_xs
         [Demo.mkXS "Fuel" 0x1p-1 0x1.6a09e667f3bcdp-1; Demo.mkXS "Fuel" 0x1p-1 1]
         Demo.pin2_dancoff).
Proof.
  destruct (fuel_xs_of_several_rings (collab := Demo.collaborators) Demo.pin2_dancoff
              0 tt 2 0x1p-1 [Demo.fuel; Demo.fuel]) as (Hnew & _).
  - reflexivity.
  - discriminate.
  - reflexivity.
  - reflexivity.
  - repeat constructor.
  - reflexivity.
  - rewrite (Hnew eq_refl). vm_compute. reflexivity.
Defined.

Lemma predictor_raises_midway_witness :
  (predict_depletion Demo.chain tt Demo.day (Some 0%float) Demo.pin2_stepped).1
    = inl ZeroDivisionError /\
  length <$> (predict_depletion Demo.chain tt Demo.day (Some 0%float)
                Demo.pin2_stepped).2.(_fuel_ring_materials) = [2%nat; 2%nat].
Proof.
  assert (exists ms mat fl Am1 cu,
            ring_at Demo.pin2_stepped 0
              = Some (mkRingState _ (ms ++ [mat]) fl (Some Am1) cu))
    as (ms & mat & fl & Am1 & cu & Hat).
  { vm_compute. eexists [_], _, _, _, _. reflexivity. }
  destruct (predictor_raises_midway (collab := Demo.collaborators) Demo.chain tt Demo.day
              0 Demo.pin2_stepped 1 ms mat fl Am1 cu demo_has_rings_pin2_stepped eq_refl
              demo_builder_sized Hat eq_refl) as (Hrun & _).
  rewrite Hrun. split; [reflexivity|]. vm_compute. reflexivity.
Defined.

Lemma populate_fsr_indexes_maps_witness :
  exists o',
    populate_fsr_indexes 1%float (Demo.pin1_cell, Demo.rest) = (inr tt, o') /\
    o'.1.(_fuel_ring_fsr_inds) = [[0; 1; 2; 3; 4; 5; 6; 7]] /\
    o'.2.(_clad_fsr_inds) = [8; 9; 10; 11; 12; 13; 14; 15].
Proof.
  destruct (populate_fsr_indexes_maps (collab := Demo.collaborators)
              (dancoff := Demo.dancoff_collaborators) 1%float Demo.pin1_cell
              Demo.rest 1 eq_refl eq_refl) as (Hrun & _).
  eexists. split; [exact Hrun|]. split; vm_compute; reflexivity.
Defined.

Lemma ring_flux_of_cell_regions_witness :
  exists cell p1 o2 p3,
    make_moc_cell (Demo.mkXS "Mod" 0 0) 5 5 Full Demo.pin1_xs = (inr cell, p1) /\
    populate_fsr_indexes 3%float (p1, Demo.rest) = (inr tt, o2) /\
    obtain_flux_spectra 3%float o2.1 = (inr tt, p3) /\
    p3.(_fuel_ring_flux_spectra) !! 0%nat = Some [3%float].
Proof.
  destruct (ring_flux_of_cell_regions (collab := Demo.collaborators)
              (dancoff := Demo.dancoff_collaborators) Demo.pin1_xs Demo.rest
              (Demo.mkXS "Mod" 0 0) 5 5 Full 3%float 1 demo_consistent_pin1_xs)
    as (cell & p1 & o2 & p3 & Hrun1 & Hrun2 & Hrun3 & Hflux).
  - repeat split.
  - discriminate.
  - reflexivity.
  - intros radii xss Hlen. simpl. rewrite demo_regions_length. simpl in *. lia.
  - exists cell, p1, o2, p3. repeat (split; [assumption|]).
    exact (Hflux 0%nat [] eq_refl).
Defined.

Lemma cross_sections_of_new_pin_witness :
  exists p5,
    cross_sections_built p5 /\ consistent p5 2 /\
    xs_name <$> p5.(_fuel_ring_xs) = ["Fuel"; "Fuel"]%string.
Proof.
  destruct (cross_sections_of_new_pin (collab := Demo.collaborators) Demo.fuel Demo.zirc
              1 2 None None 2 Demo.pin2 0x1p-1 0x1p-1 tt eq_refl eq_refl eq_refl eq_refl
              eq_refl)
    as (p1 & p2 & p3 & p4 & p5 & H1 & H2 & H3 & H4 & H5 & Hbuilt & Hcons).
  exists p5. split; [exact Hbuilt|]. split; [exact Hcons|].
  vm_compute in H1. injection H1 as <-.
  vm_compute in H2. injection H2 as <-.
  vm_compute in H3. injection H3 as <-.
  vm_compute in H4. injection H4 as <-.
  vm_compute in H5. injection H5 as <-.
  reflexivity.
Defined.

Lemma dancoff_corrections_of_new_object_witness :
  exists cell_i cell_f o1 o2 o3,
    make_dancoff_moc_cell (Demo.mkXS "Mod" 0 0) 50 50 Full true (Demo.pin1, Demo.rest)
      = (inr cell_i, o1) /\
    make_dancoff_moc_cell (Demo.mkXS "Mod" 0 0) 5 5 Full false o1 = (inr cell_f, o2) /\
    populate_dancoff_fsr_indexes 4%float 1%float o2 = (inr tt, o3) /\
    compute_fuel_dancoff_correction 4%float 1%float o3 = (inr 0x1.8p-1%float, o3).
Proof.
  destruct (dancoff_corrections_of_new_object (collab := Demo.collaborators)
              (dancoff := Demo.dancoff_collaborators) Demo.fuel Demo.zirc 1 2 None None
              1 (Demo.pin1, Demo.rest) (Demo.mkXS "Mod" 0 0) (Demo.mkXS "Mod" 0 0)
              50 50 5 5 Full Full 4%float 1%float eq_refl eq_refl eq_refl)
    as (cell_i & cell_f & o1 & o2 & o3 & Hrun1 & Hrun2 & Hrun3 & Hcorr).
  - intros radii xs Hlen. simpl. rewrite demo_simple_regions_length. lia.
  - intros radii xs Hlen. simpl. rewrite demo_simple_regions_length. lia.
  - exists cell_i, cell_f, o1, o2, o3. repeat (split; [assumption|]).
    vm_compute in Hrun1. injection Hrun1 as <- <-.
    vm_compute in Hrun2. injection Hrun2 as <- <-.
    destruct (Hcorr 200 200 201 201 eq_refl eq_refl eq_refl eq_refl) as (Hfuel & _).
    rewrite Hfuel. reflexivity.
Defined.

Lemma consistency_from_construction_witness :
  consistent Demo.pin2 2 /\
  consistent (Demo.exec (append_fuel_dancoff_correction 2) Demo.pin2) 2.
Proof.
  destruct (consistency_from_construction (collab := Demo.collaborators) 2)
    as (Hinit & Hfuel & _).
  pose proof (Hinit Demo.fuel Demo.zirc 1%float 2%float None None 2 Demo.pin2 eq_refl)
    as Hpin2.
  split; [exact Hpin2|]. exact (Hfuel 2%float Demo.pin2 Hpin2).
Defined.

Lemma consistency_through_transport_witness :
  consistent (Demo.exec (set_fuel_xs_for_depletion_step 0 tt) Demo.pin2_dancoff) 2 /\
  consistent (Demo.exec (make_moc_cell (Demo.mkXS "Mod" 0 0) 5 5 Full) Demo.pin1_xs) 1.
Proof.
  split.
  - apply (proj1 (consistency_through_transport (collab := Demo.collaborators) 2)
             0 tt Demo.pin2_dancoff).
    repeat split.
  - apply (proj2 (proj2 (proj2 (consistency_through_transport
                                  (collab := Demo.collaborators) 1)))
             (Demo.mkXS "Mod" 0 0) 5%float 5%float Full Demo.pin1_xs).
    exact demo_consistent_pin1_xs.
Defined.

Lemma consistency_through_depletion_witness :
  consistent (Demo.exec (predict_depletion Demo.chain tt Demo.day None) Demo.pin2) 2 /\
  consistent (Demo.exec (predict_depletion Demo.chain tt Demo.day (Some 0%float))
                Demo.pin2_stepped) 2 /\
  consistent (Demo.exec (normalize_flux_spectrum 2) Demo.pin2_predicted) 2.
Proof.
  destruct (consistency_through_depletion (collab := Demo.collaborators) 2)
    as (_ & Hnorm & Hpredict & _).
  split; [|split].
  - apply (Hpredict Demo.chain tt Demo.day None Demo.pin2). repeat split.
  - apply (Hpredict Demo.chain tt Demo.day (Some 0%float) Demo.pin2_stepped).
    repeat split.
  - apply (Hnorm 2%float Demo.pin2_predicted). repeat split.
Defined.

Lemma make_dancoff_moc_cell_records_witness :
  (exists msg,
     make_dancoff_moc_cell (Demo.mkXS "Mod" 0 0) 1 1 Full true (Demo.pin1, Demo.rest)
       = (inl (ValueError msg), (Demo.pin1, Demo.rest))) /\
  make_dancoff_moc_cell (Demo.mkXS "Mod" 0 0) 5 5 Full true (Demo.pin1, Demo.rest)
    = (inr (2%nat, Full),
       (Demo.pin1, with_isolated_regions 200 [] 201 202 Demo.rest)).
Proof.
  split.
  - exact (proj1 (make_dancoff_moc_cell_records (collab := Demo.collaborators)
                    (dancoff := Demo.dancoff_collaborators) Demo.pin1 Demo.rest
                    (Demo.mkXS "Mod" 0 0) 1 1 Full true) eq_refl).
  - exact (proj1 (proj2 (make_dancoff_moc_cell_records (collab := Demo.collaborators)
                           (dancoff := Demo.dancoff_collaborators) Demo.pin1 Demo.rest
                           (Demo.mkXS "Mod" 0 0) 5 5 Full true))
             eq_refl eq_refl 200 201 202 eq_refl eq_refl eq_refl).
Defined.
